(* ===== verification/_CoqProject ===== *)
-Q . S2P
Prelude.v
Arena.v
Runs.v
LinkedSort.v
Bitfield.v
NodeTypes.v
Crc32.v
Util.v
FileOps.v
Stdio.v
MergeSort.v
MergeSortProofs.v
IoBuffer.v
Os.v
CNumbers.v
JsonText.v
CollateJson.v
CollateSpec.v
JsonReduce.v
TreeFile.v
NodeStore.v
Header.v
BTree.v
BTreeInv.v
BTreeFlush.v
TreeSpec.v
BTreeModify.v
Reduces.v
TreeWriter.v
ViewIndex.v
ViewReduce.v
ViewProofs.v
BTreeRead.v
Docs.v
Save.v
DocCodec.v
DbSpec.v
DbIter.v
SaveSpec.v
SaveDb.v
Recovery.v
Compact.v
CompactProofs.v
CompactDb.v
Sample.v
StoreTheorems.v
SortTheorems.v
ViewTheorems.v
DbTheorems.v
CompactTheorems.v
Findings.v
Md5.v
CJson.v
CJsonProofs.v
VBucket.v
VBucketProofs.v
VBucketTheorems.v
Genhash.v
GenhashTheorems.v
