(* ===== verification/Prelude.v ===== *)
(** * The document store of the server, its map of partitions and its table of buckets

    The repository packages the parts of a database server.  This development is
    about three of its C libraries: couchstore (src/cbase/couchstore/couchstore-2.1.1),
    which keeps the documents of one partition in a file, and is most of it; libvbucket
    (src/cbase/libvbucket/libvbucket-1.8.0), which tells a client on which server the
    partition of a key is; and the hash table of bucket-engine
    (src/cbase/bucket-engine/bucket-engine-1.8.0/genhash.c), which finds the engine of a
    bucket.  File names below are relative to the src directory of couchstore, or to that
    of the library named.

    ** The program

    A database is one file that is only appended to.  Documents are written as
    chunks with a checksum; two copy-on-write B-trees index them, one by document id
    and one by sequence number, and a third holds local documents.  A header, on a
    block boundary, points to the three roots; committing writes a header between
    two syncs and opening a file searches backwards for the last good one.  Saving a
    batch writes the bodies, looks up the old versions in the first tree and updates
    both.  Compaction copies what is alive into a new file, and uses an external sort
    and a bulk loader for the tree by id.

    A client of the server hashes a key to a partition (a vbucket) and looks up the
    master of the partition in a map that the cluster hands out as JSON, or hashes it to
    a point on a ring of servers.  When a server says that it is not the master, the
    client corrects its map; when a new configuration comes, it compares the two.  The
    server keeps its buckets in a chained hash table that counts the references to them.

    ** How it is modelled

    Functions are translated one by one under their C names.  Effects are in the
    monad [M S] of this file: a program on the state [S] returns ([Ret]), does
    something undefined in C ([Undef]: a read outside a buffer, a null pointer, a
    failed assertion), or runs out of the fuel of a loop ([NoFuel]).  Error codes are
    values.  Files may fail at any call; [Faulty] says whether one has.  [wp m Q s]
    says that [m] returns with [Q] unless the file fails: no undefined behaviour, and
    enough fuel.  It is a total correctness statement; [sticky] programs never clear
    the mark of a failure, which is what lets [wp] be composed.  Integers are in [Z],
    wrapped by [u16], [u32] and [u64] where the C types wrap; bytes are lists of
    [Byte.byte].  The host is little-endian with 64-bit words.

    ** The files

    Prelude: the monad, its rules, byte layouts, shared lemmas, tactics and hints.

    Formats and helpers.
    - Bitfield: bitfield.h and byteswap.c, the big-endian fields.
    - NodeTypes: node_types.h and node_types.c, items, pointers and roots.
    - Crc32: crc32.c, equal to the bitwise CRC-32.
    - Util: util.c and fatbuf.h, the comparisons, with the class [KeyOrder].
    - Arena: arena.c, the allocator, over an abstract malloc.

    The file.
    - FileOps: the table couch_file_ops as a class, its laws [FileLaws], and a file
      in memory with injected faults that keeps them.
    - IoBuffer: iobuffer.c, the buffers.  They keep [FileLaws] over any raw file.
    - Os: os.c, the system calls repeated when a signal interrupts them; a raw file for
      the buffers under the laws of a kernel ([KernelLaws]).
    - TreeFile: couch_file_read.c and couch_file_write.c, chunks over the block
      prefixes; the class [Snappy] stands for the compression library.
    - NodeStore: the classes [NodeStore] and [NodeStoreLaws], all that the trees know
      of the file, and their instance for TreeFile.

    The trees.
    - BTree: btree_modify.c.  BTreeInv, BTreeFlush, TreeSpec and BTreeModify: what a
      tree on disk stands for, flushing, the meaning of a batch, and the refinement.
    - BTreeRead: btree_read.c, with the sequence of callbacks of a lookup or a fold.
    - Reduces: reduces.c, with the class of laws a reduction keeps.

    Sorting and bulk loading.
    - Stdio: the streams of the C library.  Runs: sorted runs on two tapes.
    - LinkedSort: llmsort.c.  MergeSort and MergeSortProofs: mergesort.c.
    - TreeWriter: tree_writer.c.

    The view index.
    - CNumbers: the conversions of numbers of the C library.  JsonText: JSON values and
      their texts.
    - CollateJson: collate_json.c.  CollateSpec: the order of JSON values it computes;
      the class [Collator] stands for the collator of ICU.
    - JsonReduce: json_reduce.c, counts, sums and statistics.
    - ViewIndex: couch_index.c.  ViewReduce: its reductions, for the reducers whose
      results can be merged exactly ([Mergeable]).  ViewProofs: adding a tree, the header
      and closing.

    The database.
    - Header: the header, commit and open of couch_db.c.  Docs: the rest of
      couch_db.c.  Save: couch_save.c.  DocCodec: the values of the two indexes.
    - DbSpec: what a database stands for ([db_rep]), two finite maps, and the reads.
      DbIter: iteration.  SaveSpec and SaveDb: saving.  Recovery: new databases,
      commit and crashes.
    - Compact: db_compact.c and the hook of compactor.c.  CompactProofs and CompactDb:
      the copy of one document, of the trees, and of the database.

    libvbucket.
    - Md5: rfc1321/md5c.c and ketama.c.
    - CJson: the parser of cJSON.c; [None] is a read outside the text, the class [Libm]
      stands for the powers of ten.  CJsonProofs: the parser on the texts of JSON values.
    - VBucket: vbucket.c and crc32.c; [None] is undefined behaviour, errors are values
      with their message, the class [Qsort] stands for the sort of the C library.
    - VBucketProofs: well-formed configurations ([config_wf]), the points of the ring and
      the search on it.  VBucketTheorems: the properties, with configurations that were
      parsed by running the model.

    bucket-engine.
    - Genhash: genhash.c, and the functions bucket_engine.c gives it.  The calls that copy
      and free keys and values are kept in a list.
    - GenhashTheorems: the map of stacks it stands for, and the copies.

    Theorems and runs of couchstore.
    - Sample: a database made by running the model, where the witnesses run.
    - StoreTheorems, SortTheorems, ViewTheorems, DbTheorems, CompactTheorems: the
      properties.
    - Findings: what the code does where its documentation says something else.

    ** What is shown

    - Refinement: a batch of modify_btree is a batch of updates of a finite map;
      couchstore_save_documents inserts the batch into the map of documents under the
      next sequence numbers; a compaction keeps the map, with every body; the bulk
      loader builds the tree of the items it was given.
    - Crash safety: after couchstore_commit the committed state is found again
      whatever was written later and however much of that was lost.
    - The view index: the file of an index holds the items of its input in the order of
      their JSON keys, CollateJSON computes an order of JSON values, reductions of
      reductions are reductions of the items, and what the reducers print they can read.
    - Reads: lookups by id and by sequence, iteration in both orders, local documents
      and counts all answer from the maps.
    - The storage layers: chunks read back, damaged chunks are refused, buffers are
      invisible, both sorts sort, reductions depend on the items alone, system calls that
      signals interrupt return in the end.
    - libvbucket: configurations that were parsed are well-formed; with these every key
      has a server, no array is left and the bisection of the ring ends at the right
      point; servers that leave a ring move only their own keys; wrong masters are
      corrected, and repeated reports reach every server; comparisons say what changed;
      the digest is that of the padded message; texts of JSON values parse to their trees.
    - The hash table is a map from keys to stacks of values, and frees each copy once.
    - Round trips of headers and index values, the CRC against its reference, blocks
      of an arena apart.
    - Findings: lookups past a missing key, ranges past their end, quotas that wrap,
      short headers, long records, lost bodies, escapes misread, a compaction that does
      not end, texts read past their end, unknown locators and stale lengths.

    ** Bounds and fuel

    Loops over buffers take the length of the buffer as fuel.  Recursions over a tree
    take more than its height; finish_root and the sorts need at most the number of
    items; the theorems name the amount ([save_fuel], [compact_fuel], [t_height]).
    find_header takes the number of blocks.  Total sizes stay below [max_node], 2^30
    bytes, which keeps every node in an int; ids below 2^12 and bodies below 2^28
    bytes, the widths of their fields; sequence numbers below 2^48.  The search on the
    ring takes one step more than the ring has points, the parser of JSON three times the length of
    the text, the deletion of all values of a key one more than there are entries.
    Messages for MD5 are below 2^32 - 64 bytes, where its loop counter would wrap.

    ** Not modelled

    Running out of memory, except in Arena.  The arenas the tree code allocates from
    are values.  What a close or a free function releases; a closed handle stands for
    the file it leaves.  Error messages (strerror.c); the tools dbdump.c, dbinfo.c, couchscript.cc,
    viewgen.c and the main function of compactor.c, which read arguments and print;
    os_win.c, the system calls of another platform; rfc1321, a digest the store does
    not use.  Of libvbucket the functions of cJSON.c that print, build and edit trees,
    which it does not call, those that only free, and the command line tools.  Of
    bucket-engine all but the hash table: bucket_engine.c hands the calls of the server to
    engines it loads at run time, under locks and threads.  The other directories of the
    repository are servers, clients and packaging around network protocols, most of them
    in C++ and Erlang. *)

From Stdlib Require Import ZArith Lia.
From Stdlib Require Import Strings.Byte.
From stdpp Require Import base tactics list gmap countable numbers.

Declare Scope couch_scope.
Delimit Scope couch_scope with couch.

#[local] Open Scope Z_scope.

(** ** Bytes and machine integers *)

Abbreviation byte := Init.Byte.byte (only parsing).
Abbreviation bytes := (list Init.Byte.byte) (only parsing).

(** The unsigned value of a byte, and the byte holding [z mod 256]. *)
Definition b2z (b : byte) : Z := Z.of_N (Byte.to_N b).
Definition z2b (z : Z) : byte :=
  match Byte.of_N (Z.to_N (z mod 256)) with Some b => b | None => Byte.x00 end.

(** Conversion of an integer to a [uintN_t]. *)
Definition u8 (z : Z) : Z := z mod 2 ^ 8.
Definition u16 (z : Z) : Z := z mod 2 ^ 16.
Definition u32 (z : Z) : Z := z mod 2 ^ 32.
Definition u64 (z : Z) : Z := z mod 2 ^ 64.

(** Big-endian and little-endian layouts of the low [8 * n] bits of [z]. *)
Fixpoint be_bytes (n : nat) (z : Z) : bytes :=
  match n with
  | O => []
  | S n' => be_bytes n' (z / 256) ++ [z2b z]
  end.

Definition be_val (bs : bytes) : Z := foldl (fun acc b => acc * 256 + b2z b) 0 bs.

Definition le_bytes (n : nat) (z : Z) : bytes := reverse (be_bytes n z).
Definition le_val (bs : bytes) : Z := be_val (reverse bs).

(** [n] bytes of a buffer from offset [off]; [None] when they are not there. *)
Definition slice (off n : nat) (b : bytes) : option bytes :=
  if decide (off + n <= length b)%nat then Some (take n (drop off b)) else None.

(** [sizeof]-style length of a buffer. *)
Definition blen (b : bytes) : Z := Z.of_nat (length b).

#[global] Instance byte_eq_dec : EqDecision byte := Byte.byte_eq_dec.

#[global] Program Instance byte_countable : Countable byte :=
  {| encode b := encode (Byte.to_N b);
     decode p := n ← decode p; Byte.of_N n |}.
Next Obligation.
  intros b. cbn. rewrite decode_encode. cbn. apply Byte.of_to_N.
Qed.

Lemma Forall_mapped {A B} (f : A -> B) (P : B -> Prop) l : Forall P (map f l) <-> Forall (fun x => P (f x)) l.
Proof. induction l as [|x l IH]; cbn; [done|]. by rewrite !list.Forall_cons, IH. Qed.

Lemma blen_cons b (l : bytes) : blen (b :: l) = 1 + blen l.
Proof. unfold blen. cbn [length]. lia. Qed.
Lemma blen_app (a b : bytes) : blen (a ++ b) = blen a + blen b.
Proof. unfold blen. rewrite length_app. lia. Qed.

Lemma blen_nonneg (a : bytes) : 0 <= blen a.
Proof. unfold blen. lia. Qed.

Lemma b2z_range b : 0 <= b2z b < 256.
Proof. unfold b2z. pose proof (Byte.to_N_bounded b). lia. Qed.

Lemma b2z_z2b z : b2z (z2b z) = z mod 256.
Proof.
  unfold b2z, z2b. pose proof (Z.mod_pos_bound z 256 eq_refl) as Hz.
  destruct (Byte.of_N (Z.to_N (z mod 256))) as [b|] eqn:E.
  - apply Byte.to_of_N in E. rewrite E. lia.
  - apply Byte.of_N_None_iff in E. lia.
Qed.

Lemma b2z_inj b1 b2 : b2z b1 = b2z b2 -> b1 = b2.
Proof.
  unfold b2z. intros H%N2Z.inj.
  pose proof (Byte.of_to_N b1). pose proof (Byte.of_to_N b2). congruence.
Qed.

Lemma z2b_b2z b : z2b (b2z b) = b.
Proof. apply b2z_inj. rewrite b2z_z2b. apply Z.mod_small, b2z_range. Qed.

(** ** Byte order *)

Lemma pow256_S (n : nat) : 256 ^ Z.of_nat (S n) = 256 * 256 ^ Z.of_nat n.
Proof. rewrite Nat2Z.inj_succ, Z.pow_succ_r by lia. reflexivity. Qed.

Lemma pow256_pos (n : nat) : 0 < 256 ^ Z.of_nat n.
Proof. apply Z.pow_pos_nonneg; lia. Qed.

Lemma be_bytes_length n z : length (be_bytes n z) = n.
Proof. revert z. induction n as [|n IH]; intros z; cbn; [done|]. rewrite length_app, IH. cbn. lia. Qed.

Lemma be_val_snoc bs b : be_val (bs ++ [b]) = be_val bs * 256 + b2z b.
Proof. unfold be_val. by rewrite foldl_app. Qed.

Lemma be_val_be_bytes n z : be_val (be_bytes n z) = z mod 256 ^ Z.of_nat n.
Proof.
  revert z. induction n as [|n IH]; intros z.
  - cbn. by rewrite Z.mod_1_r.
  - cbn [be_bytes]. rewrite be_val_snoc, IH, b2z_z2b, pow256_S.
    rewrite Z.rem_mul_r by (pose proof (pow256_pos n); lia). lia.
Qed.

Lemma be_val_range bs : 0 <= be_val bs < 256 ^ Z.of_nat (length bs).
Proof.
  induction bs as [|b bs IH] using rev_ind; [done|].
  rewrite be_val_snoc, length_app. cbn [length].
  replace (length bs + 1)%nat with (S (length bs)) by lia. rewrite pow256_S.
  pose proof (b2z_range b). lia.
Qed.

Lemma be_bytes_be_val bs : be_bytes (length bs) (be_val bs) = bs.
Proof.
  induction bs as [|b bs IH] using rev_ind; [done|].
  rewrite length_app, be_val_snoc. cbn [length].
  replace (length bs + 1)%nat with (S (length bs)) by lia. cbn [be_bytes].
  pose proof (b2z_range b) as Hb. f_equal.
  - replace ((be_val bs * 256 + b2z b) / 256) with (be_val bs); [done|].
    apply Z.div_unique with (b2z b); lia.
  - f_equal. apply b2z_inj. rewrite b2z_z2b.
    symmetry. apply Z.mod_unique with (be_val bs); lia.
Qed.

Lemma be_val_inj bs1 bs2 : length bs1 = length bs2 -> be_val bs1 = be_val bs2 -> bs1 = bs2.
Proof. intros Hl Hv. rewrite <- (be_bytes_be_val bs1), Hl, Hv. apply be_bytes_be_val. Qed.

(** Only the low [8 * n] bits are laid out. *)
Lemma be_bytes_mod n z : be_bytes n (z mod 256 ^ Z.of_nat n) = be_bytes n z.
Proof.
  apply be_val_inj; rewrite ?be_bytes_length, ?be_val_be_bytes; [done|].
  apply Z.mod_mod. pose proof (pow256_pos n). lia.
Qed.

Lemma be_bytes_drop n m z : drop m (be_bytes (m + n) z) = be_bytes n z.
Proof.
  revert z. induction n as [|n IH]; intros z.
  - rewrite Nat.add_0_r. apply drop_ge. by rewrite be_bytes_length.
  - rewrite Nat.add_succ_r. cbn [be_bytes]. rewrite drop_app_le by (rewrite be_bytes_length; lia).
    by rewrite IH.
Qed.

Lemma be_bytes_app n m z :
  be_bytes (n + m) z = be_bytes n (z / 256 ^ Z.of_nat m) ++ be_bytes m z.
Proof.
  revert z. induction m as [|m IH]; intros z.
  - rewrite Nat.add_0_r. cbn. by rewrite Z.div_1_r, app_nil_r.
  - rewrite Nat.add_succ_r. cbn [be_bytes]. rewrite IH, <- app_assoc, pow256_S.
    rewrite Z.div_div by (pose proof (pow256_pos m); lia). done.
Qed.

Lemma be_val_cons b bs : be_val (b :: bs) = b2z b * 256 ^ Z.of_nat (length bs) + be_val bs.
Proof.
  induction bs as [|x bs IH] using rev_ind; [unfold be_val; cbn; lia|].
  rewrite app_comm_cons, !be_val_snoc, IH, length_app. cbn [length].
  replace (length bs + 1)%nat with (S (length bs)) by lia. rewrite pow256_S. lia.
Qed.

(** Bits below [n] and bits from [n] on do not meet, so [|] is [+]. *)
Lemma lor_high_low a b n : 0 <= n -> 0 <= b < 2 ^ n -> Z.lor (a * 2 ^ n) b = a * 2 ^ n + b.
Proof.
  intros Hn Hb. rewrite <- Z.add_lor_land.
  replace (Z.land (a * 2 ^ n) b) with 0; [lia|].
  symmetry. apply Z.bits_inj'. intros i Hi. rewrite Z.land_spec, Z.bits_0.
  destruct (Z.lt_ge_cases i n) as [Hlt|Hge].
  - by rewrite Z.mul_pow2_bits_low.
  - rewrite <- (Z.mod_small b (2 ^ n)) by done. rewrite Z.mod_pow2_bits_high by lia.
    by rewrite andb_false_r.
Qed.

Lemma slice_Some off n b : (off + n <= length b)%nat -> slice off n b = Some (take n (drop off b)).
Proof. intros H. unfold slice. by rewrite decide_True. Qed.

(** ** Errors

    [couchstore_error_t] of libcouchstore/error.h, with the numbers the
    library returns. *)

Inductive couchstore_error_t : Type :=
| COUCHSTORE_SUCCESS
| COUCHSTORE_ERROR_OPEN_FILE
| COUCHSTORE_ERROR_CORRUPT
| COUCHSTORE_ERROR_ALLOC_FAIL
| COUCHSTORE_ERROR_READ
| COUCHSTORE_ERROR_DOC_NOT_FOUND
| COUCHSTORE_ERROR_NO_HEADER
| COUCHSTORE_ERROR_WRITE
| COUCHSTORE_ERROR_HEADER_VERSION
| COUCHSTORE_ERROR_CHECKSUM_FAIL
| COUCHSTORE_ERROR_INVALID_ARGUMENTS
| COUCHSTORE_ERROR_NO_SUCH_FILE
| COUCHSTORE_ERROR_CANCEL.

Definition errcode (e : couchstore_error_t) : Z :=
  match e with
  | COUCHSTORE_SUCCESS => 0
  | COUCHSTORE_ERROR_OPEN_FILE => -1
  | COUCHSTORE_ERROR_CORRUPT => -2
  | COUCHSTORE_ERROR_ALLOC_FAIL => -3
  | COUCHSTORE_ERROR_READ => -4
  | COUCHSTORE_ERROR_DOC_NOT_FOUND => -5
  | COUCHSTORE_ERROR_NO_HEADER => -6
  | COUCHSTORE_ERROR_WRITE => -7
  | COUCHSTORE_ERROR_HEADER_VERSION => -8
  | COUCHSTORE_ERROR_CHECKSUM_FAIL => -9
  | COUCHSTORE_ERROR_INVALID_ARGUMENTS => -10
  | COUCHSTORE_ERROR_NO_SUCH_FILE => -11
  | COUCHSTORE_ERROR_CANCEL => -12
  end.

#[global] Instance couchstore_error_eq_dec : EqDecision couchstore_error_t.
Proof. solve_decision. Defined.

(** The result of a C function that returns data or a negative error code. *)
Inductive result (A : Type) : Type :=
| Done (a : A)
| Error (e : couchstore_error_t).
Arguments Done {A}.
Arguments Error {A}.

(** ** The effect monad

    A C function over the state [S] either returns ([Ret]), runs into
    behaviour the C standard leaves undefined or a failed [assert] ([Undef]),
    or exhausts the fuel of a loop of the model ([NoFuel]).  Error codes are
    ordinary return values, as in the source, so a caller that ignores one
    goes on. *)

Inductive run (S A : Type) : Type :=
| Ret (a : A) (s : S)
| Undef (s : S)
| NoFuel (s : S).
Arguments Ret {S A}.
Arguments Undef {S A}.
Arguments NoFuel {S A}.

Definition M (S A : Type) : Type := S -> run S A.

Definition ret {S A} (a : A) : M S A := fun s => Ret a s.
Definition undef {S A} : M S A := fun s => Undef s.
Definition nofuel {S A} : M S A := fun s => NoFuel s.
Definition bind {S A B} (m : M S A) (f : A -> M S B) : M S B :=
  fun s => match m s with
           | Ret a s' => f a s'
           | Undef s' => Undef s'
           | NoFuel s' => NoFuel s'
           end.
Definition get {S} : M S S := fun s => Ret s s.
Definition put {S} (s : S) : M S unit := fun _ => Ret tt s.
Definition modify {S} (f : S -> S) : M S unit := fun s => Ret tt (f s).

(** A value the code takes for granted: undefined behaviour when it is absent. *)
Definition need {S A} (o : option A) : M S A :=
  match o with Some a => ret a | None => undef end.

Notation "'let*' p := m 'in' k" := (bind m (fun p => k))
  (at level 10, p pattern, m at level 100, k at level 200,
   format "'[v' 'let*'  p  :=  m  'in' '/' k ']'") : couch_scope.
Notation "m ;; k" := (bind m (fun _ => k))
  (at level 100, right associativity) : couch_scope.

(** Run [m] on a component of the state. *)
Definition zoom {S T A} (getter : S -> T) (setter : T -> S -> S) (m : M T A) : M S A :=
  fun s => match m (getter s) with
           | Ret a t => Ret a (setter t s)
           | Undef t => Undef (setter t s)
           | NoFuel t => NoFuel (setter t s)
           end.

(** The state a run ends in. *)
Definition final {S A} (r : run S A) : S :=
  match r with Ret _ s => s | Undef s => s | NoFuel s => s end.

(** [io_failed s]: some input/output operation has returned an error on the
    way to [s].  A history variable of the file interface. *)
Class Faulty (S : Type) := io_failed : S -> bool.
#[global] Hint Mode Faulty ! : typeclass_instances.

Section WP.
Context {S : Type} `{Faulty S}.

(** [wp m Q s]: unless an input/output operation failed on the way, [m] run
    from [s] returns, with no undefined behaviour and within its fuel, and the
    result and final state satisfy [Q]. *)
Definition wp {A} (m : M S A) (Q : A -> S -> Prop) (s : S) : Prop :=
  match m s with
  | Ret a s' => io_failed s' = false -> Q a s'
  | Undef s' => io_failed s' = true
  | NoFuel s' => io_failed s' = true
  end.

(** A failure stays recorded. *)
Definition sticky {A} (m : M S A) : Prop :=
  forall s, io_failed s = true -> io_failed (final (m s)) = true.

Lemma sticky_ret {A} (a : A) : sticky (ret a).
Proof. by intros s. Qed.

Lemma sticky_undef {A} : sticky (@undef S A).
Proof. by intros s. Qed.

Lemma sticky_nofuel {A} : sticky (@nofuel S A).
Proof. by intros s. Qed.

Lemma sticky_need {A} (o : option A) : sticky (need o).
Proof. destruct o; by intros s. Qed.

Lemma sticky_bind {A B} (m : M S A) (f : A -> M S B) :
  sticky m -> (forall a, sticky (f a)) -> sticky (bind m f).
Proof.
  intros Hm Hf s Hs. unfold bind. specialize (Hm s Hs).
  destruct (m s); cbn in *; [by apply Hf | done | done].
Qed.

Lemma sticky_get : sticky (@get S).
Proof. by intros s. Qed.

Lemma wp_ret {A} (a : A) Q s : Q a s -> wp (ret a) Q s.
Proof. by intros HQ _. Qed.

Lemma wp_bind {A B} (m : M S A) (f : A -> M S B) Q s :
  (forall a, sticky (f a)) -> wp m (fun a s' => wp (f a) Q s') s -> wp (bind m f) Q s.
Proof.
  intros Hf Hm. unfold wp, bind in *. destruct (m s) as [a s'|s'|s']; [|done|done].
  destruct (io_failed s') eqn:E; [|by apply Hm].
  specialize (Hf a s' E). destruct (f a s'); cbn in Hf; congruence.
Qed.

Lemma wp_mono {A} (m : M S A) (Q Q' : A -> S -> Prop) s :
  wp m Q s -> (forall a s', Q a s' -> Q' a s') -> wp m Q' s.
Proof. intros Hm HQ. unfold wp in *. destruct (m s); auto. Qed.

Lemma wp_get Q s : Q s s -> wp (@get S) Q s.
Proof. by intros HQ _. Qed.

Lemma wp_need {A} (o : option A) (a : A) Q s : o = Some a -> Q a s -> wp (need o) Q s.
Proof. intros -> HQ. by apply wp_ret. Qed.

(** A failed start makes every claim vacuous. *)
Lemma wp_failed {A} (m : M S A) Q s : sticky m -> io_failed s = true -> wp m Q s.
Proof. intros Hm Hs. specialize (Hm s Hs). unfold wp. destruct (m s); cbn in Hm; congruence. Qed.

Lemma wp_run {A} (m : M S A) Q s a s' : m s = Ret a s' -> Q a s' -> wp m Q s.
Proof. unfold wp. by intros ->. Qed.

Lemma wp_elim {A} (m : M S A) Q s :
  wp m Q s -> io_failed (final (m s)) = false -> exists a s', m s = Ret a s' /\ Q a s'.
Proof. unfold wp. destruct (m s) as [a s'|s'|s']; cbn; [eauto | congruence | congruence]. Qed.
End WP.

(** A part of the state that is reached through a getter and a setter; [rest]
    tells whether the other parts have failed. *)
Section Zoom.
Context {S T : Type} `{Faulty S} `{Faulty T} (getter : S -> T) (setter : T -> S -> S) (rest : S -> bool).
Hypothesis getter_failed : forall s, io_failed s = io_failed (getter s) || rest s.
Hypothesis setter_failed : forall t s, io_failed (setter t s) = io_failed t || rest s.

Lemma wp_zoom {A} Q s (m : M T A) :
  wp m (fun a t => Q a (setter t s)) (getter s) -> wp (zoom getter setter m) Q s.
Proof.
  unfold wp, zoom. destruct (m (getter s)); rewrite setter_failed.
  - intros HQ [? _]%orb_false_iff. auto.
  - by intros ->.
  - by intros ->.
Qed.

Lemma sticky_zoom {A} (m : M T A) : sticky m -> sticky (zoom getter setter m).
Proof.
  intros Hm s Hs. rewrite getter_failed in Hs. unfold zoom. specialize (Hm (getter s)).
  apply orb_true_iff in Hs as [Hs|Hs].
  - specialize (Hm Hs). destruct (m (getter s)); cbn in *; by rewrite setter_failed, Hm.
  - destruct (m (getter s)); cbn; rewrite setter_failed, Hs; apply orb_true_r.
Qed.
End Zoom.

(** Prove a rule for a program on a part of the state: what is left is how the
    failures of the parts combine. *)
Ltac zoomed rest :=
  let Hm := fresh in
  intros Hm; first [apply (wp_zoom _ _ rest) | apply (sticky_zoom _ _ rest)]; try exact Hm; intros.

Create Rewrite HintDb len.
#[export] Hint Rewrite @length_app @length_replicate @length_nil @length_cons
  be_bytes_length : len.

(** Compute the length of a concrete layout, then arithmetic. *)
Ltac solve_len := autorewrite with len in *; cbn [length] in *; try lia.

Create HintDb sticky.
#[export] Hint Resolve sticky_ret sticky_undef sticky_nofuel sticky_need sticky_get : sticky.

(** Discharge [sticky m] by following the structure of [m]. *)
Ltac sticky_step :=
  match goal with
  | |- sticky (bind _ _) => apply sticky_bind; [|intros ?]
  | |- sticky (let '(_, _) := ?p in _) => destruct p
  | |- sticky (match ?x with _ => _ end) => destruct x
  | |- sticky (if ?b then _ else _) => destruct b
  | |- sticky _ => solve [eauto with sticky]
  end.
Ltac solve_sticky := intros; repeat sticky_step.
