(* ===== verification/Arena.v ===== *)
(** * Arena: the arena allocator

    Models src/arena.c, which the B-tree code takes its short-lived nodes from.
    Addresses are integers and NULL is zero.  [malloc] is a parameter: given the
    chunks that are live it returns an address, or zero when it fails.  The
    theorems show that blocks lie inside live memory and do not overlap, and that
    freeing from a mark restores the arena; the findings are about its alignment
    and its failures. *)

From Stdlib Require Import ZArith Lia.
From S2P Require Import Prelude.
From stdpp Require Import list numbers.

#[local] Open Scope Z_scope.

Definition ALIGNMENT : Z := 4.
Definition PAGE_SIZE : Z := 4096.
Definition DEFAULT_CHUNK_SIZE : Z := 32768.

(** The link to the previous chunk is the order of the list of chunks. *)
Record arena_chunk : Type := { ac_addr : Z; ac_size : Z }.
Definition sizeof_arena_chunk : Z := 16.

Record arena : Type := {
  ar_next_block : Z;
  ar_end : Z;
  ar_chunks : list arena_chunk;
  ar_chunk_size : Z
}.

Definition chunk_start (chunk : arena_chunk) : Z := ac_addr chunk + sizeof_arena_chunk.
Definition chunk_end (chunk : arena_chunk) : Z := chunk_start chunk + ac_size chunk.

Definition new_arena (chunk_size : Z) : arena :=
  let chunk_size :=
    if decide (chunk_size = 0) then DEFAULT_CHUNK_SIZE
    else u64 (Z.land (u64 (u64 (chunk_size + sizeof_arena_chunk) + PAGE_SIZE)) (Z.lnot (PAGE_SIZE - 1))) in
  {| ar_next_block := 0; ar_end := 0; ar_chunks := []; ar_chunk_size := u64 (chunk_size - sizeof_arena_chunk) |}.

Section Ops.
Variable malloc : list arena_chunk -> Z -> Z.

(** A new chunk, and [size] bytes from it; the address, or zero. *)
Definition add_chunk (a : arena) (size : Z) : Z * arena :=
  let chunk_size := if decide (ar_chunk_size a < size) then size else ar_chunk_size a in
  let p := malloc (ar_chunks a) (u64 (sizeof_arena_chunk + chunk_size)) in
  if decide (p = 0) then (0, a)
  else
    let chunk := {| ac_addr := p; ac_size := chunk_size |} in
    let result := chunk_start chunk in
    (result, {| ar_next_block := result + size; ar_end := chunk_end chunk;
                ar_chunks := chunk :: ar_chunks a; ar_chunk_size := ar_chunk_size a |}).

Definition set_next_block (p : Z) (a : arena) : arena :=
  {| ar_next_block := p; ar_end := ar_end a; ar_chunks := ar_chunks a; ar_chunk_size := ar_chunk_size a |}.

Definition arena_alloc_unaligned (a : arena) (size : Z) : Z * arena :=
  let result := ar_next_block a in
  let a := set_next_block (u64 (ar_next_block a + size)) a in
  if decide (ar_end a < ar_next_block a \/ ar_chunk_size a < size) then add_chunk a size else (result, a).

Definition arena_alloc (a : arena) (size : Z) : Z * arena :=
  let padding := Z.land (ar_next_block a) (ALIGNMENT - 1) in
  if decide (padding = 0) then arena_alloc_unaligned a size
  else
    let padding := ALIGNMENT - padding in
    let '(p, a) := arena_alloc_unaligned a (u64 (size + padding)) in (p + padding, a).
End Ops.

Definition arena_mark (a : arena) : Z := ar_next_block a.

(** The chunks that are kept: those from the one the mark points into. *)
Fixpoint free_chunks (mark : Z) (chunks : list arena_chunk) : list arena_chunk :=
  match chunks with
  | [] => []
  | chunk :: prev =>
      if decide (mark < chunk_start chunk \/ chunk_end chunk < mark) then free_chunks mark prev else chunks
  end.

(** [None] when the assertion on the mark fails. *)
Definition arena_free_from_mark (a : arena) (mark : Z) : option arena :=
  let chunks := free_chunks mark (ar_chunks a) in
  if decide (chunks <> [] \/ mark = 0) then
    Some {| ar_next_block := mark;
            ar_end := match chunks with chunk :: _ => chunk_end chunk | [] => 0 end;
            ar_chunks := chunks; ar_chunk_size := ar_chunk_size a |}
  else None.

Definition arena_free_all (a : arena) : option arena := arena_free_from_mark a 0.

(** ** The invariant *)

(** Blocks and chunks are ranges of addresses. *)
Definition apart (x y : Z * Z) : Prop := x.2 <= y.1 \/ y.2 <= x.1.
Definition inside (x y : Z * Z) : Prop := y.1 <= x.1 /\ x.2 <= y.2.

Definition chunk_range (c : arena_chunk) : Z * Z := (ac_addr c, chunk_end c).

(** What has been handed out: the current chunk up to [next_block], the others whole. *)
Definition regions (a : arena) : list (Z * Z) :=
  match ar_chunks a with
  | [] => []
  | c :: cs => (chunk_start c, ar_next_block a) :: map (fun c => (chunk_start c, chunk_end c)) cs
  end.

Definition chunk_ok (c : arena_chunk) : Prop := 0 < ac_addr c /\ 0 <= ac_size c /\ chunk_end c < 2 ^ 63.

(** [blocks] are the live blocks. *)
Record arena_ok (a : arena) (blocks : list (Z * Z)) : Prop := {
  ao_size : 0 <= ar_chunk_size a < 2 ^ 62;
  ao_next : match ar_chunks a with
            | [] => ar_next_block a = 0 /\ ar_end a = 0
            | c :: _ => ar_end a = chunk_end c /\ chunk_start c <= ar_next_block a <= chunk_end c
            end;
  ao_chunks : Forall chunk_ok (ar_chunks a);
  ao_chunks_apart : ForallOrdPairs apart (map chunk_range (ar_chunks a));
  ao_inside : Forall (fun b => exists r, r ∈ regions a /\ inside b r) blocks;
  ao_blocks_apart : ForallOrdPairs apart blocks
}.

Lemma apart_inside x y x' y' : apart x y -> inside x' x -> inside y' y -> apart x' y'.
Proof. unfold apart, inside. lia. Qed.

Section Laws.
Variable malloc : list arena_chunk -> Z -> Z.

(** malloc(3): a new block is null, or it is aligned for any type, inside the
    address space and apart from the live ones. *)
Hypothesis malloc_fresh : forall chunks n, 0 <= n -> malloc chunks n = 0 \/
  (0 < malloc chunks n /\ malloc chunks n mod 16 = 0 /\ malloc chunks n + n < 2 ^ 63 /\
   Forall (fun c => apart (malloc chunks n, malloc chunks n + n) (chunk_range c)) chunks).

Lemma add_chunk_spec a size blocks next :
  arena_ok a blocks -> 0 < size < 2 ^ 62 + 2 ^ 60 ->
  (add_chunk malloc (set_next_block next a) size = (0, set_next_block next a)) \/
  exists c, add_chunk malloc (set_next_block next a) size =
      (chunk_start c, {| ar_next_block := chunk_start c + size; ar_end := chunk_end c;
                         ar_chunks := c :: ar_chunks a; ar_chunk_size := ar_chunk_size a |}) /\
    chunk_ok c /\ chunk_start c mod 16 = 0 /\ chunk_start c + size <= chunk_end c /\
    Forall (fun c' => apart (chunk_range c) (chunk_range c')) (ar_chunks a).
Proof.
  intros Hok Hsize. pose proof (ao_size _ _ Hok). unfold add_chunk. cbn [set_next_block ar_chunk_size ar_chunks].
  set (cs := if decide (ar_chunk_size a < size) then size else ar_chunk_size a).
  assert (size <= cs < 2 ^ 62 + 2 ^ 60 /\ 0 <= cs) as Hcs by (unfold cs; case_decide; lia).
  unfold u64, sizeof_arena_chunk. rewrite Z.mod_small by lia.
  destruct (malloc_fresh (ar_chunks a) (16 + cs)) as [->|(Hp & Hal & Hmax & Hap)]; [lia|by left|]. right.
  set (p := malloc _ _) in *. rewrite decide_False by lia. exists {| ac_addr := p; ac_size := cs |}.
  unfold chunk_ok, chunk_range, chunk_end, chunk_start, sizeof_arena_chunk in *. cbn [ac_addr ac_size] in *.
  split_and!; try done; try lia.
  - replace (p + 16) with (p + 1 * 16) by lia. by rewrite Z_mod_plus_full.
  - by replace (p + 16 + cs) with (p + (16 + cs)) by lia.
Qed.

Definition chunk_body (c : arena_chunk) : Z * Z := (chunk_start c, chunk_end c).

Lemma body_in_range x c : inside x (chunk_body c) -> inside x (chunk_range c).
Proof. unfold inside, chunk_body, chunk_range, chunk_start, sizeof_arena_chunk. cbn. lia. Qed.

Lemma block_in_chunk a blocks b : arena_ok a blocks -> b ∈ blocks ->
  exists c, c ∈ ar_chunks a /\ inside b (chunk_body c).
Proof.
  intros [_ Hnext _ _ Hin _] Hb. rewrite list.Forall_forall in Hin. destruct (Hin b Hb) as (r & Hr & Hbr).
  unfold regions in Hr. destruct (ar_chunks a) as [|c cs]; [by apply not_elem_of_nil in Hr|].
  apply elem_of_cons in Hr as [->|Hr].
  - exists c. split; [apply list_elem_of_here|]. unfold inside, chunk_body in *. cbn in *. lia.
  - apply list_elem_of_fmap in Hr as (c' & -> & Hc'). exists c'. by split; [apply list_elem_of_further|].
Qed.

Lemma next_block_range a blocks : arena_ok a blocks -> 0 <= ar_next_block a < 2 ^ 63.
Proof.
  intros [_ Hnext Hch _ _ _]. destruct (ar_chunks a) as [|c cs]; [lia|]. apply list.Forall_cons in Hch as [(? & ? & ?) _].
  unfold chunk_end, chunk_start, sizeof_arena_chunk in *. lia.
Qed.

(** A block at the start of a new chunk. *)
Lemma arena_ok_new_chunk a blocks c size :
  arena_ok a blocks -> 0 < size -> chunk_ok c -> chunk_start c + size <= chunk_end c ->
  Forall (fun c' => apart (chunk_range c) (chunk_range c')) (ar_chunks a) ->
  arena_ok {| ar_next_block := chunk_start c + size; ar_end := chunk_end c; ar_chunks := c :: ar_chunks a;
              ar_chunk_size := ar_chunk_size a |} ((chunk_start c, chunk_start c + size) :: blocks).
Proof.
  intros Hok Hsize Hc Hfit Hapc. pose proof Hok as [Hcs Hnext Hch Hap Hin Hbl].
  split; cbn [ar_chunk_size ar_chunks ar_next_block ar_end]; [done|lia|by constructor| | |].
  - cbn [map]. constructor; [|done]. by apply Forall_mapped.
  - constructor; [eexists; split; [apply list_elem_of_here|unfold inside; cbn; lia]|].
    apply list.Forall_forall. intros b Hb. destruct (block_in_chunk _ _ _ Hok Hb) as (c' & Hc' & Hbc).
    exists (chunk_body c'). split; [|done]. unfold regions. cbn [ar_chunks]. apply list_elem_of_further, list_elem_of_fmap. by exists c'.
  - constructor; [|done]. apply list.Forall_forall. intros b Hb.
    destruct (block_in_chunk _ _ _ Hok Hb) as (c' & Hc' & Hbc%body_in_range). rewrite list.Forall_forall in Hapc.
    eapply (apart_inside _ _ _ _ (Hapc c' Hc')); [|done]. apply body_in_range. unfold inside, chunk_body. cbn. lia.
Qed.

(** A block in what is left of the current chunk. *)
Lemma arena_ok_same_chunk a blocks size :
  arena_ok a blocks -> 0 < size -> ar_next_block a + size <= ar_end a ->
  arena_ok (set_next_block (ar_next_block a + size) a) ((ar_next_block a, ar_next_block a + size) :: blocks).
Proof.
  intros Hok Hsize Hfit. pose proof Hok as [Hcs Hnext Hch Hap Hin Hbl]. unfold regions in Hin.
  destruct (ar_chunks a) as [|c cs] eqn:Ecs; [lia|].
  split; cbn [set_next_block ar_chunk_size ar_chunks ar_next_block ar_end]; rewrite ?Ecs; try done; [lia| |].
  - unfold regions. cbn [set_next_block ar_chunks ar_next_block]. rewrite Ecs.
    constructor; [eexists; split; [apply list_elem_of_here|unfold inside; cbn; lia]|].
    eapply list.Forall_impl; [exact Hin|]. intros b (r & Hr & Hb). apply elem_of_cons in Hr as [->|Hr].
    + eexists. split; [apply list_elem_of_here|]. unfold inside in *. cbn in *. lia.
    + exists r. split; [by apply list_elem_of_further|done].
  - constructor; [|done]. apply list.Forall_forall. intros b Hb. rewrite list.Forall_forall in Hin.
    destruct (Hin b Hb) as (r & Hr & Hbr). apply elem_of_cons in Hr as [->|Hr]; [unfold apart, inside in *; cbn in *; lia|].
    apply list_elem_of_fmap in Hr as (c' & -> & Hc'). cbn [map] in Hap. inversion Hap as [|? ? Hac _]; subst.
    apply (proj1 (Forall_mapped _ _ _)) in Hac. rewrite list.Forall_forall in Hac.
    eapply (apart_inside _ _ _ _ (Hac c' Hc')); apply body_in_range; [|done]. unfold inside, chunk_body. cbn. lia.
Qed.

(** How the chunks change in an allocation that succeeds. *)
Definition grown (a a' : arena) (p : Z) : Prop :=
  (p = ar_next_block a /\ ar_chunks a' = ar_chunks a /\ ar_end a' = ar_end a) \/
  (exists c, ar_chunks a' = c :: ar_chunks a /\ p = chunk_start c /\ p mod 16 = 0 /\ chunk_ok c /\
     Forall (fun c' => apart (chunk_range c) (chunk_range c')) (ar_chunks a)).

Lemma alloc_unaligned_spec a size blocks p a' :
  arena_ok a blocks -> 0 < size < 2 ^ 62 + 2 ^ 60 -> arena_alloc_unaligned malloc a size = (p, a') ->
  p = 0 \/ (arena_ok a' ((p, p + size) :: blocks) /\ 16 <= p /\ ar_chunk_size a' = ar_chunk_size a /\ grown a a' p).
Proof.
  intros Hok Hsize E. pose proof (next_block_range _ _ Hok) as Hnb. unfold arena_alloc_unaligned in E.
  cbn [set_next_block ar_end ar_next_block ar_chunk_size] in E. unfold u64 in E. rewrite Z.mod_small in E by lia.
  case_decide as Hd.
  - destruct (add_chunk_spec a size blocks (ar_next_block a + size) Hok Hsize) as [Ea|(c & Ea & Hc & Hal & Hfit & Hapc)];
      rewrite Ea in E; injection E as <- <-; [by left|right].
    assert (16 <= chunk_start c) by (destruct Hc; unfold chunk_start, sizeof_arena_chunk; lia).
    split_and!; [by apply arena_ok_new_chunk; [| lia|..]|done|done|]. right. by exists c.
  - injection E as <- <-. right. pose proof (ao_next _ _ Hok) as Hnext. pose proof (ao_chunks _ _ Hok) as Hch.
    split_and!; [apply arena_ok_same_chunk; [done|lia|lia]| |done|by left].
    destruct (ar_chunks a) as [|c cs]; [lia|]. apply list.Forall_cons in Hch as [(? & ? & ?) _].
    unfold chunk_start, sizeof_arena_chunk in *. lia.
Qed.

(** The same with padding: the block is the end of the unaligned one. *)
Lemma arena_ok_shrink a blocks x y : arena_ok a (y :: blocks) -> inside x y -> arena_ok a (x :: blocks).
Proof.
  intros [] Hxy. split; try done.
  - apply list.Forall_cons in ao_inside0 as [(r & Hr & Hy) Hin]. constructor; [|done]. exists r. split; [done|]. unfold inside in *. lia.
  - inversion ao_blocks_apart0 as [|? ? Hap Hrest]; subst. constructor; [|done]. eapply list.Forall_impl; [exact Hap|].
    intros b Hb. eapply apart_inside; [exact Hb|done|unfold inside; lia].
Qed.

Lemma alloc_spec a size blocks p a' :
  arena_ok a blocks -> 0 < size < 2 ^ 62 -> arena_alloc malloc a size = (p, a') ->
  p < ALIGNMENT \/
  (arena_ok a' ((p, p + size) :: blocks) /\ ar_chunk_size a' = ar_chunk_size a /\
   exists p0, 16 <= p0 <= p /\ grown a a' p0 /\
     (ar_next_block a mod 4 = 0 -> p = p0) /\ (p0 = ar_next_block a -> p mod 4 = 0)).
Proof.
  intros Hok Hsize E. pose proof (next_block_range _ _ Hok) as Hnb. unfold arena_alloc, ALIGNMENT in *.
  change (4 - 1) with (Z.ones 2) in E. rewrite Z.land_ones in E by lia. change (2 ^ 2) with 4 in E.
  pose proof (Z.mod_pos_bound (ar_next_block a) 4). case_decide as Hd.
  - apply (alloc_unaligned_spec _ _ blocks) in E as [->|(Hok' & Hp & Hcs & Hg)]; [left; lia|right|done|lia].
    split_and!; [done|done|]. exists p. split_and!; [lia|lia|done|done|]. by intros ->.
  - unfold u64 in E. rewrite Z.mod_small in E by lia. set (pad := 4 - _) in E.
    destruct (arena_alloc_unaligned malloc a (size + pad)) as [p0 a1] eqn:E0. injection E as <- <-.
    apply (alloc_unaligned_spec _ _ blocks) in E0 as [->|(Hok' & Hp & Hcs & Hg)]; [left; lia|right|done|lia].
    split_and!; [|done|].
    + eapply arena_ok_shrink; [exact Hok'|]. unfold inside. cbn. lia.
    + exists p0. split_and!; [lia|lia|done|done|]. intros ->. unfold pad. Z.div_mod_to_equations. lia.
Qed.

(** Allocations of the sizes in order: the blocks, unless one of them fails, which
    gives an address below the alignment. *)
Fixpoint alloc_all (a : arena) (sizes : list Z) : option (list (Z * Z) * arena) :=
  match sizes with
  | [] => Some ([], a)
  | size :: sizes' =>
      let '(p, a) := arena_alloc malloc a size in
      if decide (p < ALIGNMENT) then None
      else '(blocks, a) ← alloc_all a sizes'; Some (blocks ++ [(p, p + size)], a)
  end.

(** The chunks that are new since [a]: none of them holds its mark. *)
Definition since (a a' : arena) : Prop :=
  ar_chunk_size a' = ar_chunk_size a /\
  exists new, ar_chunks a' = new ++ ar_chunks a /\
    Forall (fun c => arena_mark a < chunk_start c \/ chunk_end c < arena_mark a) new.

Lemma grown_since a0 a a' p blocks0 : arena_ok a0 blocks0 -> since a0 a -> ar_chunk_size a' = ar_chunk_size a ->
  grown a a' p -> since a0 a'.
Proof.
  intros Hok (Hcs & new & En & Hnew) Hcs' [(_ & E & _)|(c & E & _ & _ & Hc & Hap)]; (split; [congruence|]).
  - exists new. by rewrite E.
  - exists (c :: new). rewrite E, En. split; [done|]. constructor; [|done]. rewrite En in Hap. apply Forall_app in Hap as [_ Hap].
    pose proof (ao_next _ _ Hok) as Hnext. unfold arena_mark. destruct (ar_chunks a0) as [|c0 cs]; destruct Hc as (? & ? & ?).
    + left. unfold chunk_start, sizeof_arena_chunk. lia.
    + apply list.Forall_cons in Hap as [Hap _]. unfold apart, chunk_range, chunk_start, sizeof_arena_chunk in *. cbn in *. lia.
Qed.

Lemma alloc_all_spec a0 blocks0 a blocks sizes bs a' :
  arena_ok a0 blocks0 -> since a0 a -> arena_ok a blocks -> Forall (fun n => 0 < n < 2 ^ 62) sizes ->
  alloc_all a sizes = Some (bs, a') -> arena_ok a' (bs ++ blocks) /\ since a0 a' /\ map (fun b => b.2 - b.1) bs = rev sizes.
Proof.
  intros Hok0. revert a blocks bs. induction sizes as [|n sizes IH]; intros a blocks bs Hs Hok Hn E; cbn [alloc_all] in E.
  { by injection E as <- <-. }
  apply list.Forall_cons in Hn as [Hn Hsizes]. destruct (arena_alloc malloc a n) as [p a1] eqn:Ea.
  apply (alloc_spec _ _ blocks) in Ea as [Hp|(Hok1 & Hcs & p0 & _ & Hg & _)]; [by rewrite decide_True in E| |done|done].
  case_decide; [done|]. destruct (alloc_all a1 sizes) as [[bs1 a2]|] eqn:E1; [|done]. injection E as <- <-.
  apply (IH _ ((p, p + n) :: blocks)) in E1 as (Hok2 & Hs2 & Hm); [|by eapply grown_since|done|done].
  rewrite <- app_assoc. split_and!; [done|done|]. rewrite map_app, Hm. cbn. f_equal. f_equal. lia.
Qed.

Lemma free_chunks_new mark new chunks :
  Forall (fun c => mark < chunk_start c \/ chunk_end c < mark) new ->
  free_chunks mark (new ++ chunks) = free_chunks mark chunks.
Proof. induction 1 as [|c new Hc _ IH]; cbn [app free_chunks]; [done|]. by rewrite decide_True. Qed.

(** Blocks of an arena never overlap.  Whatever sizes are allocated from an
    arena in a good state, if no allocation fails then the new blocks have those
    sizes, lie inside chunks the arena owns, and overlap neither one another nor
    the blocks that were live before. *)
Theorem arena_blocks_apart a blocks sizes bs a' :
  arena_ok a blocks -> Forall (fun n => 0 < n < 2 ^ 62) sizes -> alloc_all a sizes = Some (bs, a') ->
  ForallOrdPairs apart (bs ++ blocks) /\ map (fun b => b.2 - b.1) bs = rev sizes /\
  Forall (fun b => exists c, c ∈ ar_chunks a' /\ inside b (chunk_body c)) (bs ++ blocks).
Proof.
  intros Hok Hs E. destruct (alloc_all_spec a blocks a blocks sizes bs a' Hok) as (Hok' & _ & Hm); try done.
  { split; [done|]. by exists []. }
  split_and!; [apply Hok'|done|]. apply list.Forall_forall. intros b Hb. by eapply block_in_chunk.
Qed.

(** Freeing from a mark undoes the allocations since.  arena_free_from_mark with
    an earlier mark gives back the arena as it was at the mark, its chunks, its
    next block and its end, so the blocks that were live then still are. *)
Theorem arena_mark_restores a blocks sizes bs a' :
  arena_ok a blocks -> Forall (fun n => 0 < n < 2 ^ 62) sizes -> alloc_all a sizes = Some (bs, a') ->
  arena_free_from_mark a' (arena_mark a) = Some a.
Proof.
  intros Hok Hs E. destruct (alloc_all_spec a blocks a blocks sizes bs a' Hok) as (_ & (Hcs & new & En & Hnew) & _); try done.
  { split; [done|]. by exists []. }
  unfold arena_free_from_mark. rewrite En, free_chunks_new by done. pose proof (ao_next _ _ Hok) as Hnext.
  unfold arena_mark. rewrite Hcs. destruct a as [nb e [|c cs] sz]; cbn [ar_chunks ar_next_block ar_end ar_chunk_size] in *.
  - destruct Hnext as [-> ->]. done.
  - destruct Hnext as [-> Hr]. cbn [free_chunks].
    rewrite (decide_False (P := nb < chunk_start c \/ chunk_end c < nb)) by lia. rewrite decide_True by (by left). done.
Qed.
End Laws.

(** ** Sizes of chunks *)

Lemma round_page n : 0 <= n -> Z.land n (Z.lnot (PAGE_SIZE - 1)) = n - n mod 4096.
Proof.
  intros Hn. change (PAGE_SIZE - 1) with (Z.ones 12). rewrite <- Z.ldiff_land, Z.ldiff_ones_r by lia.
  rewrite Z.shiftl_mul_pow2, Z.shiftr_div_pow2 by lia. change (2 ^ 12) with 4096. Z.div_mod_to_equations. lia.
Qed.

Lemma new_arena_size n : 0 < n < 2 ^ 61 ->
  ar_chunk_size (new_arena n) = n + 4096 - (n + 16) mod 4096.
Proof.
  intros Hn. unfold new_arena. rewrite decide_False by lia. cbn [ar_chunk_size]. unfold u64, PAGE_SIZE at 1, sizeof_arena_chunk.
  rewrite (Z.mod_small (n + 16)), (Z.mod_small (n + 16 + 4096)) by lia. rewrite round_page by lia.
  assert ((n + 16 + 4096) mod 4096 = (n + 16) mod 4096) as -> by (Z.div_mod_to_equations; lia).
  pose proof (Z.mod_pos_bound (n + 16) 4096). set (m := (n + 16) mod 4096) in *.
  rewrite (Z.mod_small (n + 16 + 4096 - m)) by lia. rewrite Z.mod_small by lia. lia.
Qed.

Lemma new_arena_ok n : 0 <= n < 2 ^ 61 -> arena_ok (new_arena n) [].
Proof.
  intros Hn. split; try done; try constructor.
  all: destruct (decide (n = 0)) as [->|H0]; [done|]; rewrite new_arena_size by lia;
    pose proof (Z.mod_pos_bound (n + 16) 4096); lia.
Qed.

(** The chunk size of new_arena.  With its header a chunk takes a multiple of a
    page and holds at least what was asked for; a size that already is a multiple
    is increased by a whole page. *)
Theorem new_arena_chunk_size n : 0 < n < 2 ^ 61 ->
  (ar_chunk_size (new_arena n) + sizeof_arena_chunk) mod PAGE_SIZE = 0 /\ n < ar_chunk_size (new_arena n) <= n + PAGE_SIZE /\
  ((n + sizeof_arena_chunk) mod PAGE_SIZE = 0 -> ar_chunk_size (new_arena n) = n + PAGE_SIZE).
Proof.
  intros Hn. rewrite new_arena_size by done. unfold sizeof_arena_chunk, PAGE_SIZE.
  Z.div_mod_to_equations. lia.
Qed.

(** ** A concrete allocator *)

(** It puts a block behind all the others, and fails when there is no room. *)
Definition bump (chunks : list arena_chunk) (n : Z) : Z :=
  let top := foldr (fun c m => Z.max m (chunk_end c)) 0 chunks in
  let p := (top / 16 + 1) * 16 in
  if decide (p + n < 2 ^ 63) then p else 0.

Lemma bump_fresh chunks n : 0 <= n -> bump chunks n = 0 \/
  (0 < bump chunks n /\ bump chunks n mod 16 = 0 /\ bump chunks n + n < 2 ^ 63 /\
   Forall (fun c => apart (bump chunks n, bump chunks n + n) (chunk_range c)) chunks).
Proof.
  intros Hn. unfold bump. set (top := foldr _ _ _). set (p := (top / 16 + 1) * 16).
  assert (0 <= top /\ Forall (fun c => chunk_end c <= top) chunks) as [Htop Hall].
  { unfold top. clear. induction chunks as [|c l [IH1 IH2]]; cbn [foldr]; [done|]. split; [lia|].
    constructor; [lia|]. eapply list.Forall_impl; [exact IH2|]. cbn. lia. }
  assert (top < p) by (unfold p; Z.div_mod_to_equations; lia).
  case_decide; [right|by left]. split_and!; [lia|unfold p; apply Z_mod_mult|done|].
  eapply list.Forall_impl; [exact Hall|]. intros c Hc. cbv beta in Hc. right. cbn [chunk_range fst snd]. lia.
Qed.

Lemma arena_blocks_apart_witness :
  option_map fst (alloc_all bump (new_arena 0) [5; 40000; 7]) = Some [(72849, 72856); (32819, 72819); (32, 37)] /\
  ForallOrdPairs apart [(72849, 72856); (32819, 72819); (32, 37)].
Proof.
  destruct (alloc_all bump (new_arena 0) [5; 40000; 7]) as [[bs a']|] eqn:E; [|by vm_compute in E].
  assert (bs = [(72849, 72856); (32819, 72819); (32, 37)]) as -> by (vm_compute in E; by injection E as <- _).
  split; [done|]. destruct (arena_blocks_apart bump bump_fresh (new_arena 0) [] [5; 40000; 7]
    [(72849, 72856); (32819, 72819); (32, 37)] a' (new_arena_ok 0 ltac:(lia))) as [T _];
    [repeat constructor; lia|exact E|exact T].
Defined.

Lemma arena_mark_restores_witness :
  match alloc_all bump (new_arena 0) [40000; 7] with
  | Some (_, a') => arena_free_from_mark a' (arena_mark (new_arena 0)) = Some (new_arena 0)
  | None => False
  end.
Proof.
  destruct (alloc_all bump (new_arena 0) [40000; 7]) as [[bs a']|] eqn:E; [|by vm_compute in E].
  apply (arena_mark_restores bump bump_fresh (new_arena 0) [] [40000; 7] bs a'); [apply new_arena_ok; lia| |done].
  repeat constructor; lia.
Defined.

Lemma new_arena_chunk_size_witness : ar_chunk_size (new_arena 4080) = 4080 + PAGE_SIZE.
Proof. apply (new_arena_chunk_size 4080); [lia|done]. Defined.

Section Alignment.
Variable malloc : list arena_chunk -> Z -> Z.
Hypothesis malloc_fresh : forall chunks n, 0 <= n -> malloc chunks n = 0 \/
  (0 < malloc chunks n /\ malloc chunks n mod 16 = 0 /\ malloc chunks n + n < 2 ^ 63 /\
   Forall (fun c => apart (malloc chunks n, malloc chunks n + n) (chunk_range c)) chunks).

(** The alignment of arena_alloc.  A block that fits the current chunk, or that
    is allocated when the next block is aligned, is aligned. *)
Theorem arena_alloc_aligned a blocks size p a' :
  arena_ok a blocks -> 0 < size < 2 ^ 62 -> arena_alloc malloc a size = (p, a') -> ALIGNMENT <= p ->
  ar_chunks a' = ar_chunks a \/ ar_next_block a mod ALIGNMENT = 0 -> p mod ALIGNMENT = 0.
Proof.
  intros Hok Hsize E Hp Hc. apply (alloc_spec malloc malloc_fresh _ _ blocks) in E as [?|(_ & _ & p0 & _ & Hg & H1 & H2)]; [lia| |done|done].
  unfold ALIGNMENT in *. destruct Hg as [(E0 & _)|(c & E0 & E1 & E2 & _)]; [by apply H2|].
  destruct Hc as [Hc|Hc]; [|rewrite H1 by done; Z.div_mod_to_equations; lia].
  rewrite E0 in Hc. apply (f_equal length) in Hc. cbn in Hc. lia.
Qed.
End Alignment.

Lemma arena_alloc_aligned_witness :
  exists a', arena_alloc bump {| ar_next_block := 37; ar_end := 32784; ar_chunks := [{| ac_addr := 16; ac_size := 32752 |}];
                       ar_chunk_size := 32752 |} 8 = (40, a') /\ 40 mod ALIGNMENT = 0.
Proof.
  eexists. split; [by vm_compute|].
  eapply (arena_alloc_aligned bump bump_fresh {| ar_next_block := 37; ar_end := 32784;
    ar_chunks := [{| ac_addr := 16; ac_size := 32752 |}]; ar_chunk_size := 32752 |} [] 8); [|lia|by vm_compute|done|by left].
  split; cbn; try lia; repeat constructor; unfold chunk_ok, chunk_end, chunk_start, sizeof_arena_chunk; cbn; lia.
Defined.

(** A block in a new chunk may be misaligned.  The padding is computed for the
    old next block and then added to the start of the new chunk: after a block of
    32751 bytes, the next one is one byte past a multiple of four. *)
Theorem arena_alloc_misaligned :
  let a := (arena_alloc bump (new_arena 0) 32751).2 in
  (arena_alloc bump a 4).1 = 32817 /\ 32817 mod ALIGNMENT = 1.
Proof. by vm_compute. Qed.

(** A failed allocation may not return NULL.  When malloc fails and padding was
    needed, arena_alloc returns the padding as a pointer. *)
Theorem arena_alloc_failure_not_null :
  let a := (arena_alloc bump (new_arena 0) 32751).2 in
  (arena_alloc (fun _ _ => 0) a 4).1 = 1.
Proof. by vm_compute. Qed.
