(* ===== verification/Runs.v ===== *)
(** * Runs: sorted runs on two tapes

    Both sorts of the library, llmsort.c and mergesort.c, keep sorted runs of one
    size, of which only the last may be shorter, alternately on two tapes, and merge
    them pairwise until one run is left.  This file holds what that does to the
    runs, whatever the tapes are made of. *)

From Stdlib Require Import ZArith Lia.
From stdpp Require Import sorting list numbers.

(** What the sorts rely on: the sign of the comparison is that of a total order on
    classes of equal elements. *)
Class Comparison {A} (cmp : A -> A -> Z) : Prop := {
  cmp_flip : forall a b, (cmp a b <= 0)%Z <-> (0 <= cmp b a)%Z;
  cmp_trans : forall a b c, (cmp a b <= 0)%Z -> (cmp b c <= 0)%Z -> (cmp a c <= 0)%Z
}.

(** A comparison function of C, which may be undefined, computes the order [cmp] on
    the elements that satisfy [P]. *)
Class Compares {A} (P : A -> Prop) (compare : A -> A -> option Z) (cmp : A -> A -> Z) : Prop := {
  compares_order : Comparison cmp;
  compares_on : forall a b, P a -> P b -> compare a b = Some (cmp a b)
}.

Section Runs.
Context {A : Type} (le : A -> A -> Prop) (mg : list A -> list A -> list A).

(** Sorted runs of [B] elements, the last of which may be shorter. *)
Inductive runs (B : nat) : list (list A) -> Prop :=
| runs_nil : runs B []
| runs_last r : r <> [] -> length r <= B -> Sorted le r -> runs B [r]
| runs_cons r rs : length r = B -> r <> [] -> Sorted le r -> rs <> [] -> runs B rs -> runs B (r :: rs).

(** The runs dealt alternately to two tapes. *)
Fixpoint deal (rs : list (list A)) : list A * list A :=
  match rs with
  | [] => ([], [])
  | r :: rs => (r ++ (deal rs).2, (deal rs).1)
  end.

(** The runs after a pass. *)
Fixpoint pairs (rs : list (list A)) : list (list A) :=
  match rs with
  | [] => []
  | [r] => [mg r []]
  | r0 :: r1 :: rs => mg r0 r1 :: pairs rs
  end.

(** [mg] merges sorted lists. *)
Class Merges : Prop := {
  mg_perm : forall a b, mg a b ≡ₚ a ++ b;
  mg_sorted : forall a b, Sorted le a -> Sorted le b -> Sorted le (mg a b)
}.

Lemma list_pair_ind {X} (P : list X -> Prop) :
  P [] -> (forall x, P [x]) -> (forall x y l, P l -> P (x :: y :: l)) -> forall l, P l.
Proof.
  intros H0 H1 H2 l. enough (P l /\ forall x, P (x :: l)) by tauto.
  induction l as [|y l [IH1 IH2]]; split; auto.
Qed.

Lemma runs_inv B r rs : runs B (r :: rs) ->
  r <> [] /\ length r <= B /\ Sorted le r /\ (length r = B \/ rs = []) /\ runs B rs.
Proof. inversion 1; subst; split_and!; auto; constructor. Qed.

Lemma runs_build B r rs : r <> [] -> length r <= B -> Sorted le r -> (length r = B \/ rs = []) -> runs B rs -> runs B (r :: rs).
Proof. intros ??? H Hr. destruct rs; [by constructor|]. destruct H; [by constructor|done]. Qed.

Lemma deal_perm rs : (deal rs).1 ++ (deal rs).2 ≡ₚ concat rs.
Proof.
  induction rs as [|r rs IH]; [done|]. cbn. rewrite <- app_assoc. apply Permutation_app_head.
  rewrite Permutation_app_comm. exact IH.
Qed.

Lemma deal_snoc rs r : deal (rs ++ [r]) =
  if Nat.even (length rs) then ((deal rs).1 ++ r, (deal rs).2) else ((deal rs).1, (deal rs).2 ++ r).
Proof.
  induction rs as [|r0 rs IH]; [cbn; by rewrite app_nil_r|]. cbn [app deal length]. rewrite IH, Nat.even_succ, <- Nat.negb_even.
  destruct (Nat.even (length rs)); cbn; by rewrite ?app_assoc.
Qed.

(** Full runs, and a last one that may be shorter. *)
Lemma runs_full B rs : B <> 0 -> Forall (fun r => length r = B /\ Sorted le r) rs -> runs B rs.
Proof.
  intros HB. induction 1 as [|r rs [Hl Hs] _ IH]; [constructor|].
  apply runs_build; [intros ->; by cbn in Hl|lia|done|by left|done].
Qed.
Lemma runs_snoc B rs r : B <> 0 -> Forall (fun r => length r = B /\ Sorted le r) rs ->
  r <> [] -> length r <= B -> Sorted le r -> runs B (rs ++ [r]).
Proof.
  intros HB Hf Hr Hl Hs. induction Hf as [|r0 rs [Hl0 Hs0] _ IH]; cbn [app]; [by constructor|].
  apply runs_build; [intros ->; by cbn in Hl0|lia|done|by left|done].
Qed.

(** With nothing on the second tape there is at most one run. *)
Lemma deal_second_nil B rs : runs B rs -> (deal rs).2 = [] -> rs = [] \/ exists r, rs = [r].
Proof.
  intros Hr Hd. destruct rs as [|r0 [|r1 rs]]; [by left|right; eauto|exfalso].
  apply runs_inv in Hr as (_ & _ & _ & _ & Hr). apply runs_inv in Hr as (Hne & _). cbn in Hd. by destruct r1.
Qed.

Lemma deal_one_run B rs : runs B rs -> (deal rs).2 = [] ->
  Sorted le (deal rs).1 /\ (deal rs).1 = concat rs /\ length rs <= 1.
Proof.
  intros Hr [->|[r ->]]%(deal_second_nil _ _ Hr); cbn; rewrite ?app_nil_r; split_and!; try lia; try done.
  by apply runs_inv in Hr as (_ & _ & ? & _).
Qed.

Lemma deal_first_nil B rs : runs B rs -> (deal rs).1 = [] -> rs = [].
Proof. intros Hr Hd. destruct rs as [|r rs]; [done|]. apply runs_inv in Hr as (Hne & _). cbn in Hd. by destruct r. Qed.

(** Two lists of about the same length hold runs of one element. *)
Lemma deal_singles a b : length a = length b \/ length a = S (length b) ->
  exists rs, deal rs = (a, b) /\ runs 1 rs /\ length rs = length a + length b.
Proof.
  remember (length a + length b) as n eqn:En. revert a b En. induction n as [n IH] using lt_wf_ind. intros a b En H.
  destruct a as [|x a]; cbn in *.
  - destruct b; cbn in *; [|lia]. exists []. split_and!; [done|constructor|done].
  - destruct (IH (length b + length a)) with (a := b) (b := a) as (rs & Hd & Hr & Hl); [lia|done|lia|].
    exists ([x] :: rs). split_and!; [cbn; by rewrite Hd| |cbn; lia].
    apply runs_build; [done|done|repeat constructor|by left|done].
Qed.

Lemma runs_count B rs : runs B rs -> length rs <= length (concat rs).
Proof.
  induction rs as [|r rs IH]; intros Hr; [done|]. apply runs_inv in Hr as (Hn & _ & _ & _ & Hr).
  cbn. rewrite length_app. specialize (IH Hr). destruct r; [done|]. cbn. lia.
Qed.

Lemma pairs_length rs : length rs <= length (pairs rs) + length (pairs rs) <= S (length rs).
Proof. induction rs as [|r|r0 r1 rs IH] using list_pair_ind; cbn; lia. Qed.

Lemma pairs_perm `{Merges} rs : concat (pairs rs) ≡ₚ concat rs.
Proof.
  induction rs as [|r|r0 r1 rs IH] using list_pair_ind; cbn; [done| |]; rewrite mg_perm.
  - by rewrite app_nil_r.
  - by rewrite IH, app_assoc.
Qed.

Lemma pairs_runs `{Merges} B rs : runs B rs -> runs (B + B) (pairs rs).
Proof.
  assert (forall a b, a <> [] -> mg a b <> []) as Hne.
  { intros a b Ha Hm. pose proof (mg_perm a b) as Hp. rewrite Hm in Hp. apply Permutation_nil in Hp.
    by apply app_eq_nil in Hp as [-> _]. }
  assert (forall a b, length (mg a b) = length a + length b) as Hlen.
  { intros a b. by rewrite mg_perm, length_app. }
  induction rs as [|r|r0 r1 rs IH] using list_pair_ind; intros Hr; cbn; [constructor| |].
  - apply runs_inv in Hr as (? & ? & ? & _). constructor; [auto|rewrite Hlen; cbn; lia|].
    apply mg_sorted; [done|constructor].
  - apply runs_inv in Hr as (? & ? & ? & Hfull & Hr). destruct Hfull as [Hfull|?]; [|done].
    apply runs_inv in Hr as (? & ? & ? & Hlast & Hr).
    apply runs_build; [auto|rewrite Hlen; lia|by apply mg_sorted| |auto].
    destruct Hlast as [?| ->]; [left; rewrite Hlen; lia|by right].
Qed.
(** A run of [n] records at the start of a tape, or what is left of the tape. *)
Definition run_part (n : Z) (r rest : list A) : Prop :=
  (Z.of_nat (length r) <= n)%Z /\ (Z.of_nat (length r) = n \/ rest = []).

(** The first runs of the two tapes. *)
Lemma deal_parts B r0 rs : runs B (r0 :: rs) -> exists r1 rs',
  rs = match rs with [] => [] | _ => r1 :: rs' end /\ (rs = [] -> r1 = [] /\ rs' = []) /\
  (deal (r0 :: rs)).1 = r0 ++ (deal rs').1 /\ (deal (r0 :: rs)).2 = r1 ++ (deal rs').2 /\
  run_part (Z.of_nat B) r0 (deal rs').1 /\ run_part (Z.of_nat B) r1 (deal rs').2 /\ runs B rs' /\
  pairs (r0 :: rs) = mg r0 r1 :: pairs rs'.
Proof.
  intros Hr. apply runs_inv in Hr as (? & ? & ? & Hfull & Hr). destruct rs as [|r1 rs].
  - exists [], []. split_and!; try done; [split; [lia|by right]|split; [cbn; lia|by right]].
  - apply runs_inv in Hr as (? & ? & ? & Hlast & Hr). destruct Hfull as [Hfull|]; [|done].
    exists r1, rs. split_and!; try done; [split; [lia|left; lia]|split; [lia|]].
    destruct Hlast as [?| ->]; [left; lia|by right].
Qed.

End Runs.
