(* ===== verification/LinkedSort.v ===== *)
(** * LinkedSort: sorting a linked list in memory

    Models src/llmsort.c, a merge sort of a linked list that moves the records
    between four tapes.  Records are addresses; the heap gives the [next] pointer of
    each, and the rest of a record, which the function does not touch, is known only
    through the comparison.  The theorem is that the list that is returned is the
    list that was given, sorted and properly ended. *)

From Stdlib Require Import ZArith Lia.
From S2P Require Import Prelude Runs.
From stdpp Require Import gmap list numbers sorting functions.

#[local] Open Scope Z_scope.
#[local] Open Scope couch_scope.

(** ** The function *)

(** A pointer to a record; [None] is NULL. *)
Abbreviation loc := positive.
Abbreviation pointer := (option positive) (only parsing).

Record tape : Type := { tp_first : pointer; tp_last : pointer; tp_count : Z }.

Record sorter : Type := { so_next : gmap loc pointer; so_tape : nat -> tape }.

(** There is no input or output here. *)
#[global] Instance sorter_Faulty : Faulty sorter := fun _ => false.

Definition zero_tape : tape := {| tp_first := None; tp_last := None; tp_count := 0 |}.

(** [p->next[idx]] and the assignment to it. *)
Definition get_next (p : pointer) : M sorter pointer :=
  let* s := get in let* r := need p in need (so_next s !! r).
Definition set_next (p q : pointer) : M sorter unit :=
  let* s := get in let* r := need p in let* _ := need (so_next s !! r) in
  put {| so_next := <[r := q]> (so_next s); so_tape := so_tape s |}.

Definition get_tape (i : nat) : M sorter tape := let* s := get in ret (so_tape s i).
Definition set_tape (i : nat) (t : tape) : M sorter unit :=
  modify (fun s => {| so_next := so_next s; so_tape := <[i := t]> (so_tape s) |}).

Definition set_count (n : Z) (t : tape) : tape :=
  {| tp_first := tp_first t; tp_last := tp_last t; tp_count := n |}.

(** Put the records alternately on the tapes 0 and 1. *)
Fixpoint distribute (fuel : nat) (p : pointer) (base : nat) : M sorter unit :=
  match p, fuel with
  | None, _ => ret tt
  | Some _, O => nofuel
  | Some _, S fuel =>
      let* next := get_next p in
      let* t := get_tape base in
      set_next p (tp_first t) ;;
      set_tape base {| tp_first := p; tp_last := tp_last t; tp_count := u64 (tp_count t + 1) |} ;;
      distribute fuel next (Nat.lxor base 1)
  end.

Section Sort.
Variable compare : loc -> loc -> option Z.

(** The tape the next record is taken from, with what is left of the two runs. *)
Definition choose (tape0 tape1 : nat) (n0 n1 : Z) : M sorter (option (nat * Z * Z)) :=
  let* t0 := get_tape tape0 in
  let* t1 := get_tape tape1 in
  if decide (n0 = 0 \/ tp_count t0 = 0) then
    if decide (n1 = 0 \/ tp_count t1 = 0) then ret None else ret (Some (tape1, n0, n1 - 1))
  else if decide (n1 = 0 \/ tp_count t1 = 0) then ret (Some (tape0, n0 - 1, n1))
  else
    let* a := need (tp_first t0) in
    let* b := need (tp_first t1) in
    let* c := need (compare a b) in
    if decide (0 < c) then ret (Some (tape1, n0, n1 - 1)) else ret (Some (tape0, n0 - 1, n1)).

(** Move the first record of a tape to the end of another. *)
Definition move_record (chosen dest : nat) : M sorter unit :=
  let* t := get_tape chosen in
  let* next := get_next (tp_first t) in
  set_tape chosen {| tp_first := next; tp_last := tp_last t; tp_count := u64 (tp_count t - 1) |} ;;
  let* out := get_tape dest in
  let* first := (if decide (tp_count out = 0) then ret (tp_first t)
                 else set_next (tp_last out) (tp_first t) ;; ret (tp_first out)) in
  set_tape dest {| tp_first := first; tp_last := tp_first t; tp_count := u64 (tp_count out + 1) |}.

(** Merge a run of each tape. *)
Fixpoint merge_runs (fuel : nat) (tape0 tape1 dest : nat) (n0 n1 : Z) : M sorter unit :=
  let* c := choose tape0 tape1 n0 n1 in
  match c, fuel with
  | None, _ => ret tt
  | Some _, O => nofuel
  | Some (chosen, n0, n1), S fuel =>
      move_record chosen dest ;; merge_runs fuel tape0 tape1 dest n0 n1
  end.

(** Merge all the runs of two tapes, alternately onto the two others. *)
Fixpoint merge_tapes (fuel : nat) (tape0 tape1 dest : nat) (block_size : Z) : M sorter unit :=
  let* t0 := get_tape tape0 in
  let* t1 := get_tape tape1 in
  if decide (tp_count t0 = 0) then ret tt
  else match fuel with
    | O => nofuel
    | S fuel =>
        merge_runs (Z.to_nat (tp_count t0 + tp_count t1)) tape0 tape1 dest block_size block_size ;;
        merge_tapes fuel tape0 tape1 (Nat.lxor dest 1) block_size
    end.

(** Merge until the second tape is empty; the number of the first one. *)
Fixpoint merge_passes (fuel : nat) (base : nat) (block_size : Z) : M sorter nat :=
  let* t0 := get_tape base in
  let* t1 := get_tape (base + 1) in
  if decide (tp_count t1 = 0) then ret base
  else match fuel with
    | O => nofuel
    | S fuel =>
        let dest := Nat.lxor base 2 in
        let* d0 := get_tape dest in set_tape dest (set_count 0 d0) ;;
        let* d1 := get_tape (dest + 1) in set_tape (dest + 1) (set_count 0 d1) ;;
        merge_tapes (Z.to_nat (tp_count t0)) base (base + 1) dest block_size ;;
        merge_passes fuel dest (u64 (Z.shiftl block_size 1))
    end.

(** The first record of the sorted list, and the count. *)
Definition sort_linked_list (fuel : nat) (p : pointer) : M sorter (pointer * Z) :=
  modify (fun s => {| so_next := so_next s; so_tape := fun _ => zero_tape |}) ;;
  distribute fuel p 0 ;;
  let* base := merge_passes fuel 0 1 in
  let* t := get_tape base in
  (if decide (1 < tp_count t) then set_next (tp_last t) None else ret tt) ;;
  ret (tp_first t, tp_count t).
End Sort.

(** ** Lists in the heap *)

(** The records of [l] follow one another from [p]; what follows the last one is
    not said. *)
Fixpoint chain (h : gmap loc pointer) (p : pointer) (l : list loc) : Prop :=
  match l with
  | [] => True
  | x :: l => p = Some x /\ exists q, h !! x = Some q /\ chain h q l
  end.

(** The same, and the last record is followed by NULL. *)
Fixpoint linked (h : gmap loc pointer) (p : pointer) (l : list loc) : Prop :=
  match l with
  | [] => p = None
  | x :: l => p = Some x /\ exists q, h !! x = Some q /\ linked h q l
  end.

Lemma chain_insert h p l y q : y ∉ l -> chain h p l -> chain (<[y := q]> h) p l.
Proof.
  revert p. induction l as [|x l IH]; intros p Hy; cbn; [done|].
  apply not_elem_of_cons in Hy as [Hne Hy]. intros (-> & q' & Hq & Hc). split; [done|].
  exists q'. split; [by rewrite lookup_insert_ne|by apply IH].
Qed.

Lemma linked_insert h p l y q : y ∉ l -> linked h p l -> linked (<[y := q]> h) p l.
Proof.
  revert p. induction l as [|x l IH]; intros p Hy; cbn; [done|].
  apply not_elem_of_cons in Hy as [Hne Hy]. intros (-> & q' & Hq & Hc). split; [done|].
  exists q'. split; [by rewrite lookup_insert_ne|by apply IH].
Qed.

Lemma chain_app h p l y : chain h p (l ++ [y]) -> chain h p l /\ exists q, h !! y = Some q.
Proof.
  revert p. induction l as [|x l IH]; intros p; cbn.
  - intros (_ & q & Hq & _). eauto.
  - intros (-> & q & Hq & Hc). apply IH in Hc as [Hc Hy]. eauto.
Qed.

(** Appending a record behind the last one. *)
Lemma chain_snoc h p l y x q : NoDup (l ++ [y]) -> x ∉ l ++ [y] -> h !! x = Some q ->
  chain h p (l ++ [y]) -> chain (<[y := Some x]> h) p ((l ++ [y]) ++ [x]).
Proof.
  revert p. induction l as [|z l IH]; intros p Hnd Hx Hq; cbn.
  - intros (-> & q' & _). split; [done|]. exists (Some x). rewrite lookup_insert_eq. split; [done|].
    split; [done|]. exists q. rewrite lookup_insert_ne by set_solver. done.
  - cbn in Hnd. apply list.NoDup_cons in Hnd as [Hz Hnd]. intros (-> & q' & Hq' & Hc). split; [done|].
    exists q'. rewrite lookup_insert_ne by set_solver. split; [done|]. apply IH; [done|set_solver|done|done].
Qed.

(** Ending the list at its last record. *)
Lemma chain_end h p l y : NoDup (l ++ [y]) -> chain h p (l ++ [y]) -> linked (<[y := None]> h) p (l ++ [y]).
Proof.
  revert p. induction l as [|z l IH]; intros p Hnd; cbn.
  - intros (-> & q' & _). split; [done|]. exists None. by rewrite lookup_insert_eq.
  - cbn in Hnd. apply list.NoDup_cons in Hnd as [Hz Hnd]. intros (-> & q' & Hq' & Hc). split; [done|].
    exists q'. rewrite lookup_insert_ne by set_solver. split; [done|]. by apply IH.
Qed.

Lemma linked_chain h p l : linked h p l -> chain h p l.
Proof. revert p. induction l as [|x l IH]; intros p; cbn; [done|]. intros (-> & q & Hq & Hl). eauto. Qed.

(** ** The tapes *)

Lemma pure_sticky {A} (m : M sorter A) : sticky m.
Proof. by intros s Hs. Qed.

Lemma wp_get_tape i Q s : Q (so_tape s i) s -> wp (get_tape i) Q s.
Proof. by intros HQ _. Qed.
Lemma wp_set_tape i t Q s :
  Q tt {| so_next := so_next s; so_tape := <[i := t]> (so_tape s) |} -> wp (set_tape i t) Q s.
Proof. by intros HQ _. Qed.
Lemma wp_get_next p x q Q s : p = Some x -> so_next s !! x = Some q -> Q q s -> wp (get_next p) Q s.
Proof. intros -> Hq HQ. unfold wp, get_next, bind, need, get. cbn. rewrite Hq. by intros _. Qed.
Lemma wp_set_next p x q q' Q s : p = Some x -> so_next s !! x = Some q ->
  Q tt {| so_next := <[x := q']> (so_next s); so_tape := so_tape s |} -> wp (set_next p q') Q s.
Proof. intros -> Hq HQ. unfold wp, set_next, bind, need, get. cbn. rewrite Hq. by intros _. Qed.

Ltac step := apply wp_bind; [intros; apply pure_sticky|].
Ltac fn := repeat first [rewrite fn_lookup_insert | rewrite fn_lookup_insert_ne by (done || lia)].

Section Tapes.
(** The records to be sorted, and the heap at the start. *)
Variable all : list loc.
Variable h0 : gmap loc pointer.
Hypothesis all_small : Z.of_nat (length all) < 2 ^ 63.

(** The tapes hold the lists [ls], which have no record in common, and no other
    record has changed. *)
Record shape (s : sorter) (ls : nat -> list loc) : Prop := {
  sh_count : forall i, tp_count (so_tape s i) = Z.of_nat (length (ls i));
  sh_chain : forall i, chain (so_next s) (tp_first (so_tape s i)) (ls i);
  sh_nodup : forall i, NoDup (ls i);
  sh_apart : forall i j x, i <> j -> x ∈ ls i -> x ∉ ls j;
  sh_in : forall i x, x ∈ ls i -> x ∈ all;
  sh_frame : forall x, x ∉ all -> so_next s !! x = h0 !! x
}.

(** The end of the tape [i] is known. *)
Definition ended (s : sorter) (ls : nat -> list loc) (i : nat) : Prop :=
  ls i <> [] -> tp_last (so_tape s i) = list.last (ls i).

Lemma shape_small s ls i : shape s ls -> Z.of_nat (length (ls i)) < 2 ^ 63.
Proof.
  intros Hs. eapply Z.le_lt_trans; [|exact all_small]. apply inj_le, submseteq_length, NoDup_submseteq;
    [apply (sh_nodup s ls Hs)|intros x; apply (sh_in s ls Hs)].
Qed.

Lemma last_snoc_cases (l : list loc) : l = [] \/ exists l' y, l = l' ++ [y].
Proof. destruct l using rev_ind; [by left|right; eauto]. Qed.

(** The lists after the first record of [c] has moved behind [d]. *)
Lemma shape_move s ls c d x l s' :
  shape s ls -> ls c = x :: l -> c <> d ->
  (forall i, i <> c -> i <> d -> so_tape s' i = so_tape s i) ->
  tp_count (so_tape s' c) = Z.of_nat (length l) -> tp_count (so_tape s' d) = Z.of_nat (S (length (ls d))) ->
  (forall i, chain (so_next s') (tp_first (so_tape s' i)) (<[d := ls d ++ [x]]> (<[c := l]> ls) i)) ->
  (forall y, y ∉ all -> so_next s' !! y = so_next s !! y) ->
  shape s' (<[d := ls d ++ [x]]> (<[c := l]> ls)).
Proof.
  intros Hs Hc Hcd Hother Hcc Hcd' Hch Hfr.
  pose proof (sh_nodup s ls Hs c) as Hndc. rewrite Hc in Hndc. apply list.NoDup_cons in Hndc as [Hxl Hndl].
  assert (forall i, i <> c -> x ∉ ls i) as Hx.
  { intros i Hi. apply (sh_apart s ls Hs c i); [done|]. rewrite Hc. by left. }
  assert (forall i y, y ∈ <[d := ls d ++ [x]]> (<[c := l]> ls) i -> (y ∈ ls i /\ y <> x) \/ (i = d /\ y = x)) as Hin.
  { intros i y. destruct (decide (i = d)) as [->|]; [fn; rewrite elem_of_app, list_elem_of_singleton|].
    - intros [Hy|Hy]; [left; split; [done|intros ->; by apply (Hx d) in Hy]|by right].
    - destruct (decide (i = c)) as [->|]; fn; intros Hy; left.
      + split; [rewrite Hc; by right|by intros ->].
      + split; [done|intros ->; by apply (Hx i) in Hy]. }
  split; [| exact Hch | | | |].
  - intros i. destruct (decide (i = d)) as [->|]; [fn; rewrite Hcd', length_app; cbn; lia|].
    destruct (decide (i = c)) as [->|]; fn; [done|]. rewrite Hother by done. apply Hs.
  - intros i. destruct (decide (i = d)) as [->|]; fn.
    + apply list.NoDup_app. split; [apply Hs|]. split; [|apply NoDup_singleton].
      intros y Hy ->%list_elem_of_singleton. by apply (Hx d) in Hy.
    + destruct (decide (i = c)) as [->|]; fn; [done|apply Hs].
  - intros i j y Hij Hi Hj.
    apply Hin in Hi as [[Hi ?]|[? ?]], Hj as [[Hj ?]|[? ?]]; [by apply (sh_apart s ls Hs i j y)|congruence..].
  - intros i y [[Hi _]|[-> ->]]%Hin; [by apply (sh_in s ls Hs i)|]. apply (sh_in s ls Hs c). rewrite Hc. by left.
  - intros y Hy. rewrite Hfr by done. by apply Hs.
Qed.

Lemma shape_next s ls i x : shape s ls -> x ∈ ls i -> exists q, so_next s !! x = Some q.
Proof.
  intros Hs. generalize (sh_chain s ls Hs i). generalize (tp_first (so_tape s i)).
  induction (ls i) as [|y l IH]; intros p Hc Hx; [by apply elem_of_nil in Hx|].
  destruct Hc as (-> & q & Hq & Hc). apply elem_of_cons in Hx as [->|Hx]; eauto.
Qed.

Lemma wp_move_record s ls c d x l :
  shape s ls -> ls c = x :: l -> c <> d -> ended s ls d ->
  wp (move_record c d)
     (fun _ s' => shape s' (<[d := ls d ++ [x]]> (<[c := l]> ls)) /\
        ended s' (<[d := ls d ++ [x]]> (<[c := l]> ls)) d /\
        forall i, i <> c -> i <> d -> so_tape s' i = so_tape s i) s.
Proof.
  intros Hs Hc Hcd Hend. unfold move_record.
  pose proof (sh_chain s ls Hs c) as Hch. rewrite Hc in Hch. destruct Hch as (Hf & q & Hq & Hch).
  pose proof (sh_count s ls Hs c) as Hcnt. rewrite Hc in Hcnt. cbn [length] in Hcnt.
  pose proof (shape_small s ls c Hs) as Hsm. rewrite Hc in Hsm. cbn [length] in Hsm.
  pose proof (shape_small s ls d Hs) as Hsd. pose proof (sh_count s ls Hs d) as Hcd'.
  assert (forall i, i <> c -> x ∉ ls i) as Hx.
  { intros i Hi. apply (sh_apart s ls Hs c i); [done|]. rewrite Hc. by left. }
  step. apply wp_get_tape. step. eapply wp_get_next; [exact Hf|exact Hq|].
  step. apply wp_set_tape. step. apply wp_get_tape. cbn. fn. step.
  assert (u64 (tp_count (so_tape s c) - 1) = Z.of_nat (length l)) as E1
    by (rewrite Hcnt; unfold u64; rewrite Z.mod_small; lia).
  assert (u64 (tp_count (so_tape s d) + 1) = Z.of_nat (S (length (ls d)))) as E2
    by (rewrite Hcd'; unfold u64; rewrite Z.mod_small; lia).
  destruct (last_snoc_cases (ls d)) as [Hd|(l' & y & Hd)].
  - rewrite decide_True by (rewrite Hcd', Hd; done). apply wp_ret. apply wp_set_tape.
    split; [|split].
    + eapply shape_move; [exact Hs|exact Hc|done|..]; cbn; try (fn; done).
      * intros i ??. by fn.
      * intros i. destruct (decide (i = d)) as [->|]; fn; cbn; [rewrite Hd; cbn; eauto|].
        destruct (decide (i = c)) as [->|]; fn; [done|apply Hs].
    + intros _. cbn. fn. cbn. rewrite Hd. by rewrite Hf.
    + intros i ??. cbn. by fn.
  - assert (y ∈ ls d) as Hyd by (rewrite Hd; set_solver).
    assert (forall i, i <> d -> y ∉ ls i) as Hy by (intros i ?; by apply (sh_apart s ls Hs d i)).
    destruct (shape_next s ls d y Hs Hyd) as [qy Hqy].
    rewrite decide_False by (rewrite Hcd', Hd, length_app; cbn; lia).
    step. eapply wp_set_next; [|exact Hqy|].
    { rewrite Hend by (rewrite Hd; by destruct l'). by rewrite Hd, last_snoc. }
    apply wp_ret, wp_set_tape. rewrite Hf.
    split; [|split].
    + eapply shape_move; [exact Hs|exact Hc|done|..]; cbn; try (fn; done).
      * intros i ??. by fn.
      * intros i. destruct (decide (i = d)) as [->|]; fn; cbn.
        { rewrite Hd. eapply chain_snoc; [rewrite <- Hd; apply Hs|rewrite <- Hd; by apply Hx|exact Hq|].
          rewrite <- Hd. apply Hs. }
        destruct (decide (i = c)) as [->|]; fn; cbn; apply chain_insert; [|done| |apply Hs].
        { intros Hyl. apply (Hy c); [done|]. rewrite Hc. by right. }
        { by apply Hy. }
      * intros z Hz. apply lookup_insert_ne. intros <-. apply Hz. by apply (sh_in s ls Hs d).
    + intros _. cbn. fn. cbn. by rewrite last_snoc.
    + intros i ??. cbn. by fn.
Qed.

(** ** Merging runs *)

Variable compare : loc -> loc -> option Z.
Variable cmp : loc -> loc -> Z.
Hypothesis compare_on : forall a b, a ∈ all -> b ∈ all -> compare a b = Some (cmp a b).
Definition cmp_le (a b : loc) : Prop := cmp a b <= 0.
#[local] Instance cmp_le_dec a b : Decision (cmp_le a b) := Z_le_dec _ _.

Lemma run_part_nil n (r rest : list loc) k : run_part n r rest -> k = Z.of_nat (length (r ++ rest)) ->
  (n = 0 \/ k = 0 <-> r = []).
Proof.
  intros [Hle Hn] ->. rewrite length_app. split.
  - intros H. apply nil_length_inv. lia.
  - intros ->. cbn in *. destruct Hn as [?| ->]; [left; lia|by right].
Qed.

Lemma run_part_cons n (x : loc) r rest : run_part n (x :: r) rest -> run_part (n - 1) r rest.
Proof. unfold run_part. cbn [length]. intros [? [?| ->]]; (split; [lia|]); [left; lia|by right]. Qed.

Lemma wp_choose s ls t0 t1 n0 n1 r0 r1 a b :
  shape s ls -> ls t0 = r0 ++ a -> ls t1 = r1 ++ b -> run_part n0 r0 a -> run_part n1 r1 b ->
  wp (choose compare t0 t1 n0 n1)
     (fun c s' => s' = s /\
        c = match r0, r1 with
            | [], [] => None
            | [], _ => Some (t1, n0, n1 - 1)
            | _, [] => Some (t0, n0 - 1, n1)
            | x :: _, y :: _ => if decide (cmp_le x y) then Some (t0, n0 - 1, n1) else Some (t1, n0, n1 - 1)
            end) s.
Proof.
  intros Hs E0 E1 R0 R1. unfold choose. step. apply wp_get_tape. step. apply wp_get_tape.
  pose proof (sh_count s ls Hs t0) as C0. pose proof (sh_count s ls Hs t1) as C1. rewrite E0 in C0. rewrite E1 in C1.
  pose proof (run_part_nil _ _ _ _ R0 C0) as N0. pose proof (run_part_nil _ _ _ _ R1 C1) as N1.
  pose proof (sh_chain s ls Hs t0) as F0. pose proof (sh_chain s ls Hs t1) as F1. rewrite E0 in F0. rewrite E1 in F1.
  destruct r0 as [|x r0], r1 as [|y r1].
  - rewrite decide_True by naive_solver. rewrite decide_True by naive_solver. by apply wp_ret.
  - rewrite decide_True by naive_solver. rewrite decide_False by naive_solver. by apply wp_ret.
  - rewrite decide_False by naive_solver. rewrite decide_True by naive_solver. by apply wp_ret.
  - rewrite decide_False by naive_solver. rewrite decide_False by naive_solver.
    destruct F0 as [F0 _], F1 as [F1 _].
    step. eapply wp_need; [exact F0|]. step. eapply wp_need; [exact F1|].
    step. eapply wp_need; [apply compare_on; [apply (sh_in s ls Hs t0); rewrite E0|apply (sh_in s ls Hs t1); rewrite E1]; by left|].
    unfold cmp_le. destruct (decide (0 < cmp x y)), (decide (cmp x y <= 0)); try lia; by apply wp_ret.
Qed.

(** What merging does: [t0] and [t1] keep [a] and [b], and [d] ends in [o]. *)
Definition merged (s : sorter) (ls : nat -> list loc) (t0 t1 d : nat) (a b o : list loc) (s' : sorter) : Prop :=
  exists ls', shape s' ls' /\ ended s' ls' d /\ ls' t0 = a /\ ls' t1 = b /\ ls' d = ls d ++ o /\
    forall i, i <> t0 -> i <> t1 -> i <> d -> ls' i = ls i /\ so_tape s' i = so_tape s i.

(** One record is moved, and the rest is merged. *)
Lemma wp_merge_step t0 t1 d (m : M sorter unit) s ls c x r0 r1 a b o :
  t0 <> t1 -> t0 <> d -> t1 <> d -> (c = t0 \/ c = t1) -> shape s ls -> ended s ls d ->
  ls c = x :: (if decide (c = t0) then r0 ++ a else r1 ++ b) ->
  (c = t0 -> ls t1 = r1 ++ b) -> (c = t1 -> ls t0 = r0 ++ a) ->
  (forall s ls, shape s ls -> ended s ls d -> ls t0 = r0 ++ a -> ls t1 = r1 ++ b ->
    wp m (fun _ s' => merged s ls t0 t1 d a b o s') s) ->
  wp (move_record c d ;; m) (fun _ s' => merged s ls t0 t1 d a b (x :: o) s') s.
Proof.
  intros D01 D0 D1 Hc Hs He E H0 H1 IH. step.
  eapply wp_mono; [eapply wp_move_record; [done|exact E|naive_solver|done]|].
  intros _ s' (Hs' & He' & Hk). eapply wp_mono; [apply (IH s' _ Hs' He')|].
  - destruct Hc as [->| ->]; fn; [by rewrite decide_True|auto].
  - destruct Hc as [->| ->]; fn; [auto|by rewrite decide_False].
  - intros _ s2 (ls2 & Hs2 & He2 & Ea & Eb & Ed & Hk2). exists ls2. split_and!; [done..| |].
    + rewrite Ed. fn. by rewrite <- app_assoc.
    + intros i ???. destruct (Hk2 i) as [-> ->]; [done..|]. fn. rewrite Hk; naive_solver.
Qed.

Lemma wp_merge_runs fuel s ls t0 t1 d n0 n1 r0 r1 a b :
  t0 <> t1 -> t0 <> d -> t1 <> d ->
  shape s ls -> ended s ls d -> ls t0 = r0 ++ a -> ls t1 = r1 ++ b -> run_part n0 r0 a -> run_part n1 r1 b ->
  (length r0 + length r1 <= fuel)%nat ->
  wp (merge_runs compare fuel t0 t1 d n0 n1) (fun _ s' => merged s ls t0 t1 d a b (list_merge cmp_le r0 r1) s') s.
Proof.
  intros D01 D0 D1. revert s ls n0 n1 r0 r1.
  induction fuel as [|fuel IH]; intros s ls n0 n1 r0 r1 Hs He E0 E1 R0 R1 Hf; cbn [merge_runs];
    (step; eapply wp_mono; [by eapply wp_choose|]); intros c s' [-> ->].
  - destruct r0, r1; cbn in Hf; try lia. apply wp_ret. exists ls. cbn. rewrite app_nil_r. split_and!; done.
  - destruct r0 as [|x r0], r1 as [|y r1]; cbn in Hf.
    + apply wp_ret. exists ls. cbn. rewrite app_nil_r. split_and!; done.
    + rewrite list_merge_nil_l. apply (wp_merge_step t0 t1 d _ _ _ _ _ [] r1); [done|done|done|by right|done|done|by rewrite decide_False|done|done|].
      intros s2 ls2 ????. rewrite <- (list_merge_nil_l cmp_le r1). apply run_part_cons in R1. eapply IH; try done. cbn. lia.
    + rewrite list_merge_nil_r. apply (wp_merge_step t0 t1 d _ _ _ _ _ r0 []); [done|done|done|by left|done|done|by rewrite decide_True|done|done|].
      intros s2 ls2 ????. rewrite <- (list_merge_nil_r cmp_le r0). apply run_part_cons in R0. eapply IH; try done. cbn. lia.
    + rewrite list_merge_cons. case_decide.
      * apply (wp_merge_step t0 t1 d _ _ _ _ _ r0 (y :: r1)); [done|done|done|by left|done|done|by rewrite decide_True|done|done|].
        intros s2 ls2 ????. apply run_part_cons in R0. eapply IH; try done. cbn. lia.
      * apply (wp_merge_step t0 t1 d _ _ _ _ _ (x :: r0) r1); [done|done|done|by right|done|done|by rewrite decide_False|done|done|].
        intros s2 ls2 ????. apply run_part_cons in R1. eapply IH; try done. cbn. lia.
Qed.

Abbreviation runs := (runs cmp_le).
Abbreviation pairs := (pairs (list_merge cmp_le)).

Lemma merge_tapes_end s ls t0 : shape s ls -> (tp_count (so_tape s t0) = 0 <-> ls t0 = []).
Proof.
  intros Hs. rewrite (sh_count s ls Hs). split; [intros H; apply nil_length_inv; lia|by intros ->].
Qed.

Lemma wp_merge_tapes fuel s ls t0 t1 d e B rs :
  t0 <> t1 -> t0 <> d -> t1 <> d -> t0 <> e -> t1 <> e -> d <> e -> Nat.lxor d 1 = e -> Nat.lxor e 1 = d ->
  shape s ls -> ended s ls d -> ended s ls e -> ls t0 = (deal rs).1 -> ls t1 = (deal rs).2 -> runs B rs ->
  (length (ls t0) <= fuel)%nat ->
  wp (merge_tapes compare fuel t0 t1 d (Z.of_nat B))
     (fun _ s' => exists ls', shape s' ls' /\ ended s' ls' d /\ ended s' ls' e /\
        ls' d = ls d ++ (deal (pairs rs)).1 /\ ls' e = ls e ++ (deal (pairs rs)).2) s.
Proof.
  revert fuel s ls d e. induction rs as [rs IH] using (induction_ltof1 _ length).
  intros fuel s ls d e D01 D0 D1 E0 E1 Dde X1 X2 Hs Hed Hee L0 L1 Hr Hf.
  pose proof (merge_tapes_end s ls t0 Hs) as Hend.
  destruct fuel as [|fuel]; cbn [merge_tapes]; (step; apply wp_get_tape); (step; apply wp_get_tape).
  { rewrite decide_True by (apply Hend, nil_length_inv; lia). apply wp_ret.
    rewrite (deal_first_nil _ _ _ Hr) by (rewrite <- L0; apply nil_length_inv; lia).
    exists ls. cbn. rewrite !app_nil_r. done. }
  destruct rs as [|r0 rs].
  { rewrite decide_True by (apply Hend; by rewrite L0). apply wp_ret. exists ls. cbn. rewrite !app_nil_r. done. }
  destruct (deal_parts _ (list_merge cmp_le) B r0 rs Hr) as (r1 & rs' & Hrs & Hrs0 & F0 & F1 & P0 & P1 & Hr' & Hp).
  apply runs_inv in Hr as (Hne & _). rewrite F0 in L0. rewrite F1 in L1.
  rewrite decide_False by (rewrite Hend, L0; by destruct r0).
  step. eapply wp_mono; [eapply wp_merge_runs; [done|done|done|done|done|exact L0|exact L1|done|done|]|].
  { rewrite !(sh_count s ls Hs), L0, L1, !length_app. lia. }
  intros _ s1 (ls1 & Hs1 & Hed1 & G0 & G1 & Gd & Hk). destruct (Hk e) as [Ke Te]; [done..|]. rewrite X1.
  eapply wp_mono; [eapply (IH rs' _ fuel s1 ls1 e d); try done|].
  - intros Hn. rewrite Te, Ke in *. by apply Hee.
  - rewrite G0. rewrite L0, length_app in Hf. destruct r0; [done|]. cbn in Hf. lia.
  - intros _ s2 (ls2 & Hs2 & Hee2 & Hed2 & Ge2 & Gd2). exists ls2. rewrite Hp. cbn [deal fst snd].
    split_and!; [done..| |by rewrite Ge2, Ke]. by rewrite Gd2, Gd, app_assoc.
  Unshelve. unfold ltof. destruct rs; [destruct Hrs0 as [_ ->]; [done|cbn; lia]|]. injection Hrs as -> ->. cbn. lia.
Qed.

Lemma shape_reset s ls i : shape s ls ->
  shape {| so_next := so_next s; so_tape := <[i := set_count 0 (so_tape s i)]> (so_tape s) |} (<[i := []]> ls).
Proof.
  intros Hs. assert (forall j x, x ∈ <[i := []]> ls j -> x ∈ ls j) as Hin.
  { intros j x. destruct (decide (j = i)) as [->|]; fn; [by intros ?%elem_of_nil|done]. }
  split; cbn.
  - intros j. destruct (decide (j = i)) as [->|]; fn; [done|apply Hs].
  - intros j. destruct (decide (j = i)) as [->|]; fn; [done|apply Hs].
  - intros j. destruct (decide (j = i)) as [->|]; fn; [constructor|apply Hs].
  - intros j k x Hjk Hj%Hin Hk%Hin. by apply (sh_apart s ls Hs j k x).
  - intros j x Hj%Hin. by apply (sh_in s ls Hs j).
  - apply Hs.
Qed.

Hypothesis le_total : forall a b, cmp_le a b \/ cmp_le b a.
#[local] Instance cmp_le_Total : Total cmp_le := le_total.

#[local] Instance list_merge_Merges : Merges cmp_le (list_merge cmp_le).
Proof. split; [intros; apply merge_Permutation|intros; by apply Sorted_list_merge]. Qed.

Lemma wp_merge_passes fuel s ls base B rs :
  base = 0%nat \/ base = 2%nat -> shape s ls -> ls base = (deal rs).1 -> ls (base + 1)%nat = (deal rs).2 ->
  runs B rs -> (length rs <= S fuel)%nat ->
  wp (merge_passes compare fuel base (Z.of_nat B))
     (fun base' s' => exists ls', shape s' ls' /\ Sorted cmp_le (ls' base') /\ ls' base' ≡ₚ concat rs /\
        (ended s ls base \/ (1 < length rs)%nat -> ended s' ls' base') /\
        ((length rs <= 1)%nat -> s' = s /\ ls' = ls /\ base' = base)) s.
Proof.
  revert s ls base B rs. induction fuel as [|fuel IH]; intros s ls base B rs Hb Hs L0 L1 Hr Hf;
    pose proof (merge_tapes_end s ls (base + 1) Hs) as Hend; rewrite L1 in Hend;
    cbn [merge_passes]; (step; apply wp_get_tape); (step; apply wp_get_tape).
  all: assert (tp_count (so_tape s (base + 1)) = 0 -> exists ls', shape s ls' /\ Sorted cmp_le (ls' base) /\
    ls' base ≡ₚ concat rs /\ (ended s ls base \/ (1 < length rs)%nat -> ended s ls' base) /\
    ((length rs <= 1)%nat -> s = s /\ ls' = ls /\ base = base)) as Hdone.
  1, 3: intros (Hsort & Hc & Hl)%Hend%(deal_one_run _ _ _ Hr); exists ls; rewrite L0, Hc in *;
    split_and!; [done|done|done|intros [?|?]; [done|lia]|done].
  { rewrite decide_True by (destruct rs as [|r0 [|r1 rs]]; [by apply Hend|by apply Hend|cbn in Hf; lia]).
    apply wp_ret. apply Hdone, Hend. destruct rs as [|r0 [|r1 rs]]; [done|done|cbn in Hf; lia]. }
  case_decide as Hd; [by apply wp_ret, Hdone|]. clear Hdone.
  assert (2 <= length rs)%nat as Hl2. { destruct rs as [|? [|??]]; cbn; [by rewrite Hend in Hd|by rewrite Hend in Hd|lia]. }
  step. apply wp_get_tape. step. apply wp_set_tape. step. apply wp_get_tape. step. apply wp_set_tape.
  set (d := Nat.lxor base 2). cbn [so_next so_tape].
  pose proof (shape_reset _ _ (d + 1) (shape_reset _ _ d Hs)) as Hs1. cbn [so_next so_tape] in Hs1.
  step. rewrite (sh_count s ls Hs), Nat2Z.id.
  eapply wp_mono; [eapply (wp_merge_tapes _ _ _ base (base + 1) d (d + 1)); [..|exact Hs1| | | | |exact Hr|];
    subst d; destruct Hb as [->| ->]; cbn [Nat.add Nat.lxor] in *; try done; try (by fn); intros []; by fn|].
  intros _ s2 (ls2 & Hs2 & Hed2 & Hee2 & G0 & G1).
  assert (u64 (Z.shiftl (Z.of_nat B) 1) = Z.of_nat (B + B)) as ->.
  { rewrite Z.shiftl_mul_pow2 by lia. unfold u64. rewrite Z.mod_small; [lia|].
    pose proof (shape_small s ls base Hs) as Hsm. rewrite L0 in Hsm.
    destruct rs as [|r0 rs]; [cbn in Hl2; lia|]. apply runs_inv in Hr as (_ & _ & _ & [E| ->] & _); [|cbn in Hl2; lia].
    cbn in Hsm. rewrite length_app in Hsm. lia. }
  eapply wp_mono; [eapply (IH s2 ls2 d (B + B)%nat (pairs rs)); [..|apply (pairs_runs _ _ B _ Hr)|]|].
  - subst d. destruct Hb as [->| ->]; [by right|by left].
  - done.
  - rewrite G0. subst d. destruct Hb as [->| ->]; by fn.
  - rewrite G1. subst d. destruct Hb as [->| ->]; by fn.
  - pose proof (pairs_length (list_merge cmp_le) rs). lia.
  - intros b' s3 (ls3 & Hs3 & Hsort & Hp & He & _). exists ls3. split_and!; [done|done| |auto|lia].
    rewrite Hp. apply (pairs_perm cmp_le), _.
Qed.

(** ** Distributing the records *)

(** A record that is on no tape becomes the first of the tape [b]. *)
Lemma shape_push s ls b x q : shape s ls -> so_next s !! x = Some q -> x ∈ all -> (forall i, x ∉ ls i) ->
  shape {| so_next := <[x := tp_first (so_tape s b)]> (so_next s);
           so_tape := <[b := {| tp_first := Some x; tp_last := tp_last (so_tape s b);
                                tp_count := u64 (tp_count (so_tape s b) + 1) |}]> (so_tape s) |}
        (<[b := x :: ls b]> ls).
Proof.
  intros Hs Hq Hall Hx.
  assert (forall i y, y ∈ <[b := x :: ls b]> ls i -> (y ∈ ls i /\ y <> x) \/ (i = b /\ y = x)) as Hin.
  { intros i y. destruct (decide (i = b)) as [->|]; fn; rewrite ?elem_of_cons; [intros [->|?]; [by right|]|intros ?];
      (left; split; [done|intros ->; by eapply Hx]). }
  split; cbn.
  - intros i. destruct (decide (i = b)) as [->|]; fn; cbn; [|apply Hs].
    rewrite (sh_count s ls Hs). pose proof (shape_small s ls b Hs). unfold u64. rewrite Z.mod_small; lia.
  - intros i. destruct (decide (i = b)) as [->|]; fn; cbn.
    + split; [done|]. eexists. rewrite lookup_insert_eq. split; [done|]. apply chain_insert; [done|apply Hs].
    + apply chain_insert; [done|apply Hs].
  - intros i. destruct (decide (i = b)) as [->|]; fn; [apply list.NoDup_cons; split; [done|apply Hs]|apply Hs].
  - intros i j y Hij Hi Hj.
    apply Hin in Hi as [[Hi ?]|[? ?]], Hj as [[Hj ?]|[? ?]]; [by apply (sh_apart s ls Hs i j y)|congruence..].
  - intros i y [[Hi _]|[? ->]]%Hin; [by apply (sh_in s ls Hs i)|done].
  - intros y Hy. rewrite lookup_insert_ne by (intros <-; done). by apply Hs.
Qed.

(** The two tapes during the distribution: each properly ended, and as long as one
    another, but for the record just put on the first. *)
Definition dealt (s : sorter) (ls : nat -> list loc) (base : nat) : Prop :=
  shape s ls /\ linked (so_next s) (tp_first (so_tape s 0)) (ls 0%nat) /\
  linked (so_next s) (tp_first (so_tape s 1)) (ls 1%nat) /\
  ((base = 0%nat /\ length (ls 0%nat) = length (ls 1%nat)) \/
   (base = 1%nat /\ length (ls 0%nat) = S (length (ls 1%nat)))).

Lemma dealt_push s ls base x q : dealt s ls base -> so_next s !! x = Some q -> x ∈ all -> (forall i, x ∉ ls i) ->
  dealt {| so_next := <[x := tp_first (so_tape s base)]> (so_next s);
           so_tape := <[base := {| tp_first := Some x; tp_last := tp_last (so_tape s base);
                                   tp_count := u64 (tp_count (so_tape s base) + 1) |}]> (so_tape s) |}
        (<[base := x :: ls base]> ls) (Nat.lxor base 1).
Proof.
  intros (Hs & Hl0 & Hl1 & Hb) Hq Hall Hx. split; [by eapply shape_push|]. cbn.
  destruct Hb as [[-> Hb]|[-> Hb]]; fn; cbn; (split_and!; [..|lia]);
    repeat split; try (by apply linked_insert); eexists; rewrite lookup_insert_eq; (split; [done|]); by apply linked_insert.
Qed.

Lemma wp_distribute fuel s ls p base l : (length l <= fuel)%nat ->
  dealt s ls base -> linked (so_next s) p l -> NoDup l -> (forall x, x ∈ l -> x ∈ all /\ forall i, x ∉ ls i) ->
  wp (distribute fuel p base)
     (fun _ s' => exists ls' base', dealt s' ls' base' /\ ls' 0%nat ++ ls' 1%nat ≡ₚ l ++ ls 0%nat ++ ls 1%nat) s.
Proof.
  revert s ls p base l. induction fuel as [|fuel IH]; intros s ls p base [|x l] Hf Hd Hl Hnd Hin;
    cbn in Hf; try lia; cbn in Hl; [subst p..|destruct Hl as (-> & q & Hq & Hl)]; cbn [distribute].
  1, 2: apply wp_ret; exists ls, base; done.
  apply list.NoDup_cons in Hnd as [Hxl Hnd]. destruct (Hin x) as [Hall Hx]; [by left|].
  step. eapply wp_get_next; [done|exact Hq|]. step. apply wp_get_tape. step. eapply wp_set_next; [done|exact Hq|].
  step. apply wp_set_tape. pose proof (dealt_push s ls base x q Hd Hq Hall Hx) as Hd'.
  eapply wp_mono; [eapply (IH _ _ q _ l); [lia|exact Hd'| |done|]|].
  - by apply linked_insert.
  - intros y Hy. destruct (Hin y) as [? Hyi]; [by right|]. split; [done|]. intros i.
    destruct (decide (i = base)) as [->|]; fn; [|done]. apply not_elem_of_cons. split; [by intros ->|done].
  - intros _ s' (ls' & b' & Hd2 & Hp). exists ls', b'. split; [done|]. rewrite Hp.
    destruct Hd as (_ & _ & _ & [[-> _]|[-> _]]); fn; cbn [app]; by rewrite <- !Permutation_middle.
Qed.
End Tapes.

(** ** The sort *)

Lemma zeroed_dealt all s :
  dealt all (so_next s) {| so_next := so_next s; so_tape := fun _ => zero_tape |} (fun _ => []) 0.
Proof.
  split; [|split_and!; [done|done|by left]].
  split; cbn; try done; [intros; constructor|intros i j x _ []%elem_of_nil|intros i x []%elem_of_nil].
Qed.

Lemma wp_sort_linked_list compare cmp l `{!Compares (.∈ l) compare cmp} fuel s p :
  linked (so_next s) p l -> NoDup l -> Z.of_nat (length l) < 2 ^ 63 -> (length l <= fuel)%nat ->
  wp (sort_linked_list compare fuel p)
     (fun r s' => exists l', linked (so_next s') r.1 l' /\ l' ≡ₚ l /\ StronglySorted (fun a b => cmp a b <= 0) l' /\
        r.2 = Z.of_nat (length l) /\ forall x, x ∉ l -> so_next s' !! x = so_next s !! x) s.
Proof.
  intros Hl Hnd Hsm Hf. unfold sort_linked_list. pose proof compares_order as HC.
  assert (Transitive (cmp_le cmp)) as Htr by (intros a b c; apply cmp_trans).
  assert (forall a b, cmp_le cmp a b \/ cmp_le cmp b a) as Htot.
  { intros a b. unfold cmp_le. rewrite (cmp_flip b a). lia. }
  step. intros _. step. pose proof (zeroed_dealt l s) as Hz.
  eapply wp_mono; [eapply (wp_distribute l (so_next s) Hsm _ _ _ _ _ l); [done|exact Hz|done|done|]|].
  { intros x Hx. split; [done|]. intros _. by intros ?%elem_of_nil. }
  intros _ s1 (ls1 & b1 & (Hs1 & Hl0 & _ & Hb) & Hp). cbn [app] in Hp. rewrite app_nil_r in Hp.
  destruct (deal_singles (cmp_le cmp) (ls1 0%nat) (ls1 1%nat)) as (rs & Hdeal & Hrs & Hlen).
  { destruct Hb as [[_ ?]|[_ ?]]; [by left|by right]. }
  assert (length l = length rs) as Hll by (rewrite <- Hp, length_app; lia).
  assert (concat rs ≡ₚ l) as Hcp by (rewrite <- deal_perm, Hdeal; exact Hp).
  step. eapply wp_mono; [eapply (wp_merge_passes l (so_next s) Hsm compare cmp compares_on Htot fuel s1 ls1 0 1 rs);
    [by left|done|by rewrite Hdeal|by rewrite Hdeal|done|lia]|].
  intros base s2 (ls2 & Hs2 & Hsort & Hp2 & He & Hone).
  step. apply wp_get_tape. step.
  assert (tp_count (so_tape s2 base) = Z.of_nat (length l)) as Hcnt by (rewrite (sh_count _ _ _ _ Hs2), Hp2, Hcp; done).
  assert (StronglySorted (fun a b => cmp a b <= 0) (ls2 base)) as Hss by (by apply Sorted_StronglySorted).
  rewrite Hcnt. case_decide as Hgt.
  - destruct (last_snoc_cases (ls2 base)) as [Hn|(l' & y & Hy)].
    { rewrite Hn in Hp2. rewrite <- Hp2 in Hcp. apply Permutation_nil in Hcp. subst l. cbn in Hgt. lia. }
    destruct (shape_next _ _ s2 ls2 base y Hs2) as [q Hq]; [rewrite Hy; set_solver|].
    eapply wp_set_next; [|exact Hq|].
    { assert (ended s2 ls2 base) as -> by (apply He; right; lia); [by rewrite Hy, last_snoc|rewrite Hy; by destruct l']. }
    apply wp_ret. exists (ls2 base). cbn. split_and!; [|by rewrite Hp2|done|done|].
    + rewrite Hy. apply chain_end; rewrite <- Hy; apply Hs2.
    + intros x Hx. rewrite lookup_insert_ne; [by apply Hs2|]. intros <-. apply Hx.
      apply (sh_in _ _ _ _ Hs2 base). rewrite Hy. set_solver.
  - destruct Hone as (-> & -> & ->); [lia|]. apply wp_ret, wp_ret. exists (ls1 0%nat).
    split_and!; [done|by rewrite Hp2|done|done|]. intros x Hx. by apply Hs1.
Qed.

(** Sort_linked_list sorts.  Given the first record of a list it returns the
    first record of a list of the same records in ascending order, ended by NULL,
    and their number; no other record of the heap is touched. *)
Theorem sort_linked_list_sorts compare cmp l `{!Compares (.∈ l) compare cmp} fuel s p :
  linked (so_next s) p l -> NoDup l -> Z.of_nat (length l) < 2 ^ 63 -> (length l <= fuel)%nat ->
  wp (sort_linked_list compare fuel p)
     (fun r s' => exists l', linked (so_next s') r.1 l' /\ l' ≡ₚ l /\ StronglySorted (fun a b => cmp a b <= 0) l' /\
        r.2 = Z.of_nat (length l) /\ forall x, x ∉ l -> so_next s' !! x = so_next s !! x) s.
Proof. exact (wp_sort_linked_list compare cmp l fuel s p). Qed.

(** The sort runs on a list of three records, in the order of their addresses. *)
Lemma sort_linked_list_sorts_witness :
  let s := {| so_next := {[3%positive := Some 1%positive; 1%positive := Some 2%positive; 2%positive := None]};
              so_tape := fun _ => zero_tape |} in
  wp (sort_linked_list (fun a b => Some (Z.pos a - Z.pos b)) 3 (Some 3%positive))
     (fun r s' => exists l', linked (so_next s') r.1 l' /\ l' ≡ₚ [3; 1; 2]%positive /\
        StronglySorted (fun a b => Z.pos a - Z.pos b <= 0) l' /\
        r.2 = 3 /\ forall x, x ∉ [3; 1; 2]%positive -> so_next s' !! x = so_next s !! x) s.
Proof.
  intros s.
  assert (Compares (.∈ [3; 1; 2]%positive) (fun a b => Some (Z.pos a - Z.pos b)) (fun a b => Z.pos a - Z.pos b)) as HC
    by (split; [split; intros; lia|done]).
  apply (sort_linked_list_sorts (fun a b => Some (Z.pos a - Z.pos b)) (fun a b => Z.pos a - Z.pos b) [3; 1; 2]%positive).
  - repeat (split; [done|]; eexists; split; [reflexivity|]). done.
  - by apply (bool_decide_unpack _).
  - done.
  - cbn. lia.
Defined.
