(* ===== verification/Bitfield.v ===== *)
(** * Bitfield: the fixed-width big-endian fields of the file format

    Models src/bitfield.h, src/byteswap.c and the byte-order macros of
    config_static.h on a little-endian host.  A [raw_NN] struct is its array
    of bytes; reading or writing one goes through the memory image of a native
    integer, as the DECODE_RAW and ENCODE_RAW macros do. *)

From Stdlib Require Import ZArith Lia.
From S2P Require Import Prelude.
From stdpp Require Import list numbers.

#[local] Open Scope Z_scope.

(** couchstore_byteswap64: eight rounds of [ret = ret << 8 | (val & 0xff)]. *)
Fixpoint byteswap_loop (n : nat) (val ret : Z) : Z :=
  match n with
  | O => ret
  | S n' =>
      byteswap_loop n' (Z.shiftr val 8)
        (u64 (Z.lor (u64 (Z.shiftl ret 8)) (Z.land val 255)))
  end.
Definition couchstore_byteswap64 (val : Z) : Z := byteswap_loop 8 val 0.

(** htons/htonl and htonll on a little-endian host: the integer whose memory
    image is the big-endian image of the argument. *)
Definition htons (v : Z) : Z := le_val (be_bytes 2 v).
Definition ntohs (v : Z) : Z := htons v.
Definition htonl (v : Z) : Z := le_val (be_bytes 4 v).
Definition ntohl (v : Z) : Z := htonl v.
Definition htonll (v : Z) : Z := couchstore_byteswap64 v.
Definition ntohll (v : Z) : Z := htonll v.

(** The macros, over the size of the native integer and its flip function. *)
Definition DECODE_RAW (size : nat) (FLIP_FN : Z -> Z) (raw : bytes) : Z :=
  FLIP_FN (le_val (replicate (size - length raw) Byte.x00 ++ raw)).
Definition ENCODE_RAW (size raw_size : nat) (FLIP_FN : Z -> Z) (value : Z) : bytes :=
  drop (size - raw_size) (le_bytes size (FLIP_FN value)).

Definition decode_raw08 (raw : bytes) : Z := b2z (nth 0 raw Byte.x00).
Definition decode_raw16 (raw : bytes) : Z := DECODE_RAW 2 ntohs raw.
Definition decode_raw24 (raw : bytes) : Z := DECODE_RAW 4 ntohl raw.
Definition decode_raw32 (raw : bytes) : Z := DECODE_RAW 4 ntohl raw.
Definition decode_raw40 (raw : bytes) : Z := DECODE_RAW 8 ntohll raw.
Definition decode_raw48 (raw : bytes) : Z := DECODE_RAW 8 ntohll raw.
Definition decode_raw64 (raw : bytes) : Z := DECODE_RAW 8 ntohll raw.

Definition encode_raw08 (value : Z) : bytes := ENCODE_RAW 1 1 (fun v => v) (u8 value).
Definition encode_raw16 (value : Z) : bytes := ENCODE_RAW 2 2 htons (u16 value).
Definition encode_raw32 (value : Z) : bytes := ENCODE_RAW 4 4 htonl (u32 value).
Definition encode_raw40 (value : Z) : bytes := ENCODE_RAW 8 5 htonll (u64 value).
Definition encode_raw48 (value : Z) : bytes := ENCODE_RAW 8 6 htonll (u64 value).
Definition encode_raw64 (value : Z) : bytes := ENCODE_RAW 8 8 htonll (u64 value).

(** ** The swap is the reversal of the memory image *)

Lemma byteswap_step ret val :
  0 <= ret < 2 ^ 56 ->
  u64 (Z.lor (u64 (Z.shiftl ret 8)) (Z.land val 255)) = ret * 256 + val mod 256.
Proof.
  intros Hr. unfold u64. change 255 with (Z.ones 8). rewrite Z.land_ones by lia.
  rewrite Z.shiftl_mul_pow2 by lia. rewrite (Z.mod_small (ret * 2 ^ 8)) by lia.
  pose proof (Z.mod_pos_bound val (2 ^ 8) eq_refl) as Hv.
  rewrite lor_high_low by lia. change (2 ^ 8) with 256 in *. rewrite Z.mod_small; lia.
Qed.

Lemma byteswap_loop_spec n val ret :
  0 <= ret -> ret < 256 ^ (8 - Z.of_nat n) -> (n <= 8)%nat ->
  byteswap_loop n val ret = ret * 256 ^ Z.of_nat n + le_val (be_bytes n val).
Proof.
  revert val ret. induction n as [|n IH]; intros val ret H0 Hr Hn.
  - cbn. unfold le_val, be_val. cbn. lia.
  - cbn [byteswap_loop].
    assert (256 ^ (8 - Z.of_nat (S n)) <= 256 ^ 7) by (apply Z.pow_le_mono_r; lia).
    rewrite byteswap_step by lia.
    pose proof (Z.mod_pos_bound val 256 eq_refl).
    assert (256 ^ (8 - Z.of_nat n) = 256 * 256 ^ (8 - Z.of_nat (S n))) as E.
    { rewrite <- Z.pow_succ_r by lia. f_equal. lia. }
    rewrite IH by lia. unfold le_val. cbn [be_bytes].
    rewrite reverse_snoc, be_val_cons, length_reverse, be_bytes_length, b2z_z2b, pow256_S.
    rewrite Z.shiftr_div_pow2 by lia. change (2 ^ 8) with 256. lia.
Qed.

Lemma htonll_spec v : htonll v = le_val (be_bytes 8 v).
Proof. unfold htonll, couchstore_byteswap64. rewrite byteswap_loop_spec by (cbn; lia). lia. Qed.

Lemma le_val_le_bytes n v : le_val (le_bytes n v) = v mod 256 ^ Z.of_nat n.
Proof. unfold le_val, le_bytes. rewrite reverse_involutive. apply be_val_be_bytes. Qed.

Lemma le_bytes_le_val bs : le_bytes (length bs) (le_val bs) = bs.
Proof.
  unfold le_val, le_bytes. rewrite <- (length_reverse bs), be_bytes_be_val.
  apply reverse_involutive.
Qed.

(** The memory image of [htonl v], and the integer read from four bytes. *)
Lemma htonl_image v : le_bytes 4 (htonl v) = be_bytes 4 v.
Proof.
  unfold htonl. pose proof (le_bytes_le_val (be_bytes 4 v)) as E.
  by rewrite be_bytes_length in E.
Qed.

Lemma ntohl_le_val y : length y = 4%nat -> ntohl (le_val y) = be_val y.
Proof.
  intros Hy. unfold ntohl, htonl, le_val. rewrite <- Hy, <- (length_reverse y), be_bytes_be_val.
  by rewrite reverse_involutive.
Qed.

Section Raw.
Variable size : nat.
Variable flip : Z -> Z.
Hypothesis flip_spec : forall v, flip v = le_val (be_bytes size v).

Lemma ENCODE_RAW_be n v : (n <= size)%nat -> ENCODE_RAW size n flip v = be_bytes n v.
Proof.
  intros Hn. unfold ENCODE_RAW. rewrite flip_spec.
  rewrite <- (be_bytes_length size v) at 2. rewrite le_bytes_le_val.
  rewrite <- (Nat.sub_add n size) at 2 by done. by rewrite be_bytes_drop.
Qed.

Lemma be_val_zeros k bs : be_val (replicate k Byte.x00 ++ bs) = be_val bs.
Proof.
  induction k as [|k IH]; [done|]. cbn [replicate app]. rewrite be_val_cons, IH.
  change (b2z Byte.x00) with 0. lia.
Qed.

Lemma DECODE_RAW_be raw : (length raw <= size)%nat -> DECODE_RAW size flip raw = be_val raw.
Proof.
  intros Hn. unfold DECODE_RAW. rewrite flip_spec.
  set (img := replicate (size - length raw) Byte.x00 ++ raw).
  assert (length img = size) as Hl by (unfold img; rewrite length_app, length_replicate; lia).
  replace (be_bytes size (le_val img)) with (reverse img).
  - unfold le_val. rewrite reverse_involutive. apply be_val_zeros.
  - rewrite <- Hl. unfold le_val.
    rewrite <- (length_reverse img). by rewrite be_bytes_be_val.
Qed.
End Raw.

(** What each field holds, stated on the big-endian layout. *)
Lemma encode_raw16_be v : encode_raw16 v = be_bytes 2 v.
Proof.
  unfold encode_raw16, u16. rewrite (ENCODE_RAW_be 2 htons) by done.
  apply (be_bytes_mod 2).
Qed.
Lemma encode_raw32_be v : encode_raw32 v = be_bytes 4 v.
Proof. unfold encode_raw32, u32. rewrite (ENCODE_RAW_be 4 htonl) by done. apply (be_bytes_mod 4). Qed.

Lemma be_bytes_u64 n v : (n <= 8)%nat -> be_bytes n (u64 v) = be_bytes n v.
Proof.
  intros Hn. rewrite <- (be_bytes_drop n (8 - n) (u64 v)), <- (be_bytes_drop n (8 - n) v).
  rewrite Nat.sub_add by done. unfold u64. by rewrite (be_bytes_mod 8).
Qed.

Lemma encode_raw40_be v : encode_raw40 v = be_bytes 5 v.
Proof.
  unfold encode_raw40. rewrite (ENCODE_RAW_be 8 htonll htonll_spec) by lia.
  apply be_bytes_u64. lia.
Qed.
Lemma encode_raw48_be v : encode_raw48 v = be_bytes 6 v.
Proof.
  unfold encode_raw48. rewrite (ENCODE_RAW_be 8 htonll htonll_spec) by lia.
  apply be_bytes_u64. lia.
Qed.
Lemma encode_raw64_be v : encode_raw64 v = be_bytes 8 v.
Proof.
  unfold encode_raw64. rewrite (ENCODE_RAW_be 8 htonll htonll_spec) by lia.
  apply be_bytes_u64. lia.
Qed.
Lemma encode_raw08_be v : encode_raw08 v = [z2b v].
Proof.
  unfold encode_raw08, ENCODE_RAW, le_bytes, u8. cbn. f_equal.
  apply b2z_inj. rewrite !b2z_z2b. by rewrite Z.mod_mod.
Qed.
Lemma decode_raw16_be r : length r = 2%nat -> decode_raw16 r = be_val r.
Proof. intros H. apply (DECODE_RAW_be 2 htons); [done|lia]. Qed.
Lemma decode_raw32_be r : length r = 4%nat -> decode_raw32 r = be_val r.
Proof. intros H. apply (DECODE_RAW_be 4 htonl); [done|lia]. Qed.
Lemma decode_raw40_be r : length r = 5%nat -> decode_raw40 r = be_val r.
Proof. intros H. apply (DECODE_RAW_be 8 htonll htonll_spec). lia. Qed.
Lemma decode_raw48_be r : length r = 6%nat -> decode_raw48 r = be_val r.
Proof. intros H. apply (DECODE_RAW_be 8 htonll htonll_spec). lia. Qed.
Lemma decode_raw64_be r : length r = 8%nat -> decode_raw64 r = be_val r.
Proof. intros H. apply (DECODE_RAW_be 8 htonll htonll_spec). lia. Qed.

Lemma encode_raw08_length v : length (encode_raw08 v) = 1%nat.
Proof. by rewrite encode_raw08_be. Qed.
Lemma encode_raw16_length v : length (encode_raw16 v) = 2%nat.
Proof. by rewrite encode_raw16_be, be_bytes_length. Qed.
Lemma encode_raw32_length v : length (encode_raw32 v) = 4%nat.
Proof. by rewrite encode_raw32_be, be_bytes_length. Qed.
Lemma encode_raw40_length v : length (encode_raw40 v) = 5%nat.
Proof. by rewrite encode_raw40_be, be_bytes_length. Qed.
Lemma encode_raw48_length v : length (encode_raw48 v) = 6%nat.
Proof. by rewrite encode_raw48_be, be_bytes_length. Qed.
Lemma encode_raw64_length v : length (encode_raw64 v) = 8%nat.
Proof. by rewrite encode_raw64_be, be_bytes_length. Qed.

Lemma decode_encode_raw08 v : decode_raw08 (encode_raw08 v) = v mod 2 ^ 8.
Proof. rewrite encode_raw08_be. cbn. apply b2z_z2b. Qed.
Lemma decode_encode_raw16 v : decode_raw16 (encode_raw16 v) = v mod 2 ^ 16.
Proof. rewrite decode_raw16_be by apply encode_raw16_length. rewrite encode_raw16_be. apply be_val_be_bytes. Qed.
Lemma decode_encode_raw32 v : decode_raw32 (encode_raw32 v) = v mod 2 ^ 32.
Proof. rewrite decode_raw32_be by apply encode_raw32_length. rewrite encode_raw32_be. apply be_val_be_bytes. Qed.
Lemma decode_encode_raw40 v : decode_raw40 (encode_raw40 v) = v mod 2 ^ 40.
Proof. rewrite decode_raw40_be by apply encode_raw40_length. rewrite encode_raw40_be. apply be_val_be_bytes. Qed.
Lemma decode_encode_raw48 v : decode_raw48 (encode_raw48 v) = v mod 2 ^ 48.
Proof. rewrite decode_raw48_be by apply encode_raw48_length. rewrite encode_raw48_be. apply be_val_be_bytes. Qed.
Lemma decode_encode_raw64 v : decode_raw64 (encode_raw64 v) = v mod 2 ^ 64.
Proof. rewrite decode_raw64_be by apply encode_raw64_length. rewrite encode_raw64_be. apply be_val_be_bytes. Qed.

Lemma encode_decode_raw48 r : length r = 6%nat -> encode_raw48 (decode_raw48 r) = r.
Proof.
  intros Hr. rewrite decode_raw48_be, encode_raw48_be by done.
  rewrite <- Hr. apply be_bytes_be_val.
Qed.

Lemma decode_raw48_range r : length r = 6%nat -> 0 <= decode_raw48 r < 2 ^ 48.
Proof. intros Hr. rewrite decode_raw48_be by done. pose proof (be_val_range r). by rewrite Hr in *. Qed.

#[export] Hint Rewrite encode_raw08_length encode_raw16_length encode_raw32_length
  encode_raw40_length encode_raw48_length encode_raw64_length : len.
