(* ===== verification/NodeTypes.v ===== *)
(** * NodeTypes: the records of the file format

    Models src/node_types.h and src/node_types.c, with [sized_buf] of
    couch_common.h and [node_pointer] of internal.h.  A [sized_buf] is the list
    of bytes it points to.  Reading a packed struct through a cast pointer is a
    [slice] per field, absent when the buffer is too short: the source performs
    no check, so absence is undefined behaviour of the caller. *)

From Stdlib Require Import ZArith Lia.
From S2P Require Import Prelude Bitfield.
From stdpp Require Import list numbers option.

#[local] Open Scope Z_scope.

(** ** Data *)

Record node_pointer : Type := {
  np_key : bytes;
  np_pointer : Z;
  np_reduce_value : bytes;
  np_subtreesize : Z
}.

(** raw_file_header: the fixed part, 25 bytes. *)
Record raw_file_header : Type := {
  rfh_version : bytes;
  rfh_update_seq : bytes;
  rfh_purge_seq : bytes;
  rfh_purge_ptr : bytes;
  rfh_seqrootsize : bytes;
  rfh_idrootsize : bytes;
  rfh_localrootsize : bytes
}.

(** raw_btree_root: 12 bytes, the reduce value follows. *)
Record raw_btree_root : Type := {
  rbr_pointer : bytes;
  rbr_subtreesize : bytes
}.

(** raw_node_pointer: 14 bytes, the reduce value follows. *)
Record raw_node_pointer : Type := {
  rnp_pointer : bytes;
  rnp_subtreesize : bytes;
  rnp_reduce_value_size : bytes
}.

(** raw_id_index_value: 23 bytes, the rev_meta follows. *)
Record raw_id_index_value : Type := {
  riv_db_seq : bytes;
  riv_size : bytes;
  riv_bp : bytes;
  riv_rev_seq : bytes;
  riv_content_meta : bytes
}.

(** raw_seq_index_value: 18 bytes, the id and the rev_meta follow. *)
Record raw_seq_index_value : Type := {
  rsv_sizes : bytes;
  rsv_bp : bytes;
  rsv_rev_seq : bytes;
  rsv_content_meta : bytes
}.

Definition sizeof_raw_file_header : nat := 25.
Definition sizeof_raw_btree_root : nat := 12.
Definition sizeof_raw_kv_length : nat := 5.
Definition sizeof_raw_node_pointer : nat := 14.
Definition sizeof_raw_by_seq_key : nat := 6.
Definition sizeof_raw_id_index_value : nat := 23.
Definition sizeof_raw_seq_index_value : nat := 18.

Definition BP_DELETED_FLAG : Z := 0x800000000000.

(** ** Struct overlays *)

Definition as_raw_file_header (b : bytes) : option raw_file_header :=
  v ← slice 0 1 b; us ← slice 1 6 b; ps ← slice 7 6 b; pp ← slice 13 6 b;
  ss ← slice 19 2 b; iz ← slice 21 2 b; ls ← slice 23 2 b;
  Some {| rfh_version := v; rfh_update_seq := us; rfh_purge_seq := ps; rfh_purge_ptr := pp;
          rfh_seqrootsize := ss; rfh_idrootsize := iz; rfh_localrootsize := ls |}.

Definition raw_file_header_bytes (h : raw_file_header) : bytes :=
  rfh_version h ++ rfh_update_seq h ++ rfh_purge_seq h ++ rfh_purge_ptr h ++
  rfh_seqrootsize h ++ rfh_idrootsize h ++ rfh_localrootsize h.

Definition as_raw_btree_root (b : bytes) : option raw_btree_root :=
  p ← slice 0 6 b; s ← slice 6 6 b;
  Some {| rbr_pointer := p; rbr_subtreesize := s |}.

Definition as_raw_node_pointer (b : bytes) : option raw_node_pointer :=
  p ← slice 0 6 b; s ← slice 6 6 b; r ← slice 12 2 b;
  Some {| rnp_pointer := p; rnp_subtreesize := s; rnp_reduce_value_size := r |}.

Definition as_raw_id_index_value (b : bytes) : option raw_id_index_value :=
  q ← slice 0 6 b; s ← slice 6 4 b; p ← slice 10 6 b; r ← slice 16 6 b; c ← slice 22 1 b;
  Some {| riv_db_seq := q; riv_size := s; riv_bp := p; riv_rev_seq := r; riv_content_meta := c |}.

Definition raw_id_index_value_bytes (v : raw_id_index_value) : bytes :=
  riv_db_seq v ++ riv_size v ++ riv_bp v ++ riv_rev_seq v ++ riv_content_meta v.

Definition as_raw_seq_index_value (b : bytes) : option raw_seq_index_value :=
  z ← slice 0 5 b; p ← slice 5 6 b; r ← slice 11 6 b; c ← slice 17 1 b;
  Some {| rsv_sizes := z; rsv_bp := p; rsv_rev_seq := r; rsv_content_meta := c |}.

Definition raw_seq_index_value_bytes (v : raw_seq_index_value) : bytes :=
  rsv_sizes v ++ rsv_bp v ++ rsv_rev_seq v ++ rsv_content_meta v.

(** ** Key and value lengths: 12 and 28 bits in five bytes *)

Definition decode_kv_length (kv : bytes) : Z * Z :=
  let b0 := b2z (nth 0 kv Byte.x00) in
  let b1 := b2z (nth 1 kv Byte.x00) in
  let klen := u16 (Z.lor (Z.shiftl b0 4) (Z.shiftr (Z.land b1 0xf0) 4)) in
  let vlen := Z.land (ntohl (le_val (take 4 (drop 1 kv)))) 0x0FFFFFFF in
  (klen, vlen).

Definition encode_kv_length (klen vlen : Z) : bytes :=
  let vb := le_bytes 4 (htonl vlen) in
  let k0 := z2b (Z.shiftr klen 4) in
  let k1 := z2b (Z.lor (b2z (nth 0 vb Byte.x00)) (Z.shiftl (Z.land klen 0xF) 4)) in
  k0 :: k1 :: drop 1 vb.

(** ** Entries of a node *)

(** The key, the value and the number of bytes consumed. *)
Definition read_kv (buf : bytes) : option (bytes * bytes * nat) :=
  kv ← slice 0 sizeof_raw_kv_length buf;
  let '(klen, vlen) := decode_kv_length kv in
  key ← slice sizeof_raw_kv_length (Z.to_nat klen) buf;
  value ← slice (sizeof_raw_kv_length + Z.to_nat klen) (Z.to_nat vlen) buf;
  Some (key, value, (sizeof_raw_kv_length + Z.to_nat klen + Z.to_nat vlen)%nat).

(** The bytes write_kv stores at its destination. *)
Definition write_kv (key value : bytes) : bytes :=
  encode_kv_length (u32 (blen key)) (u32 (blen value)) ++ key ++ value.

(** ** Roots *)

Definition read_root (buf : bytes) (size : nat) : option node_pointer :=
  raw ← as_raw_btree_root buf;
  if decide (sizeof_raw_btree_root <= size)%nat then
    red ← slice sizeof_raw_btree_root (size - sizeof_raw_btree_root) buf;
    Some {| np_key := [];
            np_pointer := decode_raw48 (rbr_pointer raw);
            np_reduce_value := red;
            np_subtreesize := decode_raw48 (rbr_subtreesize raw) |}
  else None.

(** What encode_root stores; its return value is the length. *)
Definition encode_root (node : option node_pointer) : bytes :=
  match node with
  | None => []
  | Some n => encode_raw48 (np_pointer n) ++ encode_raw48 (np_subtreesize n) ++ np_reduce_value n
  end.

Definition decode_sequence_key (buf : bytes) : option Z :=
  s ← slice 0 sizeof_raw_by_seq_key buf; Some (decode_raw48 s).

(** ** Lengths *)

Lemma encode_kv_length_length k v : length (encode_kv_length k v) = 5%nat.
Proof. unfold encode_kv_length, le_bytes. cbn -[be_bytes]. rewrite length_drop, length_reverse, be_bytes_length. done. Qed.

Lemma write_kv_length k v : length (write_kv k v) = (5 + length k + length v)%nat.
Proof. unfold write_kv. rewrite !length_app, encode_kv_length_length. lia. Qed.

#[export] Hint Rewrite encode_kv_length_length write_kv_length : len.

(** ** Round trips *)

Lemma slice_app_head (a b : bytes) n : length a = n -> slice 0 n (a ++ b) = Some a.
Proof. intros <-. rewrite slice_Some by solve_len. rewrite drop_0, take_app_length. done. Qed.

Lemma slice_app_skip (a b : bytes) off n :
  (length a <= off)%nat -> slice off n (a ++ b) = slice (off - length a) n b.
Proof.
  intros Ho. unfold slice. rewrite length_app, drop_app_ge by done.
  do 2 case_decide; try done; lia.
Qed.

Lemma slice_mid (a b c : bytes) off n :
  off = length a -> n = length b -> slice off n (a ++ b ++ c) = Some b.
Proof.
  intros -> ->. rewrite slice_app_skip by lia. rewrite Nat.sub_diag. by apply slice_app_head.
Qed.

Lemma slice_length off n b x : slice off n b = Some x -> length x = n.
Proof.
  unfold slice. case_decide; [|done]. intros [= <-]. rewrite length_take, length_drop. lia.
Qed.

Lemma kv_length_roundtrip k v :
  0 <= k < 2 ^ 12 -> 0 <= v < 2 ^ 28 -> decode_kv_length (encode_kv_length k v) = (k, v).
Proof.
  intros Hk Hv. unfold encode_kv_length.
  replace (le_bytes 4 (htonl v)) with (be_bytes 4 v)
    by (unfold htonl; rewrite <- (be_bytes_length 4 v) at 2; by rewrite le_bytes_le_val).
  cbn [be_bytes app nth drop]. set (k1 := z2b (Z.lor _ _)).
  assert (b2z k1 = (k mod 16) * 2 ^ 4 + v / 2 ^ 24) as Hk1.
  { unfold k1. rewrite !b2z_z2b. change 0xF with (Z.ones 4). rewrite Z.land_ones by lia.
    rewrite Z.shiftl_mul_pow2, Z.lor_comm by lia. rewrite !Z.div_div by lia.
    change (256 * (256 * 256)) with (2 ^ 24). change (2 ^ 4) with 16.
    assert (0 <= v / 2 ^ 24 < 2 ^ 4) by (split; [apply Z.div_pos|apply Z.div_lt_upper_bound]; lia).
    rewrite (Z.mod_small (v / 2 ^ 24) 256) by lia. change 16 with (2 ^ 4) at 2.
    rewrite lor_high_low by lia. pose proof (Z.mod_pos_bound k 16 eq_refl).
    apply Z.mod_small. lia. }
  assert (0 <= v / 2 ^ 24 < 16) as Hv24.
  { split; [apply Z.div_pos|apply Z.div_lt_upper_bound]; lia. }
  pose proof (Z.mod_pos_bound k 16 eq_refl) as Hk16.
  unfold decode_kv_length. cbn [nth drop take]. f_equal.
  - rewrite Hk1. rewrite b2z_z2b, Z.shiftr_land. change (Z.shiftr 0xf0 4) with (Z.ones 4).
    rewrite Z.land_ones, !Z.shiftr_div_pow2, Z.shiftl_mul_pow2 by lia.
    change (2 ^ 4) with 16 in *.
    replace ((k mod 16 * 16 + v / 2 ^ 24) / 16) with (k mod 16)
      by (apply Z.div_unique with (v / 2 ^ 24); lia).
    rewrite (Z.mod_small (k mod 16) 16) by lia.
    rewrite (Z.mod_small (k / 16) 256)
      by (split; [apply Z.div_pos|apply Z.div_lt_upper_bound]; lia).
    change (k / 16 * 16) with (k / 16 * 2 ^ 4). rewrite lor_high_low by lia.
    change (2 ^ 4) with 16. unfold u16. rewrite Z.mod_small; pose proof (Z.div_mod k 16); lia.
  - unfold ntohl, htonl. set (img := [k1; _; _; _]).
    assert (be_bytes 4 (le_val img) = reverse img) as ->
      by (unfold le_val; rewrite <- (be_bytes_be_val (reverse img)) at 2; done).
    unfold le_val. rewrite reverse_involutive. change 0x0FFFFFFF with (Z.ones 28).
    rewrite Z.land_ones by lia. unfold img, be_val. cbn [foldl]. rewrite Hk1, !b2z_z2b.
    rewrite !Z.div_div by lia. change (256 * 256) with (2 ^ 16).
    symmetry. apply Z.mod_unique with (k mod 16); [lia|].
    assert (v = v / 2 ^ 24 * 2 ^ 24 + (v / 2 ^ 16) mod 256 * 2 ^ 16 + (v / 256) mod 256 * 256 + v mod 256)
      by (Z.div_mod_to_equations; lia).
    lia.
Qed.

(** The limits of an entry: what the 12 and 28 bit lengths can express. *)
Definition kv_fits (k v : bytes) : Prop := blen k < 2 ^ 12 /\ blen v < 2 ^ 28.

Lemma read_kv_write_kv k v rest :
  kv_fits k v -> read_kv (write_kv k v ++ rest) = Some (k, v, length (write_kv k v)).
Proof.
  intros [Hk Hv]. unfold blen in *. unfold read_kv, write_kv, sizeof_raw_kv_length, u32, blen.
  rewrite !Z.mod_small by lia. rewrite <- !app_assoc.
  rewrite slice_app_head by apply encode_kv_length_length. cbn [mbind option_bind].
  rewrite kv_length_roundtrip by lia. rewrite !Nat2Z.id.
  set (e := encode_kv_length _ _).
  assert (length e = 5%nat) as He by apply encode_kv_length_length. clearbody e.
  rewrite (slice_mid e k (v ++ rest) 5 (length k)) by lia. cbn [mbind option_bind].
  rewrite (app_assoc e k), (slice_mid (e ++ k) v rest) by (rewrite ?length_app; lia).
  cbn [mbind option_bind]. rewrite !length_app, He. done.
Qed.

(** Peel the fields of a struct off a concatenation whose lengths are known. *)
Ltac slice_fields :=
  rewrite <- ?app_assoc;
  repeat first
    [ rewrite slice_app_head by (autorewrite with len; lia)
    | rewrite slice_app_skip by (autorewrite with len; lia);
      autorewrite with len;
      repeat match goal with H : length ?x = _ |- context [length ?x] => rewrite H end;
      cbn [Nat.sub] ];
  cbn [mbind option_bind].

Lemma read_root_encode_root n rest :
  0 <= np_pointer n < 2 ^ 48 -> 0 <= np_subtreesize n < 2 ^ 48 ->
  read_root (encode_root (Some n) ++ rest) (length (encode_root (Some n))) =
  Some {| np_key := []; np_pointer := np_pointer n;
          np_reduce_value := np_reduce_value n; np_subtreesize := np_subtreesize n |}.
Proof.
  intros Hp Hs. unfold read_root, encode_root, as_raw_btree_root, sizeof_raw_btree_root.
  slice_fields.
  rewrite decide_True by lia. cbn [rbr_pointer rbr_subtreesize].
  rewrite !decode_encode_raw48, !Z.mod_small by lia. done.
Qed.

(** The overlays invert the layouts, whatever follows the struct. *)
Lemma as_raw_id_index_value_bytes v rest :
  length (riv_db_seq v) = 6%nat -> length (riv_size v) = 4%nat -> length (riv_bp v) = 6%nat ->
  length (riv_rev_seq v) = 6%nat -> length (riv_content_meta v) = 1%nat ->
  as_raw_id_index_value (raw_id_index_value_bytes v ++ rest) = Some v.
Proof.
  destruct v as [q s p r c]. cbn. intros Hq Hs Hp Hr Hc.
  unfold as_raw_id_index_value, raw_id_index_value_bytes. cbn [riv_db_seq riv_size riv_bp riv_rev_seq riv_content_meta].
  by slice_fields.
Qed.

Lemma as_raw_seq_index_value_bytes v rest :
  length (rsv_sizes v) = 5%nat -> length (rsv_bp v) = 6%nat ->
  length (rsv_rev_seq v) = 6%nat -> length (rsv_content_meta v) = 1%nat ->
  as_raw_seq_index_value (raw_seq_index_value_bytes v ++ rest) = Some v.
Proof.
  destruct v as [z p r c]. cbn. intros Hz Hp Hr Hc.
  unfold as_raw_seq_index_value, raw_seq_index_value_bytes. cbn [rsv_sizes rsv_bp rsv_rev_seq rsv_content_meta].
  by slice_fields.
Qed.

Lemma as_raw_file_header_bytes h rest :
  length (rfh_version h) = 1%nat -> length (rfh_update_seq h) = 6%nat ->
  length (rfh_purge_seq h) = 6%nat -> length (rfh_purge_ptr h) = 6%nat ->
  length (rfh_seqrootsize h) = 2%nat -> length (rfh_idrootsize h) = 2%nat ->
  length (rfh_localrootsize h) = 2%nat ->
  as_raw_file_header (raw_file_header_bytes h ++ rest) = Some h.
Proof.
  destruct h as [v us ps pp ss iz ls]. cbn. intros Hv Hus Hps Hpp Hss Hiz Hls.
  unfold as_raw_file_header, raw_file_header_bytes.
  cbn [rfh_version rfh_update_seq rfh_purge_seq rfh_purge_ptr rfh_seqrootsize rfh_idrootsize rfh_localrootsize].
  by slice_fields.
Qed.

Lemma as_raw_node_pointer_app p s r rest :
  length p = 6%nat -> length s = 6%nat -> length r = 2%nat ->
  as_raw_node_pointer (p ++ s ++ r ++ rest) =
  Some {| rnp_pointer := p; rnp_subtreesize := s; rnp_reduce_value_size := r |}.
Proof. intros Hp Hs Hr. unfold as_raw_node_pointer. by slice_fields. Qed.

Lemma decode_sequence_key_encode seq : decode_sequence_key (encode_raw48 seq) = Some (seq mod 2 ^ 48).
Proof.
  unfold decode_sequence_key, sizeof_raw_by_seq_key. rewrite <- (app_nil_r (encode_raw48 seq)).
  slice_fields. by rewrite decode_encode_raw48.
Qed.
