(* ===== verification/Crc32.v ===== *)
(** * Crc32: the chunk checksum

    Models src/crc32.c: the table-driven CRC of [hash_crc32], and proves it
    equal to the bit-by-bit reflected CRC-32 with polynomial 0xEDB88320. *)

From Stdlib Require Import ZArith Lia.
From S2P Require Import Prelude.
From stdpp Require Import list numbers.

#[local] Open Scope Z_scope.

Definition crc32tab : list Z :=
  [
   0x00000000; 0x77073096; 0xee0e612c; 0x990951ba;
   0x076dc419; 0x706af48f; 0xe963a535; 0x9e6495a3;
   0x0edb8832; 0x79dcb8a4; 0xe0d5e91e; 0x97d2d988;
   0x09b64c2b; 0x7eb17cbd; 0xe7b82d07; 0x90bf1d91;
   0x1db71064; 0x6ab020f2; 0xf3b97148; 0x84be41de;
   0x1adad47d; 0x6ddde4eb; 0xf4d4b551; 0x83d385c7;
   0x136c9856; 0x646ba8c0; 0xfd62f97a; 0x8a65c9ec;
   0x14015c4f; 0x63066cd9; 0xfa0f3d63; 0x8d080df5;
   0x3b6e20c8; 0x4c69105e; 0xd56041e4; 0xa2677172;
   0x3c03e4d1; 0x4b04d447; 0xd20d85fd; 0xa50ab56b;
   0x35b5a8fa; 0x42b2986c; 0xdbbbc9d6; 0xacbcf940;
   0x32d86ce3; 0x45df5c75; 0xdcd60dcf; 0xabd13d59;
   0x26d930ac; 0x51de003a; 0xc8d75180; 0xbfd06116;
   0x21b4f4b5; 0x56b3c423; 0xcfba9599; 0xb8bda50f;
   0x2802b89e; 0x5f058808; 0xc60cd9b2; 0xb10be924;
   0x2f6f7c87; 0x58684c11; 0xc1611dab; 0xb6662d3d;
   0x76dc4190; 0x01db7106; 0x98d220bc; 0xefd5102a;
   0x71b18589; 0x06b6b51f; 0x9fbfe4a5; 0xe8b8d433;
   0x7807c9a2; 0x0f00f934; 0x9609a88e; 0xe10e9818;
   0x7f6a0dbb; 0x086d3d2d; 0x91646c97; 0xe6635c01;
   0x6b6b51f4; 0x1c6c6162; 0x856530d8; 0xf262004e;
   0x6c0695ed; 0x1b01a57b; 0x8208f4c1; 0xf50fc457;
   0x65b0d9c6; 0x12b7e950; 0x8bbeb8ea; 0xfcb9887c;
   0x62dd1ddf; 0x15da2d49; 0x8cd37cf3; 0xfbd44c65;
   0x4db26158; 0x3ab551ce; 0xa3bc0074; 0xd4bb30e2;
   0x4adfa541; 0x3dd895d7; 0xa4d1c46d; 0xd3d6f4fb;
   0x4369e96a; 0x346ed9fc; 0xad678846; 0xda60b8d0;
   0x44042d73; 0x33031de5; 0xaa0a4c5f; 0xdd0d7cc9;
   0x5005713c; 0x270241aa; 0xbe0b1010; 0xc90c2086;
   0x5768b525; 0x206f85b3; 0xb966d409; 0xce61e49f;
   0x5edef90e; 0x29d9c998; 0xb0d09822; 0xc7d7a8b4;
   0x59b33d17; 0x2eb40d81; 0xb7bd5c3b; 0xc0ba6cad;
   0xedb88320; 0x9abfb3b6; 0x03b6e20c; 0x74b1d29a;
   0xead54739; 0x9dd277af; 0x04db2615; 0x73dc1683;
   0xe3630b12; 0x94643b84; 0x0d6d6a3e; 0x7a6a5aa8;
   0xe40ecf0b; 0x9309ff9d; 0x0a00ae27; 0x7d079eb1;
   0xf00f9344; 0x8708a3d2; 0x1e01f268; 0x6906c2fe;
   0xf762575d; 0x806567cb; 0x196c3671; 0x6e6b06e7;
   0xfed41b76; 0x89d32be0; 0x10da7a5a; 0x67dd4acc;
   0xf9b9df6f; 0x8ebeeff9; 0x17b7be43; 0x60b08ed5;
   0xd6d6a3e8; 0xa1d1937e; 0x38d8c2c4; 0x4fdff252;
   0xd1bb67f1; 0xa6bc5767; 0x3fb506dd; 0x48b2364b;
   0xd80d2bda; 0xaf0a1b4c; 0x36034af6; 0x41047a60;
   0xdf60efc3; 0xa867df55; 0x316e8eef; 0x4669be79;
   0xcb61b38c; 0xbc66831a; 0x256fd2a0; 0x5268e236;
   0xcc0c7795; 0xbb0b4703; 0x220216b9; 0x5505262f;
   0xc5ba3bbe; 0xb2bd0b28; 0x2bb45a92; 0x5cb36a04;
   0xc2d7ffa7; 0xb5d0cf31; 0x2cd99e8b; 0x5bdeae1d;
   0x9b64c2b0; 0xec63f226; 0x756aa39c; 0x026d930a;
   0x9c0906a9; 0xeb0e363f; 0x72076785; 0x05005713;
   0x95bf4a82; 0xe2b87a14; 0x7bb12bae; 0x0cb61b38;
   0x92d28e9b; 0xe5d5be0d; 0x7cdcefb7; 0x0bdbdf21;
   0x86d3d2d4; 0xf1d4e242; 0x68ddb3f8; 0x1fda836e;
   0x81be16cd; 0xf6b9265b; 0x6fb077e1; 0x18b74777;
   0x88085ae6; 0xff0f6a70; 0x66063bca; 0x11010b5c;
   0x8f659eff; 0xf862ae69; 0x616bffd3; 0x166ccf45;
   0xa00ae278; 0xd70dd2ee; 0x4e048354; 0x3903b3c2;
   0xa7672661; 0xd06016f7; 0x4969474d; 0x3e6e77db;
   0xaed16a4a; 0xd9d65adc; 0x40df0b66; 0x37d83bf0;
   0xa9bcae53; 0xdebb9ec5; 0x47b2cf7f; 0x30b5ffe9;
   0xbdbdf21c; 0xcabac28a; 0x53b39330; 0x24b4a3a6;
   0xbad03605; 0xcdd70693; 0x54de5729; 0x23d967bf;
   0xb3667a2e; 0xc4614ab8; 0x5d681b02; 0x2a6f2b94;
   0xb40bbe37; 0xc30c8ea1; 0x5a05df1b; 0x2d02ef8d
  ].

(** [(uint64_t)key[x]] for a plain (signed) [char]. *)
Definition char_to_u64 (b : byte) : Z :=
  u64 (if decide (b2z b < 128) then b2z b else b2z b - 256).

Definition crc32_step (crc : Z) (b : byte) : Z :=
  Z.lxor (Z.shiftr crc 8)
         (nth (Z.to_nat (Z.land (Z.lxor crc (char_to_u64 b)) 255)) crc32tab 0).

Definition hash_crc32 (key : bytes) : Z :=
  Z.lxor (foldl crc32_step 0xFFFFFFFF key) 0xFFFFFFFF.

(** ** The reference: shift right, subtract the polynomial on a carry *)

Definition crc_poly : Z := 0xEDB88320.
Definition crc_bit (x : Z) : Z :=
  if Z.odd x then Z.lxor (Z.shiftr x 1) crc_poly else Z.shiftr x 1.
Definition crc_byte (x : Z) : Z := Nat.iter 8 crc_bit x.
Definition crc32_reference (key : bytes) : Z :=
  Z.lxor (foldl (fun crc b => crc_byte (Z.lxor crc (b2z b))) 0xFFFFFFFF key) 0xFFFFFFFF.

Lemma crc32tab_correct : crc32tab = map crc_byte (seqZ 0 256).
Proof. vm_compute. reflexivity. Qed.

Lemma crc32tab_nth i : 0 <= i < 256 -> nth (Z.to_nat i) crc32tab 0 = crc_byte i.
Proof.
  intros Hi. rewrite crc32tab_correct. apply nth_lookup_Some.
  rewrite list_lookup_fmap, lookup_seqZ_lt by lia. cbn [fmap option_fmap option_map].
  by rewrite Z.add_0_l, Z2Nat.id by lia.
Qed.

Lemma crc_bit_lxor x y : crc_bit (Z.lxor x y) = Z.lxor (crc_bit x) (crc_bit y).
Proof.
  unfold crc_bit. rewrite <- !Z.bit0_odd, Z.lxor_spec, Z.shiftr_lxor.
  set (p := crc_poly). set (a := Z.shiftr x 1). set (b := Z.shiftr y 1).
  destruct (Z.testbit x 0), (Z.testbit y 0); cbn [xorb].
  - rewrite (Z.lxor_comm b p), Z.lxor_assoc, <- (Z.lxor_assoc p p b), Z.lxor_nilpotent. by rewrite Z.lxor_0_l.
  - rewrite !Z.lxor_assoc. f_equal. apply Z.lxor_comm.
  - by rewrite Z.lxor_assoc.
  - done.
Qed.

Lemma crc_byte_lxor x y : crc_byte (Z.lxor x y) = Z.lxor (crc_byte x) (crc_byte y).
Proof.
  unfold crc_byte. generalize 8%nat. intros n.
  induction n as [|n IH]; [done|]. by rewrite !Nat.iter_succ, IH, crc_bit_lxor.
Qed.

Lemma crc_byte_high y : crc_byte (Z.shiftl y 8) = y.
Proof.
  assert (forall z, crc_bit (Z.shiftl z 1) = z) as Hb.
  { intros z. unfold crc_bit. rewrite <- Z.bit0_odd, Z.shiftl_spec_low by lia.
    rewrite Z.shiftr_shiftl_l by lia. apply Z.shiftl_0_r. }
  unfold crc_byte.
  replace (Z.shiftl y 8) with (Nat.iter 8 (fun z => Z.shiftl z 1) y)
    by (cbn; rewrite !Z.shiftl_shiftl by lia; done).
  cbn. by rewrite !Hb.
Qed.

Lemma char_to_u64_low b : Z.land (char_to_u64 b) 255 = b2z b.
Proof.
  unfold char_to_u64, u64. change 255 with (Z.ones 8). rewrite Z.land_ones by lia.
  pose proof (b2z_range b). change (2 ^ 64) with (256 * 2 ^ 56). change (2 ^ 8) with 256.
  case_decide; Z.div_mod_to_equations; lia.
Qed.

Lemma crc32_step_byte crc b : crc32_step crc b = crc_byte (Z.lxor crc (b2z b)).
Proof.
  unfold crc32_step.
  assert (Z.land (Z.lxor crc (char_to_u64 b)) 255 = Z.land (Z.lxor crc (b2z b)) 255) as ->.
  { apply Z.bits_inj'. intros i Hi. rewrite !Z.land_spec, !Z.lxor_spec.
    rewrite <- (char_to_u64_low b), Z.land_spec.
    by destruct (Z.testbit crc i), (Z.testbit (char_to_u64 b) i), (Z.testbit 255 i). }
  set (x := Z.lxor crc (b2z b)).
  assert (0 <= Z.land x 255 < 256) as Hx.
  { change 255 with (Z.ones 8). rewrite Z.land_ones by lia. by apply Z.mod_pos_bound. }
  rewrite crc32tab_nth by done.
  assert (Z.shiftr crc 8 = Z.shiftr x 8) as ->.
  { unfold x. rewrite Z.shiftr_lxor. pose proof (b2z_range b).
    rewrite (Z.shiftr_div_pow2 (b2z b)) by lia. rewrite Z.div_small by done. by rewrite Z.lxor_0_r. }
  rewrite <- (crc_byte_high (Z.shiftr x 8)), <- crc_byte_lxor. f_equal.
  apply Z.bits_inj'. intros i Hi. rewrite Z.lxor_spec, Z.land_spec.
  change 255 with (Z.ones 8). destruct (Z.lt_ge_cases i 8) as [Hlt|Hge].
  - rewrite Z.shiftl_spec_low, Z.ones_spec_low by lia. by rewrite andb_true_r.
  - rewrite Z.shiftl_spec_high, Z.shiftr_spec, Z.ones_spec_high by lia.
    rewrite andb_false_r, xorb_false_r. f_equal. lia.
Qed.

Lemma hash_crc32_equiv key : hash_crc32 key = crc32_reference key.
Proof.
  unfold hash_crc32, crc32_reference. f_equal. generalize 0xFFFFFFFF.
  induction key as [|b key IH]; intros crc; cbn [foldl]; [done|].
  by rewrite crc32_step_byte, IH.
Qed.

(** The checksum fits the 32-bit field it is stored in. *)
Lemma lxor_range a b n : 0 <= n -> 0 <= a < 2 ^ n -> 0 <= b < 2 ^ n -> 0 <= Z.lxor a b < 2 ^ n.
Proof.
  intros Hn Ha Hb.
  assert (Z.lxor a b = Z.lxor a b mod 2 ^ n) as ->; [|apply Z.mod_pos_bound; lia].
  apply Z.bits_inj'. intros i Hi. destruct (Z.lt_ge_cases i n) as [Hlt|Hge].
  - by rewrite Z.mod_pow2_bits_low.
  - rewrite Z.mod_pow2_bits_high by lia. rewrite Z.lxor_spec.
    rewrite <- (Z.mod_small a (2 ^ n)), <- (Z.mod_small b (2 ^ n)) by done.
    by rewrite !Z.mod_pow2_bits_high by lia.
Qed.

Lemma crc_bit_range x : 0 <= x < 2 ^ 32 -> 0 <= crc_bit x < 2 ^ 32.
Proof.
  intros Hx. unfold crc_bit. assert (0 <= Z.shiftr x 1 < 2 ^ 32).
  { rewrite Z.shiftr_div_pow2 by lia. change (2 ^ 1) with 2.
    split; [apply Z.div_pos|apply Z.div_lt_upper_bound]; lia. }
  destruct (Z.odd x); [|done]. apply lxor_range; [lia|done|unfold crc_poly; lia].
Qed.

Lemma hash_crc32_range key : 0 <= hash_crc32 key < 2 ^ 32.
Proof.
  rewrite hash_crc32_equiv. unfold crc32_reference. apply lxor_range; [lia| |lia].
  assert (0 <= 0xFFFFFFFF < 2 ^ 32) as Hi by lia. revert Hi. generalize 0xFFFFFFFF.
  induction key as [|b key IH]; intros crc Hc; cbn [foldl]; [done|]. apply IH.
  unfold crc_byte. pose proof (b2z_range b).
  assert (0 <= Z.lxor crc (b2z b) < 2 ^ 32) as Hx by (apply lxor_range; lia).
  revert Hx. generalize (Z.lxor crc (b2z b)). generalize 8%nat. intros n.
  induction n as [|n IHn]; intros x Hx; [done|]. rewrite Nat.iter_succ. by apply crc_bit_range, IHn.
Qed.

(** C36: hash_crc32, with its table of 256 words, computes the bitwise CRC-32 of
    every buffer, and the result is a 32-bit value. *)
Theorem crc32_is_reference key :
  hash_crc32 key = crc32_reference key /\ 0 <= hash_crc32 key < 2 ^ 32.
Proof. split; [apply hash_crc32_equiv|apply hash_crc32_range]. Qed.
