(* ===== verification/Util.v ===== *)
(** * Util: key comparison and the bump buffer

    Models src/util.c and src/fatbuf.h: [ebin_cmp], [seq_cmp] and the fatbuf
    allocator.  A comparison is absent ([None]) when it would read past the end
    of a key.  [KeyOrder] is what the B-tree code relies on about the compare
    callback of a request; both comparison functions implement it. *)

From Stdlib Require Import ZArith Lia.
From S2P Require Import Prelude Bitfield NodeTypes.
From stdpp Require Import list numbers option.

#[local] Open Scope Z_scope.

(** ** Comparison functions *)

(** memcmp of the C library; its callers use the sign only. *)
Fixpoint memcmp (a b : bytes) (n : nat) : Z :=
  match n, a, b with
  | S n', x :: a', y :: b' =>
      if decide (b2z x = b2z y) then memcmp a' b' n' else b2z x - b2z y
  | _, _, _ => 0
  end.

Definition ebin_cmp (e1 e2 : bytes) : Z :=
  let size := if decide (blen e2 < blen e1) then blen e2 else blen e1 in
  let cmp := memcmp e1 e2 (Z.to_nat size) in
  if decide (cmp = 0) then
    if decide (size < blen e2) then -1
    else if decide (size < blen e1) then 1
    else cmp
  else cmp.

Definition seq_cmp (k1 k2 : bytes) : option Z :=
  e1val ← decode_sequence_key k1;
  e2val ← decode_sequence_key k2;
  Some (if decide (e1val = e2val) then 0 else if decide (e1val < e2val) then -1 else 1).

(** [ebin_cmp] as a compare callback. *)
Definition ebin_compare (k1 k2 : bytes) : option Z := Some (ebin_cmp k1 k2).

(** ** fatbuf

    The buffer itself is a malloced block; a [fatbuf_get] hands out the offset
    of the block it reserves. *)

Record fatbuf : Type := { fb_pos : Z; fb_size : Z }.

Definition fatbuf_alloc (n : Z) : fatbuf := {| fb_pos := 0; fb_size := n |}.

Definition fatbuf_get (fb : fatbuf) (n : Z) : option Z * fatbuf :=
  if decide (fb_size fb < u64 (fb_pos fb + n)) then (None, fb)
  else (Some (fb_pos fb), {| fb_pos := u64 (fb_pos fb + n); fb_size := fb_size fb |}).

(** ** What the B-tree relies on *)

(** A strict total order on the keys a comparison is meant for. *)
Class KeyOrder (compare : bytes -> bytes -> option Z) := {
  vkey : bytes -> Prop;
  klt : bytes -> bytes -> Prop;
  klt_irrefl : forall a, ~ klt a a;
  klt_trans : forall a b c, klt a b -> klt b c -> klt a c;
  compare_spec : forall a b, vkey a -> vkey b ->
    (exists c, compare a b = Some c /\ c < 0 /\ klt a b) \/
    (exists c, compare a b = Some c /\ c = 0 /\ a = b) \/
    (exists c, compare a b = Some c /\ 0 < c /\ klt b a)
}.

(** Lexicographic order, a proper prefix first. *)
Fixpoint lex_lt (a b : bytes) : Prop :=
  match a, b with
  | _, [] => False
  | [], _ :: _ => True
  | x :: a', y :: b' => b2z x < b2z y \/ (x = y /\ lex_lt a' b')
  end.

Lemma lex_lt_irrefl a : ~ lex_lt a a.
Proof. induction a as [|x a IH]; cbn; [tauto|]. intros [?|[_ ?]]; [lia|tauto]. Qed.

Lemma lex_lt_trans a b c : lex_lt a b -> lex_lt b c -> lex_lt a c.
Proof.
  revert b c. induction a as [|x a IH]; intros [|y b] [|z c]; cbn; try tauto.
  intros [H1|[-> H1]] [H2|[-> H2]]; [left; lia|by left|by left|right; eauto].
Qed.

Lemma memcmp_min a b :
  (memcmp a b (length a `min` length b) < 0 /\ lex_lt a b) \/
  (0 < memcmp a b (length a `min` length b) /\ lex_lt b a) \/
  (memcmp a b (length a `min` length b) = 0 /\
   ((length a < length b)%nat /\ lex_lt a b \/ (length b < length a)%nat /\ lex_lt b a \/ a = b)).
Proof.
  revert b. induction a as [|x a IH]; intros [|y b]; cbn [length Nat.min memcmp lex_lt].
  - right; right; auto.
  - right; right. split; [done|]. left. split; [lia|done].
  - right; right. split; [done|]. right; left. split; [lia|done].
  - case_decide as E; [apply b2z_inj in E as ->|lia].
    destruct (IH b) as [[H1 H2]|[[H1 H2]|[H1 [[H2 H3]|[[H2 H3]| ->]]]]].
    + left. tauto.
    + right; left. tauto.
    + right; right. split; [done|]. left. split; [lia|tauto].
    + right; right. split; [done|]. right; left. split; [lia|tauto].
    + right; right. tauto.
Qed.

(** [ebin_cmp] decides the lexicographic order. *)
Lemma ebin_cmp_lex a b :
  (ebin_cmp a b < 0 /\ lex_lt a b) \/ (ebin_cmp a b = 0 /\ a = b) \/ (0 < ebin_cmp a b /\ lex_lt b a).
Proof.
  unfold ebin_cmp, blen. cbv zeta.
  set (size := if decide (Z.of_nat (length b) < Z.of_nat (length a)) then _ else _).
  assert (Z.to_nat size = (length a `min` length b)%nat) as -> by (unfold size; case_decide; lia).
  assert (size = Z.of_nat (length a) `min` Z.of_nat (length b)) as -> by (unfold size; case_decide; lia).
  destruct (memcmp_min a b) as [[H1 H2]|[[H1 H2]|[H1 H2]]].
  - rewrite decide_False by lia. tauto.
  - rewrite decide_False by lia. tauto.
  - rewrite decide_True by done. destruct H2 as [[H2 H3]|[[H2 H3]| ->]].
    + rewrite decide_True by lia. left. split; [lia|done].
    + rewrite decide_False, decide_True by lia. right; right. split; [lia|done].
    + rewrite !decide_False by lia. right; left. tauto.
Qed.

#[global] Program Instance ebin_KeyOrder : KeyOrder ebin_compare :=
  {| vkey := fun _ => True; klt := lex_lt |}.
Next Obligation. apply lex_lt_irrefl. Qed.
Next Obligation. apply lex_lt_trans. Qed.
Next Obligation.
  intros a b _ _. unfold ebin_compare.
  destruct (ebin_cmp_lex a b) as [[? ?]|[[? ?]|[? ?]]]; eauto 10.
Qed.

Lemma decode_sequence_key_be k :
  length k = 6%nat -> decode_sequence_key k = Some (be_val k).
Proof.
  intros Hk. unfold decode_sequence_key, sizeof_raw_by_seq_key.
  rewrite slice_Some by lia. cbn [mbind option_bind]. rewrite drop_0, take_ge by lia.
  by rewrite decode_raw48_be.
Qed.

(** The by-sequence keys are the six byte ones. *)
#[global] Program Instance seq_KeyOrder : KeyOrder seq_cmp :=
  {| vkey := fun k => length k = 6%nat; klt := fun a b => be_val a < be_val b |}.
Next Obligation. intros a. cbv beta. lia. Qed.
Next Obligation. intros a b c. cbv beta. lia. Qed.
Next Obligation.
  intros a b Ha Hb. unfold seq_cmp. cbn beta in *. rewrite !decode_sequence_key_be by done. cbn.
  case_decide as E; [|case_decide].
  - right; left. exists 0. split; [done|]. split; [done|]. apply be_val_inj; [congruence|done].
  - left. exists (-1). split; [done|]. lia.
  - right; right. exists 1. split; [done|]. lia.
Qed.

(** ** fatbuf blocks lie inside the buffer, after one another *)

Lemma fatbuf_get_fits fb n :
  0 <= n -> 0 <= fb_pos fb -> fb_pos fb + n <= fb_size fb -> fb_size fb < 2 ^ 64 ->
  fatbuf_get fb n = (Some (fb_pos fb), {| fb_pos := fb_pos fb + n; fb_size := fb_size fb |}).
Proof.
  intros Hn H0 Hs Hm. unfold fatbuf_get, u64. rewrite Z.mod_small by lia.
  by rewrite decide_False by lia.
Qed.
