(* ===== verification/FileOps.v ===== *)
(** * FileOps: the file interface of the library

    [couch_file_ops] of include/libcouchstore/file_ops.h is the table of file
    primitives a database works on.  [FileOps] is that table over a handle type.
    [tree_file_open] always installs the buffered table of iobuffer.c, and
    [FileLaws] is what that table promises to the layers above, which are proved
    for any implementation of it.  [memfile] is an in-memory file with injected
    faults that implements it; the witnesses run on it. *)

From Stdlib Require Import ZArith Lia.
From S2P Require Import Prelude.
From stdpp Require Import list numbers.

#[local] Open Scope Z_scope.

(** ** Overwriting part of a file

    The bytes of [c] with [bs] stored at offset [off]; a gap reads as zeros.
    Storing nothing changes nothing. *)
Definition splice (c : bytes) (off : nat) (bs : bytes) : bytes :=
  match bs with
  | [] => c
  | _ => take off (c ++ replicate (off - length c) Byte.x00) ++ bs ++ drop (off + length bs) c
  end.

(** No file grows past 128 TiB: offsets fit the 47 bits the format has. *)
Definition max_file_size : Z := 2 ^ 47.

(** ** The operations *)

Class FileOps (H : Type) : Type := {
  ops_pread : H -> nat -> Z -> H * result bytes;
  ops_pwrite : H -> bytes -> Z -> H * result nat;
  ops_goto_eof : H -> H * Z;
  ops_sync : H -> H * couchstore_error_t;
  ops_close : H -> H
}.

(** ** What the buffered table promises

    [contents] is what the file holds, pending writes included.  A read returns
    all the bytes asked for that the file has; a write of at most a block is
    stored whole.  Either may fail instead, which [io_failed] records; a write
    that is accepted but can only fail later, because it lies past the largest
    file size, is recorded at once.
    [unread h off]: nothing at or past [off] has been read through [h], so a
    write there cannot be shadowed by a read cache; an implementation without a
    cache takes it to be true.  [synced h]: no write is pending, which [goto_eof]
    needs, since it asks the file below the buffer.  After a close that did not fail
    the file below has everything; [contents] of the closed handle is what it holds. *)
Class FileLaws (H : Type) `{FileOps H} `{Faulty H} : Type := {
  contents : H -> bytes;
  file_ok : H -> Prop;
  synced : H -> Prop;
  unread : H -> Z -> Prop;
  unread_mono : forall h a b, unread h a -> a <= b -> unread h b;
  unread_end : forall h, file_ok h -> unread h (blen (contents h));
  pread_law : forall h n off h' r,
    file_ok h -> 0 <= off -> ops_pread h n off = (h', r) ->
    file_ok h' /\ contents h' = contents h /\
    match r with
    | Done bs =>
        io_failed h' = io_failed h /\
        bs = take n (drop (Z.to_nat off) (contents h))
    | Error _ => io_failed h' = true
    end;
  pread_sticky : forall h n off, io_failed h = true -> io_failed (ops_pread h n off).1 = true;
  pwrite_law : forall h bs off h' r,
    file_ok h -> 0 <= off -> (0 < length bs <= 4096)%nat -> unread h off ->
    ops_pwrite h bs off = (h', r) ->
    file_ok h' /\
    match r with
    | Done k =>
        io_failed h' = true \/
        (io_failed h' = io_failed h /\ k = length bs /\
         contents h' = splice (contents h) (Z.to_nat off) bs /\
         off + blen bs <= max_file_size /\
         (forall a, unread h a -> unread h' a))
    | Error _ => io_failed h' = true
    end;
  pwrite_sticky : forall h bs off, io_failed h = true -> io_failed (ops_pwrite h bs off).1 = true;
  sync_law : forall h h' e,
    file_ok h -> ops_sync h = (h', e) ->
    file_ok h' /\ contents h' = contents h /\ (forall a, unread h a -> unread h' a) /\
    (e = COUCHSTORE_SUCCESS -> io_failed h' = io_failed h /\ synced h') /\
    (e <> COUCHSTORE_SUCCESS -> io_failed h' = true);
  sync_sticky : forall h, io_failed h = true -> io_failed (ops_sync h).1 = true;
  goto_eof_law : forall h h' p,
    file_ok h -> synced h -> ops_goto_eof h = (h', p) ->
    file_ok h' /\ contents h' = contents h /\
    (0 <= p -> p = blen (contents h) /\ io_failed h' = io_failed h) /\
    (p < 0 -> io_failed h' = true);
  goto_eof_sticky : forall h, io_failed h = true -> io_failed (ops_goto_eof h).1 = true;
  close_law : forall h, file_ok h ->
    file_ok (ops_close h) /\
    (io_failed (ops_close h) = true \/
     (io_failed (ops_close h) = io_failed h /\ contents (ops_close h) = contents h /\ synced (ops_close h) /\
      (forall a, unread h a -> unread (ops_close h) a)));
  close_sticky : forall h, io_failed h = true -> io_failed (ops_close h) = true
}.

(** ** What a file holds at an offset *)

(** The bytes [bs] stand at offset [pos] of [c]. *)
Definition has (c : bytes) (pos : Z) (bs : bytes) : Prop :=
  0 <= pos /\ forall i x, bs !! i = Some x -> c !! (Z.to_nat pos + i)%nat = Some x.

Lemma has_nil c pos : 0 <= pos -> has c pos [].
Proof. intros Hp. split; [done|]. intros i x. by rewrite lookup_nil. Qed.

Lemma has_app c pos a b : has c pos (a ++ b) <-> has c pos a /\ has c (pos + blen a) b.
Proof.
  unfold has, blen. split.
  - intros [Hp Hh]. split; (split; [lia|]); intros i x Hi.
    + apply Hh. by apply lookup_app_l_Some.
    + rewrite Z2Nat.inj_add, Nat2Z.id, <- Nat.add_assoc by lia. apply Hh.
      rewrite lookup_app_r by lia. by rewrite Nat.add_comm, Nat.add_sub.
  - intros [[Hp Ha] [_ Hb]]. split; [done|]. intros i x Hi.
    apply lookup_app_Some in Hi as [Hi|[Hl Hi]]; [by apply Ha|].
    apply Hb in Hi. rewrite Z2Nat.inj_add, Nat2Z.id in Hi by lia.
    by replace (Z.to_nat pos + i)%nat with (Z.to_nat pos + length a + (i - length a))%nat by lia.
Qed.

Lemma has_cons c pos x a : has c pos (x :: a) -> c !! Z.to_nat pos = Some x /\ has c (pos + 1) a.
Proof.
  intros Hh. apply (has_app c pos [x] a) in Hh as [[Hp Hx] Ha]. split; [|done].
  rewrite <- (Nat.add_0_r (Z.to_nat pos)). by apply Hx.
Qed.

Lemma has_take c pos bs : has c pos bs -> take (length bs) (drop (Z.to_nat pos) c) = bs.
Proof.
  intros [Hp Hh]. apply list_eq. intros i. destruct (bs !! i) as [x|] eqn:E.
  - pose proof (lookup_lt_Some _ _ _ E). rewrite lookup_take_lt by lia.
    rewrite lookup_drop. by apply Hh.
  - apply lookup_ge_None in E. by apply lookup_take_ge.
Qed.

Lemma has_end c pos bs : has c pos bs -> bs <> [] -> pos + blen bs <= blen c.
Proof.
  intros [Hp Hh] Hne. unfold blen. destruct (list.last bs) as [x|] eqn:E.
  - rewrite last_lookup in E. apply Hh in E. apply lookup_lt_Some in E.
    destruct bs; [done|]. cbn in *. lia.
  - by apply last_None in E.
Qed.

Lemma splice_ne c off bs : bs <> [] ->
  splice c off bs =
  take off (c ++ replicate (off - length c) Byte.x00) ++ bs ++ drop (off + length bs) c.
Proof. by destruct bs. Qed.

Lemma splice_whole (D w : bytes) : (length D <= length w)%nat -> splice D 0 w = w.
Proof.
  intros Hl. destruct w as [|x w]; [destruct D; cbn in *; [done|lia]|].
  rewrite splice_ne, take_0, drop_ge by (done || (cbn in *; lia)). apply app_nil_r.
Qed.

Lemma splice_head_length c off : length (take off (c ++ replicate (off - length c) Byte.x00)) = off.
Proof. rewrite length_take, length_app, length_replicate. lia. Qed.

Lemma splice_lookup_before c off bs i : (i < off)%nat -> (i < length c)%nat -> splice c off bs !! i = c !! i.
Proof.
  intros Hi Hc. destruct (decide (bs = [])) as [->|Hne]; [done|]. rewrite splice_ne by done.
  rewrite lookup_app_l by (rewrite splice_head_length; lia).
  rewrite lookup_take_lt by lia. by rewrite lookup_app_l.
Qed.

Lemma splice_has c pos bs : 0 <= pos -> has (splice c (Z.to_nat pos) bs) pos bs.
Proof.
  intros Hp. split; [done|]. intros i x Hi.
  rewrite splice_ne by (by intros ->; rewrite lookup_nil in Hi).
  rewrite lookup_app_r by (rewrite splice_head_length; lia). rewrite splice_head_length.
  replace (Z.to_nat pos + i - Z.to_nat pos)%nat with i by lia.
  by apply lookup_app_l_Some.
Qed.

Lemma splice_keeps c off bs pos a :
  has c pos a -> pos + blen a <= off -> has (splice c (Z.to_nat off) bs) pos a.
Proof.
  intros [Hp Ha] Hoff. unfold blen in *. split; [done|]. intros i x Hi.
  pose proof (lookup_lt_Some _ _ _ Hi). apply Ha in Hi as Hc.
  pose proof (lookup_lt_Some _ _ _ Hc).
  rewrite splice_lookup_before by lia. done.
Qed.

Lemma splice_lookup_cases c off bs i b :
  splice c off bs !! i = Some b ->
  c !! i = Some b \/ b = Byte.x00 \/ ((off <= i)%nat /\ bs !! (i - off)%nat = Some b).
Proof.
  destruct (decide (bs = [])) as [->|Hne]; [by left|]. rewrite splice_ne by done. intros Hi.
  apply lookup_app_Some in Hi as [Hi|[Hl Hi]].
  - apply lookup_take_Some in Hi as [Hi _]. apply lookup_app_Some in Hi as [Hi|[_ Hi]]; [by left|].
    apply lookup_replicate in Hi as [-> _]. by right; left.
  - rewrite splice_head_length in *. apply lookup_app_Some in Hi as [Hi|[Hl2 Hi]]; [by right; right|].
    left. rewrite lookup_drop in Hi. rewrite <- Hi. f_equal. lia.
Qed.

Lemma splice_length c off bs : bs <> [] ->
  length (splice c off bs) = Nat.max (length c) (off + length bs).
Proof. intros Hne. rewrite splice_ne by done. rewrite !length_app, splice_head_length, length_drop. lia. Qed.

Lemma splice_length_le c off bs :
  (length (splice c off bs) <= Nat.max (length c) (off + length bs))%nat.
Proof.
  destruct (decide (bs = [])) as [->|Hne]; [cbn; lia|]. by rewrite splice_length.
Qed.

(** Two adjacent writes are one. *)
Lemma splice_splice c off a b :
  splice (splice c off a) (off + length a) b = splice c off (a ++ b).
Proof.
  destruct (decide (a = [])) as [->|Ha]; [cbn [splice app length]; by rewrite Nat.add_0_r|].
  destruct (decide (b = [])) as [->|Hb]; [by rewrite app_nil_r|].
  rewrite (splice_ne _ _ b), (splice_ne _ _ (a ++ b)) by (by destruct a).
  set (c1 := splice c off a).
  assert (length c1 = Nat.max (length c) (off + length a)) as Hl by (by apply splice_length).
  replace (off + length a - length c1)%nat with 0%nat by lia. cbn [replicate]. rewrite app_nil_r.
  assert (take (off + length a) c1 = take off (c ++ replicate (off - length c) Byte.x00) ++ a) as ->.
  { unfold c1. rewrite splice_ne, app_assoc by done. apply take_app_length'.
    rewrite length_app, splice_head_length. done. }
  assert (drop (off + length a + length b) c1 = drop (off + length (a ++ b)) c) as ->.
  { unfold c1. rewrite splice_ne, app_assoc, drop_app_ge by (rewrite ?length_app, ?splice_head_length; done || lia).
    rewrite drop_drop. f_equal. rewrite !length_app, splice_head_length. lia. }
  by rewrite <- !app_assoc.
Qed.

(** ** A file in memory

    [mf_faults] says which of the coming operations fail: a [true] at the head
    makes the next one return an error; when it is empty none fails. *)

Record memfile : Type := {
  mf_data : bytes;
  mf_faults : list bool;
  mf_failed : bool
}.

#[global] Instance memfile_Faulty : Faulty memfile := mf_failed.

(** Take the next entry of the fault schedule. *)
Definition mf_next (h : memfile) : bool * memfile :=
  match mf_faults h with
  | [] => (false, h)
  | f :: fs => (f, {| mf_data := mf_data h; mf_faults := fs; mf_failed := f || mf_failed h |})
  end.

Definition mf_pread (h : memfile) (n : nat) (off : Z) : memfile * result bytes :=
  let '(f, h') := mf_next h in
  if f then (h', Error COUCHSTORE_ERROR_READ)
  else (h', Done (take n (drop (Z.to_nat off) (mf_data h)))).

Definition mf_pwrite (h : memfile) (bs : bytes) (off : Z) : memfile * result nat :=
  let '(f, h') := mf_next h in
  if f then (h', Error COUCHSTORE_ERROR_WRITE)
  else if decide (off + blen bs <= max_file_size) then
    ({| mf_data := splice (mf_data h) (Z.to_nat off) bs; mf_faults := mf_faults h';
        mf_failed := mf_failed h' |}, Done (length bs))
  else ({| mf_data := mf_data h; mf_faults := mf_faults h'; mf_failed := true |},
        Error COUCHSTORE_ERROR_WRITE).

Definition mf_goto_eof (h : memfile) : memfile * Z :=
  let '(f, h') := mf_next h in
  if f then (h', -1) else (h', blen (mf_data h)).

Definition mf_sync (h : memfile) : memfile * couchstore_error_t :=
  let '(f, h') := mf_next h in
  if f then (h', COUCHSTORE_ERROR_WRITE) else (h', COUCHSTORE_SUCCESS).

Definition mf_close (h : memfile) : memfile := (mf_next h).2.

#[global] Instance memfile_FileOps : FileOps memfile :=
  {| ops_pread := mf_pread; ops_pwrite := mf_pwrite;
     ops_goto_eof := mf_goto_eof; ops_sync := mf_sync; ops_close := mf_close |}.

(** An empty file that never fails. *)
Definition mf_empty : memfile := {| mf_data := []; mf_faults := []; mf_failed := false |}.

Lemma mf_next_spec h f h' :
  mf_next h = (f, h') -> mf_data h' = mf_data h /\ mf_failed h' = f || mf_failed h.
Proof.
  unfold mf_next. destruct (mf_faults h) as [|x fs]; intros [= <- <-]; cbn; [done|].
  split; [done|]. by destruct x.
Qed.

Ltac mf_open E :=
  cbn in E;
  match type of E with
  | context [mf_next ?h] =>
      let f := fresh "f" in let h1 := fresh "h1" in let En := fresh "En" in
      destruct (mf_next h) as [f h1] eqn:En; apply mf_next_spec in En as [? ?]; destruct f
  end;
  repeat case_decide; simplify_eq/=.

Lemma mf_pread_law (h : memfile) n off h' r :
  True -> 0 <= off -> mf_pread h n off = (h', r) ->
  True /\ mf_data h' = mf_data h /\
  match r with
  | Done bs =>
      mf_failed h' = mf_failed h /\ bs = take n (drop (Z.to_nat off) (mf_data h))
  | Error _ => mf_failed h' = true
  end.
Proof. intros _ Ho E. unfold mf_pread in E. mf_open E; done. Qed.

Lemma mf_pwrite_law (h : memfile) bs off h' r :
  True -> 0 <= off -> (0 < length bs <= 4096)%nat -> True -> mf_pwrite h bs off = (h', r) ->
  True /\
  match r with
  | Done k =>
      mf_failed h' = true \/
      (mf_failed h' = mf_failed h /\ k = length bs /\
       mf_data h' = splice (mf_data h) (Z.to_nat off) bs /\
       off + blen bs <= max_file_size /\ (forall _ : Z, True -> True))
  | Error _ => mf_failed h' = true
  end.
Proof. intros _ Ho Hb _ E. unfold mf_pwrite in E. mf_open E; try done. split; [done|]. by right. Qed.

Lemma mf_sync_law (h : memfile) h' e :
  True -> mf_sync h = (h', e) ->
  True /\ mf_data h' = mf_data h /\ (forall _ : Z, True -> True) /\
  (e = COUCHSTORE_SUCCESS -> mf_failed h' = mf_failed h /\ True) /\
  (e <> COUCHSTORE_SUCCESS -> mf_failed h' = true).
Proof. intros _ E. unfold mf_sync in E. mf_open E; done. Qed.

Lemma mf_goto_eof_law (h : memfile) h' p :
  True -> True -> mf_goto_eof h = (h', p) ->
  True /\ mf_data h' = mf_data h /\
  (0 <= p -> p = blen (mf_data h) /\ mf_failed h' = mf_failed h) /\
  (p < 0 -> mf_failed h' = true).
Proof.
  intros _ _ E. unfold mf_goto_eof in E. mf_open E; repeat split; try done; try lia.
  unfold blen. lia.
Qed.

Ltac mf_sticky h :=
  intros; cbn; unfold mf_pread, mf_pwrite, mf_sync, mf_goto_eof;
  let En := fresh "En" in
  destruct (mf_next h) as [[] ?] eqn:En; apply mf_next_spec in En as [? Hf];
  repeat case_decide; cbn in *; unfold io_failed, memfile_Faulty in *; cbn in *; congruence.

Lemma mf_pread_sticky h n off : io_failed h = true -> io_failed (mf_pread h n off).1 = true.
Proof. mf_sticky h. Qed.
Lemma mf_pwrite_sticky h bs off : io_failed h = true -> io_failed (mf_pwrite h bs off).1 = true.
Proof. mf_sticky h. Qed.
Lemma mf_sync_sticky h : io_failed h = true -> io_failed (mf_sync h).1 = true.
Proof. mf_sticky h. Qed.
Lemma mf_goto_eof_sticky h : io_failed h = true -> io_failed (mf_goto_eof h).1 = true.
Proof. mf_sticky h. Qed.

Lemma mf_close_sticky h : io_failed h = true -> io_failed (mf_close h) = true.
Proof. unfold mf_close. mf_sticky h. Qed.

Lemma mf_close_law (h : memfile) : True ->
  True /\ (mf_failed (mf_close h) = true \/
           (mf_failed (mf_close h) = mf_failed h /\ mf_data (mf_close h) = mf_data h /\ True /\ (forall _ : Z, True -> True))).
Proof.
  intros _. split; [done|]. unfold mf_close. destruct (mf_next h) as [f h'] eqn:E. apply mf_next_spec in E as [Hd Hf].
  cbn [snd]. destruct f; [by left|right]. by rewrite Hf.
Qed.

#[global] Instance memfile_FileLaws : FileLaws memfile :=
  {| contents := mf_data; file_ok := fun _ => True;
     synced := fun _ => True; unread := fun _ _ => True;
     unread_mono := fun _ _ _ _ _ => I; unread_end := fun _ _ => I;
     pread_law := mf_pread_law; pread_sticky := mf_pread_sticky;
     pwrite_law := mf_pwrite_law; pwrite_sticky := mf_pwrite_sticky;
     sync_law := mf_sync_law; sync_sticky := mf_sync_sticky;
     goto_eof_law := mf_goto_eof_law; goto_eof_sticky := mf_goto_eof_sticky;
     close_law := mf_close_law; close_sticky := mf_close_sticky |}.
