(* ===== verification/Stdio.v ===== *)
(** * Stdio: the streams of the C library

    What mergesort.c and tree_writer.c use of <stdio.h>: streams with a position,
    temporary files and the calls on them.  A stream is a number, and using one that
    was closed is undefined behaviour.  A script says which of the calls that may
    fail do so; [io_failed] records that one did. *)

From Stdlib Require Import ZArith Lia.
From S2P Require Import Prelude FileOps.
From stdpp Require Import gmap list numbers.

#[local] Open Scope Z_scope.
#[local] Open Scope couch_scope.

Record FILE : Type := { fl_data : bytes; fl_pos : nat; fl_error : bool }.

Record stdio : Type := {
  io_files : gmap nat FILE;
  io_next : nat;
  io_script : list bool;
  io_bad : bool
}.

#[global] Instance stdio_Faulty : Faulty stdio := io_bad.

(** Whether the next call that may fail works. *)
Definition outcome : M stdio bool :=
  fun s => match io_script s with
           | [] => Ret true s
           | b :: l => Ret b {| io_files := io_files s; io_next := io_next s; io_script := l; io_bad := io_bad s || negb b |}
           end.

Definition stream (f : nat) : M stdio FILE := let* s := get in need (io_files s !! f).

Definition set_stream (f : nat) (fl : FILE) : M stdio unit :=
  modify (fun s => {| io_files := <[f := fl]> (io_files s); io_next := io_next s;
                      io_script := io_script s; io_bad := io_bad s |}).

Definition seek (pos : nat) (fl : FILE) : FILE :=
  {| fl_data := fl_data fl; fl_pos := pos; fl_error := fl_error fl |}.

(** [fread(buf, n, 1, f)]: the number of items read, one or none, and the bytes.
    An item of no bytes is never read. *)
Definition fread (f : nat) (n : nat) : M stdio (Z * bytes) :=
  let* fl := stream f in
  if decide (n = O) then ret (0, [])
  else
    let* ok := outcome in
    if ok : bool then
      let bs := take n (drop (fl_pos fl) (fl_data fl)) in
      set_stream f (seek (fl_pos fl + length bs) fl) ;;
      ret (if decide (length bs = n) then 1 else 0, bs)
    else
      set_stream f {| fl_data := fl_data fl; fl_pos := fl_pos fl; fl_error := true |} ;;
      ret (0, []).

(** [fwrite(buf, n, 1, f)] of the [n] bytes [bs]: the number of items written. *)
Definition fwrite (f : nat) (bs : bytes) : M stdio Z :=
  let* fl := stream f in
  if decide (bs = []) then ret 0
  else
    let* ok := outcome in
    if ok : bool then
      set_stream f {| fl_data := splice (fl_data fl) (fl_pos fl) bs; fl_pos := fl_pos fl + length bs;
                      fl_error := fl_error fl |} ;;
      ret 1
    else
      set_stream f {| fl_data := fl_data fl; fl_pos := fl_pos fl; fl_error := true |} ;;
      ret 0.

(** NULL is [None]. *)
Definition tmpfile : M stdio (option nat) :=
  let* ok := outcome in
  if ok : bool then
    let* s := get in
    put {| io_files := <[io_next s := {| fl_data := []; fl_pos := 0; fl_error := false |}]> (io_files s);
           io_next := S (io_next s); io_script := io_script s; io_bad := io_bad s |} ;;
    ret (Some (io_next s))
  else ret None.

Definition fclose (f : nat) : M stdio unit :=
  let* _ := stream f in
  modify (fun s => {| io_files := delete f (io_files s); io_next := io_next s;
                      io_script := io_script s; io_bad := io_bad s |}).

(** [rewind] clears the error indicator. *)
Definition rewind (f : nat) : M stdio unit :=
  let* fl := stream f in set_stream f {| fl_data := fl_data fl; fl_pos := 0; fl_error := false |}.

(** [fseek(f, 0, SEEK_END)]. *)
Definition fseek_end (f : nat) : M stdio unit :=
  let* fl := stream f in set_stream f (seek (length (fl_data fl)) fl).

(** Whether the stream could be flushed. *)
Definition fflush (f : nat) : M stdio bool := let* _ := stream f in outcome.

Definition ferror (f : nat) : M stdio bool := let* fl := stream f in ret (fl_error fl).

(** ** What the calls do when they work *)

(** [s'] is [s] with the stream [f] replaced. *)
Definition stream_set (s : stdio) (f : nat) (fl : FILE) (s' : stdio) : Prop :=
  io_files s' = <[f := fl]> (io_files s) /\ io_next s' = io_next s.

Lemma sticky_outcome : sticky outcome.
Proof. intros s Hs. unfold outcome. destruct (io_script s); cbn; [done|]. unfold io_failed, stdio_Faulty in *. cbn. by rewrite Hs. Qed.
Lemma sticky_stream f : sticky (stream f).
Proof. unfold stream. solve_sticky. Qed.
Lemma sticky_modify_files g n : sticky (modify (fun s => {| io_files := g s; io_next := n s; io_script := io_script s; io_bad := io_bad s |})).
Proof. by intros s Hs. Qed.
Lemma sticky_set_stream f fl : sticky (set_stream f fl).
Proof. apply sticky_modify_files. Qed.
#[export] Hint Resolve sticky_outcome sticky_stream sticky_set_stream sticky_modify_files : sticky.

Lemma sticky_fread f n : sticky (fread f n).
Proof. unfold fread. solve_sticky. Qed.
Lemma sticky_fwrite f bs : sticky (fwrite f bs).
Proof. unfold fwrite. solve_sticky. Qed.
Lemma sticky_tmpfile : sticky tmpfile.
Proof.
  unfold tmpfile. apply sticky_bind; [auto with sticky|]. intros [|]; [|auto with sticky]. by intros s Hs.
Qed.
Lemma sticky_fclose f : sticky (fclose f).
Proof. unfold fclose. apply sticky_bind; [auto with sticky|]. by intros _ s Hs. Qed.
Lemma sticky_rewind f : sticky (rewind f).
Proof. unfold rewind. solve_sticky. Qed.
Lemma sticky_fseek_end f : sticky (fseek_end f).
Proof. unfold fseek_end. solve_sticky. Qed.
Lemma sticky_fflush f : sticky (fflush f).
Proof. unfold fflush. solve_sticky. Qed.
#[export] Hint Resolve sticky_fread sticky_fwrite sticky_tmpfile sticky_fclose sticky_rewind sticky_fseek_end sticky_fflush : sticky.

Lemma wp_outcome Q s :
  (forall s', io_files s' = io_files s -> io_next s' = io_next s -> Q true s') -> wp outcome Q s.
Proof.
  intros HQ. unfold wp, outcome. destruct (io_script s) as [|[] l]; cbn; [by intros _; apply HQ| |].
  - intros _. by apply HQ.
  - unfold io_failed, stdio_Faulty. cbn. by rewrite orb_true_r.
Qed.

Lemma wp_stream f fl Q s : io_files s !! f = Some fl -> Q fl s -> wp (stream f) Q s.
Proof. intros Hf HQ. unfold wp, stream, bind, need, get. rewrite Hf. by intros _. Qed.

Lemma wp_set_stream f fl Q s : (forall s', stream_set s f fl s' -> Q tt s') -> wp (set_stream f fl) Q s.
Proof. intros HQ _. by apply HQ. Qed.

Lemma wp_fread f n pre bs rest fl Q s :
  io_files s !! f = Some fl -> fl_data fl = pre ++ bs ++ rest -> fl_pos fl = length pre -> length bs = n -> n <> O ->
  (forall s', stream_set s f (seek (fl_pos fl + n) fl) s' -> Q (1, bs) s') -> wp (fread f n) Q s.
Proof.
  intros Hf Hd Hp Hl Hn HQ. unfold fread. apply wp_bind; [solve_sticky|]. eapply wp_stream; [done|].
  rewrite decide_False by done. apply wp_bind; [solve_sticky|]. apply wp_outcome. intros s1 E1 E2.
  rewrite Hd, Hp, drop_app_length, <- Hl, take_app_length.
  apply wp_bind; [solve_sticky|]. apply wp_set_stream. intros s' [H1 H2]. rewrite decide_True by done.
  apply wp_ret, HQ. split; [by rewrite H1, E1, Hp, Hl|by rewrite H2].
Qed.

Lemma wp_fread_short f n fl Q s :
  io_files s !! f = Some fl -> (length (fl_data fl) < fl_pos fl + n)%nat -> (fl_pos fl <= length (fl_data fl))%nat ->
  (forall bs s', stream_set s f (seek (length (fl_data fl)) fl) s' -> Q (0, bs) s') -> wp (fread f n) Q s.
Proof.
  intros Hf Hl Hp HQ. unfold fread. apply wp_bind; [solve_sticky|]. eapply wp_stream; [done|].
  rewrite decide_False by lia. apply wp_bind; [solve_sticky|]. apply wp_outcome. intros s1 E1 E2.
  apply wp_bind; [solve_sticky|]. apply wp_set_stream. intros s' [H1 H2].
  assert (length (take n (drop (fl_pos fl) (fl_data fl))) = length (fl_data fl) - fl_pos fl)%nat as E
    by (rewrite length_take, length_drop; lia).
  rewrite E in *. rewrite decide_False by lia. apply wp_ret, HQ.
  split; [rewrite H1, E1; repeat f_equal; lia|by rewrite H2].
Qed.

Lemma wp_fwrite f bs fl Q s : io_files s !! f = Some fl -> bs <> [] ->
  (forall s', stream_set s f {| fl_data := splice (fl_data fl) (fl_pos fl) bs; fl_pos := fl_pos fl + length bs;
                             fl_error := fl_error fl |} s' -> Q 1 s') -> wp (fwrite f bs) Q s.
Proof.
  intros Hf Hn HQ. unfold fwrite. apply wp_bind; [solve_sticky|]. eapply wp_stream; [done|].
  rewrite decide_False by done. apply wp_bind; [solve_sticky|]. apply wp_outcome. intros s1 E1 E2.
  apply wp_bind; [solve_sticky|]. apply wp_set_stream. intros s' [H1 H2]. apply wp_ret, HQ.
  split; [by rewrite H1, E1|by rewrite H2].
Qed.

Lemma wp_tmpfile Q s :
  (forall s', io_files s' = <[io_next s := {| fl_data := []; fl_pos := 0; fl_error := false |}]> (io_files s) ->
     io_next s' = S (io_next s) -> Q (Some (io_next s)) s') -> wp tmpfile Q s.
Proof.
  intros HQ. unfold tmpfile.
  apply wp_bind; [intros [|]; [by intros s1 Hs1|auto with sticky]|].
  apply wp_outcome. intros s1 E1 E2 _. cbn. rewrite E2. apply HQ; cbn; congruence.
Qed.

Lemma wp_fclose f fl Q s : io_files s !! f = Some fl ->
  (forall s', io_files s' = delete f (io_files s) -> io_next s' = io_next s -> Q tt s') -> wp (fclose f) Q s.
Proof.
  intros Hf HQ. unfold fclose. apply wp_bind; [intros; by intros s1 Hs1|]. eapply wp_stream; [done|].
  intros _. by apply HQ.
Qed.

Lemma wp_rewind f fl Q s : io_files s !! f = Some fl ->
  (forall s', stream_set s f {| fl_data := fl_data fl; fl_pos := 0; fl_error := false |} s' -> Q tt s') -> wp (rewind f) Q s.
Proof.
  intros Hf HQ. unfold rewind. apply wp_bind; [solve_sticky|]. eapply wp_stream; [done|]. by apply wp_set_stream.
Qed.

Lemma wp_fflush f fl Q s : io_files s !! f = Some fl ->
  (forall s', io_files s' = io_files s -> io_next s' = io_next s -> Q true s') -> wp (fflush f) Q s.
Proof.
  intros Hf HQ. unfold fflush. apply wp_bind; [solve_sticky|]. eapply wp_stream; [done|]. by apply wp_outcome.
Qed.

(** Only the streams of [keep] differ. *)
Definition same_but (s s' : stdio) (keep : list nat) : Prop :=
  (forall h, h ∉ keep -> io_files s' !! h = io_files s !! h) /\ io_next s' = io_next s.

Lemma stream_set_same s f fl s' : stream_set s f fl s' -> same_but s s' [f].
Proof.
  intros [H1 H2]. split; [|done]. intros h Hh. rewrite H1. apply lookup_insert_ne. set_solver.
Qed.

Lemma stream_set_at s f fl s' : stream_set s f fl s' -> io_files s' !! f = Some fl.
Proof. intros [-> _]. apply lookup_insert_eq. Qed.

Lemma same_but_trans s1 s2 s3 k1 k2 k : same_but s1 s2 k1 -> same_but s2 s3 k2 ->
  k1 ⊆ k -> k2 ⊆ k -> same_but s1 s3 k.
Proof. intros [H1 E1] [H2 E2] K1 K2. split; [|congruence]. intros h Hh. rewrite H2, H1; [done|set_solver..]. Qed.


