(* ===== verification/MergeSort.v ===== *)
(** * MergeSort: sorting a file

    Models src/mergesort.c: blocks of records are read, sorted in memory with
    sort_linked_list and written to two temporary files, whose runs are then merged
    until one is left, which goes to the output.  The callbacks that read, write and
    compare records are parameters with the laws [RecordIO].  The theorem is that
    the output holds the records of the input in ascending order, also when both are
    the same file; its proof is in MergeSortProofs.v. *)

From Stdlib Require Import ZArith Lia.
From S2P Require Import Prelude FileOps Runs LinkedSort Stdio.
From stdpp Require Import sorting gmap numbers functions list.

#[local] Open Scope Z_scope.
#[local] Open Scope couch_scope.

(** ** The function *)

Record sort_tape : Type := { st_fp : nat; st_count : Z }.

Definition count_up (t : sort_tape) : sort_tape := {| st_fp := st_fp t; st_count := u64 (st_count t + 1) |}.
Definition count_down (t : sort_tape) : sort_tape := {| st_fp := st_fp t; st_count := u64 (st_count t - 1) |}.

Abbreviation OK := COUCHSTORE_SUCCESS (only parsing).
Abbreviation FILE_CREATION_ERROR := COUCHSTORE_ERROR_OPEN_FILE (only parsing).
Abbreviation FILE_WRITE_ERROR := COUCHSTORE_ERROR_WRITE (only parsing).

(** The list of [n] records in memory: the record [i] is at the address [i + 1]. *)
Definition block_next (n : nat) : gmap loc (option loc) :=
  list_to_map (map (fun i => (Pos.of_succ_nat i, if decide (S i = n) then None else Some (Pos.of_succ_nat (S i)))) (seq 0 n)).

Definition block_first (n : nat) : option loc := match n with O => None | S _ => Some 1%positive end.

(** The records from [p] on. *)
Fixpoint follow (fuel : nat) (h : gmap loc (option loc)) (p : option loc) : option (list loc) :=
  match p, fuel with
  | None, _ => Some []
  | Some _, O => None
  | Some x, S fuel => q ← h !! x; l ← follow fuel h q; Some (x :: l)
  end.

Section Sort.
Context {B : Type}.
(** [read f buf] returns the size of the record, or zero, and what the buffer then
    holds; [write f buf] returns zero when it fails.  [fresh] is what a buffer holds
    before it is used. *)
Variable read : nat -> B -> M stdio (Z * B).
Variable write : nat -> B -> M stdio Z.
Variable compare : B -> B -> option Z.
Variable fresh : B.

Definition compare_records (first : list B) (p q : loc) : option Z :=
  a ← first !! Nat.pred (Pos.to_nat p); b ← first !! Nat.pred (Pos.to_nat q); compare a b.

(** sort_linked_list on the records of a block. *)
Definition sort_block (first : list B) : M stdio (list B) :=
  let n := length first in
  match sort_linked_list (compare_records first) n (block_first n)
          {| so_next := block_next n; so_tape := fun _ => zero_tape |} with
  | Ret (p, _) s =>
      let* l := need (follow n (so_next s) p) in
      need (mapM (fun x => first !! Nat.pred (Pos.to_nat x)) l)
  | Undef _ => undef
  | NoFuel _ => nofuel
  end.

Definition close_tapes (tape : nat -> sort_tape) : M stdio unit :=
  fclose (st_fp (tape 0%nat)) ;; fclose (st_fp (tape 1%nat)).

(** Write a sorted block to a tape; [None] when that fails. *)
Fixpoint write_block (tape : nat -> sort_tape) (destination : nat) (first : list B) : M stdio (option (nat -> sort_tape)) :=
  match first with
  | [] => ret (Some tape)
  | r :: next =>
      let* w := write (st_fp (tape destination)) r in
      if decide (w = 0) then close_tapes tape ;; ret None
      else write_block (<[destination := count_up (tape destination)]> tape) destination next
  end.

(** Read blocks, sort them, and write them alternately to the tapes 0 and 1. *)
Fixpoint read_blocks (fuel : nat) (unsorted_file : nat) (max_record_size block_size : Z) (record : B)
    (first : list B) (block_count : Z) (destination : nat) (tape : nat -> sort_tape)
    : M stdio (result (B * (nat -> sort_tape))) :=
  match fuel with
  | O => nofuel
  | S fuel =>
      let* (record_size, record) := read unsorted_file record in
      if decide (max_record_size < record_size) then undef
      else
        let '(first, block_count) :=
          if decide (0 < record_size) then (record :: first, u64 (block_count + 1)) else (first, block_count) in
        if decide (block_count = block_size \/ (record_size = 0 /\ block_count <> 0)) then
          let* first := sort_block first in
          let* t := write_block tape destination first in
          match t with
          | None => ret (Error FILE_WRITE_ERROR)
          | Some tape =>
              if decide (record_size = 0) then ret (Done (record, tape))
              else read_blocks fuel unsorted_file max_record_size block_size record [] 0 (Nat.lxor destination 1) tape
          end
        else if decide (record_size = 0) then ret (Done (record, tape))
        else read_blocks fuel unsorted_file max_record_size block_size record first block_count destination tape
  end.

(** Copy [count] records. *)
Fixpoint copy_records (count : nat) (src dst : nat) (record : B) : M stdio (option B) :=
  match count with
  | O => ret (Some record)
  | S count =>
      let* (_, record) := read src record in
      let* w := write dst record in
      if decide (w = 0) then ret None else copy_records count src dst record
  end.

(** The variables of a merging pass. *)
Record merging : Type := {
  mg_source : nat -> sort_tape;
  mg_record : nat -> B;
  mg_dest : nat -> sort_tape
}.

(** Merge [count 0] records of one tape with [count 1] of the other. *)
Fixpoint merge_block (fuel : nat) (count : nat -> Z) (destination : nat) (m : merging) : M stdio (option merging) :=
  if decide (u64 (count 0%nat + count 1%nat) = 0) then ret (Some m)
  else match fuel with
  | O => nofuel
  | S fuel =>
      let* select :=
        (if decide (count 0%nat = 0) then ret 1%nat
         else if decide (count 1%nat = 0) then ret 0%nat
         else let* c := need (compare (mg_record m 0%nat) (mg_record m 1%nat)) in
              ret (if decide (c < 0) then 0%nat else 1%nat)) in
      let* w := write (st_fp (mg_dest m destination)) (mg_record m select) in
      if decide (w = 0) then ret None
      else
        let* r := (if decide (1 < st_count (mg_source m select)) then
                     let* (_, r) := read (st_fp (mg_source m select)) (mg_record m select) in ret r
                   else ret (mg_record m select)) in
        merge_block fuel (<[select := u64 (count select - 1)]> count) destination
          {| mg_source := <[select := count_down (mg_source m select)]> (mg_source m);
             mg_record := <[select := r]> (mg_record m);
             mg_dest := <[destination := count_up (mg_dest m destination)]> (mg_dest m) |}
  end.

(** Merge all the blocks of the source tapes, alternately onto the others. *)
Fixpoint merge_blocks (fuel : nat) (block_size : Z) (destination : nat) (m : merging) : M stdio (option merging) :=
  if decide (st_count (mg_source m 0%nat) = 0) then ret (Some m)
  else match fuel with
  | O => nofuel
  | S fuel =>
      let count i := Z.min (st_count (mg_source m i)) block_size in
      let* m := merge_block (Z.to_nat (count 0%nat + count 1%nat)) count destination m in
      match m with
      | None => ret None
      | Some m => merge_blocks fuel block_size (Nat.lxor destination 1) m
      end
  end.

Definition close_dest (sorted_file : nat) (dest : nat -> sort_tape) : M stdio unit :=
  (if decide (st_fp (dest 0%nat) <> sorted_file) then fclose (st_fp (dest 0%nat)) else ret tt) ;;
  fclose (st_fp (dest 1%nat)).

(** The destination tapes of a pass; the output is one of them in the last pass. *)
Definition open_dest (sorted_file : nat) (block_size : Z) (source : nat -> sort_tape) : M stdio (option (nat -> sort_tape)) :=
  let* f0 := (if decide (st_count (source 0%nat) <= block_size) then ret (Some sorted_file) else tmpfile) in
  match f0 with
  | None => close_tapes source ;; ret None
  | Some f0 =>
      let* f1 := tmpfile in
      match f1 with
      | None =>
          (if decide (f0 <> sorted_file) then fclose f0 else ret tt) ;; close_tapes source ;; ret None
      | Some f1 =>
          ret (Some (fun i => {| st_fp := match i with O => f0 | _ => f1 end; st_count := 0 |}))
      end
  end.

(** A pass: the tapes it leaves, and the buffers. *)
Definition merge_pass (sorted_file : nat) (block_size : Z) (source : nat -> sort_tape) (record : nat -> B)
    : M stdio (result ((nat -> sort_tape) * (nat -> B))) :=
  let* d := open_dest sorted_file block_size source in
  match d with
  | None => ret (Error FILE_CREATION_ERROR)
  | Some dest =>
      let* (_, r0) := read (st_fp (source 0%nat)) (record 0%nat) in
      let* (_, r1) := read (st_fp (source 1%nat)) (record 1%nat) in
      let* m := merge_blocks (Z.to_nat (st_count (source 0%nat))) block_size 0
                  {| mg_source := source; mg_record := fun i => match i with O => r0 | _ => r1 end; mg_dest := dest |} in
      match m with
      | None => close_dest sorted_file dest ;; close_tapes source ;; ret (Error FILE_WRITE_ERROR)
      | Some m =>
          close_tapes source ;;
          let* ok0 := fflush (st_fp (mg_dest m 0%nat)) in
          let* ok1 := (if ok0 : bool then fflush (st_fp (mg_dest m 1%nat)) else ret false) in
          if ok1 : bool then
            rewind (st_fp (mg_dest m 0%nat)) ;;
            rewind (st_fp (mg_dest m 1%nat)) ;;
            ret (Done (mg_dest m, mg_record m))
          else close_dest sorted_file (mg_dest m) ;; ret (Error FILE_WRITE_ERROR)
      end
  end.

(** Merge the tapes until every record is in the first one. *)
Fixpoint merge_files (fuel : nat) (sorted_file : nat) (block_size : Z) (source : nat -> sort_tape) (record : nat -> B)
    : M stdio (result (nat -> sort_tape)) :=
  if decide (st_count (source 1%nat) = 0) then ret (Done source)
  else match fuel with
  | O => nofuel
  | S fuel =>
      let* r := merge_pass sorted_file block_size source record in
      match r with
      | Error e => ret (Error e)
      | Done (source, record) => merge_files fuel sorted_file (u64 (Z.shiftl block_size 1)) source record
      end
  end.

(** The two source tapes; [None] when a temporary file could not be made. *)
Definition open_source : M stdio (option (nat -> sort_tape)) :=
  let* f0 := tmpfile in
  match f0 with
  | None => ret None
  | Some f0 =>
      let* f1 := tmpfile in
      match f1 with
      | None => fclose f0 ;; ret None
      | Some f1 => ret (Some (fun i => {| st_fp := match i with O => f0 | _ => f1 end; st_count := 0 |}))
      end
  end.

(** The error code and, on success, [*pcount]. *)
Definition merge_sort (fuel : nat) (unsorted_file sorted_file : nat) (max_record_size block_size : Z)
    : M stdio (couchstore_error_t * option Z) :=
  let* t := open_source in
  match t with
  | None => ret (FILE_CREATION_ERROR, None)
  | Some tape =>
      let* r := read_blocks fuel unsorted_file max_record_size block_size fresh [] 0 0 tape in
      match r with
      | Error e => ret (e, None)
      | Done (record, tape) =>
          (if decide (sorted_file = unsorted_file) then rewind unsorted_file else ret tt) ;;
          rewind (st_fp (tape 0%nat)) ;;
          rewind (st_fp (tape 1%nat)) ;;
          if decide (st_count (tape 1%nat) = 0) then
            fclose (st_fp (tape 1%nat)) ;;
            let* c := copy_records (Z.to_nat (st_count (tape 0%nat))) (st_fp (tape 0%nat)) sorted_file record in
            match c with
            | None => fclose (st_fp (tape 0%nat)) ;; ret (FILE_WRITE_ERROR, None)
            | Some _ => fclose (st_fp (tape 0%nat)) ;; ret (OK, Some (st_count (tape 0%nat)))
            end
          else
            let* r := merge_files fuel sorted_file block_size tape (fun i => match i with O => record | _ => fresh end) in
            match r with
            | Error e => ret (e, None)
            | Done source => fclose (st_fp (source 1%nat)) ;; ret (OK, Some (st_count (source 0%nat)))
            end
      end
  end.
End Sort.

(** ** A failure stays recorded *)

Section Sticky.
Context {B : Type}.
Variable read : nat -> B -> M stdio (Z * B).
Variable write : nat -> B -> M stdio Z.
Variable compare : B -> B -> option Z.
Variable fresh : B.
Hypothesis sticky_read : forall f b, sticky (read f b).
Hypothesis sticky_write : forall f b, sticky (write f b).
#[local] Hint Resolve sticky_read sticky_write : sticky.

Lemma sticky_sort_block first : sticky (sort_block compare first).
Proof. unfold sort_block. destruct (sort_linked_list _ _ _ _) as [[]| |]; solve_sticky. Qed.
Lemma sticky_close_tapes tape : sticky (close_tapes tape).
Proof. unfold close_tapes. solve_sticky. Qed.
#[local] Hint Resolve sticky_sort_block sticky_close_tapes : sticky.
Lemma sticky_write_block tape d first : sticky (write_block write tape d first).
Proof. revert tape. induction first as [|r first IH]; intros tape; cbn [write_block]; solve_sticky. Qed.
#[local] Hint Resolve sticky_write_block : sticky.
Lemma sticky_read_blocks fuel f m b r first c d tape : sticky (read_blocks read write compare fuel f m b r first c d tape).
Proof. revert r first c d tape. induction fuel as [|fuel IH]; intros; cbn [read_blocks]; solve_sticky. Qed.
Lemma sticky_copy_records n src dst r : sticky (copy_records read write n src dst r).
Proof. revert r. induction n as [|n IH]; intros; cbn [copy_records]; solve_sticky. Qed.
Lemma sticky_merge_block fuel count d m : sticky (merge_block read write compare fuel count d m).
Proof. revert count m. induction fuel as [|fuel IH]; intros; cbn [merge_block]; solve_sticky. Qed.
#[local] Hint Resolve sticky_read_blocks sticky_copy_records sticky_merge_block : sticky.
Lemma sticky_merge_blocks fuel b d m : sticky (merge_blocks read write compare fuel b d m).
Proof. revert d m. induction fuel as [|fuel IH]; intros; cbn [merge_blocks]; solve_sticky. Qed.
Lemma sticky_close_dest f dest : sticky (close_dest f dest).
Proof. unfold close_dest. solve_sticky. Qed.
Lemma sticky_open_dest f b source : sticky (open_dest f b source).
Proof. unfold open_dest. solve_sticky. Qed.
#[local] Hint Resolve sticky_merge_blocks sticky_close_dest sticky_open_dest : sticky.
Lemma sticky_merge_pass f b source record : sticky (merge_pass read write compare f b source record).
Proof. unfold merge_pass. solve_sticky. Qed.
#[local] Hint Resolve sticky_merge_pass : sticky.
Lemma sticky_merge_files fuel f b source record : sticky (merge_files read write compare fuel f b source record).
Proof. revert b source record. induction fuel as [|fuel IH]; intros; cbn [merge_files]; solve_sticky. Qed.
Lemma sticky_open_source : sticky open_source.
Proof. unfold open_source. solve_sticky. Qed.
#[local] Hint Resolve sticky_merge_files sticky_open_source : sticky.
Lemma sticky_merge_sort fuel f g max bz : sticky (merge_sort read write compare fresh fuel f g max bz).
Proof. unfold merge_sort. solve_sticky. Qed.
End Sticky.

#[export] Hint Resolve sticky_sort_block sticky_close_tapes sticky_write_block sticky_read_blocks sticky_copy_records
  sticky_merge_block sticky_merge_blocks sticky_close_dest sticky_open_dest sticky_merge_pass sticky_merge_files
  sticky_open_source sticky_merge_sort : sticky.

(** ** What the callbacks promise *)

(** What the callbacks do: a record [r] is stored as [enc r]; [rok] are the records
    they handle.  Reading one moves behind it, at the end of the file it returns
    zero; a record is written over what is there. *)
Class RecordIO {B} (read : nat -> B -> M stdio (Z * B)) (write : nat -> B -> M stdio Z)
    (enc : B -> bytes) (rok : B -> Prop) (max_record_size : Z) : Prop := {
  read_sticky : forall f b, sticky (read f b);
  write_sticky : forall f b, sticky (write f b);
  enc_ne : forall r, rok r -> enc r <> [];
  read_law : forall f buf fl pre r rest Q s,
    io_files s !! f = Some fl -> fl_data fl = pre ++ enc r ++ rest -> fl_pos fl = length pre -> rok r ->
    (forall z s', 0 < z <= max_record_size -> stream_set s f (seek (length (pre ++ enc r)) fl) s' -> Q (z, r) s') ->
    wp (read f buf) Q s;
  read_end_law : forall f buf fl Q s,
    io_files s !! f = Some fl -> fl_pos fl = length (fl_data fl) ->
    (forall b s', stream_set s f fl s' -> Q (0, b) s') -> wp (read f buf) Q s;
  write_law : forall f r fl Q s,
    io_files s !! f = Some fl -> rok r ->
    (forall z s', z <> 0 ->
       stream_set s f {| fl_data := splice (fl_data fl) (fl_pos fl) (enc r); fl_pos := fl_pos fl + length (enc r);
                      fl_error := fl_error fl |} s' -> Q z s') ->
    wp (write f r) Q s
}.

(** The laws hold for fewer records too. *)
Lemma RecordIO_weaken {B} read write enc (rok rok' : B -> Prop) max :
  (forall r, rok' r -> rok r) -> RecordIO read write enc rok max -> RecordIO read write enc rok' max.
Proof.
  intros Hr HIO. split; [apply HIO|apply HIO|intros r Hok; by eapply enc_ne, Hr|intros; by eapply read_law; eauto
    |intros; by eapply read_end_law; eauto|intros; by eapply write_law; eauto].
Qed.
