(* ===== verification/MergeSortProofs.v ===== *)
(** * MergeSortProofs: the file is sorted

    The proof that merge_sort of MergeSort.v sorts a file of records, for any
    callbacks with the laws [RecordIO]: the blocks that are read become runs on two
    tapes, every pass merges the runs in pairs, and the last one writes the output,
    which may be the input.  All temporary files are gone at the end. *)

From Stdlib Require Import ZArith Lia.
From S2P Require Import Prelude FileOps Runs LinkedSort Stdio MergeSort.
From stdpp Require Import sorting gmap numbers functions list.

#[local] Open Scope Z_scope.
#[local] Open Scope couch_scope.

(** ** Blocks in memory *)

Lemma block_next_lookup n i : (i < n)%nat ->
  block_next n !! Pos.of_succ_nat i = Some (if decide (S i = n) then None else Some (Pos.of_succ_nat (S i))).
Proof.
  intros Hi. unfold block_next. apply elem_of_list_to_map_1.
  - rewrite <- list_fmap_compose. apply NoDup_fmap_2; [|apply NoDup_seq].
    intros a b H. cbn in H. lia.
  - apply list_elem_of_fmap. exists i. split; [done|]. apply elem_of_seq. lia.
Qed.

Lemma block_linked n : linked (block_next n) (block_first n) (map Pos.of_succ_nat (seq 0 n)).
Proof.
  enough (forall k i, (i + k = n)%nat ->
    linked (block_next n) (if decide (i = n) then None else Some (Pos.of_succ_nat i)) (map Pos.of_succ_nat (seq i k))) as H.
  { specialize (H n O eq_refl). by destruct n. }
  induction k as [|k IH]; intros i Hi; [rewrite decide_True by lia; done|].
  rewrite decide_False by lia. cbn. split; [done|]. eexists. split; [apply block_next_lookup; lia|].
  apply (IH (S i)). lia.
Qed.

Lemma follow_linked fuel h p l : linked h p l -> (length l <= fuel)%nat -> follow fuel h p = Some l.
Proof.
  revert fuel p. induction l as [|x l IH]; intros fuel p Hl Hf; cbn in Hl; [subst; by destruct fuel|].
  destruct Hl as (-> & q & Hq & Hl). destruct fuel as [|fuel]; cbn in Hf; [lia|].
  cbn. rewrite Hq. cbn. rewrite (IH fuel q Hl) by lia. done.
Qed.

Section Proofs.
Context {B : Type}.
Variable read : nat -> B -> M stdio (Z * B).
Variable write : nat -> B -> M stdio Z.
Variable compare : B -> B -> option Z.
Variable cmp : B -> B -> Z.
Variable fresh : B.
Variable enc : B -> bytes.
Variable rok : B -> Prop.
Variable max_record_size : Z.
Context `{HIO : !RecordIO read write enc rok max_record_size} `{HC : !Compares rok compare cmp}.
#[local] Instance cmp_order : Comparison cmp := compares_order.

Lemma sticky_read f b : sticky (read f b).
Proof. apply read_sticky. Qed.
Lemma sticky_write f b : sticky (write f b).
Proof. apply write_sticky. Qed.
#[local] Hint Resolve sticky_read sticky_write : sticky.

Definition rec_le (a b : B) : Prop := cmp a b <= 0.
#[local] Instance rec_le_dec a b : Decision (rec_le a b) := Z_le_dec _ _.

Lemma wp_sort_block first Q s : Z.of_nat (length first) < 2 ^ 63 -> Forall rok first ->
  (forall l, Sorted rec_le l -> l ≡ₚ first -> Q l s) -> wp (sort_block compare first) Q s.
Proof.
  intros Hsm Hall HQ. unfold sort_block. set (n := length first). set (locs := map Pos.of_succ_nat (seq 0 n)).
  set (record := fun x => default fresh (first !! Nat.pred (Pos.to_nat x))).
  assert (length locs = n) as Hn by (unfold locs; by rewrite length_map, length_seq).
  assert (forall x, x ∈ locs -> first !! Nat.pred (Pos.to_nat x) = Some (record x) /\ rok (record x)) as Hat.
  { intros x (i & -> & Hi%elem_of_seq)%list_elem_of_fmap. unfold record. rewrite SuccNat2Pos.id_succ. cbn.
    destruct (lookup_lt_is_Some_2 first i) as [x Hx]; [unfold n in Hi; lia|]. rewrite Hx. split; [done|].
    by eapply Forall_lookup_1. }
  assert (Compares (.∈ locs) (compare_records compare first) (fun p q => cmp (record p) (record q))) as HCr.
  { split; [split; intros; [apply cmp_flip|by eapply cmp_trans]|]. intros a b Ha Hb. unfold compare_records.
    destruct (Hat a Ha) as [-> Ra], (Hat b Hb) as [-> Rb]. cbn. by apply compares_on. }
  pose proof (wp_sort_linked_list (compare_records compare first) (fun p q => cmp (record p) (record q)) locs n
    {| so_next := block_next n; so_tape := fun _ => zero_tape |} (block_first n) (block_linked n)) as Hw.
  assert (map record locs = first) as Hrec.
  { apply list_eq. intros i. unfold locs. rewrite map_map, list_lookup_fmap.
    destruct (decide (i < n)%nat) as [Hi|Hi].
    - rewrite lookup_seq_lt by done. cbn. unfold record. rewrite SuccNat2Pos.id_succ. cbn.
      by destruct (lookup_lt_is_Some_2 first i Hi) as [x ->].
    - rewrite lookup_seq_ge by lia. symmetry. apply lookup_ge_None. unfold n in Hi. lia. }
  specialize (Hw ltac:(apply NoDup_fmap_2; [intros a b; lia|apply NoDup_seq]) ltac:(by rewrite Hn) ltac:(by rewrite Hn)).
  unfold wp at 1 in Hw. destruct (sort_linked_list _ _ _ _) as [[p c] s'|s'|s']; [|done..].
  destruct (Hw eq_refl) as (l & Hl & Hp & Hss & _).
  cbn [fst] in Hl. rewrite (follow_linked n _ _ l Hl) by (rewrite Hp, Hn; done).
  apply wp_bind; [solve_sticky|]. apply wp_ret.
  assert (mapM (fun x => first !! Nat.pred (Pos.to_nat x)) l = Some (map record l)) as ->.
  { apply mapM_Some_2, Forall2_fmap_r, Forall_Forall2_diag, list.Forall_forall. intros x Hx. rewrite Hp in Hx.
    by apply Hat. }
  apply wp_ret, HQ; [|by rewrite Hp, Hrec].
  clear - Hss. induction Hss as [|x l Hss IH Hx]; cbn; [done|]. constructor; [done|].
  destruct Hx; constructor. done.
Qed.

(** ** Records in files *)

Definition encs (l : list B) : bytes := concat (map enc l).

Lemma encs_app a b : encs (a ++ b) = encs a ++ encs b.
Proof. unfold encs. by rewrite map_app, concat_app. Qed.
Lemma encs_perm a b : a ≡ₚ b -> length (encs a) = length (encs b).
Proof.
  unfold encs. induction 1; cbn; rewrite ?length_app; [done|congruence|lia|congruence].
Qed.

(** The stream [f] holds [D], of which the records [l] are still to be read. *)
Definition in_at (s : stdio) (f : nat) (D : bytes) (l : list B) : Prop :=
  exists pre e, io_files s !! f = Some {| fl_data := D; fl_pos := length pre; fl_error := e |} /\ D = pre ++ encs l.

(** The records [l] have been written to [f] over the data [D] from [p] on. *)
Definition out_at (s : stdio) (f : nat) (D : bytes) (p : nat) (l : list B) : Prop :=
  exists e, io_files s !! f = Some {| fl_data := splice D p (encs l); fl_pos := p + length (encs l); fl_error := e |}.

Lemma in_at_same s s' f D l k : same_but s s' k -> f ∉ k -> in_at s f D l -> in_at s' f D l.
Proof. intros [H _] Hf (pre & e & Hd & E). exists pre, e. by rewrite H. Qed.

Lemma out_at_same s s' f D p l k : same_but s s' k -> f ∉ k -> out_at s f D p l -> out_at s' f D p l.
Proof. intros [H _] Hf (e & Hd). exists e. by rewrite H. Qed.

Lemma in_at_frame s s' f D l : io_files s' !! f = io_files s !! f -> in_at s f D l -> in_at s' f D l.
Proof. intros H (pre & e & Hd & E). exists pre, e. by rewrite H. Qed.

Lemma wp_read_rec f buf D r l Q s : in_at s f D (r :: l) -> rok r ->
  (forall z s', 0 < z <= max_record_size -> in_at s' f D l -> same_but s s' [f] -> Q (z, r) s') -> wp (read f buf) Q s.
Proof.
  intros (pre & e & Hf & ->) Hr HQ. cbn in HQ, Hf.
  eapply read_law; [exact Hf|cbn; reflexivity|done|done|]. intros z s' Hz Ht. apply HQ; [done| |by eapply stream_set_same].
  exists (pre ++ enc r), e. rewrite (stream_set_at _ _ _ _ Ht). split; [done|]. cbn. by rewrite <- app_assoc.
Qed.

Lemma wp_read_none f buf D Q s : in_at s f D [] ->
  (forall b s', in_at s' f D [] -> same_but s s' [f] -> Q (0, b) s') -> wp (read f buf) Q s.
Proof.
  intros (pre & e & Hf & ->) HQ. cbn in HQ, Hf. rewrite app_nil_r in *.
  eapply read_end_law; [exact Hf|done|]. intros b s' Ht. apply HQ; [|by eapply stream_set_same].
  exists pre, e. rewrite (stream_set_at _ _ _ _ Ht). split; [done|]. cbn. by rewrite app_nil_r.
Qed.

Lemma wp_write_rec f D p l r Q s : out_at s f D p l -> rok r ->
  (forall z s', z <> 0 -> out_at s' f D p (l ++ [r]) -> same_but s s' [f] -> Q z s') -> wp (write f r) Q s.
Proof.
  intros (e & Hf) Hr HQ. eapply write_law; [exact Hf|done|]. intros z s' Hz Ht.
  apply HQ; [done| |by eapply stream_set_same]. exists e. rewrite (stream_set_at _ _ _ _ Ht). cbn.
  rewrite splice_splice, encs_app, length_app. cbn. rewrite app_nil_r. do 2 f_equal. lia.
Qed.

(** *** Reading the blocks *)

(** A tape on which the records [l] have been written. *)
Definition tape_out (s : stdio) (t : sort_tape) (D : bytes) (p : nat) (l : list B) : Prop :=
  out_at s (st_fp t) D p l /\ st_count t = Z.of_nat (length l).

Lemma count_up_length t l (r : B) : st_count t = Z.of_nat (length l) -> Z.of_nat (length l) < 2 ^ 63 ->
  st_count (count_up t) = Z.of_nat (length (l ++ [r])).
Proof. intros Hc Hl. cbn. rewrite Hc, length_app. cbn. unfold u64. rewrite Z.mod_small; lia. Qed.

Lemma wp_write_block tape d D p old first Q s :
  tape_out s (tape d) D p old -> Forall rok first -> Z.of_nat (length old + length first) < 2 ^ 63 ->
  (forall tape' s', (forall i, st_fp (tape' i) = st_fp (tape i)) -> (forall i, i <> d -> tape' i = tape i) ->
     tape_out s' (tape' d) D p (old ++ first) -> same_but s s' [st_fp (tape d)] -> Q (Some tape') s') ->
  wp (write_block write tape d first) Q s.
Proof.
  revert tape old s. induction first as [|r first IH]; intros tape old s [Ho Hc] Hok Hl HQ; cbn [write_block].
  - apply wp_ret. apply (HQ tape); [done|done|by rewrite app_nil_r|by split].
  - apply list.Forall_cons in Hok as [Hr Hok]. cbn [length] in Hl. apply wp_bind; [solve_sticky|].
    eapply wp_write_rec; [exact Ho|done|]. intros z s1 Hz Ho1 Hs1. rewrite decide_False by done.
    eapply (IH _ (old ++ [r])); [split; fn; [exact Ho1|apply count_up_length; [done|lia]]|done|rewrite length_app; cbn; lia|].
    intros tape' s' Hfp Hne Ht Hs. fn. apply HQ.
    + intros i. rewrite Hfp. destruct (decide (i = d)) as [->|]; by fn.
    + intros i Hi. rewrite Hne by done. by fn.
    + by rewrite <- app_assoc in Ht.
    + rewrite fn_lookup_insert in Hs. cbn in Hs. by eapply same_but_trans.
Qed.

(** The tapes hold the runs [rs]. *)
Definition tapes_out (s : stdio) (tape : nat -> sort_tape) (rs : list (list B)) : Prop :=
  tape_out s (tape 0%nat) [] 0 (deal rs).1 /\ tape_out s (tape 1%nat) [] 0 (deal rs).2.

(** The tape the next run goes to. *)
Definition next_tape (rs : list (list B)) : nat := if Nat.even (length rs) then 0%nat else 1%nat.

Lemma next_tape_snoc rs r : next_tape (rs ++ [r]) = Nat.lxor (next_tape rs) 1.
Proof.
  unfold next_tape. rewrite length_app. cbn [length]. rewrite Nat.add_1_r, Nat.even_succ, <- Nat.negb_even.
  by destruct (Nat.even (length rs)).
Qed.

Lemma deal_length (rs : list (list B)) : (length (deal rs).1 + length (deal rs).2 = length (concat rs))%nat.
Proof. rewrite <- length_app. apply Permutation_length, deal_perm. Qed.

(** A block is sorted and written as the next run. *)
Lemma wp_flush_block {A} tape rs first (k : (nat -> sort_tape) -> M stdio (result A)) e Q s :
  (forall t, sticky (k t)) -> tapes_out s tape rs -> st_fp (tape 0%nat) <> st_fp (tape 1%nat) ->
  Forall rok first -> Z.of_nat (length (concat rs) + length first) < 2 ^ 63 ->
  (forall tape' s' r, (forall i, st_fp (tape' i) = st_fp (tape i)) -> tapes_out s' tape' (rs ++ [r]) ->
     r ≡ₚ first -> Sorted rec_le r -> same_but s s' [st_fp (tape 0%nat); st_fp (tape 1%nat)] -> wp (k tape') Q s') ->
  wp (let* first := sort_block compare first in
      let* t := write_block write tape (next_tape rs) first in
      match t with None => ret (Error e) | Some tape => k tape end) Q s.
Proof.
  intros Hk [H0 H1] Hfp Hok Hl HQ. apply wp_bind; [solve_sticky; auto|].
  apply wp_sort_block; [lia|done|]. intros r Hsort Hp. apply wp_bind; [intros [|]; auto with sticky|].
  pose proof (deal_length rs) as Hdl. pose proof (Permutation_length Hp) as Hpl.
  pose proof (deal_snoc rs r) as Hds. unfold next_tape in *. destruct (Nat.even (length rs)).
  - eapply wp_write_block; [exact H0|by rewrite Hp|lia|]. intros tape' s' Hf Hne Ht Hs.
    apply (HQ _ _ r); [done| |done|done|eapply same_but_trans; [exact Hs|by split|set_solver|set_solver]].
    split; rewrite Hds; cbn; [done|]. rewrite Hne by done. destruct H1 as [H1 ?]. split; [|done].
    eapply out_at_same; [exact Hs|set_solver|exact H1].
  - eapply wp_write_block; [exact H1|by rewrite Hp|lia|]. intros tape' s' Hf Hne Ht Hs.
    apply (HQ _ _ r); [done| |done|done|eapply same_but_trans; [exact Hs|by split|set_solver|set_solver]].
    split; rewrite Hds; cbn; [|done]. rewrite Hne by done. destruct H0 as [H0 ?]. split; [|done].
    eapply out_at_same; [exact Hs|set_solver|exact H0].
Qed.

Hypothesis max_nonneg : 0 <= max_record_size.

Lemma tapes_out_same s s' tape rs k : same_but s s' k -> st_fp (tape 0%nat) ∉ k -> st_fp (tape 1%nat) ∉ k ->
  tapes_out s tape rs -> tapes_out s' tape rs.
Proof. intros Hs H0 H1 [[O0 ?] [O1 ?]]. split; (split; [|done]); by eapply out_at_same. Qed.

Definition read_done (s : stdio) (f : nat) (D : bytes) (Bz : Z) (tape : nat -> sort_tape) (l : list B)
    (r : result (B * (nat -> sort_tape))) (s' : stdio) : Prop :=
  exists rec tape' rs, r = Done (rec, tape') /\ (forall i, st_fp (tape' i) = st_fp (tape i)) /\
    runs rec_le (Z.to_nat Bz) rs /\ tapes_out s' tape' rs /\ concat rs ≡ₚ l /\ in_at s' f D [] /\
    same_but s s' [f; st_fp (tape 0%nat); st_fp (tape 1%nat)].

Lemma read_done_mono s s1 f D Bz tape tape1 l l1 r s' :
  same_but s s1 [f; st_fp (tape 0%nat); st_fp (tape 1%nat)] -> (forall i, st_fp (tape1 i) = st_fp (tape i)) -> l1 ≡ₚ l ->
  read_done s1 f D Bz tape1 l1 r s' -> read_done s f D Bz tape l r s'.
Proof.
  intros Hs Hfp Hl (rec & t' & rs & -> & Hfp' & Hr & Ht & Hp & Hin & Hs'). exists rec, t', rs. rewrite !Hfp in Hs'.
  split_and!; [done|intros i; by rewrite Hfp'|done|done|by rewrite Hp|done|by eapply same_but_trans].
Qed.

(** The end of the input. *)
Lemma wp_read_last fuel f D Bz record first tape rs s :
  in_at s f D [] -> tapes_out s tape rs -> NoDup [f; st_fp (tape 0%nat); st_fp (tape 1%nat)] -> 0 < Bz < 2 ^ 63 ->
  Forall (fun r => length r = Z.to_nat Bz /\ Sorted rec_le r) rs -> Z.of_nat (length first) < Bz ->
  Forall rok first -> Z.of_nat (length (concat rs) + length first) < 2 ^ 63 ->
  wp (read_blocks read write compare (S fuel) f max_record_size Bz record first (Z.of_nat (length first)) (next_tape rs) tape)
     (read_done s f D Bz tape (concat rs ++ first)) s.
Proof.
  intros Hin Ht Hnd HB Hrs Hfl Hok Hsm.
  assert (st_fp (tape 0%nat) <> st_fp (tape 1%nat) /\ f <> st_fp (tape 0%nat) /\ f <> st_fp (tape 1%nat)) as (F01 & F0 & F1).
  { rewrite !list.NoDup_cons in Hnd. set_solver. }
  cbn [read_blocks]. apply wp_bind; [intros [??]; solve_sticky|].
  eapply wp_read_none; [exact Hin|]. intros b s1 Hin1 Hs1.
  rewrite decide_False by lia. rewrite (decide_False (P := 0 < 0)) by lia.
  assert (tapes_out s1 tape rs) as Ht1 by (eapply tapes_out_same; [exact Hs1|set_solver|set_solver|exact Ht]).
  case_decide as Hc.
  - eapply wp_flush_block; [intros; solve_sticky|exact Ht1|done|done|cbn in Hsm; lia|].
    intros tape' s2 r Hfp Ht2 Hp Hsort Hs2. rewrite decide_True by done. apply wp_ret.
    eexists b, tape', (rs ++ [r]). split_and!; [done|done| |done| | |].
    + apply runs_snoc; [lia|done| | |done].
      { intros ->. apply Permutation_nil in Hp. subst first. cbn in Hc. lia. }
      { rewrite (Permutation_length Hp). lia. }
    + rewrite concat_app. cbn. by rewrite app_nil_r, Hp.
    + eapply in_at_same; [exact Hs2|set_solver|exact Hin1].
    + eapply same_but_trans; [exact Hs1|exact Hs2|set_solver|set_solver].
  - rewrite decide_True by done. apply wp_ret. assert (first = []) as -> by (apply nil_length_inv; lia).
    exists b, tape, rs. rewrite app_nil_r. split_and!; try done; [apply runs_full; [lia|done]|].
    eapply same_but_trans; [exact Hs1|by split|set_solver|set_solver].
Qed.

Lemma wp_read_blocks fuel f D Bz record first tape rs l s :
  in_at s f D l -> tapes_out s tape rs -> NoDup [f; st_fp (tape 0%nat); st_fp (tape 1%nat)] -> 0 < Bz < 2 ^ 63 ->
  Forall (fun r => length r = Z.to_nat Bz /\ Sorted rec_le r) rs -> Z.of_nat (length first) < Bz ->
  Forall rok (first ++ l) -> Z.of_nat (length (concat rs) + length first + length l) < 2 ^ 63 -> (length l < fuel)%nat ->
  wp (read_blocks read write compare fuel f max_record_size Bz record first (Z.of_nat (length first)) (next_tape rs) tape)
     (read_done s f D Bz tape (concat rs ++ first ++ l)) s.
Proof.
  revert record first tape rs l s. induction fuel as [|fuel IH]; intros record first tape rs l s Hin Ht Hnd HB Hrs Hfl Hok Hsm Hf; [lia|].
  assert (st_fp (tape 0%nat) <> st_fp (tape 1%nat) /\ f <> st_fp (tape 0%nat) /\ f <> st_fp (tape 1%nat)) as (F01 & F0 & F1).
  { rewrite !list.NoDup_cons in Hnd. set_solver. }
  destruct l as [|r l].
  { rewrite app_nil_r in *. apply wp_read_last; try done. cbn in Hsm. lia. }
  cbn [read_blocks]. apply wp_bind; [intros [??]; solve_sticky|].
  apply Forall_app in Hok as [Hokf Hok]. apply list.Forall_cons in Hok as [Hr Hok].
  eapply wp_read_rec; [exact Hin|done|]. intros z s1 Hz Hin1 Hs1. cbn [length] in *.
  assert (tapes_out s1 tape rs) as Ht1 by (eapply tapes_out_same; [exact Hs1|set_solver|set_solver|exact Ht]).
  rewrite decide_False by lia. rewrite (decide_True (P := 0 < z)) by lia.
  replace (u64 (Z.of_nat (length first) + 1)) with (Z.of_nat (length (r :: first)))
    by (unfold u64; rewrite Z.mod_small; cbn [length]; lia).
  case_decide as Hc.
  - eapply wp_flush_block; [intros; solve_sticky|exact Ht1|done|by constructor|cbn [length]; lia|].
    intros tape' s2 b Hfp Ht2 Hp Hsort Hs2. rewrite decide_False by lia. rewrite <- next_tape_snoc with (r := b).
    pose proof (Permutation_length Hp) as Hpl. cbn [length] in Hpl, Hc.
    eapply wp_mono; [eapply (IH _ [] tape' (rs ++ [b]) l s2); [|done|by rewrite !Hfp|done| | |done| |lia]|].
    + eapply in_at_same; [exact Hs2|set_solver|exact Hin1].
    + apply Forall_app. split; [done|]. apply Forall_singleton. split; [lia|done].
    + cbn. lia.
    + rewrite concat_app, length_app. cbn. rewrite app_nil_r. lia.
    + intros r' s3. apply read_done_mono; [|done|].
      { eapply same_but_trans; [exact Hs1|exact Hs2|set_solver|set_solver]. }
      rewrite concat_app. cbn. rewrite app_nil_r, <- app_assoc, Hp. cbn. by rewrite Permutation_middle.
  - rewrite decide_False by lia.
    eapply wp_mono; [eapply (IH _ (r :: first) tape rs l s1); try done|].
    + cbn [length] in Hc |- *. lia.
    + constructor; [done|by apply Forall_app].
    + cbn [length]. lia.
    + lia.
    + intros r' s3. apply read_done_mono; [|done|cbn; by rewrite Permutation_middle].
      eapply same_but_trans; [exact Hs1|by split|set_solver|set_solver].
Qed.

(** *** Merging two tapes *)

Section Pass.
(** The streams of a pass, what the source tapes hold and what the destinations held. *)
Variables (sfp dfp : nat -> nat) (SD DD : nat -> bytes).
Hypothesis fp_apart : NoDup [sfp 0%nat; sfp 1%nat; dfp 0%nat; dfp 1%nat].

Definition pass_fps : list nat := [sfp 0%nat; sfp 1%nat; dfp 0%nat; dfp 1%nat].

(** The tape [i] still has the records [L i], of which the first is in its buffer;
    [O i] has been written to the destination [i]. *)
Record pass_inv (s : stdio) (m : merging) (L O : nat -> list B) : Prop := {
  pi_fp : forall i, st_fp (mg_source m i) = sfp i /\ st_fp (mg_dest m i) = dfp i;
  pi_count : forall i, (i < 2)%nat -> st_count (mg_source m i) = Z.of_nat (length (L i));
  pi_in : forall i, (i < 2)%nat -> in_at s (sfp i) (SD i) (tail (L i));
  pi_record : forall i r l, (i < 2)%nat -> L i = r :: l -> mg_record m i = r;
  pi_out : forall i, (i < 2)%nat -> tape_out s (mg_dest m i) (DD i) 0 (O i);
  pi_ok : forall i, (i < 2)%nat -> Forall rok (L i);
  pi_small : Z.of_nat (length (L 0%nat) + length (L 1%nat) + length (O 0%nat) + length (O 1%nat)) < 2 ^ 63
}.

Lemma two_cases i : (i < 2)%nat -> i = 0%nat \/ i = 1%nat.
Proof. lia. Qed.

Lemma fp_ne : (forall i j, (i < 2)%nat -> (j < 2)%nat -> sfp i <> dfp j) /\ sfp 0%nat <> sfp 1%nat /\ dfp 0%nat <> dfp 1%nat.
Proof.
  pose proof fp_apart as H. rewrite !list.NoDup_cons in H. split; [|set_solver].
  intros i j [-> | ->]%two_cases [-> | ->]%two_cases; set_solver.
Qed.

(** One record goes from the source [i] to the destination [d]. *)
Definition moved (m : merging) (i d : nat) (b : B) : merging :=
  {| mg_source := <[i := count_down (mg_source m i)]> (mg_source m);
     mg_record := <[i := b]> (mg_record m);
     mg_dest := <[d := count_up (mg_dest m d)]> (mg_dest m) |}.

Lemma pass_inv_moved s s' m L O i d r l b : pass_inv s m L O -> (i < 2)%nat -> (d < 2)%nat -> L i = r :: l ->
  in_at s' (sfp i) (SD i) (tail l) -> (forall r' l', l = r' :: l' -> b = r') ->
  out_at s' (dfp d) (DD d) 0 (O d ++ [r]) -> same_but s s' [sfp i; dfp d] ->
  pass_inv s' (moved m i d b) (<[i := l]> L) (<[d := O d ++ [r]]> O).
Proof.
  intros Hm Hi Hd HL Hin Hb Hout Hs. destruct fp_ne as (Nsd & Nss & Ndd).
  pose proof (pi_small _ _ _ _ Hm) as Hsm. pose proof (pi_count _ _ _ _ Hm i Hi) as Hc. rewrite HL in Hc. cbn [length] in Hc.
  assert (Z.of_nat (length (L i)) < 2 ^ 63 /\ Z.of_nat (length (O d)) < 2 ^ 63) as [Hli Hld].
  { apply two_cases in Hi as [-> | ->], Hd as [-> | ->]; lia. }
  rewrite HL in Hli. cbn [length] in Hli.
  split; cbn [mg_source mg_record mg_dest moved].
  - intros j. destruct (pi_fp _ _ _ _ Hm j) as [<- <-].
    split; [destruct (decide (j = i)) as [->|]; by fn|destruct (decide (j = d)) as [->|]; by fn].
  - intros j Hj. destruct (decide (j = i)) as [->|]; fn; [|by apply Hm]. cbn. rewrite Hc. unfold u64. rewrite Z.mod_small; lia.
  - intros j Hj. destruct (decide (j = i)) as [->|Hne]; fn; [done|]. eapply in_at_same; [exact Hs| |by apply Hm].
    pose proof (Nsd j d Hj Hd). apply two_cases in Hi as [-> | ->], Hj as [-> | ->]; set_solver.
  - intros j r' l' Hj. destruct (decide (j = i)) as [->|Hne]; fn; [apply Hb|by apply Hm].
  - intros j Hj. destruct (pi_out _ _ _ _ Hm j Hj) as [Hoj Hcj]. destruct (decide (j = d)) as [->|Hne]; fn.
    + split; [cbn; by rewrite (proj2 (pi_fp _ _ _ _ Hm d))|by apply count_up_length].
    + split; [|done]. rewrite (proj2 (pi_fp _ _ _ _ Hm j)) in *. eapply out_at_same; [exact Hs| |exact Hoj].
      pose proof (Nsd i j Hi Hj). apply two_cases in Hd as [-> | ->], Hj as [-> | ->]; set_solver.
  - intros j Hj. pose proof (pi_ok _ _ _ _ Hm j Hj) as Hok. destruct (decide (j = i)) as [->|]; fn; [|done].
    rewrite HL in Hok. by apply list.Forall_cons in Hok as [_ ?].
  - apply two_cases in Hi as [-> | ->], Hd as [-> | ->]; fn; rewrite HL in Hsm; rewrite ?length_app; cbn [length] in *; lia.
Qed.

Lemma wp_move_one s m L O i d r l (k : B -> M stdio (option (merging (B := B)))) Q :
  (forall b, sticky (k b)) -> pass_inv s m L O -> (i < 2)%nat -> (d < 2)%nat -> L i = r :: l ->
  (forall s' b, pass_inv s' (moved m i d b) (<[i := l]> L) (<[d := O d ++ [r]]> O) -> same_but s s' pass_fps -> wp (k b) Q s') ->
  wp (let* w := write (st_fp (mg_dest m d)) (mg_record m i) in
      if decide (w = 0) then ret None
      else
        let* b := (if decide (1 < st_count (mg_source m i)) then
                     let* (_, b) := read (st_fp (mg_source m i)) (mg_record m i) in ret b
                   else ret (mg_record m i)) in
        k b) Q s.
Proof.
  intros Hk Hm Hi Hd HL HQ. destruct fp_ne as (Nsd & _). pose proof (pi_ok _ _ _ _ Hm i Hi) as Hok. rewrite HL in Hok.
  apply list.Forall_cons in Hok as [Hr Hok]. destruct (pi_out _ _ _ _ Hm d Hd) as [Ho _].
  rewrite (pi_record _ _ _ _ Hm i r l Hi HL). destruct (pi_fp _ _ _ _ Hm i) as [-> _].
  rewrite (pi_count _ _ _ _ Hm i Hi), HL. pose proof (pi_in _ _ _ _ Hm i Hi) as Hin. rewrite HL in Hin. cbn [tail] in Hin.
  rewrite (proj2 (pi_fp _ _ _ _ Hm d)) in *.
  assert ([sfp i] ⊆ pass_fps /\ [dfp d] ⊆ pass_fps) as [K1 K2].
  { unfold pass_fps. apply two_cases in Hi as [-> | ->], Hd as [-> | ->]; set_solver. }
  apply wp_bind; [intros z; solve_sticky; auto|]. eapply wp_write_rec; [exact Ho|done|]. intros z s1 Hz Ho1 Hs1.
  rewrite decide_False by done. pose proof (Nsd i d Hi Hd) as Hne.
  assert (in_at s1 (sfp i) (SD i) l) as Hin1 by (eapply in_at_same; [exact Hs1|set_solver|exact Hin]).
  apply wp_bind; [done|]. cbn [length]. destruct l as [|r' l].
  - rewrite decide_False by (cbn; lia). apply wp_ret. apply HQ; [|by eapply same_but_trans].
    eapply pass_inv_moved; try done. eapply same_but_trans; [exact Hs1|by split|set_solver|set_solver].
  - rewrite decide_True by (cbn; lia). apply list.Forall_cons in Hok as [Hr' Hok].
    apply wp_bind; [intros [??]; solve_sticky|]. eapply wp_read_rec; [exact Hin1|done|].
    intros z' s2 _ Hin2 Hs2. apply wp_ret. apply HQ; [|by eapply same_but_trans].
    eapply pass_inv_moved; try done; [by intros ?? [= -> ->]|eapply out_at_same; [exact Hs2|set_solver|exact Ho1]|].
    eapply same_but_trans; [exact Hs1|exact Hs2|set_solver|set_solver].
Qed.

(** How the records of two runs are merged: of equal ones that of the second. *)
Definition merge_recs (r0 r1 : list B) : list B := list_merge rec_le r1 r0.

(** [o] has gone to the destination [d], and [a0] and [a1] are left. *)
Definition merged_to (s : stdio) (d : nat) (O : nat -> list B) (a0 a1 o : list B)
    (res : option (merging (B := B))) (s' : stdio) : Prop :=
  exists m' L' O', res = Some m' /\ pass_inv s' m' L' O' /\ L' 0%nat = a0 /\ L' 1%nat = a1 /\
    O' d = O d ++ o /\ (forall j, j <> d -> O' j = O j) /\ same_but s s' pass_fps.

Lemma wp_merge_next fuel s m L O i d r l count a0 a1 o :
  pass_inv s m L O -> (i < 2)%nat -> (d < 2)%nat -> L i = r :: l ->
  (forall s' m', pass_inv s' m' (<[i := l]> L) (<[d := O d ++ [r]]> O) ->
     wp (merge_block read write compare fuel count d m') (merged_to s' d (<[d := O d ++ [r]]> O) a0 a1 o) s') ->
  wp (let* w := write (st_fp (mg_dest m d)) (mg_record m i) in
      if decide (w = 0) then ret None
      else
        let* b := (if decide (1 < st_count (mg_source m i)) then
                     let* (_, b) := read (st_fp (mg_source m i)) (mg_record m i) in ret b
                   else ret (mg_record m i)) in
        merge_block read write compare fuel count d (moved m i d b)) (merged_to s d O a0 a1 (r :: o)) s.
Proof.
  intros Hm Hi Hd HL IH.
  apply (wp_move_one s m L O i d r l (fun b => merge_block read write compare fuel count d (moved m i d b))); [solve_sticky|done..|].
  intros s' b Hm' Hs. eapply wp_mono; [by apply IH|]. intros res s2 (m2 & L2 & O2 & -> & Hm2 & H0 & H1 & Ho & Hne & Hs2).
  exists m2, L2, O2. split_and!; [done..| | |by eapply same_but_trans].
  - rewrite Ho. fn. by rewrite <- app_assoc.
  - intros j Hj. rewrite Hne by done. by fn.
Qed.

Lemma wp_merge_block fuel s m L O d count r0 r1 a0 a1 :
  pass_inv s m L O -> (d < 2)%nat -> L 0%nat = r0 ++ a0 -> L 1%nat = r1 ++ a1 ->
  count 0%nat = Z.of_nat (length r0) -> count 1%nat = Z.of_nat (length r1) -> (length r0 + length r1 <= fuel)%nat ->
  wp (merge_block read write compare fuel count d m) (merged_to s d O a0 a1 (merge_recs r0 r1)) s.
Proof.
  revert s m L O count r0 r1. induction fuel as [|fuel IH]; intros s m L O count r0 r1 Hm Hd L0 L1 C0 C1 Hf;
    cbn [merge_block]; pose proof (pi_small _ _ _ _ Hm) as Hsm; rewrite L0, L1, !length_app in Hsm;
    rewrite C0, C1;
    assert (u64 (Z.of_nat (length r0) + Z.of_nat (length r1)) = Z.of_nat (length r0) + Z.of_nat (length r1)) as ->
      by (unfold u64; rewrite Z.mod_small; lia).
  { rewrite decide_True by lia. apply wp_ret. destruct r0, r1; cbn in Hf; try lia.
    exists m, L, O. cbn. rewrite app_nil_r. by split_and!. }
  case_decide as Hz.
  { apply wp_ret. destruct r0, r1; cbn in Hz; try lia. exists m, L, O. cbn. rewrite app_nil_r. by split_and!. }
  assert (forall x, u64 (Z.of_nat (S (length x)) - 1) = Z.of_nat (length x) \/ 2 ^ 63 <= Z.of_nat (S (length (A := B) x))) as Hdec.
  { intros x. destruct (Z_lt_le_dec (Z.of_nat (S (length x))) (2 ^ 63)); [left|by right]. unfold u64. rewrite Z.mod_small; lia. }
  destruct r0 as [|x r0].
  - rewrite decide_True by done. destruct r1 as [|y r1]; [cbn in Hz; lia|]. cbn [length] in *. unfold merge_recs.
    rewrite list_merge_nil_r. eapply wp_merge_next; [done|lia|done|exact L1|]. intros s' m' Hm'.
    pose proof (fun c => IH s' m' _ _ c [] r1 Hm' Hd) as IH'. unfold merge_recs in IH'. rewrite list_merge_nil_r in IH'.
    apply IH'; fn; [done|done|done| |cbn; lia]. rewrite C1. destruct (Hdec r1); lia.
  - rewrite decide_False by (cbn; lia). cbn [length] in *. destruct r1 as [|y r1].
    + rewrite decide_True by done. unfold merge_recs. rewrite list_merge_nil_l.
      eapply wp_merge_next; [done|lia|done|exact L0|]. intros s' m' Hm'.
      pose proof (fun c => IH s' m' _ _ c r0 [] Hm' Hd) as IH'. unfold merge_recs in IH'. rewrite list_merge_nil_l in IH'.
      apply IH'; fn; [done|done| |done|cbn; lia]. rewrite C0. destruct (Hdec r0); lia.
    + cbn [length] in *. rewrite decide_False by lia.
      rewrite (pi_record _ _ _ _ Hm 0 x (r0 ++ a0)), (pi_record _ _ _ _ Hm 1 y (r1 ++ a1)) by (done || lia).
      assert (rok x /\ rok y) as [Hx Hy].
      { pose proof (pi_ok _ _ _ _ Hm 0 ltac:(lia)) as H0. pose proof (pi_ok _ _ _ _ Hm 1 ltac:(lia)) as H1.
        rewrite L0 in H0. rewrite L1 in H1. by inv H0; inv H1. }
      assert ((let* c := need (compare x y) in ret (if decide (c < 0) then 0%nat else 1%nat)) =
              (ret (if decide (cmp x y < 0) then 0%nat else 1%nat) : M stdio nat)) as -> by (by rewrite (compares_on x y)).
      unfold merge_recs. rewrite list_merge_cons. pose proof (cmp_flip y x) as Hflip.
      destruct (decide (rec_le y x)) as [Hle|Hle]; unfold rec_le in Hle.
      * rewrite decide_False by lia. eapply wp_merge_next; [done|lia|done|exact L1|]. intros s' m' Hm'.
        eapply (IH _ _ _ _ _ (x :: r0) r1); [done|done| | | | |cbn; lia]; fn; [done|done|done|]. rewrite C1. destruct (Hdec r1); lia.
      * rewrite decide_True by lia. eapply wp_merge_next; [done|lia|done|exact L0|]. intros s' m' Hm'.
        eapply (IH _ _ _ _ _ r0 (y :: r1)); [done|done| | | | |cbn; lia]; fn; [done|done| |done]. rewrite C0. destruct (Hdec r0); lia.
Qed.

#[local] Instance merge_recs_Merges : Merges rec_le merge_recs.
Proof.
  assert (Total rec_le) by (intros a b; unfold rec_le; rewrite (cmp_flip b a); lia).
  split; [intros a b; unfold merge_recs; rewrite merge_Permutation; apply Permutation_app_comm|].
  intros a b Ha Hb. by apply Sorted_list_merge.
Qed.

Lemma min_run_part n (r rest : list B) : run_part n r rest -> Z.min (Z.of_nat (length (r ++ rest))) n = Z.of_nat (length r).
Proof. intros [Hle [Hn| ->]]; rewrite length_app; cbn [length]; lia. Qed.

Lemma wp_merge_blocks fuel s m L O d bs rs :
  pass_inv s m L O -> (d < 2)%nat -> L 0%nat = (deal rs).1 -> L 1%nat = (deal rs).2 -> runs rec_le bs rs ->
  (length (L 0%nat) <= fuel)%nat ->
  wp (merge_blocks read write compare fuel (Z.of_nat bs) d m)
     (fun res s' => exists m' L' O', res = Some m' /\ pass_inv s' m' L' O' /\
        O' d = O d ++ (deal (pairs merge_recs rs)).1 /\
        O' (Nat.lxor d 1) = O (Nat.lxor d 1) ++ (deal (pairs merge_recs rs)).2 /\ same_but s s' pass_fps) s.
Proof.
  revert fuel s m L O d. induction rs as [rs IH] using (induction_ltof1 _ length).
  intros fuel s m L O d Hm Hd L0 L1 Hr Hf. pose proof (pi_count _ _ _ _ Hm 0 ltac:(lia)) as C0.
  assert (rs = [] -> wp (ret (Some m)) (fun res s' => exists m' L' O', res = Some m' /\ pass_inv s' m' L' O' /\
    O' d = O d ++ (deal (pairs merge_recs rs)).1 /\
    O' (Nat.lxor d 1) = O (Nat.lxor d 1) ++ (deal (pairs merge_recs rs)).2 /\ same_but s s' pass_fps) s) as Hdone.
  { intros ->. apply wp_ret. exists m, L, O. cbn. rewrite !app_nil_r. by split_and!. }
  destruct fuel as [|fuel]; cbn [merge_blocks].
  { rewrite decide_True by lia. apply Hdone. eapply deal_first_nil; [exact Hr|]. rewrite <- L0. apply nil_length_inv. lia. }
  destruct rs as [|r0 rs]; [rewrite decide_True by (by rewrite C0, L0); by apply Hdone|]. clear Hdone.
  destruct (deal_parts _ merge_recs bs r0 rs Hr) as (r1 & rs' & Hrs & Hrs0 & F0 & F1 & P0 & P1 & Hr' & Hp).
  apply runs_inv in Hr as (Hne & _). rewrite F0 in L0. rewrite F1 in L1.
  rewrite decide_False by (rewrite C0, L0; destruct r0; [done|cbn; lia]).
  apply wp_bind; [intros [|]; solve_sticky|].
  pose proof (pi_count _ _ _ _ Hm 1 ltac:(lia)) as C1.
  eapply wp_mono; [eapply wp_merge_block; [exact Hm|done|exact L0|exact L1| | |]|].
  - cbv beta. rewrite C0, L0. by apply min_run_part.
  - cbv beta. rewrite C1, L1. by apply min_run_part.
  - rewrite C0, C1, L0, L1, !min_run_part by done. lia.
  - intros res s1 (m1 & L1' & O1 & -> & Hm1 & G0 & G1 & Gd & Gne & Hs1).
    assert (Nat.lxor d 1 <> d /\ (Nat.lxor d 1 < 2)%nat /\ Nat.lxor (Nat.lxor d 1) 1 = d) as (X1 & X2 & X3)
      by (apply two_cases in Hd as [-> | ->]; cbn; lia).
    eapply wp_mono; [eapply (IH rs' _ fuel s1 m1 L1' O1 (Nat.lxor d 1)); try done|].
    + rewrite G0. rewrite L0, length_app in Hf. destruct r0; [done|]. cbn in Hf. lia.
    + intros res s2 (m2 & L2 & O2 & -> & Hm2 & Ga & Gb & Hs2). rewrite X3 in Gb.
      exists m2, L2, O2. rewrite Hp. cbn [deal fst snd]. split_and!; [done|done| | |by eapply same_but_trans].
      * by rewrite Gb, Gd, app_assoc.
      * by rewrite Ga, Gne.
  Unshelve. unfold ltof. destruct rs; [destruct Hrs0 as [_ ->]; [done|cbn; lia]|]. injection Hrs as -> ->. cbn. lia.
Qed.

(** The end of a pass: the sources are closed, the destinations rewound. *)
Definition finish_pass (sorted_file : nat) (source : nat -> sort_tape) (m : merging (B := B))
    : M stdio (result ((nat -> sort_tape) * (nat -> B))) :=
  close_tapes source ;;
  let* ok0 := fflush (st_fp (mg_dest m 0%nat)) in
  let* ok1 := (if ok0 : bool then fflush (st_fp (mg_dest m 1%nat)) else ret false) in
  if ok1 : bool then
    rewind (st_fp (mg_dest m 0%nat)) ;; rewind (st_fp (mg_dest m 1%nat)) ;; ret (Done (mg_dest m, mg_record m))
  else close_dest sorted_file (mg_dest m) ;; ret (Error FILE_WRITE_ERROR).

Definition rewound (D : bytes) (l : list B) : FILE := {| fl_data := splice D 0 (encs l); fl_pos := 0; fl_error := false |}.

Lemma wp_finish_pass g source s m L O Q :
  pass_inv s m L O -> (forall i, st_fp (source i) = sfp i) ->
  (forall s', (forall h, h ∉ pass_fps -> io_files s' !! h = io_files s !! h) -> io_next s' = io_next s ->
     (forall i, (i < 2)%nat -> io_files s' !! sfp i = None) ->
     (forall i, (i < 2)%nat -> io_files s' !! dfp i = Some (rewound (DD i) (O i))) ->
     Q (Done (mg_dest m, mg_record m)) s') ->
  wp (finish_pass g source m) Q s.
Proof.
  intros Hm Hfp HQ. unfold finish_pass, close_tapes. destruct fp_ne as (Nsd & Nss & Ndd).
  rewrite !Hfp, !(proj2 (pi_fp _ _ _ _ Hm _)).
  destruct (pi_in _ _ _ _ Hm 0 ltac:(lia)) as (p0 & e0 & I0 & _), (pi_in _ _ _ _ Hm 1 ltac:(lia)) as (p1 & e1 & I1 & _).
  destruct (pi_out _ _ _ _ Hm 0 ltac:(lia)) as [[f0 O0] _], (pi_out _ _ _ _ Hm 1 ltac:(lia)) as [[f1 O1] _].
  rewrite !(proj2 (pi_fp _ _ _ _ Hm _)) in *.
  pose proof (Nsd 0 0 ltac:(lia) ltac:(lia))%nat as N00. pose proof (Nsd 0 1 ltac:(lia) ltac:(lia))%nat as N01.
  pose proof (Nsd 1 0 ltac:(lia) ltac:(lia))%nat as N10. pose proof (Nsd 1 1 ltac:(lia) ltac:(lia))%nat as N11.
  apply wp_bind; [intros; solve_sticky|]. apply wp_bind; [solve_sticky|].
  eapply wp_fclose; [exact I0|]. intros s1 E1 X1. eapply wp_fclose; [rewrite E1, lookup_delete_ne by done; exact I1|].
  intros s2 E2 X2. rewrite E1 in E2.
  apply wp_bind; [intros; solve_sticky|]. eapply wp_fflush; [rewrite E2, !lookup_delete_ne by done; exact O0|].
  intros s3 E3 X3. apply wp_bind; [intros; solve_sticky|].
  eapply wp_fflush; [rewrite E3, E2, !lookup_delete_ne by done; exact O1|]. intros s4 E4 X4.
  apply wp_bind; [intros; solve_sticky|]. eapply wp_rewind; [rewrite E4, E3, E2, !lookup_delete_ne by done; exact O0|].
  intros s5 [E5 X5]. apply wp_bind; [intros; solve_sticky|].
  eapply wp_rewind; [rewrite E5, lookup_insert_ne, E4, E3, E2, !lookup_delete_ne by done; exact O1|].
  intros s6 [E6 X6]. apply wp_ret. rewrite E5, E4, E3, E2 in E6. apply HQ; [| |intros i Hi..].
  - intros h Hh. unfold pass_fps in Hh. rewrite E6, !lookup_insert_ne, !lookup_delete_ne; set_solver.
  - congruence.
  - rewrite E6. apply two_cases in Hi as [-> | ->]; rewrite !lookup_insert_ne by done.
    + rewrite lookup_delete_ne by done. apply lookup_delete_eq.
    + apply lookup_delete_eq.
  - rewrite E6. apply two_cases in Hi as [-> | ->]; [rewrite lookup_insert_ne by done|]; by rewrite lookup_insert_eq.
Qed.

(** A pass once its tapes are there. *)
Definition run_pass (sorted_file : nat) (block_size : Z) (source dest : nat -> sort_tape) (record : nat -> B)
    : M stdio (result ((nat -> sort_tape) * (nat -> B))) :=
  let* (_, r0) := read (st_fp (source 0%nat)) (record 0%nat) in
  let* (_, r1) := read (st_fp (source 1%nat)) (record 1%nat) in
  let* m := merge_blocks read write compare (Z.to_nat (st_count (source 0%nat))) block_size 0
              {| mg_source := source; mg_record := fun i => match i with O => r0 | _ => r1 end; mg_dest := dest |} in
  match m with
  | None => close_dest sorted_file dest ;; close_tapes source ;; ret (Error FILE_WRITE_ERROR)
  | Some m => finish_pass sorted_file source m
  end.

Lemma sticky_finish_pass g source m : sticky (finish_pass g source m).
Proof. unfold finish_pass. solve_sticky. Qed.
#[local] Hint Resolve sticky_finish_pass : sticky.

(** The records of the tape [i]. *)
Definition side (i : nat) (ab : list B * list B) : list B := match i with O => ab.1 | _ => ab.2 end.

Lemma wp_run_pass g bs source dest record rs Q s :
  (forall i, st_fp (source i) = sfp i) -> (forall i, st_fp (dest i) = dfp i) -> (forall i, st_count (dest i) = 0) ->
  (forall i, (i < 2)%nat -> in_at s (sfp i) (SD i) (side i (deal rs)) /\ st_count (source i) = Z.of_nat (length (side i (deal rs)))) ->
  (forall i, (i < 2)%nat -> out_at s (dfp i) (DD i) 0 []) ->
  runs rec_le bs rs -> (deal rs).2 <> [] -> Forall rok (concat rs) -> Z.of_nat (length (concat rs)) < 2 ^ 63 ->
  (forall dest' rec s', (forall i, st_fp (dest' i) = dfp i) ->
     (forall i, (i < 2)%nat -> st_count (dest' i) = Z.of_nat (length (side i (deal (pairs merge_recs rs))))) ->
     (forall h, h ∉ pass_fps -> io_files s' !! h = io_files s !! h) -> io_next s' = io_next s ->
     (forall i, (i < 2)%nat -> io_files s' !! sfp i = None) ->
     (forall i, (i < 2)%nat -> io_files s' !! dfp i = Some (rewound (DD i) (side i (deal (pairs merge_recs rs))))) ->
     Q (Done (dest', rec)) s') ->
  wp (run_pass g (Z.of_nat bs) source dest record) Q s.
Proof.
  intros Hsf Hdf Hdc Hin Hout Hr Hne Hok Hsm HQ. unfold run_pass. rewrite !Hsf. destruct fp_ne as (Nsd & Nss & Ndd).
  destruct (Hin 0%nat ltac:(lia)) as [I0 C0], (Hin 1%nat ltac:(lia)) as [I1 C1]. cbn [side] in I0, C0, I1, C1.
  destruct (deal rs).1 as [|x l0] eqn:D0; [by apply (deal_first_nil _ _ _ Hr) in D0; subst|].
  destruct (deal rs).2 as [|y l1] eqn:D1; [done|].
  assert (Forall rok (x :: l0) /\ Forall rok (y :: l1)) as [K0 K1].
  { apply Forall_app. rewrite <- D0, <- D1. by rewrite deal_perm. }
  pose proof (deal_length rs) as Hdl. rewrite D0, D1 in Hdl.
  apply wp_bind; [intros [??]; solve_sticky|]. eapply wp_read_rec; [exact I0|by apply list.Forall_cons in K0 as [? _]|].
  intros z0 s1 _ I0' Hs1. apply wp_bind; [intros [??]; solve_sticky|].
  assert (in_at s1 (sfp 1%nat) (SD 1%nat) (y :: l1)) as I1' by (eapply in_at_same; [exact Hs1|set_solver|exact I1]).
  eapply wp_read_rec; [exact I1'|by apply list.Forall_cons in K1 as [? _]|]. intros z1 s2 _ I1'' Hs2.
  assert (same_but s s2 [sfp 0%nat; sfp 1%nat]) as Hs by (eapply same_but_trans; [exact Hs1|exact Hs2|set_solver|set_solver]).
  apply wp_bind; [intros [|]; solve_sticky|].
  eapply wp_mono; [eapply (wp_merge_blocks _ s2 _ (fun i => side i (deal rs)) (fun _ => []) 0 bs rs); [|lia|done|done|done|]|].
  - split; cbn [mg_source mg_record mg_dest].
    + by intros i.
    + intros i Hi. by apply Hin.
    + intros i [-> | ->]%two_cases; cbn; rewrite ?D0, ?D1; cbn; [|done]. eapply in_at_same; [exact Hs2|set_solver|exact I0'].
    + intros i r l [-> | ->]%two_cases; cbn [side]; rewrite ?D0, ?D1; intros [= -> ->]; done.
    + intros i Hi. split; [|by rewrite Hdc]. rewrite Hdf. eapply out_at_same; [exact Hs| |by apply Hout].
      pose proof (Nsd 0%nat i ltac:(lia) Hi). pose proof (Nsd 1%nat i ltac:(lia) Hi). set_solver.
    + intros i [-> | ->]%two_cases; cbn; by rewrite ?D0, ?D1.
    + cbn. rewrite D0, D1. cbn [length] in *. lia.
  - cbn. rewrite C0, D0. lia.
  - intros res s3 (m' & L' & O' & -> & Hm' & G0 & G1 & Hs3). cbn [Nat.lxor app] in G0, G1.
    assert (forall i, (i < 2)%nat -> O' i = side i (deal (pairs merge_recs rs))) as HO by (by intros i [-> | ->]%two_cases).
    eapply wp_finish_pass; [exact Hm'|done|]. intros s4 F4 X4 Hnone Hre. apply HQ.
    + intros i. apply (pi_fp _ _ _ _ Hm').
    + intros i Hi. rewrite <- HO by done. by apply (pi_out _ _ _ _ Hm').
    + intros h Hh. rewrite F4 by done. destruct Hs3 as [F3 _]. rewrite F3 by done. destruct Hs as [F2 _].
      apply F2. unfold pass_fps in Hh. set_solver.
    + rewrite X4. destruct Hs3 as [_ ->]. by destruct Hs as [_ ->].
    + done.
    + intros i Hi. rewrite Hre, HO by done. done.
Qed.
End Pass.

(** *** The passes *)

Lemma NoDup_four (a b c d : nat) : a <> b -> a <> c -> a <> d -> b <> c -> b <> d -> c <> d -> NoDup [a; b; c; d].
Proof. intros. rewrite !list.NoDup_cons. split_and!; [set_solver..|constructor]. Qed.

Ltac notin :=
  repeat match goal with H : _ ∉ _ |- _ => rewrite ?not_elem_of_cons in H; destruct_and? H end;
  repeat (apply not_elem_of_cons; split; [done || congruence || lia|]); apply not_elem_of_nil.

Definition tape_in (s : stdio) (t : sort_tape) (l : list B) : Prop :=
  (exists D, in_at s (st_fp t) D l) /\ st_count t = Z.of_nat (length l).

Definition tapes_in (s : stdio) (tape : nat -> sort_tape) (rs : list (list B)) : Prop :=
  tape_in s (tape 0%nat) (deal rs).1 /\ tape_in s (tape 1%nat) (deal rs).2.

Lemma rewound_in s f l : io_files s !! f = Some (rewound [] l) -> in_at s f (encs l) l.
Proof. intros H. exists [], false. rewrite H. unfold rewound. by rewrite splice_whole by (cbn; lia). Qed.

Section Files.
(** The state at the start, and the output with what it holds. *)
Variables (s0 : stdio) (g : nat) (G : bytes).
Hypothesis fresh_new : forall h, (io_next s0 <= h)%nat -> io_files s0 !! h = None.
Hypothesis g_old : (g < io_next s0)%nat.

(** Only the output and the temporary files [t0] and [t1] differ from the start. *)
Record sorting (s : stdio) (t0 t1 : nat) : Prop := {
  so_same : forall h, h ∉ [g; t0; t1] -> io_files s !! h = io_files s0 !! h;
  so_new : (io_next s0 <= t0 < io_next s)%nat /\ (io_next s0 <= t1 < io_next s)%nat /\ t0 <> t1;
  so_out : exists e, io_files s !! g = Some {| fl_data := G; fl_pos := 0; fl_error := e |}
}.

(** The last pass has put [l] into the output; the other tape is empty. *)
Definition all_merged (s : stdio) (tape : nat -> sort_tape) (l : list B) : Prop :=
  io_files s !! g = Some (rewound G l) /\ st_count (tape 0%nat) = Z.of_nat (length l) /\ st_count (tape 1%nat) = 0 /\
  (io_next s0 <= st_fp (tape 1%nat))%nat /\ is_Some (io_files s !! st_fp (tape 1%nat)) /\
  forall h, h ∉ [g; st_fp (tape 1%nat)] -> io_files s !! h = io_files s0 !! h.

Lemma sorting_none s t0 t1 h : sorting s t0 t1 -> (io_next s <= h)%nat -> io_files s !! h = None.
Proof.
  intros Hs Hh. destruct (so_new _ _ _ Hs) as (? & ? & _). rewrite (so_same _ _ _ Hs); [apply fresh_new; lia|].
  intros Hin. repeat (apply elem_of_cons in Hin as [->|Hin]; [lia|]). by apply elem_of_nil in Hin.
Qed.

Lemma merge_pass_run bz source record :
  merge_pass read write compare g bz source record =
  (let* d := open_dest g bz source in
   match d with
   | None => ret (Error FILE_CREATION_ERROR)
   | Some dest => run_pass g bz source dest record
   end).
Proof. done. Qed.

Lemma wp_open_dest bz source Q s :
  sorting s (st_fp (source 0%nat)) (st_fp (source 1%nat)) ->
  (forall dest s' DG, (forall i, st_count (dest i) = 0) ->
     (st_count (source 0%nat) <= bz -> st_fp (dest 0%nat) = g /\ DG = G) ->
     (bz < st_count (source 0%nat) -> (io_next s <= st_fp (dest 0%nat) < io_next s')%nat /\ DG = []) ->
     (io_next s <= st_fp (dest 1%nat) < io_next s')%nat -> st_fp (dest 0%nat) <> st_fp (dest 1%nat) ->
     out_at s' (st_fp (dest 0%nat)) DG 0 [] -> out_at s' (st_fp (dest 1%nat)) [] 0 [] ->
     (forall h, h ∉ [st_fp (dest 0%nat); st_fp (dest 1%nat)] -> io_files s' !! h = io_files s !! h) -> Q (Some dest) s') ->
  wp (open_dest g bz source) Q s.
Proof.
  intros Hs HQ. destruct (so_new _ _ _ Hs) as (N0 & N1 & N01). destruct (so_out _ _ _ Hs) as [e Hg].
  unfold open_dest. apply wp_bind; [intros [|]; solve_sticky|]. case_decide as Hc.
  - apply wp_ret. apply wp_bind; [intros [|]; solve_sticky|]. apply wp_tmpfile. intros s1 E1 X1. apply wp_ret.
    eapply (HQ _ _ G); cbn; [done|done|intros; exfalso; lia|lia|lia| | |].
    + exists e. by rewrite E1, lookup_insert_ne, Hg by lia.
    + exists false. by rewrite E1, lookup_insert_eq.
    + intros h Hh. rewrite E1, lookup_insert_ne by set_solver. done.
  - apply wp_tmpfile. intros s1 E1 X1. apply wp_bind; [intros [|]; solve_sticky|]. apply wp_tmpfile. intros s2 E2 X2.
    apply wp_ret. eapply (HQ _ _ []); cbn; [done|intros; exfalso; lia|intros; split; [lia|done]|lia|lia| | |].
    + exists false. by rewrite E2, lookup_insert_ne, E1, lookup_insert_eq by lia.
    + exists false. by rewrite E2, lookup_insert_eq.
    + intros h Hh. rewrite E2, lookup_insert_ne, E1, lookup_insert_ne by set_solver. done.
Qed.

Lemma sticky_run_pass bz source dest record : sticky (run_pass g bz source dest record).
Proof. unfold run_pass, finish_pass. solve_sticky. Qed.
#[local] Hint Resolve sticky_run_pass : sticky.

(** The first tape holds one run exactly when there are two runs. *)
Lemma first_tape_one_run bs rs : runs rec_le bs rs -> (2 <= length rs)%nat ->
  (length rs = 2%nat /\ (length (deal rs).1 <= bs)%nat) \/ (2 < length rs /\ bs < length (deal rs).1)%nat.
Proof.
  intros Hr Hl. destruct rs as [|r0 [|r1 [|r2 rs]]]; cbn in Hl; try lia;
    apply runs_inv in Hr as (_ & Hb & _ & Hf & Hr); [left|right]; cbn; rewrite ?length_app; cbn; [lia|].
  destruct Hf as [Hf|]; [|done]. apply runs_inv in Hr as (_ & _ & _ & _ & Hr). apply runs_inv in Hr as (Hn & _).
  destruct r2; [done|]. cbn. lia.
Qed.

Lemma wp_merge_pass bs source record rs s :
  sorting s (st_fp (source 0%nat)) (st_fp (source 1%nat)) -> tapes_in s source rs -> runs rec_le bs rs ->
  (2 <= length rs)%nat -> Forall rok (concat rs) -> Z.of_nat (length (concat rs)) < 2 ^ 63 ->
  wp (merge_pass read write compare g (Z.of_nat bs) source record)
     (fun res s' => exists source' rec, res = Done (source', rec) /\
        ((length rs = 2%nat /\ all_merged s' source' (concat (pairs merge_recs rs))) \/
         ((2 < length rs)%nat /\ sorting s' (st_fp (source' 0%nat)) (st_fp (source' 1%nat)) /\
          tapes_in s' source' (pairs merge_recs rs)))) s.
Proof.
  intros Hs [[[D0 I0] C0] [[D1 I1] C1]] Hr Hlen Hok Hsm. rewrite merge_pass_run.
  apply wp_bind; [intros [|]; solve_sticky|]. destruct (so_new _ _ _ Hs) as (N0 & N1 & N01).
  apply wp_open_dest; [done|]. intros dest s1 DG Hdc Hlast Hmore Ht Hdd Ho0 Ho1 Hsame.
  assert (forall h, (h < io_next s)%nat -> h <> g -> h <> st_fp (dest 0%nat) /\ h <> st_fp (dest 1%nat)) as Hold.
  { intros h Hh Hg. split; [|lia]. destruct (Z_lt_le_dec (Z.of_nat bs) (st_count (source 0%nat))); [|naive_solver].
    destruct Hmore as [? _]; [done|]. lia. }
  destruct (Hold (st_fp (source 0%nat))) as [A00 A01]; [lia|lia|].
  destruct (Hold (st_fp (source 1%nat))) as [A10 A11]; [lia|lia|].
  eapply (wp_run_pass (fun i => st_fp (source i)) (fun i => st_fp (dest i)) (fun i => match i with O => D0 | _ => D1 end)
    (fun i => match i with O => DG | _ => [] end)); [|done|done|done| | |exact Hr| |done|done|].
  - apply NoDup_four; done.
  - intros i [-> | ->]%two_cases; (split; [|done]); (eapply in_at_frame; [apply Hsame; notin|done]).
  - intros i [-> | ->]%two_cases; done.
  - destruct rs as [|r0 [|r1 rs]]; cbn in Hlen; try lia. apply runs_inv in Hr as (_ & _ & _ & _ & Hr).
    apply runs_inv in Hr as (Hn & _). cbn. by destruct r1.
  - intros dest' rec s' Hfp' Hc' Hsame' X' Hnone' Hre'. exists dest', rec. split; [done|].
    rewrite !Hfp'.
    assert (forall h, h ∉ [g; st_fp (dest 0%nat); st_fp (dest 1%nat)] -> io_files s' !! h = io_files s0 !! h) as Hend.
    { intros h Hh. destruct (decide (h = st_fp (source 0%nat))) as [->|]; [rewrite (Hnone' 0%nat) by lia; symmetry; apply fresh_new; lia|].
      destruct (decide (h = st_fp (source 1%nat))) as [->|]; [rewrite (Hnone' 1%nat) by lia; symmetry; apply fresh_new; lia|].
      rewrite Hsame' by (unfold pass_fps; notin). rewrite Hsame by notin. apply Hs. notin. }
    destruct (first_tape_one_run bs rs Hr Hlen) as [[Hl Hb]|[Hl Hb]].
    + left. split; [done|]. destruct Hlast as [Hg ->]; [lia|]. rewrite Hg in *.
      pose proof (Hre' 0%nat ltac:(lia)) as R0. pose proof (Hre' 1%nat ltac:(lia)) as R1. cbv beta in R0. rewrite Hg in R0.
      pose proof (Hc' 0%nat ltac:(lia)) as K0. pose proof (Hc' 1%nat ltac:(lia)) as K1. clear Hre' Hc'.
      destruct rs as [|r0 [|r1 [|? ?]]]; try discriminate Hl. unfold all_merged. rewrite !Hfp'.
      split_and!; [done|done|done|lia|by eexists|]. intros h Hh. apply Hend. notin.
    + right. split; [done|]. destruct Hmore as [Hq ->]; [lia|].
      split; [split; [done|lia|]|].
      * destruct (so_out _ _ _ Hs) as [e He]. exists e. rewrite Hsame' by (unfold pass_fps; notin). by rewrite Hsame by notin.
      * pose proof (Hre' 0%nat ltac:(lia)) as R0. pose proof (Hre' 1%nat ltac:(lia)) as R1.
        split; (split; [eexists; rewrite Hfp'; apply rewound_in; eassumption|]); by apply Hc'; lia.
Qed.

#[local] Existing Instance merge_recs_Merges.

Lemma merge_files_end fuel bz source record :
  st_count (source 1%nat) = 0 -> merge_files read write compare fuel g bz source record = ret (Done source).
Proof. intros H. destruct fuel; cbn [merge_files]; by rewrite decide_True. Qed.

Lemma wp_merge_files fuel bs source record rs s :
  sorting s (st_fp (source 0%nat)) (st_fp (source 1%nat)) -> tapes_in s source rs -> runs rec_le bs rs ->
  (2 <= length rs <= fuel)%nat -> Forall rok (concat rs) -> Z.of_nat (length (concat rs)) < 2 ^ 63 ->
  wp (merge_files read write compare fuel g (Z.of_nat bs) source record)
     (fun res s' => exists source' l, res = Done source' /\ all_merged s' source' l /\ Sorted rec_le l /\ l ≡ₚ concat rs) s.
Proof.
  revert bs source record rs s. induction fuel as [|fuel IH]; intros bs source record rs s Hs Hin Hr Hl Hok Hsm; [lia|].
  assert (st_count (source 1%nat) <> 0) as Hne.
  { destruct Hin as [_ [_ ->]]. destruct rs as [|r0 [|r1 rs]]; cbn in Hl; try lia.
    apply runs_inv in Hr as (_ & _ & _ & _ & Hr). apply runs_inv in Hr as (Hn & _). cbn. destruct r1; [done|cbn; lia]. }
  pose proof (pairs_runs _ _ bs _ Hr) as Hr2. pose proof (pairs_perm rec_le merge_recs rs) as Hp.
  pose proof (pairs_length merge_recs rs) as Hpl.
  cbn [merge_files]. rewrite decide_False by done. apply wp_bind; [intros [[]|]; solve_sticky|].
  eapply wp_mono; [eapply wp_merge_pass; [exact Hs|exact Hin|exact Hr|lia|done|done]|].
  intros res s1 (source1 & rec1 & -> & [[Hl2 Hm]|(Hl2 & Hs1 & Hin1)]).
  - rewrite merge_files_end by apply Hm. apply wp_ret. exists source1, (concat (pairs merge_recs rs)).
    split_and!; [done|done| |done]. destruct (pairs merge_recs rs) as [|r [|? ?]]; cbn in Hpl; try lia.
    cbn. rewrite app_nil_r. by apply runs_inv in Hr2 as (_ & _ & ? & _).
  - assert (u64 (Z.shiftl (Z.of_nat bs) 1) = Z.of_nat (bs + bs)) as ->.
    { rewrite Z.shiftl_mul_pow2 by lia. unfold u64. rewrite Z.mod_small; [lia|].
      destruct rs as [|r0 rs]; [cbn in Hl; lia|]. apply runs_inv in Hr as (_ & _ & _ & [E| ->] & _); [|cbn in Hl; lia].
      cbn in Hsm. rewrite length_app in Hsm. lia. }
    eapply wp_mono; [eapply (IH (bs + bs)%nat source1 rec1 (pairs merge_recs rs)); [done|done|done|lia|by rewrite Hp|by rewrite Hp]|].
    intros res s2 (source2 & l & -> & Hm & Hsort & Hpl2). exists source2, l. by rewrite Hp in Hpl2.
Qed.
End Files.

(** *** The sort *)

Lemma wp_copy_records src dst D E p l o record Q s :
  in_at s src D l -> out_at s dst E p o -> src <> dst -> Forall rok l ->
  (forall rec s', out_at s' dst E p (o ++ l) -> is_Some (io_files s' !! src) -> same_but s s' [src; dst] -> Q (Some rec) s') ->
  wp (copy_records read write (length l) src dst record) Q s.
Proof.
  revert o record s. induction l as [|r l IH]; intros o record s Hin Hout Hne Hok HQ; cbn [copy_records length].
  - apply wp_ret, HQ; [by rewrite app_nil_r| |by split]. destruct Hin as (pre & e & -> & _). by eexists.
  - apply list.Forall_cons in Hok as [Hr Hok]. apply wp_bind; [intros [??]; solve_sticky|].
    eapply wp_read_rec; [exact Hin|done|]. intros z s1 _ Hin1 Hs1. apply wp_bind; [solve_sticky|].
    eapply wp_write_rec; [eapply out_at_same; [exact Hs1|set_solver|exact Hout]|done|]. intros z' s2 Hz' Hout2 Hs2.
    rewrite decide_False by done.
    assert (same_but s s2 [src; dst]) as Hs by (eapply same_but_trans; [exact Hs1|exact Hs2|set_solver|set_solver]).
    eapply (IH (o ++ [r])); [eapply in_at_same; [exact Hs2|set_solver|exact Hin1]|done|done|done|].
    intros rec s3 Ho3 Hi3 Hs3. apply HQ; [by rewrite <- app_assoc in Ho3|done|by eapply same_but_trans].
Qed.

Lemma wp_open_source Q s :
  (forall tape s', (forall i, st_count (tape i) = 0) -> st_fp (tape 0%nat) = io_next s -> st_fp (tape 1%nat) = S (io_next s) ->
     tapes_out s' tape [] -> io_next s' = S (S (io_next s)) ->
     (forall h, h ∉ [io_next s; S (io_next s)] -> io_files s' !! h = io_files s !! h) -> Q (Some tape) s') ->
  wp open_source Q s.
Proof.
  intros HQ. unfold open_source. apply wp_bind; [intros [|]; solve_sticky|]. apply wp_tmpfile. intros s1 E1 X1.
  apply wp_bind; [intros [|]; solve_sticky|]. apply wp_tmpfile. intros s2 E2 X2. rewrite X1 in *. apply wp_ret.
  apply HQ; cbn; [done|done|done| |congruence|].
  - split; (split; [|done]); exists false; cbn; rewrite E2; [rewrite lookup_insert_ne, E1 by lia|]; by rewrite lookup_insert_eq.
  - intros h Hh. rewrite E2, lookup_insert_ne, E1, lookup_insert_ne by set_solver. done.
Qed.

(** What merge_sort leaves: the records sorted in the output, everything else as it
    was but for the position in the input. *)
Definition sorted_into (s : stdio) (f g : nat) (l : list B) (s' : stdio) : Prop :=
  exists l', StronglySorted rec_le l' /\ l' ≡ₚ l /\
    (exists p e, io_files s' !! g = Some {| fl_data := encs l'; fl_pos := p; fl_error := e |}) /\
    (g <> f -> exists p e, io_files s' !! f = Some {| fl_data := encs l; fl_pos := p; fl_error := e |}) /\
    forall h, h ∉ [f; g] -> io_files s' !! h = io_files s !! h.

(** The input [f] with the records [l], and the output [g], which is the input or a
    stream at its start that holds no more than the records take. *)
Definition sort_files (s : stdio) (f g : nat) (l : list B) : Prop :=
  (exists p e, io_files s !! f = Some {| fl_data := encs l; fl_pos := p; fl_error := e |}) /\
  (g = f \/ (g <> f /\ exists G e, io_files s !! g = Some {| fl_data := G; fl_pos := 0; fl_error := e |} /\
                 (length G <= length (encs l))%nat)).

(** Everything is rewound after the blocks have been written. *)
Definition rewind_all (f g : nat) (tape : nat -> sort_tape) : M stdio unit :=
  (if decide (g = f) then rewind f else ret tt) ;; rewind (st_fp (tape 0%nat)) ;; rewind (st_fp (tape 1%nat)).

Lemma wp_rewind_all f g tape rs l Q s :
  sort_files s f g l -> tapes_out s tape rs -> st_fp (tape 0%nat) <> st_fp (tape 1%nat) ->
  f ∉ [st_fp (tape 0%nat); st_fp (tape 1%nat)] -> g ∉ [st_fp (tape 0%nat); st_fp (tape 1%nat)] ->
  (forall s' G, tapes_in s' tape rs -> (length G <= length (encs l))%nat ->
     (exists e, io_files s' !! g = Some {| fl_data := G; fl_pos := 0; fl_error := e |}) ->
     (exists p e, io_files s' !! f = Some {| fl_data := if decide (g = f) then G else encs l; fl_pos := p; fl_error := e |}) ->
     (forall h, h ∉ [f; g; st_fp (tape 0%nat); st_fp (tape 1%nat)] -> io_files s' !! h = io_files s !! h) ->
     io_next s' = io_next s -> Q tt s') ->
  wp (rewind_all f g tape) Q s.
Proof.
  intros [(p & e & Hf) Hg] [[[e0 O0] C0] [[e1 O1] C1]] Hne Hft Hgt HQ. unfold rewind_all.
  apply not_elem_of_cons in Hft as [F0 F1]. apply not_elem_of_cons in F1 as [F1 _].
  apply not_elem_of_cons in Hgt as [G0 G1]. apply not_elem_of_cons in G1 as [G1 _].
  apply wp_bind; [intros; solve_sticky|].
  assert (forall s1 G e', (length G <= length (encs l))%nat ->
    io_files s1 !! g = Some {| fl_data := G; fl_pos := 0; fl_error := e' |} ->
    (exists p e, io_files s1 !! f = Some {| fl_data := if decide (g = f) then G else encs l; fl_pos := p; fl_error := e |}) ->
    (forall h, h <> f -> io_files s1 !! h = io_files s !! h) -> io_next s1 = io_next s ->
    wp (rewind (st_fp (tape 0%nat)) ;; rewind (st_fp (tape 1%nat))) Q s1) as Hrest.
  { intros s1 G e' HG Hg1 (p1 & e1' & Hf1) Hs1 X1. apply wp_bind; [intros; solve_sticky|].
    eapply wp_rewind; [rewrite Hs1 by done; exact O0|]. intros s2 [E2 X2].
    eapply wp_rewind; [rewrite E2, lookup_insert_ne, Hs1 by done; exact O1|]. intros s3 [E3 X3]. rewrite E2 in E3.
    apply (HQ s3 G); [| done | | | |congruence].
    - split; (split; [eexists; apply rewound_in|done]); rewrite E3; [rewrite lookup_insert_ne by done|]; by rewrite lookup_insert_eq.
    - exists e'. by rewrite E3, !lookup_insert_ne by done.
    - exists p1, e1'. by rewrite E3, !lookup_insert_ne by done.
    - intros h Hh. rewrite !not_elem_of_cons in Hh. destruct Hh as (? & ? & ? & ? & _).
      rewrite E3, !lookup_insert_ne by done. by apply Hs1. }
  destruct Hg as [->|(Hgf & G & e' & Hg & HG)].
  - rewrite decide_True by done. eapply wp_rewind; [exact Hf|]. intros s1 [E1 X1].
    eapply (Hrest s1 (encs l)); [done|by rewrite E1, lookup_insert_eq| | |done].
    + rewrite decide_True by done. do 2 eexists. by rewrite E1, lookup_insert_eq.
    + intros h Hh. by rewrite E1, lookup_insert_ne.
  - rewrite decide_False by done. apply wp_ret. eapply (Hrest s G); [done|exact Hg| |done|done].
    rewrite decide_False by done. eauto.
Qed.

(** The rest of the function, from the two tapes on. *)
Definition finish_sort (fuel : nat) (g : nat) (block_size : Z) (record : B) (tape : nat -> sort_tape)
    : M stdio (couchstore_error_t * option Z) :=
  if decide (st_count (tape 1%nat) = 0) then
    fclose (st_fp (tape 1%nat)) ;;
    let* c := copy_records read write (Z.to_nat (st_count (tape 0%nat))) (st_fp (tape 0%nat)) g record in
    match c with
    | None => fclose (st_fp (tape 0%nat)) ;; ret (FILE_WRITE_ERROR, None)
    | Some _ => fclose (st_fp (tape 0%nat)) ;; ret (OK, Some (st_count (tape 0%nat)))
    end
  else
    let* r := merge_files read write compare fuel g block_size tape (fun i => match i with O => record | _ => fresh end) in
    match r with
    | Error e => ret (e, None)
    | Done source => fclose (st_fp (source 1%nat)) ;; ret (OK, Some (st_count (source 0%nat)))
    end.

Section Finish.
(** The state at the start, and the state [s2] with the two tapes rewound. *)
Variables (s s2 : stdio) (f g : nat) (G : bytes) (tape : nat -> sort_tape) (rs : list (list B)) (l : list B).
Hypothesis fresh_new : forall h, (io_next s <= h)%nat -> io_files s !! h = None.
Hypothesis f_old : (f < io_next s)%nat.
Hypothesis g_old : (g < io_next s)%nat.
Hypothesis fp0 : st_fp (tape 0%nat) = io_next s.
Hypothesis fp1 : st_fp (tape 1%nat) = S (io_next s).
Hypothesis next2 : io_next s2 = S (S (io_next s)).
Hypothesis tapes2 : tapes_in s2 tape rs.
Hypothesis G_short : (length G <= length (encs l))%nat.
Hypothesis g2 : exists e, io_files s2 !! g = Some {| fl_data := G; fl_pos := 0; fl_error := e |}.
Hypothesis f2 : exists p e, io_files s2 !! f = Some {| fl_data := if decide (g = f) then G else encs l; fl_pos := p; fl_error := e |}.
Hypothesis same2 : forall h, h ∉ [f; g; io_next s; S (io_next s)] -> io_files s2 !! h = io_files s !! h.
Hypothesis perm : concat rs ≡ₚ l.
Hypothesis ok : Forall rok l.
Hypothesis small : Z.of_nat (length l) < 2 ^ 63.

(** Back to the start: the temporary files are gone. *)
Lemma sorted_into_intro l' s' p e :
  Sorted rec_le l' -> l' ≡ₚ l -> io_files s' !! g = Some {| fl_data := splice G 0 (encs l'); fl_pos := p; fl_error := e |} ->
  (forall h, (h < io_next s)%nat -> h <> g -> io_files s' !! h = io_files s2 !! h) ->
  (forall h, (io_next s <= h)%nat -> io_files s' !! h = None) -> sorted_into s f g l s'.
Proof.
  intros Hsort Hp Hg Hold Hnew. exists l'. split_and!; [|done| | |].
  - apply Sorted_StronglySorted; [|done]. intros a b c. apply cmp_trans.
  - exists p, e. rewrite Hg, splice_whole; [done|]. by rewrite (encs_perm _ _ Hp).
  - intros Hne. destruct f2 as (p2 & e2 & Hf2). rewrite decide_False in Hf2 by done. exists p2, e2. by rewrite Hold.
  - intros h Hh. rewrite !not_elem_of_cons in Hh. destruct Hh as (? & ? & _).
    destruct (decide (io_next s <= h)%nat) as [Hn|Hn]; [by rewrite Hnew, fresh_new|].
    rewrite Hold by (done || lia). apply same2. rewrite !not_elem_of_cons. split_and!; [done|done|lia|lia|apply not_elem_of_nil].
Qed.

Lemma new_none h : (S (S (io_next s)) <= h)%nat -> io_files s2 !! h = None.
Proof.
  intros Hh. rewrite same2; [apply fresh_new; lia|]. rewrite !not_elem_of_cons. split_and!; [lia..|apply not_elem_of_nil].
Qed.

Lemma wp_finish_merge fuel bs record : runs rec_le bs rs -> (2 <= length rs <= fuel)%nat -> st_count (tape 1%nat) <> 0 ->
  wp (finish_sort fuel g (Z.of_nat bs) record tape)
     (fun r s' => r = (OK, Some (Z.of_nat (length l))) /\ sorted_into s f g l s') s2.
Proof.
  intros Hr Hl Hne. unfold finish_sort. rewrite decide_False by done. apply wp_bind; [intros [|]; solve_sticky|].
  set (s0 := {| io_files := delete (io_next s) (delete (S (io_next s)) (io_files s2)); io_next := io_next s;
                io_script := []; io_bad := false |}).
  assert (forall h, (io_next s <= h)%nat -> io_files s0 !! h = None) as Hs0.
  { intros h Hh. cbn. destruct (decide (h = io_next s)) as [->|]; [apply lookup_delete_eq|]. rewrite lookup_delete_ne by done.
    destruct (decide (h = S (io_next s))) as [->|]; [apply lookup_delete_eq|]. rewrite lookup_delete_ne by done.
    apply new_none. lia. }
  eapply wp_mono; [eapply (wp_merge_files s0 g G Hs0 g_old fuel bs tape _ rs s2); [|done|done|done|by rewrite perm|by rewrite perm]|].
  { split; [|rewrite fp0, fp1; cbn; lia|done]. intros h Hh. rewrite fp0, fp1 in Hh. cbn.
    rewrite !not_elem_of_cons in Hh. by rewrite !lookup_delete_ne by naive_solver. }
  intros res s3 (source & l' & -> & (Hg & Hc & _ & Hnew & [fl Hfl] & Hsame) & Hsort & Hp).
  apply wp_bind; [intros; solve_sticky|]. eapply wp_fclose; [exact Hfl|]. intros s4 E4 X4. apply wp_ret.
  rewrite perm in Hp. rewrite Hc. split; [by rewrite (Permutation_length Hp)|]. cbn in Hnew.
  eapply (sorted_into_intro l'); [done|done|rewrite E4, lookup_delete_ne by lia; exact Hg| |].
  - intros h Hh Hhg. rewrite E4, lookup_delete_ne by lia. rewrite Hsame by notin. cbn. by rewrite !lookup_delete_ne by lia.
  - intros h Hh. rewrite E4. destruct (decide (h = st_fp (source 1%nat))) as [->|]; [apply lookup_delete_eq|].
    rewrite lookup_delete_ne by done. rewrite Hsame by notin. by apply Hs0.
Qed.

Lemma wp_finish_copy fuel bz record bs : runs rec_le bs rs -> st_count (tape 1%nat) = 0 ->
  wp (finish_sort fuel g bz record tape)
     (fun r s' => r = (OK, Some (Z.of_nat (length l))) /\ sorted_into s f g l s') s2.
Proof.
  intros Hr Hz. unfold finish_sort. rewrite decide_True by done.
  destruct tapes2 as [[[D0 I0] C0] [[D1 I1] C1]]. rewrite fp0, fp1 in *.
  destruct (deal_one_run _ _ _ Hr) as (Hsort & Hcat & _); [apply nil_length_inv; lia|].
  rewrite Hcat in *. pose proof (Permutation_length perm) as Hlen. rewrite C0, Nat2Z.id.
  destruct I1 as (p1 & e1 & F1 & _). destruct g2 as [eg Hg].
  apply wp_bind; [intros; solve_sticky|]. eapply wp_fclose; [exact F1|]. intros s3 E3 X3.
  apply wp_bind; [intros [|]; solve_sticky|].
  eapply (wp_copy_records _ _ _ G 0 _ []); [eapply in_at_frame; [|exact I0]; rewrite E3; apply lookup_delete_ne; lia| |lia|by rewrite perm|].
  { exists eg. rewrite E3, lookup_delete_ne by lia. exact Hg. }
  intros rec s4 [eo Ho] [fl Hfl] [Hs4 X4]. apply wp_bind; [intros; solve_sticky|].
  eapply wp_fclose; [exact Hfl|]. intros s5 E5 X5. apply wp_ret. split; [by rewrite Hlen|].
  eapply (sorted_into_intro (concat rs)); [done|done|rewrite E5, lookup_delete_ne by lia; exact Ho| |].
  - intros h Hh Hhg. rewrite E5, lookup_delete_ne by lia. rewrite Hs4 by notin. rewrite E3. apply lookup_delete_ne. lia.
  - intros h Hh. rewrite E5. destruct (decide (h = io_next s)) as [->|]; [apply lookup_delete_eq|].
    rewrite lookup_delete_ne by done. rewrite Hs4 by notin. rewrite E3.
    destruct (decide (h = S (io_next s))) as [->|]; [apply lookup_delete_eq|]. rewrite lookup_delete_ne by done. apply new_none. lia.
Qed.
End Finish.

Lemma merge_sort_steps fuel f g max bz :
  MergeSort.merge_sort read write compare fresh fuel f g max bz =
  (let* t := open_source in
   match t with
   | None => ret (FILE_CREATION_ERROR, None)
   | Some tape =>
       let* r := read_blocks read write compare fuel f max bz fresh [] 0 0 tape in
       match r with
       | Error e => ret (e, None)
       | Done (record, tape) =>
           (if decide (g = f) then rewind f else ret tt) ;;
           rewind (st_fp (tape 0%nat)) ;; rewind (st_fp (tape 1%nat)) ;; finish_sort fuel g bz record tape
       end
   end).
Proof. done. Qed.

Lemma sticky_rewind_all f g tape : sticky (rewind_all f g tape).
Proof. unfold rewind_all. solve_sticky. Qed.
Lemma sticky_finish_sort fuel g bz record tape : sticky (finish_sort fuel g bz record tape).
Proof. unfold finish_sort. solve_sticky. Qed.
#[local] Hint Resolve sticky_rewind_all sticky_finish_sort : sticky.

Lemma wp_rewind_then f g tape (m : M stdio (couchstore_error_t * option Z)) Q s :
  wp (rewind_all f g tape ;; m) Q s ->
  wp ((if decide (g = f) then rewind f else ret tt) ;;
      rewind (st_fp (tape 0%nat)) ;; rewind (st_fp (tape 1%nat)) ;; m) Q s.
Proof.
  unfold wp, rewind_all. generalize (if decide (g = f) then rewind f else ret tt : M stdio unit) as m0. intros m0.
  unfold bind. destruct (m0 s) as [[] s1|s1|s1]; [|done..]. by destruct (rewind (st_fp (tape 0%nat)) s1).
Qed.

Lemma wp_merge_sort fuel f g bz l s :
  (forall h, (io_next s <= h)%nat -> io_files s !! h = None) -> sort_files s f g l ->
  (exists e, io_files s !! f = Some {| fl_data := encs l; fl_pos := 0; fl_error := e |}) ->
  Forall rok l -> Z.of_nat (length l) < 2 ^ 63 -> 0 < bz < 2 ^ 63 -> (length l < fuel)%nat ->
  wp (MergeSort.merge_sort read write compare fresh fuel f g max_record_size bz)
     (fun r s' => r = (OK, Some (Z.of_nat (length l))) /\ sorted_into s f g l s') s.
Proof.
  intros Hnew Hfg [e Hf] Hok Hsm Hbz Hfuel. rewrite merge_sort_steps.
  assert (forall h x, io_files s !! h = Some x -> (h < io_next s)%nat) as Hold.
  { intros h x Hh. destruct (decide (h < io_next s)%nat); [done|]. rewrite Hnew in Hh by lia. done. }
  pose proof (Hold _ _ Hf) as Hfo. assert (g < io_next s)%nat as Hgo.
  { destruct Hfg as [_ [->|(_ & G & eg & Hg & _)]]; [done|by eapply Hold]. }
  apply wp_bind; [intros [|]; solve_sticky|]. apply wp_open_source. intros tape s1 Hc0 F0 F1 Ht1 X1 Hs1.
  apply wp_bind; [intros [[]|]; solve_sticky|].
  assert (in_at s1 f (encs l) l) as Hin1.
  { exists [], e. rewrite Hs1, Hf by notin. done. }
  assert (NoDup [f; st_fp (tape 0%nat); st_fp (tape 1%nat)]) as Hnd.
  { rewrite F0, F1, !list.NoDup_cons. split_and!; [notin|notin|notin|constructor]. }
  eapply wp_mono; [eapply (wp_read_blocks fuel f (encs l) bz fresh [] tape [] l s1 Hin1 Ht1 Hnd Hbz);
    [constructor|cbn; lia|done|cbn; lia|done]|].
  intros res sR (rec & tape' & rs & -> & Hfp & Hr & Ht & Hp & Hin & Hs & XR). cbn [app concat] in Hp.
  rewrite F0, F1 in Hs. apply wp_rewind_then, wp_bind; [intros; solve_sticky|].
  eapply (wp_rewind_all f g tape' rs l); [|done|rewrite !Hfp, F0, F1; lia|rewrite !Hfp, F0, F1; notin|rewrite !Hfp, F0, F1; notin|].
  { destruct Hin as (pre & e' & Hd & _). split; [eauto|]. destruct Hfg as [_ [->|(Hne & G & eg & Hg & HG)]]; [by left|right].
    split; [done|]. exists G, eg. rewrite Hs, Hs1 by notin. done. }
  rewrite !Hfp, F0, F1. intros s2 G Ht2 HG Hg2 Hf2 Hs2 X2.
  assert (forall h, h ∉ [f; g; io_next s; S (io_next s)] -> io_files s2 !! h = io_files s !! h) as Hsame.
  { intros h Hh. rewrite Hs2 by done. rewrite Hs, Hs1 by notin. done. }
  destruct (decide (st_count (tape' 1%nat) = 0)) as [Hz|Hz].
  - eapply (wp_finish_copy s s2 f g G tape' rs l); done || congruence || by rewrite Hfp.
  - rewrite <- (Z2Nat.id bz) by lia. pose proof (runs_count _ _ _ Hr) as Hrc. rewrite (Permutation_length Hp) in Hrc.
    assert (2 <= length rs)%nat as Hl2.
    { destruct Ht2 as [_ [_ Hc1]]. destruct rs as [|? [|??]]; cbn in *; [done|done|lia]. }
    eapply (wp_finish_merge s s2 f g G tape' rs l); done || congruence || lia || by rewrite Hfp.
Qed.
End Proofs.
