(* ===== verification/IoBuffer.v ===== *)
(** * IoBuffer: the buffered file

    Models src/iobuffer.c: the write buffer and the list of read buffers that
    stand between the library and the raw file operations.  The theorems show that
    the table it installs keeps the contract [FileLaws] of FileOps over any raw
    file that keeps [RawLaws]: the buffers are never visible to the layers above.
    Allocation is taken to succeed. *)

From Stdlib Require Import ZArith Lia.
From S2P Require Import Prelude FileOps.
From stdpp Require Import list numbers.

#[local] Open Scope Z_scope.

Definition MAX_READ_BUFFERS : Z := 8.
Definition WRITE_BUFFER_CAPACITY : Z := 128 * 1024.
Definition READ_BUFFER_CAPACITY : Z := 8 * 1024.

(** [buf_bytes] are the first [length] bytes of the C array. *)
Record file_buffer : Type := {
  buf_capacity : Z;
  buf_offset : Z;
  buf_dirty : bool;
  buf_bytes : bytes
}.

Definition buf_length (buf : file_buffer) : Z := blen (buf_bytes buf).

Definition new_buffer (capacity : Z) : file_buffer :=
  {| buf_capacity := capacity; buf_offset := 0; buf_dirty := false; buf_bytes := [] |}.

(** The read buffers in list order, the first one apart. *)
Record buffered_file_handle (R : Type) : Type := {
  bf_raw : R;
  bf_nbuffers : Z;
  bf_write : file_buffer;
  bf_first : file_buffer;
  bf_rest : list file_buffer
}.
Arguments bf_raw {R}.
Arguments bf_nbuffers {R}.
Arguments bf_write {R}.
Arguments bf_first {R}.
Arguments bf_rest {R}.

(** [memcpy] of [bs] to offset [k] of the bytes of a buffer. *)
Definition overwrite (k : nat) (bs w : bytes) : bytes := take k w ++ bs ++ drop (k + length bs) w.

(** Write as many bytes as possible into the buffer; also the count. *)
Definition write_to_buffer (buf : file_buffer) (bs : bytes) (offset : Z) : file_buffer * nat :=
  let write_at start :=
    let offset_in_buffer := offset - start in
    let n := Z.to_nat (Z.min (buf_capacity buf - offset_in_buffer) (blen bs)) in
    ({| buf_capacity := buf_capacity buf; buf_offset := start; buf_dirty := true;
        buf_bytes := overwrite (Z.to_nat offset_in_buffer) (take n bs) (buf_bytes buf) |}, n) in
  if decide (buf_length buf = 0) then write_at offset
  else if decide (offset < buf_offset buf \/ buf_offset buf + buf_length buf < offset) then (buf, O)
  else write_at (buf_offset buf).

Definition clean (buf : file_buffer) : file_buffer :=
  {| buf_capacity := buf_capacity buf; buf_offset := buf_offset buf; buf_dirty := false; buf_bytes := buf_bytes buf |}.

(** At most [n] bytes of the buffer from [offset]. *)
Definition read_from_buffer (buf : file_buffer) (n : nat) (offset : Z) : bytes :=
  if decide (offset < buf_offset buf \/ buf_offset buf + buf_length buf <= offset) then []
  else
    let offset_in_buffer := offset - buf_offset buf in
    take (Z.to_nat (Z.min (buf_length buf - offset_in_buffer) (Z.of_nat n)))
         (drop (Z.to_nat offset_in_buffer) (buf_bytes buf)).

(** The walk of find_buffer: the buffer with this offset or the last one, with
    the buffers before and after it. *)
Fixpoint scan_buffers (offset : Z) (buffer : file_buffer) (rest : list file_buffer)
    : list file_buffer * file_buffer * list file_buffer :=
  match rest with
  | [] => ([], buffer, [])
  | next :: rest' =>
      if decide (buf_offset buffer <> offset) then
        let '(before, b, after) := scan_buffers offset next rest' in (buffer :: before, b, after)
      else ([], buffer, rest)
  end.

Section Ops.
Context {R : Type} `{FileOps R}.

(** Write the buffer to the raw file and empty it.  A raw write that stores
    nothing ends the loop with its value, which is the code of success.  Each
    round writes a byte at least: the length is enough fuel. *)
Fixpoint flush_loop (fuel : nat) (raw : R) (buf : file_buffer) : R * file_buffer * couchstore_error_t :=
  match fuel with
  | O => (raw, clean buf, COUCHSTORE_SUCCESS)
  | S fuel' =>
      if decide (0 < buf_length buf) then
        if buf_dirty buf then
          let '(raw, r) := ops_pwrite raw (buf_bytes buf) (buf_offset buf) in
          match r with
          | Error e => (raw, buf, e)
          | Done O => (raw, buf, COUCHSTORE_SUCCESS)
          | Done raw_written =>
              flush_loop fuel' raw
                {| buf_capacity := buf_capacity buf; buf_offset := buf_offset buf + Z.of_nat raw_written;
                   buf_dirty := buf_dirty buf; buf_bytes := drop raw_written (buf_bytes buf) |}
          end
        else (raw, clean buf, COUCHSTORE_SUCCESS)
      else (raw, clean buf, COUCHSTORE_SUCCESS)
  end.

Definition flush_buffer (raw : R) (buf : file_buffer) : R * file_buffer * couchstore_error_t :=
  flush_loop (length (buf_bytes buf)) raw buf.

Definition load_buffer_from (raw : R) (buf : file_buffer) (offset nbyte : Z)
    : R * file_buffer * couchstore_error_t :=
  let '(raw, buf, err) := if buf_dirty buf then flush_buffer raw buf else (raw, buf, COUCHSTORE_SUCCESS) in
  if decide (err <> COUCHSTORE_SUCCESS) then (raw, buf, err)
  else
    let buf :=
      if decide (offset < buf_offset buf \/ buf_offset buf + buf_capacity buf < offset + nbyte) then
        {| buf_capacity := buf_capacity buf; buf_offset := offset; buf_dirty := buf_dirty buf; buf_bytes := [] |}
      else buf in
    let '(raw, r) := ops_pread raw (Z.to_nat (buf_capacity buf - buf_length buf)) (buf_offset buf + buf_length buf) in
    match r with
    | Error e => (raw, buf, e)
    | Done bs =>
        (raw, {| buf_capacity := buf_capacity buf; buf_offset := buf_offset buf; buf_dirty := buf_dirty buf;
                 buf_bytes := buf_bytes buf ++ bs |}, COUCHSTORE_SUCCESS)
    end.

(** A buffer for this offset, the other buffers and their new number: the buffer
    goes to the start of the list. *)
Definition find_buffer (h : buffered_file_handle R) (offset : Z) : file_buffer * list file_buffer * Z :=
  let offset := offset - Z.rem offset READ_BUFFER_CAPACITY in
  let '(before, buffer, after) := scan_buffers offset (bf_first h) (bf_rest h) in
  if decide (buf_offset buffer <> offset) then
    if decide (bf_nbuffers h < MAX_READ_BUFFERS) then
      (new_buffer READ_BUFFER_CAPACITY, before ++ buffer :: after, bf_nbuffers h + 1)
    else (buffer, before ++ after, bf_nbuffers h)
  else (buffer, before ++ after, bf_nbuffers h).

Definition buffered_constructor_with_raw_ops (raw : R) : buffered_file_handle R :=
  {| bf_raw := raw; bf_nbuffers := 1; bf_write := new_buffer WRITE_BUFFER_CAPACITY;
     bf_first := new_buffer READ_BUFFER_CAPACITY; bf_rest := [] |}.

Definition set_write (raw : R) (buf : file_buffer) (h : buffered_file_handle R) : buffered_file_handle R :=
  {| bf_raw := raw; bf_nbuffers := bf_nbuffers h; bf_write := buf; bf_first := bf_first h; bf_rest := bf_rest h |}.

(** One round of the loop of buffered_pread: the bytes it adds, none at the end
    of the file. *)
Definition pread_round (h : buffered_file_handle R) (nbyte : nat) (offset : Z)
    : buffered_file_handle R * result bytes :=
  let '(buffer, others, nbuffers) := find_buffer h offset in
  let found raw buffer :=
    {| bf_raw := raw; bf_nbuffers := nbuffers; bf_write := bf_write h; bf_first := buffer; bf_rest := others |} in
  match read_from_buffer buffer nbyte offset with
  | [] =>
      let block_start := offset - Z.rem offset READ_BUFFER_CAPACITY in
      let '(raw, buffer, err) :=
        load_buffer_from (bf_raw h) buffer block_start (offset + Z.of_nat nbyte - block_start) in
      if decide (err <> COUCHSTORE_SUCCESS) then (found raw buffer, Error err)
      else (found raw buffer, Done (read_from_buffer buffer nbyte offset))
  | bs => (found (bf_raw h) buffer, Done bs)
  end.

(** Each round adds a byte at least, or ends the loop: [nbyte] is enough fuel. *)
Fixpoint pread_loop (fuel : nat) (h : buffered_file_handle R) (nbyte : nat) (offset : Z)
    : buffered_file_handle R * result bytes :=
  match fuel with
  | O => (h, Done [])
  | S fuel' =>
      if decide (nbyte = O) then (h, Done [])
      else
        let '(h, r) := pread_round h nbyte offset in
        match r with
        | Error e => (h, Error e)
        | Done [] => (h, Done [])
        | Done bs =>
            let '(h, r) := pread_loop fuel' h (nbyte - length bs) (offset + blen bs) in
            match r with Error e => (h, Error e) | Done rest => (h, Done (bs ++ rest)) end
        end
  end.

Definition buffered_pread (h : buffered_file_handle R) (nbyte : nat) (offset : Z)
    : buffered_file_handle R * result bytes :=
  let '(raw, buf, err) := flush_buffer (bf_raw h) (bf_write h) in
  let h := set_write raw buf h in
  if decide (err <> COUCHSTORE_SUCCESS) then (h, Error err) else pread_loop nbyte h nbyte offset.

Definition buffered_pwrite (h : buffered_file_handle R) (bs : bytes) (offset : Z)
    : buffered_file_handle R * result nat :=
  if decide (bs = []) then (h, Done O)
  else
    let '(buffer, nbyte_written) := write_to_buffer (bf_write h) bs offset in
    let bs := drop nbyte_written bs in
    let offset := offset + Z.of_nat nbyte_written in
    let '(raw, buffer, error) :=
      if decide (buf_length buffer = buf_capacity buffer \/ nbyte_written = O) then flush_buffer (bf_raw h) buffer
      else (bf_raw h, buffer, COUCHSTORE_SUCCESS) in
    if decide (error <> COUCHSTORE_SUCCESS) then (set_write raw buffer h, Error error)
    else if decide (bs = []) then (set_write raw buffer h, Done nbyte_written)
    else if decide (blen bs <= buf_capacity buffer - buf_length buffer) then
      let '(buffer, written) := write_to_buffer buffer bs offset in
      (set_write raw buffer h, Done (nbyte_written + written)%nat)
    else
      let '(raw, r) := ops_pwrite raw bs offset in
      match r with
      | Error e => (set_write raw buffer h, Error e)
      | Done written => (set_write raw buffer h, Done (nbyte_written + written)%nat)
      end.

Definition buffered_goto_eof (h : buffered_file_handle R) : buffered_file_handle R * Z :=
  let '(raw, pos) := ops_goto_eof (bf_raw h) in (set_write raw (bf_write h) h, pos).

Definition buffered_sync (h : buffered_file_handle R) : buffered_file_handle R * couchstore_error_t :=
  let '(raw, buf, err) := flush_buffer (bf_raw h) (bf_write h) in
  if decide (err = COUCHSTORE_SUCCESS) then
    let '(raw, err) := ops_sync raw in (set_write raw buf h, err)
  else (set_write raw buf h, err).

(** The result of the flush is ignored. *)
Definition buffered_close (h : buffered_file_handle R) : buffered_file_handle R :=
  let '(raw, buf, _) := flush_buffer (bf_raw h) (bf_write h) in set_write (ops_close raw) buf h.

#[global] Instance buffered_FileOps : FileOps (buffered_file_handle R) :=
  {| ops_pread := buffered_pread; ops_pwrite := buffered_pwrite;
     ops_goto_eof := buffered_goto_eof; ops_sync := buffered_sync; ops_close := buffered_close |}.
End Ops.

(** ** Splices *)

Lemma splice_lookup c off bs i : bs <> [] ->
  splice c off bs !! i =
  if decide (i < off)%nat then (if decide (i < length c)%nat then c !! i else Some Byte.x00)
  else if decide (i < off + length bs)%nat then bs !! (i - off)%nat else c !! i.
Proof.
  intros Hne. rewrite splice_ne by done. case_decide as Hi.
  - rewrite lookup_app_l by (rewrite splice_head_length; lia). rewrite lookup_take_lt by lia. case_decide.
    + by rewrite lookup_app_l.
    + rewrite lookup_app_r by lia. apply lookup_replicate_2. lia.
  - rewrite lookup_app_r by (rewrite splice_head_length; lia). rewrite splice_head_length. case_decide.
    + rewrite lookup_app_l by lia. done.
    + rewrite lookup_app_r, lookup_drop by lia. f_equal. lia.
Qed.

Lemma splice_over c off w bs : bs <> [] ->
  splice (splice c off w) off bs = splice c off (bs ++ drop (length bs) w).
Proof.
  intros Hb. destruct (decide (w = [])) as [->|Hw]; [by rewrite drop_nil, app_nil_r|].
  assert (bs ++ drop (length bs) w <> []) as Hn by (by destruct bs).
  apply list_eq. intros i. rewrite !splice_lookup, splice_length, length_app, length_drop by done.
  destruct (decide (i < off)%nat); [repeat case_decide; done || lia|].
  destruct (decide (i < off + length bs)%nat).
  - rewrite decide_True by lia. by rewrite lookup_app_l by lia.
  - destruct (decide (i < off + length w)%nat).
    + rewrite decide_True by lia. rewrite lookup_app_r, lookup_drop by lia. f_equal. lia.
    + by rewrite decide_False by lia.
Qed.

(** A write into a pending write. *)
Lemma splice_overwrite c off w k bs : bs <> [] -> (k <= length w)%nat ->
  splice (splice c off w) (off + k) bs = splice c off (overwrite k bs w).
Proof.
  intros Hb Hk. unfold overwrite. pose proof (splice_splice c off (take k w) (drop k w)) as E.
  rewrite take_drop, length_take_le in E by done. rewrite <- E, splice_over by done.
  rewrite drop_drop. pose proof (splice_splice c off (take k w) (bs ++ drop (k + length bs) w)) as E2.
  by rewrite length_take_le in E2 by done.
Qed.

(** ** What the raw file promises

    A read returns all the bytes asked for that the file has.  A write stores a
    non-empty prefix of its bytes, within the largest file size.  Either may fail
    instead; a write that fails leaves the file as it was. *)
Class RawLaws (R : Type) `{FileOps R} `{Faulty R} : Type := {
  raw_contents : R -> bytes;
  raw_pread_law : forall h n off h' r,
    0 <= off -> ops_pread h n off = (h', r) -> raw_contents h' = raw_contents h /\
    match r with
    | Done bs => io_failed h' = io_failed h /\ bs = take n (drop (Z.to_nat off) (raw_contents h))
    | Error e => io_failed h' = true /\ e <> COUCHSTORE_SUCCESS
    end;
  raw_pread_sticky : forall h n off, io_failed h = true -> io_failed (ops_pread h n off).1 = true;
  raw_pwrite_law : forall h bs off h' r,
    0 <= off -> bs <> [] -> ops_pwrite h bs off = (h', r) ->
    match r with
    | Done k =>
        io_failed h' = io_failed h /\ (0 < k <= length bs)%nat /\
        raw_contents h' = splice (raw_contents h) (Z.to_nat off) (take k bs) /\
        off + Z.of_nat k <= max_file_size
    | Error e => raw_contents h' = raw_contents h /\ io_failed h' = true /\ e <> COUCHSTORE_SUCCESS
    end;
  raw_pwrite_max : forall h bs off h' k,
    ops_pwrite h bs off = (h', Done k) -> (k <= length bs)%nat /\ off + Z.of_nat k <= max_file_size;
  raw_pwrite_sticky : forall h bs off, io_failed h = true -> io_failed (ops_pwrite h bs off).1 = true;
  raw_sync_law : forall h h' e,
    ops_sync h = (h', e) -> raw_contents h' = raw_contents h /\
    (e = COUCHSTORE_SUCCESS -> io_failed h' = io_failed h) /\ (e <> COUCHSTORE_SUCCESS -> io_failed h' = true);
  raw_sync_sticky : forall h, io_failed h = true -> io_failed (ops_sync h).1 = true;
  raw_goto_eof_law : forall h h' p,
    ops_goto_eof h = (h', p) -> raw_contents h' = raw_contents h /\
    (0 <= p -> p = blen (raw_contents h) /\ io_failed h' = io_failed h) /\ (p < 0 -> io_failed h' = true);
  raw_goto_eof_sticky : forall h, io_failed h = true -> io_failed (ops_goto_eof h).1 = true;
  raw_close_law : forall h, raw_contents (ops_close h) = raw_contents h /\
    (io_failed (ops_close h) = true \/ io_failed (ops_close h) = io_failed h);
  raw_close_sticky : forall h, io_failed h = true -> io_failed (ops_close h) = true
}.

Section Laws.
Context {R : Type} `{HO : FileOps R} `{HF : Faulty R} `{HL : !RawLaws R}.
Implicit Types (raw : R) (h : buffered_file_handle R) (b : file_buffer).

(** A read buffer holds what the raw file has at its block. *)
Record coherent raw b : Prop := {
  co_block : 0 <= buf_offset b /\ buf_offset b mod READ_BUFFER_CAPACITY = 0;
  co_capacity : buf_capacity b = READ_BUFFER_CAPACITY;
  co_clean : buf_dirty b = false;
  co_length : buf_length b <= READ_BUFFER_CAPACITY;
  co_bytes : has (raw_contents raw) (buf_offset b) (buf_bytes b)
}.

Definition ends_by (off : Z) b : Prop := buf_bytes b = [] \/ buf_offset b + buf_length b <= off.

(** The write buffer: what it holds is to be written, behind all that was read. *)
Record pending_ok b : Prop := {
  po_capacity : buf_capacity b = WRITE_BUFFER_CAPACITY;
  po_length : buf_length b <= WRITE_BUFFER_CAPACITY;
  po_dirty : buf_bytes b <> [] -> buf_dirty b = true /\ 0 <= buf_offset b
}.

Definition buffers h : list file_buffer := bf_first h :: bf_rest h.

Record buffered_ok h : Prop := {
  bo_count : bf_nbuffers h = Z.of_nat (length (buffers h)) /\ bf_nbuffers h <= MAX_READ_BUFFERS;
  bo_coherent : Forall (coherent (bf_raw h)) (buffers h);
  bo_pending : pending_ok (bf_write h);
  bo_behind : buf_bytes (bf_write h) <> [] -> Forall (ends_by (buf_offset (bf_write h))) (buffers h)
}.

Definition with_pending raw b : bytes := splice (raw_contents raw) (Z.to_nat (buf_offset b)) (buf_bytes b).

(** A pending write past the largest file size is bound to fail. *)
Definition doomed b : bool :=
  if decide (buf_bytes b = []) then false else bool_decide (max_file_size < buf_offset b + buf_length b).

#[global] Instance buffered_Faulty : Faulty (buffered_file_handle R) := fun h => io_failed (bf_raw h) || doomed (bf_write h).

Lemma with_pending_nil raw b : buf_bytes b = [] -> with_pending raw b = raw_contents raw.
Proof. unfold with_pending. by intros ->. Qed.

Lemma doomed_nil b : buf_bytes b = [] -> doomed b = false.
Proof. unfold doomed. intros ->. by rewrite decide_True. Qed.

Lemma buf_length_nil b : buf_length b = 0 <-> buf_bytes b = [].
Proof. unfold buf_length, blen. split; [|by intros ->]. destruct (buf_bytes b); [done|cbn; lia]. Qed.

Lemma coherent_raw raw raw' b :
  coherent raw b -> (has (raw_contents raw) (buf_offset b) (buf_bytes b) -> has (raw_contents raw') (buf_offset b) (buf_bytes b)) ->
  coherent raw' b.
Proof. intros [] Hk. by split; [..|apply Hk]. Qed.

Lemma ends_by_mono a c b : ends_by a b -> a <= c -> ends_by c b.
Proof. intros [?|?]; [by left|right; lia]. Qed.

(** ** Flushing *)

Record flushed raw b raw' b' (e : couchstore_error_t) : Prop := {
  fl_contents : with_pending raw' b' = with_pending raw b;
  fl_pending : pending_ok b';
  fl_offset : buf_bytes b' <> [] -> buf_bytes b <> [] /\ buf_offset b <= buf_offset b' /\
    buf_offset b' + buf_length b' = buf_offset b + buf_length b;
  fl_reads : forall c, coherent raw c -> (buf_bytes b <> [] -> ends_by (buf_offset b) c) -> coherent raw' c;
  fl_success : e = COUCHSTORE_SUCCESS -> buf_bytes b' = [] /\ io_failed raw' = io_failed raw /\ doomed b = false;
  fl_error : e <> COUCHSTORE_SUCCESS -> io_failed raw' = true
}.

Lemma raw_flush_loop_spec fuel raw b raw' b' e :
  (length (buf_bytes b) <= fuel)%nat -> pending_ok b -> flush_loop fuel raw b = (raw', b', e) -> flushed raw b raw' b' e.
Proof.
  revert raw b. induction fuel as [|fuel IH]; intros raw b Hfuel Hok E; cbn [flush_loop] in E.
  { destruct (buf_bytes b) eqn:Eb; [|cbn in Hfuel; lia]. injection E as <- <- <-. destruct Hok.
    split; try done; cbn; try rewrite Eb; try done. intros _. split_and!; [done|done|by apply doomed_nil]. }
  case_decide as Hlen.
  2:{ assert (buf_bytes b = []) as Eb by (apply buf_length_nil; unfold buf_length in *; pose proof (blen_nonneg (buf_bytes b)); lia).
      injection E as <- <- <-. destruct Hok. split; try done; cbn; try rewrite Eb; try done.
      intros _. split_and!; [done|done|by apply doomed_nil]. }
  assert (buf_bytes b <> []) as Hne by (intros Eb; unfold buf_length in Hlen; rewrite Eb in Hlen; done).
  destruct (po_dirty _ Hok Hne) as [Hd Ho]. rewrite Hd in E.
  destruct (ops_pwrite raw (buf_bytes b) (buf_offset b)) as [raw1 r] eqn:Ew.
  pose proof (raw_pwrite_law _ _ _ _ _ Ho Hne Ew) as Hw. destruct r as [k|e0].
  - destruct Hw as (Hf & Hk & Hc & Hmax). destruct k as [|k]; [lia|].
    assert (length (take (S k) (buf_bytes b)) = S k) as Hlt by (rewrite length_take_le; lia).
    set (b1 := {| buf_capacity := _ |}) in E.
    assert (pending_ok b1) as Hok1.
    { destruct Hok as [Hcap Hl _]. split; cbn [b1 buf_capacity buf_bytes buf_offset buf_dirty]; [done| |intros _; split; [done|lia]].
      unfold buf_length, blen in *. cbn [b1 buf_bytes]. rewrite length_drop. lia. }
    apply IH in E; [|cbn [b1 buf_bytes]; rewrite length_drop; lia|done]. destruct E as [Ec Ep Eo Er Es Ee].
    assert (buf_offset b1 + buf_length b1 = buf_offset b + buf_length b) as Hend.
    { unfold buf_length, blen. cbn [b1 buf_offset buf_bytes]. rewrite length_drop. lia. }
    split; try done.
    + rewrite Ec. unfold with_pending. rewrite Hc. cbn [b1 buf_offset buf_bytes].
      rewrite Z2Nat.inj_add, Nat2Z.id by lia.
      pose proof (splice_splice (raw_contents raw) (Z.to_nat (buf_offset b)) (take (S k) (buf_bytes b)) (drop (S k) (buf_bytes b))) as E2.
      by rewrite Hlt, take_drop in E2.
    + intros Hb'. destruct (Eo Hb') as (? & Hle & Heq). split_and!; [done| |lia]. cbn [b1 buf_offset] in Hle. lia.
    + intros c Hco Hends. specialize (Hends Hne). apply Er.
      * eapply coherent_raw; [exact Hco|]. intros Hh. rewrite Hc. destruct Hends as [Eb|Hle]; [|by apply splice_keeps].
        rewrite Eb. apply has_nil, Hco.
      * intros _. eapply ends_by_mono; [exact Hends|]. cbn. lia.
    + intros He. destruct (Es He) as (? & ? & Hdoom). split_and!; [done|congruence|]. revert Hdoom. unfold doomed.
      rewrite (decide_False (P := buf_bytes b = [])) by done. rewrite Hend. destruct (decide (buf_bytes b1 = [])) as [Eb1|_]; [|done].
      intros _. apply bool_decide_eq_false. apply buf_length_nil in Eb1. rewrite <- Hend, Eb1. cbn. lia.
  - destruct Hw as (Hc & Hf & He). injection E as <- <- <-. split; try done.
    + unfold with_pending. by rewrite Hc.
    + intros c Hco _. eapply coherent_raw; [exact Hco|]. by rewrite Hc.
Qed.

Lemma flush_buffer_spec raw b raw' b' e :
  pending_ok b -> flush_buffer raw b = (raw', b', e) -> flushed raw b raw' b' e.
Proof. intros Hok. by apply raw_flush_loop_spec. Qed.

(** ** Reading *)

Lemma scan_buffers_split offset b rest before x after :
  scan_buffers offset b rest = (before, x, after) -> b :: rest = before ++ x :: after.
Proof.
  revert b before x after. induction rest as [|c rest IH]; intros b before x after E; cbn [scan_buffers] in E.
  { by injection E as <- <- <-. }
  case_decide; [|by injection E as <- <- <-].
  destruct (scan_buffers offset c rest) as [[before' x'] after'] eqn:E'. injection E as <- <- <-.
  cbn. f_equal. by apply IH.
Qed.

Lemma find_buffer_spec h offset b others n :
  buffered_ok h -> find_buffer h offset = (b, others, n) ->
  coherent (bf_raw h) b /\ Forall (coherent (bf_raw h)) others /\
  n = Z.of_nat (length (b :: others)) /\ n <= MAX_READ_BUFFERS.
Proof.
  intros [[Hn Hmax] Hco _ _] E. unfold find_buffer in E. unfold buffers in *.
  destruct (scan_buffers _ (bf_first h) (bf_rest h)) as [[before x] after] eqn:Es.
  apply scan_buffers_split in Es. rewrite Es in *. rewrite length_app in Hn. cbn [length] in Hn.
  apply Forall_app in Hco as [Hb Hx]. apply list.Forall_cons in Hx as [Hx Ha].
  repeat case_decide; injection E as <- <- <-; cbn [length]; rewrite ?length_app; cbn [length]; split_and!; try done; try lia.
  - apply Forall_app. split; [done|]. by constructor.
  - by apply Forall_app.
  - by apply Forall_app.
Qed.

Lemma read_from_buffer_spec raw b n offset :
  coherent raw b -> exists r, read_from_buffer b n offset = take r (drop (Z.to_nat offset) (raw_contents raw)) /\
    (r <= n)%nat /\ (r = O \/ length (read_from_buffer b n offset) = r) /\
    (r = O -> n = O \/ offset < buf_offset b \/ buf_offset b + buf_length b <= offset).
Proof.
  intros [[Ho _] _ _ _ Hh]. unfold read_from_buffer. case_decide as Hd.
  { exists O. rewrite take_0. split_and!; [done|lia|by left|]. intros _. lia. }
  set (k := Z.to_nat (offset - buf_offset b)). set (r := Z.to_nat (Z.min _ _)). exists r.
  assert (k + r <= length (buf_bytes b))%nat as Hkr by (unfold k, r, buf_length, blen in *; lia).
  assert (Hsub : take r (drop k (buf_bytes b)) = take r (drop (Z.to_nat offset) (raw_contents raw))).
  { destruct (has_app (raw_contents raw) (buf_offset b) (take k (buf_bytes b)) (drop k (buf_bytes b))) as [Happ _].
    rewrite take_drop in Happ. destruct (Happ Hh) as [_ Hd2]. apply has_take in Hd2. unfold blen in Hd2.
    rewrite length_take_le in Hd2 by lia. replace (buf_offset b + Z.of_nat k) with offset in Hd2 by lia.
    rewrite <- Hd2 at 1. rewrite take_take. f_equal. rewrite length_drop. lia. }
  split_and!; [done|unfold r; lia| |].
  - right. rewrite length_take, length_drop. lia.
  - intros Hr. left. unfold r, buf_length, blen in *. lia.
Qed.

Definition block_start (offset : Z) : Z := offset - Z.rem offset READ_BUFFER_CAPACITY.

Lemma block_start_spec offset : 0 <= offset ->
  0 <= block_start offset <= offset /\ offset < block_start offset + READ_BUFFER_CAPACITY /\
  block_start offset mod READ_BUFFER_CAPACITY = 0.
Proof.
  intros Ho. unfold block_start, READ_BUFFER_CAPACITY. rewrite Z.rem_mod_nonneg by lia.
  Z.div_mod_to_equations. lia.
Qed.

Lemma blocks_apart (i j : Z) : i mod READ_BUFFER_CAPACITY = 0 -> j mod READ_BUFFER_CAPACITY = 0 ->
  i <= j < i + READ_BUFFER_CAPACITY -> j = i.
Proof. unfold READ_BUFFER_CAPACITY. intros. Z.div_mod_to_equations. lia. Qed.

Lemma load_buffer_spec raw b offset n raw' b' e :
  coherent raw b -> 0 <= offset -> 0 < n ->
  load_buffer_from raw b (block_start offset) (offset + n - block_start offset) = (raw', b', e) ->
  raw_contents raw' = raw_contents raw /\ coherent raw' b' /\
  (e = COUCHSTORE_SUCCESS -> io_failed raw' = io_failed raw /\ buf_offset b' = block_start offset /\
     (buf_length b' = READ_BUFFER_CAPACITY \/ blen (raw_contents raw) <= buf_offset b' + buf_length b')) /\
  (e <> COUCHSTORE_SUCCESS -> io_failed raw' = true).
Proof.
  intros [[Ho Hal] Hcap Hd Hlen Hh] Hoff Hn E. unfold load_buffer_from in E. rewrite Hd in E.
  rewrite decide_False in E by auto. destruct (block_start_spec offset Hoff) as (Hbs & Hin & Hbal).
  set (b1 := if decide _ then _ else b) in E.
  assert (coherent raw b1 /\ buf_offset b1 = block_start offset) as [[[Ho1 Hal1] Hcap1 Hd1 Hlen1 Hh1] Ebs].
  { unfold b1. case_decide as Hc.
    - split; [|done]. split; cbn; try done; lia || (apply has_nil; lia).
    - split; [by split|]. symmetry. apply blocks_apart; [done|done|]. rewrite Hcap in Hc. lia. }
  clearbody b1. destruct (ops_pread raw _ _) as [raw1 r] eqn:Er.
  pose proof (blen_nonneg (buf_bytes b1)). unfold buf_length in *.
  apply raw_pread_law in Er as [Hc Hr]; [|lia]. destruct r as [bs|e0]; injection E as <- <- <-.
  2:{ destruct Hr as [Hf He]. split_and!; [done| |done|done]. by split; rewrite ?Hc. }
  destruct Hr as [Hf Hbs']. rewrite Hcap1 in Hbs'.
  assert (length bs = Nat.min (Z.to_nat (READ_BUFFER_CAPACITY - blen (buf_bytes b1)))
    (length (raw_contents raw) - Z.to_nat (buf_offset b1 + blen (buf_bytes b1))))%nat as Hl.
  { rewrite Hbs', length_take, length_drop. done. }
  split_and!; [done| | |done].
  - split; cbn [buf_offset buf_capacity buf_dirty buf_bytes]; try done.
    + unfold buf_length. cbn [buf_bytes]. rewrite blen_app. unfold blen in *. lia.
    + rewrite Hc. apply has_app. split; [done|]. rewrite Hbs'. split; [lia|]. intros i x Hi.
      apply lookup_take_Some in Hi as [Hi _]. by rewrite lookup_drop in Hi.
  - intros _. cbn [buf_offset buf_bytes]. split_and!; [done|done|]. rewrite blen_app. unfold blen in *. lia.
Qed.

Lemma coherent_same raw raw' b : raw_contents raw' = raw_contents raw -> coherent raw b -> coherent raw' b.
Proof. intros E Hc. eapply coherent_raw; [exact Hc|]. by rewrite E. Qed.

(** A handle whose pending writes are all in the raw file. *)
Definition settled h : Prop := buffered_ok h /\ buf_bytes (bf_write h) = [].

Lemma settled_found h raw b others n :
  settled h -> Forall (coherent raw) (b :: others) ->
  n = Z.of_nat (length (b :: others)) -> n <= MAX_READ_BUFFERS ->
  settled {| bf_raw := raw; bf_nbuffers := n; bf_write := bf_write h; bf_first := b; bf_rest := others |}.
Proof. intros [[] Hw] Hco Hn Hmax. split; [|done]. by split; cbn [bf_write]; rewrite ?Hw. Qed.

Lemma pread_round_spec h n offset h' r :
  settled h -> 0 <= offset -> n <> O -> pread_round h n offset = (h', r) ->
  settled h' /\ raw_contents (bf_raw h') = raw_contents (bf_raw h) /\
  match r with
  | Error e => io_failed (bf_raw h') = true
  | Done bs => io_failed (bf_raw h') = io_failed (bf_raw h) /\ (length bs <= n)%nat /\
      bs = take (length bs) (drop (Z.to_nat offset) (raw_contents (bf_raw h))) /\
      (bs = [] -> blen (raw_contents (bf_raw h)) <= offset)
  end.
Proof.
  intros Hs Hoff Hn E. unfold pread_round in E. destruct (find_buffer h offset) as [[b others] nb] eqn:Ef.
  apply find_buffer_spec in Ef as (Hb & Hothers & Hnb & Hmax); [|apply Hs].
  assert (Hread : forall raw b0 bs, coherent raw b0 -> read_from_buffer b0 n offset = bs ->
    (length bs <= n)%nat /\ bs = take (length bs) (drop (Z.to_nat offset) (raw_contents raw)) /\
    (bs = [] -> offset < buf_offset b0 \/ buf_offset b0 + buf_length b0 <= offset)).
  { intros raw b0 bs Hb0 <-. destruct (read_from_buffer_spec raw b0 n offset Hb0) as (r0 & E0 & Hr & Hlen & Hz).
    destruct Hlen as [->|Hlen].
    - rewrite take_0 in E0. rewrite E0. split_and!; [cbn; lia|by rewrite take_0|]. intros _. destruct (Hz eq_refl); [done|lia].
    - rewrite Hlen. split_and!; [done|done|]. intros E1. rewrite E1 in Hlen. cbn in Hlen. destruct (Hz (eq_sym Hlen)); [done|lia]. }
  destruct (read_from_buffer b n offset) as [|x l] eqn:Er.
  - fold (block_start offset) in E.
    destruct (load_buffer_from _ _ _ _) as [[raw1 b1] e1] eqn:El.
    apply load_buffer_spec in El as (Hc & Hb1 & Hok1 & Herr); [|done|done|lia].
    assert (Forall (coherent raw1) (b1 :: others)) as Hall.
    { constructor; [done|]. eapply list.Forall_impl; [exact Hothers|]. intros c. by apply coherent_same. }
    case_decide as He; injection E as <- <-; (split; [by apply settled_found|]); cbn [bf_raw]; (split; [done|]); [by apply Herr|].
    assert (e1 = COUCHSTORE_SUCCESS) as He1 by (destruct (decide (e1 = COUCHSTORE_SUCCESS)); done).
    destruct (Hok1 He1) as (Hf & Ebs & Hend). destruct (Hread raw1 b1 _ Hb1 eq_refl) as (H1 & H2 & H3). rewrite <- Hc.
    split_and!; [done|done|done|]. intros E1. destruct (block_start_spec offset Hoff) as (Hbs & Hin & _).
    destruct (H3 E1) as [?|?]; [lia|]. rewrite Hc. lia.
  - injection E as <- <-. split; [apply settled_found; [done|by constructor|done|done]|]. cbn [bf_raw]. split; [done|].
    destruct (Hread _ _ _ Hb Er) as (H1 & H2 & H3). split_and!; [done|done|done|]. by intros ?.
Qed.

Lemma pread_loop_spec fuel h n offset h' r :
  (n <= fuel)%nat -> settled h -> 0 <= offset -> pread_loop fuel h n offset = (h', r) ->
  settled h' /\ raw_contents (bf_raw h') = raw_contents (bf_raw h) /\
  match r with
  | Error e => io_failed (bf_raw h') = true
  | Done bs => io_failed (bf_raw h') = io_failed (bf_raw h) /\
      bs = take n (drop (Z.to_nat offset) (raw_contents (bf_raw h)))
  end.
Proof.
  revert h n offset h' r. induction fuel as [|fuel IH]; intros h n offset h' r Hfuel Hs Hoff E; cbn [pread_loop] in E.
  { assert (n = O) as -> by lia. injection E as <- <-. by rewrite take_0. }
  case_decide as Hn; [subst n; injection E as <- <-; by rewrite take_0|].
  destruct (pread_round h n offset) as [h1 r1] eqn:E1.
  apply pread_round_spec in E1 as (Hs1 & Hc1 & Hr1); [|done|done|done].
  destruct r1 as [[|x l]|e]; [| |by injection E as <- <-].
  - destruct Hr1 as (Hf & _ & _ & Hend). injection E as <- <-. split_and!; [done|done|done|].
    rewrite drop_ge; [by rewrite take_nil|]. specialize (Hend eq_refl). unfold blen in Hend. lia.
  - destruct Hr1 as (Hf & Hle & Hbs & _). set (bs := x :: l) in *.
    destruct (pread_loop fuel h1 _ _) as [h2 r2] eqn:E2. pose proof (blen_nonneg bs).
    assert (0 < length bs)%nat by (cbn; lia).
    apply IH in E2 as (Hs2 & Hc2 & Hr2); [|lia|done|lia].
    destruct r2 as [rest|e]; injection E as <- <-; (split; [done|]); (split; [congruence|]); [|done].
    destruct Hr2 as [Hf2 Hrest]. split; [congruence|]. rewrite Hrest, Hc1.
    set (X := drop (Z.to_nat offset) (raw_contents (bf_raw h))) in *.
    assert (drop (Z.to_nat (offset + blen bs)) (raw_contents (bf_raw h)) = drop (length bs) X) as ->.
    { unfold blen, X. by rewrite Z2Nat.inj_add, Nat2Z.id, drop_drop by lia. }
    transitivity (take (length bs) X ++ take (n - length bs) (drop (length bs) X)); [by rewrite <- Hbs|].
    rewrite take_take_drop. f_equal. lia.
Qed.

(** ** Writing *)

Definition buf_end b : Z := buf_offset b + buf_length b.

Record buffer_written raw b (bs : bytes) (offset : Z) b' (k : nat) : Prop := {
  bw_count : (k <= length bs)%nat;
  bw_pending : pending_ok b';
  bw_contents : with_pending raw b' = splice (with_pending raw b) (Z.to_nat offset) (take k bs);
  bw_offset : buf_bytes b' <> [] -> buf_offset b' = offset \/ (buf_bytes b <> [] /\ buf_offset b' = buf_offset b);
  bw_grows : buf_bytes b <> [] -> buf_bytes b' <> [] /\ buf_end b <= buf_end b';
  bw_covers : k <> O -> buf_bytes b' <> [] /\ offset + Z.of_nat k <= buf_end b';
  bw_short : (k < length bs)%nat -> k = O \/ buf_length b' = WRITE_BUFFER_CAPACITY;
  bw_empty : buf_bytes b = [] -> blen bs <= WRITE_BUFFER_CAPACITY -> k = length bs
}.

Lemma overwrite_length k (bs w : bytes) : (k <= length w)%nat ->
  length (overwrite k bs w) = Nat.max (length w) (k + length bs).
Proof. intros Hk. unfold overwrite. rewrite !length_app, length_take, length_drop. lia. Qed.

Lemma write_to_buffer_spec raw b bs offset b' k :
  pending_ok b -> 0 <= offset -> bs <> [] -> write_to_buffer b bs offset = (b', k) ->
  buffer_written raw b bs offset b' k.
Proof.
  intros [Hcap Hlen Hdirty] Hoff Hbs E. unfold write_to_buffer in E. rewrite Hcap in E.
  set (W := WRITE_BUFFER_CAPACITY) in *. assert (0 < W) by done. pose proof (blen_nonneg bs). unfold blen in *.
  assert (0 < length bs)%nat by (destruct bs; [done|cbn; lia]).
  destruct (decide (buf_length b = 0)) as [Hz|Hz].
  - apply buf_length_nil in Hz. rewrite Z.sub_diag, Z.sub_0_r, Hz in E. set (n := Z.to_nat (Z.min W _)) in E.
    assert (0 < n <= length bs)%nat by lia. injection E as <- <-.
    assert (length (take n bs) = n) by (rewrite length_take; lia).
    assert (overwrite (Z.to_nat 0) (take n bs) [] = take n bs) as Ew by (unfold overwrite; by rewrite drop_nil, app_nil_r).
    split; unfold buf_end, buf_length, blen; cbn [buf_capacity buf_offset buf_bytes buf_dirty]; try rewrite Ew.
    + lia.
    + split; unfold buf_length, blen; cbn [buf_capacity buf_offset buf_bytes buf_dirty]; rewrite ?Ew; [done|lia|done].
    + unfold with_pending. cbn [buf_offset buf_bytes]. by rewrite Hz.
    + by left.
    + done.
    + intros _. split; [|lia]. intros E0. apply (f_equal length) in E0. cbn in E0. lia.
    + intros Hk. right. fold W. lia.
    + intros _ Hle. lia.
  - assert (buf_bytes b <> []) as Hne by (intros E0; by apply Hz, buf_length_nil). destruct (Hdirty Hne) as [Hd Ho].
    case_decide as Hr.
    { injection E as <- <-. split; try done; try lia; by right. }
    set (oib := offset - buf_offset b) in E. set (n := Z.to_nat (Z.min _ _)) in E. injection E as <- <-.
    unfold buf_length, blen in *.
    assert (length (take n bs) = n) as Hn by (rewrite length_take; lia).
    assert (length (overwrite (Z.to_nat oib) (take n bs) (buf_bytes b)) = Nat.max (length (buf_bytes b)) (Z.to_nat oib + n)) as Hl
      by (rewrite overwrite_length by lia; lia).
    assert (overwrite (Z.to_nat oib) (take n bs) (buf_bytes b) <> []) as Hne'.
    { intros E0. rewrite E0 in Hl. cbn [length] in Hl. destruct (buf_bytes b); [done|cbn [length] in Hl; lia]. }
    split; unfold buf_end, buf_length, blen; cbn [buf_capacity buf_offset buf_bytes buf_dirty]; rewrite ?Hl.
    + lia.
    + split; unfold buf_length, blen; cbn [buf_capacity buf_offset buf_bytes buf_dirty]; rewrite ?Hl; [done|lia|done].
    + unfold with_pending. cbn [buf_offset buf_bytes]. destruct (decide (n = O)) as [->|Hn0].
      * rewrite take_0. unfold overwrite. cbn [app]. by rewrite Nat.add_0_r, take_drop.
      * rewrite <- splice_overwrite; [f_equal; lia| |lia]. intros E0. rewrite E0 in Hn. cbn in Hn. lia.
    + by right.
    + intros _. split; [done|lia].
    + intros _. split; [done|lia].
    + intros Hk. lia.
    + done.
Qed.

(** ** The contract *)

Lemma set_write_flushed h raw' b' e :
  buffered_ok h -> flush_buffer (bf_raw h) (bf_write h) = (raw', b', e) ->
  buffered_ok (set_write raw' b' h) /\ with_pending raw' b' = with_pending (bf_raw h) (bf_write h) /\
  (e = COUCHSTORE_SUCCESS -> settled (set_write raw' b' h) /\ io_failed raw' = io_failed h) /\
  (e <> COUCHSTORE_SUCCESS -> io_failed raw' = true).
Proof.
  intros [Hn Hco Hp Hb] E. apply flush_buffer_spec in E as [Ec Ep Eo Er Es Ee]; [|done].
  assert (buffered_ok (set_write raw' b' h)) as Hok.
  { split; [done| |done|].
    - unfold buffers in *. cbn [set_write bf_first bf_rest bf_raw]. rewrite list.Forall_forall in Hco. apply list.Forall_forall.
      intros c Hc. apply Er; [by apply Hco|]. intros Hne. specialize (Hb Hne). rewrite list.Forall_forall in Hb. by apply Hb.
    - cbn [set_write bf_write]. intros Hne. destruct (Eo Hne) as (Hne0 & Hle & _). eapply list.Forall_impl; [by apply Hb|].
      intros c Hc. by eapply ends_by_mono. }
  split_and!; [done|done| |done]. intros He. destruct (Es He) as (Hnil & Hf & Hdoom). split; [by split|].
  unfold io_failed at 2. unfold buffered_Faulty. by rewrite Hdoom, orb_false_r.
Qed.

Lemma settled_failed h : settled h -> io_failed h = io_failed (bf_raw h).
Proof. intros [_ Hw]. unfold io_failed at 1, buffered_Faulty. by rewrite doomed_nil, orb_false_r. Qed.

Lemma raw_failed h : io_failed (bf_raw h) = true -> io_failed h = true.
Proof. unfold io_failed at 2, buffered_Faulty. by intros ->. Qed.

Definition buffered_contents h : bytes := with_pending (bf_raw h) (bf_write h).

Lemma settled_contents h : settled h -> buffered_contents h = raw_contents (bf_raw h).
Proof. intros [_ Hw]. by apply with_pending_nil. Qed.

Lemma buffered_pread_law h n off h' r :
  buffered_ok h -> 0 <= off -> buffered_pread h n off = (h', r) ->
  buffered_ok h' /\ buffered_contents h' = buffered_contents h /\
  match r with
  | Done bs => io_failed h' = io_failed h /\ bs = take n (drop (Z.to_nat off) (buffered_contents h))
  | Error _ => io_failed h' = true
  end.
Proof.
  intros Hok Hoff E. unfold buffered_pread in E.
  destruct (flush_buffer (bf_raw h) (bf_write h)) as [[raw1 b1] e1] eqn:Ef.
  apply set_write_flushed in Ef as (Hok1 & Hc1 & Hs1 & He1); [|done].
  case_decide as He; [injection E as <- <-; split_and!; [done|done|by apply raw_failed, He1]|].
  assert (e1 = COUCHSTORE_SUCCESS) as -> by (destruct (decide (e1 = COUCHSTORE_SUCCESS)); done).
  destruct (Hs1 eq_refl) as [Hset Hf]. apply pread_loop_spec in E as (Hset' & Hc & Hr); [|done|done|done].
  assert (raw_contents raw1 = buffered_contents h) as Hraw.
  { unfold buffered_contents. rewrite <- Hc1. symmetry. apply with_pending_nil, Hset. }
  split_and!; [apply Hset'|by rewrite settled_contents, Hc, <- Hraw by done|].
  destruct r as [bs|e]; [|by apply raw_failed]. destruct Hr as [Hfr Hbs]. cbn [set_write bf_raw] in *.
  rewrite settled_failed by done. rewrite Hraw in Hbs. split; [congruence|done].
Qed.

Lemma not_doomed b : doomed b = false -> buf_bytes b <> [] -> buf_end b <= max_file_size.
Proof. unfold doomed, buf_end. intros Hd Hne. rewrite decide_False in Hd by done. apply bool_decide_eq_false in Hd. lia. Qed.

Lemma doomed_grows b b' : (buf_bytes b <> [] -> buf_bytes b' <> [] /\ buf_end b <= buf_end b') ->
  doomed b' = false -> doomed b = false.
Proof.
  intros Hg Hd. unfold doomed at 1. case_decide as E; [done|]. destruct (Hg E) as [Hne Hle].
  apply not_doomed in Hd; [|done]. apply bool_decide_eq_false. unfold buf_end in *. lia.
Qed.

(** A write to the buffer of a handle. *)
Lemma set_write_written h raw bs off b' k :
  buffered_ok h -> raw = bf_raw h -> Forall (ends_by off) (buffers h) ->
  buffer_written raw (bf_write h) bs off b' k ->
  buffered_ok (set_write raw b' h) /\
  buffered_contents (set_write raw b' h) = splice (buffered_contents h) (Z.to_nat off) (take k bs) /\
  (io_failed (set_write raw b' h) = false -> io_failed h = false /\ (k <> O -> off + Z.of_nat k <= max_file_size)).
Proof.
  intros [Hn Hco Hp Hb] -> Hun []. split_and!; [|done|].
  - split; [done|done|done|]. cbn [set_write bf_write]. intros Hne.
    destruct (bw_offset0 Hne) as [-> |[Hne0 ->]]; [done|]. by apply Hb.
  - unfold io_failed, buffered_Faulty. cbn [set_write bf_raw bf_write]. intros Hf. apply orb_false_iff in Hf as [-> Hd].
    split; [by rewrite (doomed_grows _ b')|]. intros Hk. destruct (bw_covers0 Hk) as [Hne Hle].
    pose proof (not_doomed _ Hd Hne). lia.
Qed.

(** The rest of a write goes whole into the buffer a flush has emptied. *)
Lemma write_settled h bs off b' k :
  settled h -> 0 <= off -> bs <> [] -> blen bs <= WRITE_BUFFER_CAPACITY -> Forall (ends_by off) (buffers h) ->
  write_to_buffer (bf_write h) bs off = (b', k) ->
  k = length bs /\ buffered_ok (set_write (bf_raw h) b' h) /\
  buffered_contents (set_write (bf_raw h) b' h) = splice (buffered_contents h) (Z.to_nat off) bs /\
  (io_failed (set_write (bf_raw h) b' h) = false -> io_failed h = false /\ off + blen bs <= max_file_size).
Proof.
  intros [Hok Hnil] Hoff Hbs Hfits Hun E.
  apply (write_to_buffer_spec (bf_raw h)) in E as Hw; [|apply Hok|done|done].
  assert (k = length bs) as -> by (by apply (bw_empty _ _ _ _ _ _ Hw)).
  destruct (set_write_written h _ _ _ _ _ Hok eq_refl Hun Hw) as (Hok' & Hc & Hf). rewrite firstn_all in Hc.
  split_and!; [done..|]. intros Ef. destruct (Hf Ef) as [Hf' Hmax]. split; [done|]. unfold blen. apply Hmax.
  by destruct bs.
Qed.

Lemma buffered_pwrite_law h bs off h' r :
  buffered_ok h -> 0 <= off -> (0 < length bs <= 4096)%nat -> Forall (ends_by off) (buffers h) ->
  buffered_pwrite h bs off = (h', r) ->
  buffered_ok h' /\
  match r with
  | Done k =>
      io_failed h' = true \/
      (io_failed h' = io_failed h /\ k = length bs /\
       buffered_contents h' = splice (buffered_contents h) (Z.to_nat off) bs /\
       off + blen bs <= max_file_size /\ (forall a, Forall (ends_by a) (buffers h) -> Forall (ends_by a) (buffers h')))
  | Error _ => io_failed h' = true
  end.
Proof.
  intros Hok Hoff [Hpos Hsmall] Hun E. unfold buffered_pwrite in E.
  assert (bs <> []) as Hbs by (intros ->; cbn in Hpos; lia). rewrite decide_False in E by done.
  destruct (write_to_buffer (bf_write h) bs off) as [b1 k1] eqn:E1.
  apply (write_to_buffer_spec (bf_raw h)) in E1 as Hw1; [|apply Hok|done|done]. pose proof (bw_count _ _ _ _ _ _ Hw1) as Hk1.
  destruct (set_write_written _ _ _ _ _ _ Hok eq_refl Hun Hw1) as (Hok1 & Hc1 & Hf1).
  set (h1 := set_write (bf_raw h) b1 h) in *.
  assert (Hcap1 : buf_capacity b1 = WRITE_BUFFER_CAPACITY) by apply Hw1. rewrite Hcap1 in E.
  case_decide as Hfull.
  2:{ assert (k1 = length bs) as -> by (destruct (decide (k1 < length bs)%nat) as [Hlt|]; [destruct (bw_short _ _ _ _ _ _ Hw1 Hlt); tauto|lia]).
      rewrite drop_all, decide_False, decide_True in E by auto. injection E as <- <-. split; [done|].
      destruct (io_failed h1) eqn:Ef; [by left|right]. destruct (Hf1 eq_refl) as [-> Hmax]. rewrite firstn_all in Hc1.
      split_and!; [done|done|done|apply Hmax; lia|done]. }
  destruct (flush_buffer (bf_raw h) b1) as [[raw2 b2] e2] eqn:E2.
  destruct (set_write_flushed h1 raw2 b2 e2 Hok1 E2) as (Hok2 & Hc2 & Hs2 & He2).
  change (set_write raw2 b2 h1) with (set_write raw2 b2 h) in *.
  case_decide as He; [injection E as <- <-; split; [done|by apply raw_failed, He2]|].
  assert (e2 = COUCHSTORE_SUCCESS) as -> by (destruct (decide (e2 = COUCHSTORE_SUCCESS)); done).
  destruct (Hs2 eq_refl) as [Hset Hf2]. set (h2 := set_write raw2 b2 h) in *.
  assert (buffered_contents h2 = splice (buffered_contents h) (Z.to_nat off) (take k1 bs)) as Hc2' by (by rewrite <- Hc1).
  assert (io_failed h2 = io_failed h1) as Hf12 by (by rewrite settled_failed).
  case_decide as Hrest.
  { injection E as <- <-. split; [done|]. apply (f_equal length) in Hrest. rewrite length_drop in Hrest. cbn [length] in Hrest.
    assert (k1 = length bs) as -> by lia. rewrite firstn_all in Hc2'.
    destruct (io_failed h2) eqn:Ef; [by left|right]. destruct (Hf1 (eq_sym Hf12)) as [-> Hmax].
    split_and!; [done|done|done|apply Hmax; lia|done]. }
  assert (buf_bytes b2 = []) as Hnil by apply Hset.
  assert (blen (drop k1 bs) <= WRITE_BUFFER_CAPACITY) as Hfits
    by (unfold blen, WRITE_BUFFER_CAPACITY; rewrite length_drop; lia).
  rewrite decide_True in E.
  2:{ pose proof (po_capacity _ (bo_pending _ Hok2)) as Hcap2. change (buf_capacity b2 = WRITE_BUFFER_CAPACITY) in Hcap2.
      rewrite Hcap2, (proj2 (buf_length_nil b2) Hnil). lia. }
  destruct (write_to_buffer b2 (drop k1 bs) _) as [b3 k3] eqn:E3. injection E as <- <-.
  destruct (write_settled h2 (drop k1 bs) (off + Z.of_nat k1) b3 k3) as (-> & Hok3 & Hc3 & Hf3); try done; [lia| |].
  { eapply list.Forall_impl; [exact Hun|]. intros c Hc. eapply ends_by_mono; [exact Hc|lia]. }
  change (set_write (bf_raw h2) b3 h2) with (set_write raw2 b3 h) in *. set (h3 := set_write raw2 b3 h) in *.
  split; [done|]. destruct (io_failed h3) eqn:Ef; [by left|right]. destruct (Hf3 eq_refl) as [Hf2' Hmax].
  destruct (Hf1 (eq_trans (eq_sym Hf12) Hf2')) as [-> _]. unfold blen in *. rewrite length_drop in *.
  split_and!; [done|lia| |lia|done].
  rewrite Hc3, Hc2', Z2Nat.inj_add, Nat2Z.id by lia.
  pose proof (splice_splice (buffered_contents h) (Z.to_nat off) (take k1 bs) (drop k1 bs)) as Es.
  by rewrite length_take_le, take_drop in Es by done.
Qed.

Lemma buffered_sync_law h h' e :
  buffered_ok h -> buffered_sync h = (h', e) ->
  buffered_ok h' /\ buffered_contents h' = buffered_contents h /\
  (forall a, Forall (ends_by a) (buffers h) -> Forall (ends_by a) (buffers h')) /\
  (e = COUCHSTORE_SUCCESS -> io_failed h' = io_failed h /\ buf_bytes (bf_write h') = []) /\
  (e <> COUCHSTORE_SUCCESS -> io_failed h' = true).
Proof.
  intros Hok E. unfold buffered_sync in E. destruct (flush_buffer (bf_raw h) (bf_write h)) as [[raw1 b1] e1] eqn:Ef.
  apply set_write_flushed in Ef as (Hok1 & Hc1 & Hs1 & He1); [|done].
  case_decide as He; [|by injection E as <- <-; split_and!; [done|done|done|done|intros _; apply raw_failed, He1]].
  destruct (Hs1 He) as [[_ Hnil] Hf1]. cbn [set_write bf_write] in Hnil.
  destruct (ops_sync raw1) as [raw2 e2] eqn:E2. injection E as <- <-. apply raw_sync_law in E2 as (Hc2 & Hs2 & He2).
  assert (buffered_ok (set_write raw2 b1 h)) as Hok2.
  { destruct Hok1 as [Hn Hco Hp Hb]. split; try done. eapply list.Forall_impl; [exact Hco|]. intros c. by apply coherent_same. }
  split_and!; [done| |done| |].
  - unfold buffered_contents. rewrite <- Hc1. cbn [set_write bf_raw bf_write]. by rewrite !with_pending_nil.
  - intros E2. split; [|done]. rewrite settled_failed by done. cbn [set_write bf_raw]. rewrite Hs2 by done. done.
  - intros E2. by apply raw_failed, He2.
Qed.

Lemma buffered_close_law h :
  buffered_ok h ->
  buffered_ok (buffered_close h) /\
  (io_failed (buffered_close h) = true \/
   (io_failed (buffered_close h) = io_failed h /\ buffered_contents (buffered_close h) = buffered_contents h /\
    buf_bytes (bf_write (buffered_close h)) = [] /\
    (forall a, Forall (ends_by a) (buffers h) -> Forall (ends_by a) (buffers (buffered_close h))))).
Proof.
  intros Hok. unfold buffered_close. destruct (flush_buffer (bf_raw h) (bf_write h)) as [[raw1 b1] e1] eqn:Ef.
  apply set_write_flushed in Ef as (Hok1 & Hc1 & Hs1 & He1); [|done]. destruct (raw_close_law raw1) as [Hc2 Hf2].
  assert (buffered_ok (set_write (ops_close raw1) b1 h)) as Hok2; [|split; [done|]].
  { destruct Hok1 as [Hn Hco Hp Hb]. split; try done. eapply list.Forall_impl; [exact Hco|]. intros c. by apply coherent_same. }
  destruct (decide (e1 = COUCHSTORE_SUCCESS)) as [He|He]; [|left; apply raw_failed, raw_close_sticky, He1, He].
  destruct (Hs1 He) as [[_ Hnil] Hf1]. cbn [set_write bf_write] in Hnil. destruct Hf2 as [Hf2|Hf2]; [left; by apply raw_failed|right].
  split_and!; [|unfold buffered_contents; rewrite <- Hc1; cbn [set_write bf_raw bf_write]; by rewrite !with_pending_nil|done|done].
  rewrite settled_failed by done. cbn [set_write bf_raw]. congruence.
Qed.

Lemma buffered_goto_eof_law h h' p :
  buffered_ok h -> buf_bytes (bf_write h) = [] -> buffered_goto_eof h = (h', p) ->
  buffered_ok h' /\ buffered_contents h' = buffered_contents h /\
  (0 <= p -> p = blen (buffered_contents h) /\ io_failed h' = io_failed h) /\ (p < 0 -> io_failed h' = true).
Proof.
  intros [Hn Hco Hp Hb] Hnil E. unfold buffered_goto_eof in E. destruct (ops_goto_eof (bf_raw h)) as [raw1 pos] eqn:E1.
  injection E as <- <-. apply raw_goto_eof_law in E1 as (Hc & Hs & He).
  unfold buffered_contents. cbn [set_write bf_raw bf_write]. rewrite !with_pending_nil by done.
  split_and!; [|done| |intros Hlt; by apply raw_failed, He].
  - split; try done. eapply list.Forall_impl; [exact Hco|]. intros c. by apply coherent_same.
  - intros Hpos. destruct (Hs Hpos) as [-> Hf]. split; [done|]. unfold io_failed, buffered_Faulty. cbn [set_write bf_raw bf_write]. congruence.
Qed.

(** ** Failures stay *)

Lemma flush_raw_sticky fuel raw b : io_failed raw = true -> io_failed (flush_loop fuel raw b).1.1 = true.
Proof.
  revert raw b. induction fuel as [|fuel IH]; intros raw b Hf; cbn [flush_loop]; [done|].
  case_decide; [|done]. destruct (buf_dirty b); [|done]. pose proof (raw_pwrite_sticky raw (buf_bytes b) (buf_offset b) Hf) as Hw.
  destruct (ops_pwrite raw _ _) as [raw1 [[|k]|e]]; cbn [fst] in *; [done|by apply IH|done].
Qed.

Lemma flush_sticky fuel raw b raw' b' e : flush_loop fuel raw b = (raw', b', e) ->
  io_failed raw || doomed b = true -> io_failed raw' || doomed b' = true.
Proof.
  revert raw b. induction fuel as [|fuel IH]; intros raw b E Hf; cbn [flush_loop] in E; [by injection E as <- <- <-|].
  case_decide; [|by injection E as <- <- <-]. destruct (buf_dirty b) eqn:Ed; [|by injection E as <- <- <-].
  destruct (ops_pwrite raw (buf_bytes b) (buf_offset b)) as [raw1 r] eqn:Ew.
  pose proof (raw_pwrite_sticky raw (buf_bytes b) (buf_offset b)) as Hst. rewrite Ew in Hst. cbn [fst] in Hst.
  assert (io_failed raw1 || doomed b = true) as Hf1 by (apply orb_true_iff in Hf as [?|?]; apply orb_true_iff; auto).
  destruct r as [[|k]|e0]; [by injection E as <- <- <-| |by injection E as <- <- <-].
  apply IH in E; [done|]. apply orb_true_iff in Hf1 as [->|Hd]; [done|]. apply orb_true_iff. right.
  apply raw_pwrite_max in Ew as [Hk Hmax]. unfold doomed in *. destruct (decide (buf_bytes b = [])); [done|].
  apply bool_decide_eq_true in Hd. unfold buf_length, blen in *. cbn [buf_bytes buf_offset]. rewrite length_drop.
  rewrite decide_False; [apply bool_decide_eq_true; lia|].
  intros E0. apply (f_equal length) in E0. rewrite length_drop in E0. cbn [length] in E0. lia.
Qed.

Lemma write_to_buffer_sticky b bs offset : doomed b = true -> doomed (write_to_buffer b bs offset).1 = true.
Proof.
  intros Hd. destruct (doomed (write_to_buffer b bs offset).1) eqn:E; [done|].
  rewrite <- Hd. symmetry. eapply doomed_grows; [|exact E]. intros Hne. unfold write_to_buffer, buf_end.
  rewrite decide_False by (by rewrite buf_length_nil). case_decide as Hr; cbn [fst]; [split; [done|lia]|].
  cbn [buf_bytes buf_offset]. unfold buf_length, blen in *. cbn [buf_bytes]. rewrite overwrite_length by lia.
  split; [|lia]. intros E0. apply (f_equal length) in E0. rewrite overwrite_length in E0 by lia.
  destruct (buf_bytes b); [done|cbn [length] in E0; lia].
Qed.

Lemma pread_round_sticky h n off :
  bf_write (pread_round h n off).1 = bf_write h /\
  (io_failed (bf_raw h) = true -> io_failed (bf_raw (pread_round h n off).1) = true).
Proof.
  unfold pread_round. destruct (find_buffer h off) as [[b others] nb].
  destruct (read_from_buffer b n off) as [|x l]; [|done]. unfold load_buffer_from.
  destruct (if buf_dirty b then _ else _) as [[raw1 b1] e1] eqn:E1.
  assert (io_failed (bf_raw h) = true -> io_failed raw1 = true) as H1.
  { intros Hf. destruct (buf_dirty b); [|by injection E1 as <- _ _].
    pose proof (flush_raw_sticky (length (buf_bytes b)) (bf_raw h) b Hf) as Hs. unfold flush_buffer in E1. by rewrite E1 in Hs. }
  case_decide; cbn [fst]; [by rewrite decide_True|].
  set (b2 := if decide _ then _ else b1). pose proof (fun n off Hf => raw_pread_sticky raw1 n off (H1 Hf)) as H2.
  specialize (H2 (Z.to_nat (buf_capacity b2 - buf_length b2)) (buf_offset b2 + buf_length b2)).
  destruct (ops_pread raw1 _ _) as [raw2 [bs|e]]; cbn [fst] in H2; case_decide; by cbn [fst bf_write bf_raw].
Qed.

Lemma pread_loop_sticky fuel h n off :
  bf_write (pread_loop fuel h n off).1 = bf_write h /\
  (io_failed (bf_raw h) = true -> io_failed (bf_raw (pread_loop fuel h n off).1) = true).
Proof.
  revert h n off. induction fuel as [|fuel IH]; intros h n off; cbn [pread_loop]; [done|]. case_decide; [done|].
  pose proof (pread_round_sticky h n off) as [Hw Hr]. destruct (pread_round h n off) as [h1 [[|x l]|e]]; cbn [fst] in *; try done.
  destruct (IH h1 (n - length (x :: l))%nat (off + blen (x :: l))) as [Hw2 Hr2].
  destruct (pread_loop fuel h1 _ _) as [h2 [bs|e]]; cbn [fst] in *; (split; [congruence|auto]).
Qed.

Lemma buffered_pread_sticky h n off : io_failed h = true -> io_failed (buffered_pread h n off).1 = true.
Proof.
  intros Hf. unfold buffered_pread. destruct (flush_buffer (bf_raw h) (bf_write h)) as [[raw1 b1] e1] eqn:E1.
  pose proof (flush_sticky _ _ _ _ _ _ E1 Hf) as Hf1. case_decide; [done|].
  destruct (pread_loop_sticky n (set_write raw1 b1 h) n off) as [Hw Hr]. cbn [set_write bf_raw bf_write] in *.
  unfold io_failed, buffered_Faulty. rewrite Hw. apply orb_true_iff in Hf1 as [Hx| ->]; [|apply orb_true_r].
  by rewrite Hr.
Qed.

Lemma buffered_pwrite_sticky h bs off : io_failed h = true -> io_failed (buffered_pwrite h bs off).1 = true.
Proof.
  intros Hf. unfold buffered_pwrite. case_decide; [done|].
  pose proof (write_to_buffer_sticky (bf_write h) bs off) as H1. destruct (write_to_buffer (bf_write h) bs off) as [b1 k1]. cbn [fst] in H1.
  assert (io_failed (bf_raw h) || doomed b1 = true) as Hf1.
  { apply orb_true_iff in Hf as [->|Hd]; [done|]. by rewrite H1, orb_true_r. }
  destruct (if decide _ then _ else _) as [[raw2 b2] e2] eqn:E2.
  assert (io_failed raw2 || doomed b2 = true) as Hf2.
  { case_decide; [by eapply flush_sticky|by injection E2 as <- <- <-]. }
  clear E2. repeat case_decide; [done|done| |].
  - pose proof (write_to_buffer_sticky b2 (drop k1 bs) (off + Z.of_nat k1)) as Hw3.
    destruct (write_to_buffer b2 _ _) as [b3 k3]. cbn [fst] in *. unfold io_failed, buffered_Faulty. cbn [set_write bf_raw bf_write].
    apply orb_true_iff in Hf2 as [->|Hd]; [done|]. by rewrite Hw3, orb_true_r.
  - pose proof (raw_pwrite_sticky raw2 (drop k1 bs) (off + Z.of_nat k1)) as Hw3.
    destruct (ops_pwrite raw2 _ _) as [raw3 r3]. cbn [fst] in Hw3.
    assert (io_failed raw3 || doomed b2 = true) as Hf3.
    { apply orb_true_iff in Hf2 as [Hx|Hd]; [by rewrite Hw3|]. by rewrite Hd, orb_true_r. }
    by destruct r3.
Qed.

Lemma buffered_sync_sticky h : io_failed h = true -> io_failed (buffered_sync h).1 = true.
Proof.
  intros Hf. unfold buffered_sync. destruct (flush_buffer (bf_raw h) (bf_write h)) as [[raw1 b1] e1] eqn:E1.
  pose proof (flush_sticky _ _ _ _ _ _ E1 Hf) as Hf1. case_decide; [|done].
  pose proof (raw_sync_sticky raw1) as Hs. destruct (ops_sync raw1) as [raw2 e2]. cbn [fst] in *.
  unfold io_failed, buffered_Faulty. cbn [set_write bf_raw bf_write].
  apply orb_true_iff in Hf1 as [Hx| ->]; [by rewrite Hs|apply orb_true_r].
Qed.

Lemma buffered_goto_eof_sticky h : io_failed h = true -> io_failed (buffered_goto_eof h).1 = true.
Proof.
  intros Hf. unfold buffered_goto_eof. pose proof (raw_goto_eof_sticky (bf_raw h)) as Hs.
  destruct (ops_goto_eof (bf_raw h)) as [raw1 p]. cbn [fst] in *. unfold io_failed, buffered_Faulty. cbn [set_write bf_raw bf_write].
  apply orb_true_iff in Hf as [Hx| ->]; [by rewrite Hs|apply orb_true_r].
Qed.

Lemma buffered_close_sticky h : io_failed h = true -> io_failed (buffered_close h) = true.
Proof.
  intros Hf. unfold buffered_close. destruct (flush_buffer (bf_raw h) (bf_write h)) as [[raw1 b1] e1] eqn:E1.
  pose proof (flush_sticky _ _ _ _ _ _ E1 Hf) as Hf1. unfold io_failed, buffered_Faulty. cbn [set_write bf_raw bf_write].
  apply orb_true_iff in Hf1 as [Hx| ->]; [by rewrite raw_close_sticky|apply orb_true_r].
Qed.

Lemma buffered_unread_end h : buffered_ok h -> Forall (ends_by (blen (buffered_contents h))) (buffers h).
Proof.
  intros [_ Hco Hp Hb]. eapply list.Forall_impl; [exact Hco|]. intros c [[Ho _] _ _ _ Hh].
  destruct (decide (buf_bytes c = [])) as [E|E]; [by left|]. right. apply has_end in Hh; [|done].
  unfold buffered_contents, with_pending, buf_length. unfold blen in *.
  destruct (decide (buf_bytes (bf_write h) = [])) as [->|Hne]; [done|]. rewrite splice_length by done. lia.
Qed.

(** The buffered table keeps the contract. *)
#[global] Instance buffered_FileLaws : FileLaws (buffered_file_handle R) :=
  {| contents := buffered_contents; file_ok := buffered_ok;
     synced := fun h => buf_bytes (bf_write h) = []; unread := fun h off => Forall (ends_by off) (buffers h);
     unread_mono := fun h a c Ha Hle => list.Forall_impl _ _ _ Ha (fun b Hb => ends_by_mono a c b Hb Hle);
     unread_end := buffered_unread_end;
     pread_law := buffered_pread_law; pread_sticky := buffered_pread_sticky;
     pwrite_law := buffered_pwrite_law; pwrite_sticky := buffered_pwrite_sticky;
     sync_law := buffered_sync_law; sync_sticky := buffered_sync_sticky;
     goto_eof_law := buffered_goto_eof_law; goto_eof_sticky := buffered_goto_eof_sticky;
     close_law := buffered_close_law; close_sticky := buffered_close_sticky |}.
End Laws.

(** ** The file in memory as a raw file *)

Lemma mf_raw_pread (h : memfile) n off h' r :
  0 <= off -> mf_pread h n off = (h', r) -> mf_data h' = mf_data h /\
  match r with
  | Done bs => mf_failed h' = mf_failed h /\ bs = take n (drop (Z.to_nat off) (mf_data h))
  | Error e => mf_failed h' = true /\ e <> COUCHSTORE_SUCCESS
  end.
Proof. intros Ho E. unfold mf_pread in E. mf_open E; done. Qed.

Lemma mf_raw_pwrite (h : memfile) bs off h' r :
  0 <= off -> bs <> [] -> mf_pwrite h bs off = (h', r) ->
  match r with
  | Done k => mf_failed h' = mf_failed h /\ (0 < k <= length bs)%nat /\
      mf_data h' = splice (mf_data h) (Z.to_nat off) (take k bs) /\ off + Z.of_nat k <= max_file_size
  | Error e => mf_data h' = mf_data h /\ mf_failed h' = true /\ e <> COUCHSTORE_SUCCESS
  end.
Proof.
  intros Ho Hb E. unfold mf_pwrite in E. mf_open E; try done. rewrite firstn_all.
  split_and!; try done. destruct bs; [done|cbn; lia].
Qed.

Lemma mf_raw_max (h : memfile) bs off h' k :
  mf_pwrite h bs off = (h', Done k) -> (k <= length bs)%nat /\ off + Z.of_nat k <= max_file_size.
Proof. intros E. unfold mf_pwrite in E. mf_open E; done. Qed.

Lemma mf_raw_sync (h h' : memfile) e :
  mf_sync h = (h', e) -> mf_data h' = mf_data h /\
  (e = COUCHSTORE_SUCCESS -> mf_failed h' = mf_failed h) /\ (e <> COUCHSTORE_SUCCESS -> mf_failed h' = true).
Proof. intros E. unfold mf_sync in E. mf_open E; done. Qed.

Lemma mf_raw_eof (h h' : memfile) p :
  mf_goto_eof h = (h', p) -> mf_data h' = mf_data h /\
  (0 <= p -> p = blen (mf_data h) /\ mf_failed h' = mf_failed h) /\ (p < 0 -> mf_failed h' = true).
Proof. intros E. unfold mf_goto_eof in E. mf_open E; split_and!; try done; try lia. unfold blen. lia. Qed.

Lemma mf_raw_close (h : memfile) :
  mf_data (mf_close h) = mf_data h /\ (mf_failed (mf_close h) = true \/ mf_failed (mf_close h) = mf_failed h).
Proof.
  unfold mf_close. destruct (mf_next h) as [f h'] eqn:E. apply mf_next_spec in E as [Hd Hf].
  split; [done|]. cbn [snd]. rewrite Hf. destruct f; auto.
Qed.

#[global] Instance memfile_RawLaws : RawLaws memfile :=
  {| raw_contents := mf_data; raw_pread_law := mf_raw_pread; raw_pread_sticky := mf_pread_sticky;
     raw_pwrite_law := mf_raw_pwrite; raw_pwrite_max := mf_raw_max; raw_pwrite_sticky := mf_pwrite_sticky;
     raw_sync_law := mf_raw_sync; raw_sync_sticky := mf_sync_sticky;
     raw_goto_eof_law := mf_raw_eof; raw_goto_eof_sticky := mf_goto_eof_sticky;
     raw_close_law := mf_raw_close; raw_close_sticky := mf_close_sticky |}.

Section Theorems.
Context {R : Type} `{HO : FileOps R} `{HF : Faulty R} `{HL : !RawLaws R}.

Lemma constructor_ok (raw : R) :
  buffered_ok (buffered_constructor_with_raw_ops raw) /\
  buffered_contents (buffered_constructor_with_raw_ops raw) = raw_contents raw.
Proof. split; [|done]. split; try done. by constructor. Qed.

(** C34: reads through the buffers see the writes before them.  A write of at most
    a block behind everything that was read stores all its bytes, and any later
    read returns exactly the bytes of the file with the write in it, whether they
    are still pending, in a read buffer or in the raw file; both may fail, and
    then the handle says so. *)
Theorem buffered_read_after_write (h : buffered_file_handle R) bs off n off2 :
  buffered_ok h -> 0 <= off -> (0 < length bs <= 4096)%nat -> Forall (ends_by off) (buffers h) -> 0 <= off2 ->
  let '(h1, r1) := buffered_pwrite h bs off in
  let '(h2, r2) := buffered_pread h1 n off2 in
  buffered_ok h2 /\
  (io_failed h2 = true \/
   (r1 = Done (length bs) /\ r2 = Done (take n (drop (Z.to_nat off2) (splice (buffered_contents h) (Z.to_nat off) bs))))).
Proof.
  intros Hok Hoff Hlen Hun Hoff2. destruct (buffered_pwrite h bs off) as [h1 r1] eqn:E1.
  destruct (buffered_pread h1 n off2) as [h2 r2] eqn:E2.
  apply buffered_pwrite_law in E1 as [Hok1 H1]; [|done..].
  pose proof (buffered_pread_sticky h1 n off2) as Hst. rewrite E2 in Hst. cbn [fst] in Hst.
  apply buffered_pread_law in E2 as (Hok2 & _ & H2); [|done..]. split; [done|].
  destruct r1 as [k|e]; [|left; by apply Hst]. destruct H1 as [H1|(_ & -> & Hc & _)]; [left; by apply Hst|].
  destruct r2 as [bs2|e]; [right|by left]. destruct H2 as [_ ->]. by rewrite Hc.
Qed.

(** Buffered_sync leaves nothing pending.  When it succeeds, the raw file
    holds everything that was written through the handle. *)
Theorem buffered_sync_flushes (h : buffered_file_handle R) :
  buffered_ok h ->
  let '(h', e) := buffered_sync h in
  buffered_ok h' /\ buffered_contents h' = buffered_contents h /\
  (e = COUCHSTORE_SUCCESS -> raw_contents (bf_raw h') = buffered_contents h) /\
  (e <> COUCHSTORE_SUCCESS -> io_failed h' = true).
Proof.
  intros Hok. destruct (buffered_sync h) as [h' e] eqn:E. apply buffered_sync_law in E as (Hok' & Hc & _ & Hs & He); [|done].
  split_and!; [done|done| |done]. intros E. destruct (Hs E) as [_ Hnil]. rewrite <- Hc. symmetry. by apply with_pending_nil.
Qed.
End Theorems.

Definition sample_file : memfile := {| mf_data := [Byte.x01; Byte.x02; Byte.x03]; mf_faults := []; mf_failed := false |}.

Lemma buffered_read_after_write_witness :
  let h := buffered_constructor_with_raw_ops sample_file in
  let '(h1, r1) := buffered_pwrite h [Byte.x04; Byte.x05] 3 in
  let '(h2, r2) := buffered_pread h1 3 2 in
  r1 = Done 2%nat /\ r2 = Done [Byte.x03; Byte.x04; Byte.x05] /\ buffered_ok h2.
Proof.
  cbv zeta. pose proof (buffered_read_after_write (buffered_constructor_with_raw_ops sample_file) [Byte.x04; Byte.x05] 3 3 2) as T.
  destruct (buffered_pwrite _ _ _) as [h1 r1] eqn:E1. destruct (buffered_pread h1 3 2) as [h2 r2] eqn:E2.
  destruct T as [Hok T]; [apply constructor_ok|lia|cbn; lia|by repeat constructor|lia|].
  vm_compute in E1. injection E1 as <- <-. split; [done|]. split; [|done]. vm_compute in E2. by injection E2 as _ <-.
Defined.

Lemma buffered_sync_flushes_witness :
  let h := (buffered_pwrite (buffered_constructor_with_raw_ops sample_file) [Byte.x04] 3).1 in
  raw_contents (bf_raw h) = [Byte.x01; Byte.x02; Byte.x03] /\
  raw_contents (bf_raw (buffered_sync h).1) = [Byte.x01; Byte.x02; Byte.x03; Byte.x04].
Proof.
  cbv zeta. set (h := (buffered_pwrite _ _ _).1). split; [by vm_compute|].
  assert (buffered_ok h) as Hok.
  { destruct (buffered_pwrite (buffered_constructor_with_raw_ops sample_file) [Byte.x04] 3) as [h1 r1] eqn:E1.
    apply buffered_pwrite_law in E1; [apply E1|apply constructor_ok|lia|cbn; lia|by repeat constructor]. }
  pose proof (buffered_sync_flushes h Hok) as T. destruct (buffered_sync h) as [h' e] eqn:E.
  destruct T as (_ & _ & T & _). cbn [fst]. rewrite T; [by vm_compute|]. vm_compute in E. by injection E as _ <-.
Defined.

(** The read buffers are not invalidated by writes.  After the first bytes of
    a file were read, a write over them succeeds, and reading them again through
    the same handle still returns the old bytes; the raw file has the new ones. *)
Theorem stale_read_after_overwrite :
  let h0 := buffered_constructor_with_raw_ops sample_file in
  let '(h1, r1) := buffered_pread h0 3 0 in
  let '(h2, r2) := buffered_pwrite h1 [Byte.xff] 0 in
  let '(h3, r3) := buffered_pread h2 3 0 in
  r1 = Done [Byte.x01; Byte.x02; Byte.x03] /\ r2 = Done 1%nat /\ r3 = Done [Byte.x01; Byte.x02; Byte.x03] /\
  raw_contents (bf_raw h3) = [Byte.xff; Byte.x02; Byte.x03].
Proof. by vm_compute. Qed.

(** Buffered_goto_eof does not count pending writes.  After a write at the end
    of the file it still returns the old end, until the buffer is flushed. *)
Theorem eof_ignores_pending_writes :
  let h0 := buffered_constructor_with_raw_ops sample_file in
  let h1 := (buffered_pwrite h0 [Byte.x04] 3).1 in
  blen (buffered_contents h1) = 4 /\ (buffered_goto_eof h1).2 = 3 /\
  (buffered_goto_eof (buffered_sync h1).1).2 = 4.
Proof. by vm_compute. Qed.
