(* ===== verification/Os.v ===== *)
(** * Os: the default file operations

    Models src/os.c, the table of file operations over the system calls, on a
    kernel that is a parameter.  A call may be interrupted by a signal, and then the
    functions repeat it.  [KernelLaws] is what POSIX says of the calls, and that
    signals do not go on for ever; under these laws every function returns, and the
    table keeps the laws [RawLaws] that the buffers of iobuffer.c rely on. *)

From Stdlib Require Import ZArith Lia.
From S2P Require Import Prelude FileOps IoBuffer.
From stdpp Require Import list numbers gmap.

#[local] Open Scope Z_scope.
#[local] Open Scope couch_scope.

Inductive errno : Type := EINTR | ENOENT | EINVAL | ESPIPE | EBADF | EOTHER.

#[global] Instance errno_eq_dec : EqDecision errno.
Proof. solve_decision. Defined.

(** ** The system calls

    A call gives [inl e] when it returns -1 with [errno] set to [e]. *)
Class Kernel (K : Type) : Type := {
  sys_open : K -> bytes -> Z -> K * (errno + Z);
  sys_close : K -> Z -> K * (errno + unit);
  sys_pread : K -> Z -> nat -> Z -> K * (errno + bytes);
  sys_pwrite : K -> Z -> bytes -> Z -> K * (errno + nat);
  sys_lseek_end : K -> Z -> K * (errno + Z);
  sys_fdatasync : K -> Z -> K * (errno + unit);
  sys_fadvise : K -> Z -> Z -> Z -> Z -> option errno
}.

(** The kernel and the error kept by get_os_error_store. *)
Record os (K : Type) : Type := { os_kernel : K; os_errno : option errno }.
Arguments os_kernel {K}.
Arguments os_errno {K}.

Section Ops.
Context {K : Type} `{HK : Kernel K}.

Definition syscall {A} (call : K -> K * (errno + A)) : M (os K) (errno + A) :=
  fun s => let '(k, r) := call (os_kernel s) in Ret r {| os_kernel := k; os_errno := os_errno s |}.

(** The loop around every call: again while it is interrupted. *)
Fixpoint retry {A} (fuel : nat) (call : K -> K * (errno + A)) : M (os K) (errno + A) :=
  match fuel with
  | O => nofuel
  | S fuel =>
      let* rv := syscall call in
      match rv with inl EINTR => retry fuel call | _ => ret rv end
  end.

Definition save_errno (e : errno) : M (os K) unit :=
  modify (fun s => {| os_kernel := os_kernel s; os_errno := Some e |}).

Definition couch_pread (fuel : nat) (fd : Z) (nbyte : nat) (offset : Z) : M (os K) (result bytes) :=
  let* rv := retry fuel (fun k => sys_pread k fd nbyte offset) in
  match rv with
  | inl e => save_errno e ;; ret (Error COUCHSTORE_ERROR_READ)
  | inr bs => ret (Done bs)
  end.

Definition couch_pwrite (fuel : nat) (fd : Z) (buf : bytes) (offset : Z) : M (os K) (result nat) :=
  let* rv := retry fuel (fun k => sys_pwrite k fd buf offset) in
  match rv with
  | inl e => save_errno e ;; ret (Error COUCHSTORE_ERROR_WRITE)
  | inr n => ret (Done n)
  end.

(** O_LARGEFILE is zero on a 64-bit host.  The error is not saved here. *)
Definition couch_open (fuel : nat) (path : bytes) (oflag : Z) : M (os K) (result Z) :=
  let* fd := retry fuel (fun k => sys_open k path oflag) in
  match fd with
  | inl ENOENT => ret (Error COUCHSTORE_ERROR_NO_SUCH_FILE)
  | inl _ => ret (Error COUCHSTORE_ERROR_OPEN_FILE)
  | inr fd => ret (Done fd)
  end.

Definition couch_close (fuel : nat) (fd : Z) : M (os K) unit :=
  if decide (fd <> -1) then
    if decide (3 <= fd) then
      let* rv := retry fuel (fun k => sys_close k fd) in
      match rv with inl e => save_errno e | inr _ => ret tt end
    else undef
  else ret tt.

Definition couch_goto_eof (fd : Z) : M (os K) Z :=
  let* rv := syscall (fun k => sys_lseek_end k fd) in
  match rv with inl e => save_errno e ;; ret (-1) | inr p => ret p end.

Definition couch_sync (fuel : nat) (fd : Z) : M (os K) couchstore_error_t :=
  let* rv := retry fuel (fun k => sys_fdatasync k fd) in
  match rv with
  | inl e => save_errno e ;; ret COUCHSTORE_ERROR_WRITE
  | inr _ => ret COUCHSTORE_SUCCESS
  end.

Definition couch_constructor : Z := -1.

Definition couch_advise (fd offset len advice : Z) : M (os K) couchstore_error_t :=
  let* s := get in
  match sys_fadvise (os_kernel s) fd offset len advice with
  | Some (EINVAL | ESPIPE) => ret COUCHSTORE_ERROR_INVALID_ARGUMENTS
  | Some EBADF => ret COUCHSTORE_ERROR_OPEN_FILE
  | _ => ret COUCHSTORE_SUCCESS
  end.
End Ops.

(** ** What the kernel promises

    [k_contents k fd] is what the file holds that the descriptor stands for, or stood
    for when it was last open.  A call is
    interrupted before it has done anything, and [pending] bounds how many times
    that can still happen.  A failed call changes no file. *)
Class KernelLaws (K : Type) `{Kernel K} `{Faulty K} : Type := {
  k_contents : K -> Z -> bytes;
  pending : K -> nat;
  k_pread : forall k fd n off k' r, sys_pread k fd n off = (k', r) ->
    (forall fd, k_contents k' fd = k_contents k fd) /\
    match r with
    | inl EINTR => io_failed k' = io_failed k /\ (pending k' < pending k)%nat
    | inl _ => io_failed k' = true
    | inr bs => io_failed k' = io_failed k /\ (0 <= off -> bs = take n (drop (Z.to_nat off) (k_contents k fd)))
    end;
  k_pwrite : forall k fd bs off k' r, sys_pwrite k fd bs off = (k', r) ->
    match r with
    | inl EINTR => (forall fd, k_contents k' fd = k_contents k fd) /\ io_failed k' = io_failed k /\ (pending k' < pending k)%nat
    | inl _ => (forall fd, k_contents k' fd = k_contents k fd) /\ io_failed k' = true
    | inr n => io_failed k' = io_failed k /\ (n <= length bs)%nat /\ off + Z.of_nat n <= max_file_size /\
        (0 <= off -> bs <> [] -> (0 < n)%nat /\ k_contents k' fd = splice (k_contents k fd) (Z.to_nat off) (take n bs))
    end;
  k_fdatasync : forall k fd k' r, sys_fdatasync k fd = (k', r) ->
    (forall fd, k_contents k' fd = k_contents k fd) /\
    match r with
    | inl EINTR => io_failed k' = io_failed k /\ (pending k' < pending k)%nat
    | inl _ => io_failed k' = true
    | inr _ => io_failed k' = io_failed k
    end;
  k_close : forall k fd k' r, sys_close k fd = (k', r) ->
    (forall fd, k_contents k' fd = k_contents k fd) /\
    match r with
    | inl EINTR => io_failed k' = io_failed k /\ (pending k' < pending k)%nat
    | inl _ => io_failed k' = true
    | inr _ => io_failed k' = io_failed k
    end;
  k_lseek : forall k fd k' r, sys_lseek_end k fd = (k', r) ->
    (forall fd, k_contents k' fd = k_contents k fd) /\
    match r with
    | inl _ => io_failed k' = true
    | inr p => io_failed k' = io_failed k /\ p = blen (k_contents k fd)
    end
}.

Section Laws.
Context {K : Type} `{HK : Kernel K} `{HF : Faulty K} `{HL : !KernelLaws K}.

#[global] Instance os_Faulty : Faulty (os K) := fun s => io_failed (os_kernel s).

(** What an interrupted call leaves. *)
Definition untouched (k k' : K) : Prop := (forall fd, k_contents k' fd = k_contents k fd) /\ io_failed k' = io_failed k.

Definition interrupts {A} (call : K -> K * (errno + A)) : Prop :=
  forall k k', call k = (k', inl EINTR) -> untouched k k' /\ (pending k' < pending k)%nat.

Lemma pread_interrupts fd n off : interrupts (fun k => sys_pread k fd n off).
Proof. intros k k' E. by apply k_pread in E as (? & ? & ?). Qed.
Lemma pwrite_interrupts fd bs off : interrupts (fun k => sys_pwrite k fd bs off).
Proof. intros k k' E. by apply k_pwrite in E as (? & ? & ?). Qed.
Lemma fdatasync_interrupts fd : interrupts (fun k => sys_fdatasync k fd).
Proof. intros k k' E. by apply k_fdatasync in E as (? & ? & ?). Qed.
Lemma close_interrupts fd : interrupts (fun k => sys_close k fd).
Proof. intros k k' E. by apply k_close in E as (? & ? & ?). Qed.

(** The loop ends with the answer of the first call that is not interrupted. *)
Lemma retry_returns {A} (call : K -> K * (errno + A)) fuel s :
  interrupts call -> (pending (os_kernel s) < fuel)%nat ->
  exists k1 k2 r, untouched (os_kernel s) k1 /\ call k1 = (k2, r) /\ r <> inl EINTR /\
    retry fuel call s = Ret r {| os_kernel := k2; os_errno := os_errno s |}.
Proof.
  intros Hc. revert s. induction fuel as [|fuel IH]; intros [k e] Hp; cbn [os_kernel os_errno] in *; [lia|].
  cbn [retry]. unfold bind, syscall. cbn [os_kernel os_errno]. destruct (call k) as [k' r] eqn:E.
  assert (r <> inl EINTR -> exists k1 k2 r0, untouched k k1 /\ call k1 = (k2, r0) /\ r0 <> inl EINTR /\
    ret r {| os_kernel := k'; os_errno := e |} = Ret r0 {| os_kernel := k2; os_errno := e |}) as Hdone.
  { intros Hne. by exists k, k', r. }
  destruct r as [[]|a]; try (by apply Hdone). destruct (Hc _ _ E) as [[Hu1 Hu2] Hlt].
  destruct (IH {| os_kernel := k'; os_errno := e |}) as (k1 & k2 & r & [Hu3 Hu4] & E2 & Hne & ->); [cbn; lia|].
  exists k1, k2, r. split_and!; [|done..]. split; [intros fd; by rewrite Hu3, Hu1|cbn in Hu4; congruence].
Qed.


(** ** The table on an open file *)

Record os_file : Type := { of_os : os K; of_fd : Z }.
#[global] Instance os_file_Faulty : Faulty os_file := fun h => io_failed (of_os h).

(** An operation on the file, with fuel for the signals that may come. *)
Definition on_os {A} (h : os_file) (m : nat -> M (os K) A) (a : A) : os_file * A :=
  match m (S (pending (os_kernel (of_os h)))) (of_os h) with
  | Ret a s => ({| of_os := s; of_fd := of_fd h |}, a)
  | _ => (h, a)
  end.

#[global] Instance os_FileOps : FileOps os_file :=
  {| ops_pread h n off := on_os h (fun fuel => couch_pread fuel (of_fd h) n off) (Error COUCHSTORE_ERROR_READ);
     ops_pwrite h bs off := on_os h (fun fuel => couch_pwrite fuel (of_fd h) bs off) (Error COUCHSTORE_ERROR_WRITE);
     ops_goto_eof h := on_os h (fun _ => couch_goto_eof (of_fd h)) (-1);
     ops_sync h := on_os h (fun fuel => couch_sync fuel (of_fd h)) COUCHSTORE_ERROR_WRITE;
     ops_close h := (on_os h (fun fuel => couch_close fuel (of_fd h)) tt).1 |}.

Definition of_contents (h : os_file) : bytes := k_contents (os_kernel (of_os h)) (of_fd h).

(** A call on the file, run to its answer. *)
Lemma on_os_retry {A B} (h : os_file) (call : K -> K * (errno + A)) (k : errno + A -> M (os K) B) b :
  interrupts call ->
  exists k1 k2 r, untouched (os_kernel (of_os h)) k1 /\ call k1 = (k2, r) /\ r <> inl EINTR /\
    on_os h (fun fuel => let* rv := retry fuel call in k rv) b =
    match k r {| os_kernel := k2; os_errno := os_errno (of_os h) |} with
    | Ret a s => ({| of_os := s; of_fd := of_fd h |}, a)
    | _ => (h, b)
    end.
Proof.
  intros Hc. unfold on_os, bind.
  destruct (retry_returns call (S (pending (os_kernel (of_os h)))) (of_os h) Hc) as (k1 & k2 & r & Hu & E & Hne & ->); [lia|].
  by exists k1, k2, r.
Qed.

Lemma os_pread h n off h' r : ops_pread h n off = (h', r) ->
  of_contents h' = of_contents h /\
  match r with
  | Done bs => io_failed h' = io_failed h /\ (0 <= off -> bs = take n (drop (Z.to_nat off) (of_contents h)))
  | Error e => io_failed h' = true /\ e = COUCHSTORE_ERROR_READ
  end.
Proof.
  cbn [ops_pread os_FileOps]. unfold couch_pread. unfold of_contents.
  destruct (on_os_retry h _ (fun rv => match rv with inl e => save_errno e ;; ret (Error COUCHSTORE_ERROR_READ) | inr bs => ret (Done bs) end)
    (Error COUCHSTORE_ERROR_READ) (pread_interrupts (of_fd h) n off)) as (k1 & k2 & rv & [Hu1 Hu2] & E & Hne & ->).
  apply k_pread in E as [Hc Hr]. destruct rv as [e|bs]; cbn; intros [= <- <-]; cbn [of_os os_kernel of_fd]; rewrite Hc, Hu1.
  - split_and!; [done| |done]. by destruct e.
  - destruct Hr as [Hf Hb]. split_and!; [done| |]; [change (io_failed k2 = io_failed (os_kernel (of_os h))); congruence|].
    intros Ho. by rewrite Hb, Hu1.
Qed.

Lemma os_pwrite h bs off h' r : ops_pwrite h bs off = (h', r) ->
  match r with
  | Done k => io_failed h' = io_failed h /\ (k <= length bs)%nat /\ off + Z.of_nat k <= max_file_size /\
      (0 <= off -> bs <> [] -> (0 < k)%nat /\ of_contents h' = splice (of_contents h) (Z.to_nat off) (take k bs))
  | Error e => of_contents h' = of_contents h /\ io_failed h' = true /\ e = COUCHSTORE_ERROR_WRITE
  end.
Proof.
  cbn [ops_pwrite os_FileOps]. unfold couch_pwrite. unfold of_contents.
  destruct (on_os_retry h _ (fun rv => match rv with inl e => save_errno e ;; ret (Error COUCHSTORE_ERROR_WRITE) | inr n => ret (Done n) end)
    (Error COUCHSTORE_ERROR_WRITE) (pwrite_interrupts (of_fd h) bs off)) as (k1 & k2 & rv & [Hu1 Hu2] & E & Hne & ->).
  apply k_pwrite in E as Hr. destruct rv as [e|n]; cbn; intros [= <- <-]; cbn [of_os os_kernel of_fd].
  - assert ((forall fd, k_contents k2 fd = k_contents k1 fd) /\ io_failed k2 = true) as [-> Hf] by (by destruct e).
    by rewrite Hu1.
  - destruct Hr as (Hf & Hl & Hm & Hw). split_and!; [|done|done|].
    + change (io_failed k2 = io_failed (os_kernel (of_os h))). congruence.
    + intros Ho Hne'. rewrite <- Hu1. by apply Hw.
Qed.

Lemma os_sync h h' e : ops_sync h = (h', e) -> of_contents h' = of_contents h /\
  (e = COUCHSTORE_SUCCESS -> io_failed h' = io_failed h) /\ (e <> COUCHSTORE_SUCCESS -> io_failed h' = true).
Proof.
  cbn [ops_sync os_FileOps]. unfold couch_sync. unfold of_contents.
  destruct (on_os_retry h _ (fun rv => match rv with inl e => save_errno e ;; ret COUCHSTORE_ERROR_WRITE | inr _ => ret COUCHSTORE_SUCCESS end)
    COUCHSTORE_ERROR_WRITE (fdatasync_interrupts (of_fd h))) as (k1 & k2 & rv & [Hu1 Hu2] & E & Hne & ->).
  apply k_fdatasync in E as [Hc Hr]. destruct rv as [x|[]]; cbn; intros [= <- <-]; cbn [of_os os_kernel of_fd]; rewrite Hc, Hu1.
  - split_and!; [done|done|]. intros _. by destruct x.
  - split_and!; [done| |done]. intros _. change (io_failed k2 = io_failed (os_kernel (of_os h))). congruence.
Qed.

Lemma os_goto_eof h h' p : ops_goto_eof h = (h', p) -> of_contents h' = of_contents h /\
  (0 <= p -> p = blen (of_contents h) /\ io_failed h' = io_failed h) /\ (p < 0 -> io_failed h' = true).
Proof.
  cbn [ops_goto_eof os_FileOps]. unfold on_os, couch_goto_eof, bind, syscall, of_contents.
  destruct (sys_lseek_end _ _) as [k2 rv] eqn:E. apply k_lseek in E as [Hc Hr].
  destruct rv as [x|q]; cbn; intros [= <- <-]; cbn [of_os os_kernel of_fd]; rewrite Hc.
  - split_and!; [done|lia|done].
  - destruct Hr as [Hf ->]. pose proof (blen_nonneg (k_contents (os_kernel (of_os h)) (of_fd h))). split_and!; [done|done|lia].
Qed.

Lemma os_close h : of_contents (ops_close h) = of_contents h /\
  (io_failed (ops_close h) = true \/ io_failed (ops_close h) = io_failed h).
Proof.
  cbn [ops_close os_FileOps]. unfold couch_close. unfold of_contents. case_decide; [|by split; [|right]].
  case_decide; [|by split; [|right]].
  destruct (on_os_retry h _ (fun rv => match rv with inl e => save_errno e | inr _ => ret tt end)
    tt (close_interrupts (of_fd h))) as (k1 & k2 & rv & [Hu1 Hu2] & E & Hne & ->).
  apply k_close in E as [Hc Hr]. destruct rv as [x|[]]; cbn; rewrite Hc, Hu1; (split; [done|]).
  - left. change (io_failed k2 = true). by destruct x.
  - right. change (io_failed k2 = io_failed (os_kernel (of_os h))). congruence.
Qed.

#[global] Program Instance os_RawLaws : RawLaws os_file := {| raw_contents := of_contents |}.
Next Obligation.
  intros h n off h' r Ho E. apply os_pread in E as [Hc Hr]. split; [done|]. destruct r as [bs|e]; [naive_solver|].
  destruct Hr as [Hf ->]. done.
Qed.
Next Obligation.
  intros h n off Hf. destruct (ops_pread h n off) as [h' r] eqn:E. apply os_pread in E as [_ Hr]. cbn [fst].
  destruct r; destruct Hr as [Hr _]; congruence.
Qed.
Next Obligation.
  intros h bs off h' r Ho Hne E. apply os_pwrite in E. destruct r as [k|e].
  - destruct E as (Hf & Hl & Hm & Hw). destruct (Hw Ho Hne). split_and!; done.
  - destruct E as (Hc & Hf & ->). done.
Qed.
Next Obligation. intros h bs off h' k E. apply os_pwrite in E as (_ & Hl & Hm & _). done. Qed.
Next Obligation.
  intros h bs off Hf. destruct (ops_pwrite h bs off) as [h' r] eqn:E. apply os_pwrite in E. cbn [fst].
  destruct r; [destruct E as [Hr _]|destruct E as (_ & Hr & _)]; congruence.
Qed.
Next Obligation. intros h h' e E. by apply os_sync in E. Qed.
Next Obligation.
  intros h Hf. destruct (ops_sync h) as [h' e] eqn:E. apply os_sync in E as (_ & H1 & H2). cbn [fst].
  destruct (decide (e = COUCHSTORE_SUCCESS)); [rewrite H1|rewrite H2]; done.
Qed.
Next Obligation. intros h h' p E. by apply os_goto_eof in E. Qed.
Next Obligation.
  intros h Hf. destruct (ops_goto_eof h) as [h' p] eqn:E. apply os_goto_eof in E as (_ & H1 & H2). cbn [fst].
  destruct (Z_lt_le_dec p 0); [by apply H2|]. destruct H1 as [_ ->]; done.
Qed.
Next Obligation. apply os_close. Qed.
Next Obligation. intros h Hf. destruct (os_close h) as [_ [?| ->]]; done. Qed.
End Laws.

(** ** A kernel with one open file, which signals and faults reach as scheduled *)

Inductive event : Type := Signal | Fault | Quiet.

Record memkernel : Type := { mk_data : bytes; mk_events : list event; mk_failed : bool }.
#[global] Instance memkernel_Faulty : Faulty memkernel := mk_failed.

Definition mk_fd : Z := 3.
Definition mk_file (k : memkernel) (fd : Z) : bytes := if decide (fd = mk_fd) then mk_data k else [].

Definition mk_call {A} (k : memkernel) (signals : bool) (fd : Z) (f : memkernel -> memkernel * (errno + A)) : memkernel * (errno + A) :=
  let k' := {| mk_data := mk_data k; mk_events := tail (mk_events k); mk_failed := mk_failed k |} in
  let broken := {| mk_data := mk_data k; mk_events := tail (mk_events k); mk_failed := true |} in
  match head (mk_events k) with
  | Some Signal => if signals then (k', inl EINTR) else f k'
  | Some Fault => (broken, inl EOTHER)
  | _ => if decide (fd = mk_fd) then f k' else (broken, inl EBADF)
  end.

#[global] Instance memkernel_Kernel : Kernel memkernel :=
  {| sys_open k _ _ := mk_call k true mk_fd (fun k => (k, inr mk_fd));
     sys_close k fd := mk_call k true fd (fun k => (k, inr tt));
     sys_pread k fd n off := mk_call k true fd (fun k => (k, inr (take n (drop (Z.to_nat off) (mk_data k)))));
     sys_pwrite k fd bs off := mk_call k true fd (fun k =>
       if decide (off + blen bs <= max_file_size) then
         ({| mk_data := splice (mk_data k) (Z.to_nat off) bs; mk_events := mk_events k; mk_failed := mk_failed k |}, inr (length bs))
       else ({| mk_data := mk_data k; mk_events := mk_events k; mk_failed := true |}, inl EOTHER));
     sys_lseek_end k fd := mk_call k false fd (fun k => (k, inr (blen (mk_file k fd))));
     sys_fdatasync k fd := mk_call k true fd (fun k => (k, inr tt));
     sys_fadvise _ fd _ _ _ := if decide (fd = mk_fd) then None else Some EBADF |}.

Ltac mk_open k :=
  cbn; unfold mk_call, mk_file;
  destruct k as [? [|[] ?] ?]; cbn; repeat case_decide; subst; intros [= <- <-]; cbn; repeat split; try done; try lia.

#[global] Program Instance memkernel_KernelLaws : KernelLaws memkernel :=
  {| k_contents := mk_file; pending k := length (mk_events k) |}.
Next Obligation. intros k fd n off k' r. mk_open k. Qed.
Next Obligation. intros k fd bs off k' r. mk_open k; solve [by rewrite take_ge|by destruct bs; [|cbn; lia]]. Qed.
Next Obligation. intros k fd k' r. mk_open k. Qed.
Next Obligation. intros k fd k' r. mk_open k. Qed.
Next Obligation. intros k fd k' r. mk_open k. Qed.

Definition sample_kernel : os memkernel :=
  {| os_kernel := {| mk_data := [Byte.x61; Byte.x62; Byte.x63]; mk_events := [Signal; Signal]; mk_failed := false |};
     os_errno := None |}.

