(* ===== verification/CNumbers.v ===== *)
(** * CNumbers: numbers as text in the C library

    What collate_json.c and json_reduce.c use of the C library: strtod and strtoull,
    in the C locale, and sprintf of %llu and %.15lg.  A double is a [spec_float] of
    the Standard Library with the parameters of binary64, and a conversion rounds to
    the nearest one.  A string is the memory from its first byte on; a function that
    would look past it is undefined ([None]). *)

From Stdlib Require Import ZArith Lia Floats.SpecFloat.
From S2P Require Import Prelude.
From stdpp Require Import list numbers.

#[local] Open Scope Z_scope.

(** ** Doubles *)

Definition double : Type := spec_float.
Definition dbl_zero : double := S754_zero false.
Definition dbl_add : double -> double -> double := SFadd 53 1024.
Definition dbl_mul : double -> double -> double := SFmul 53 1024.
(** The operators [<] and [>] of C. *)
Definition dbl_lt (x y : double) : bool := SFltb x y.
Definition dbl_gt (x y : double) : bool := SFltb y x.

(** The double nearest to [m * 10 ^ e], with a sign. *)
Definition double_of_decimal (neg : bool) (m e : Z) : double :=
  match m with
  | Z.pos p =>
      if decide (0 <= e) then binary_round 53 1024 neg (Z.to_pos (m * 10 ^ e)) 0
      else let '(q, e', l) := SFdiv_core_binary 53 1024 m 0 (10 ^ (- e)) 0 in binary_round_aux 53 1024 neg q e' l
  | _ => S754_zero neg
  end.

(** The double nearest to [m * 2 ^ e]. *)
Definition double_of_binary (neg : bool) (m e : Z) : double :=
  match m with Z.pos p => binary_round 53 1024 neg p e | _ => S754_zero neg end.

(** ** Characters *)

Definition isspace (c : byte) : bool :=
  match c with Byte.x20 | Byte.x09 | Byte.x0a | Byte.x0b | Byte.x0c | Byte.x0d => true | _ => false end.

Definition digit (c : byte) : option Z :=
  let z := b2z c in if decide (48 <= z <= 57) then Some (z - 48) else None.
Definition hex_digit (c : byte) : option Z :=
  let z := b2z c in
  if decide (48 <= z <= 57) then Some (z - 48)
  else if decide (97 <= z <= 102) then Some (z - 87)
  else if decide (65 <= z <= 70) then Some (z - 55)
  else None.

Definition tolower (c : byte) : byte := let z := b2z c in if decide (65 <= z <= 90) then z2b (z + 32) else c.

Fixpoint skip_spaces (s : bytes) : option bytes :=
  match s with
  | [] => None
  | c :: s' => if isspace c then skip_spaces s' else Some s
  end.

(** An optional sign: whether it is a minus, and what follows. *)
Definition scan_sign (s : bytes) : option (bool * bytes) :=
  match s with
  | [] => None
  | Byte.x2d :: s' => Some (true, s')
  | Byte.x2b :: s' => Some (false, s')
  | _ => Some (false, s)
  end.

(** The longest run of digits, and what follows. *)
Fixpoint scan_digits (value : byte -> option Z) (s : bytes) : option (list Z * bytes) :=
  match s with
  | [] => None
  | c :: s' =>
      match value c with
      | Some d => '(ds, r) ← scan_digits value s'; Some (d :: ds, r)
      | None => Some ([], s)
      end
  end.

Definition digits_value (base : Z) (ds : list Z) : Z := foldl (fun a d => a * base + d) 0 ds.

(** [Some (Some r)] when [s] starts with the word, in either case of letters. *)
Fixpoint scan_word (w s : bytes) : option (option bytes) :=
  match w with
  | [] => Some (Some s)
  | a :: w' =>
      match s with
      | [] => None
      | c :: s' => if decide (tolower c = a) then scan_word w' s' else Some None
      end
  end.

(** An exponent after the letter [e] ([e] or [p], in either case); when no digit
    follows, the letter is not part of the number. *)
Definition scan_exponent (e : byte) (s : bytes) : option (Z * bytes) :=
  match s with
  | [] => None
  | c :: s' =>
      if decide (tolower c = e) then
        '(neg, r) ← scan_sign s';
        '(ds, r) ← scan_digits digit r;
        match ds with
        | [] => Some (0, s)
        | _ => let n := digits_value 10 ds in Some ((if neg : bool then - n else n), r)
        end
      else Some (0, s)
  end.

(** Digits with an optional point; [None] inside when there are no digits. *)
Definition scan_mantissa (value : byte -> option Z) (s : bytes) : option (option (list Z * list Z * bytes)) :=
  '(ip, r) ← scan_digits value s;
  '(fp, r) ← match r with
             | Byte.x2e :: r' => scan_digits value r'
             | _ => Some ([], r)
             end;
  match ip, fp with
  | [], [] => Some None
  | _, _ => Some (Some (ip, fp, r))
  end.

(** ** strtod *)

Definition scan_decimal (neg : bool) (s : bytes) : option (option (double * bytes)) :=
  m ← scan_mantissa digit s;
  match m with
  | None => Some None
  | Some (ip, fp, r) =>
      '(e, r) ← scan_exponent Byte.x65 r;
      Some (Some (double_of_decimal neg (digits_value 10 (ip ++ fp)) (e - Z.of_nat (length fp)), r))
  end.

Definition scan_hex (neg : bool) (s : bytes) : option (option (double * bytes)) :=
  m ← scan_mantissa hex_digit s;
  match m with
  | None => Some None
  | Some (ip, fp, r) =>
      '(e, r) ← scan_exponent Byte.x70 r;
      Some (Some (double_of_binary neg (digits_value 16 (ip ++ fp)) (e - 4 * Z.of_nat (length fp)), r))
  end.

(** The characters between the parentheses after nan. *)
Fixpoint scan_payload (s : bytes) : option (option bytes) :=
  match s with
  | [] => None
  | c :: s' =>
      let z := b2z c in
      if decide (c = Byte.x29) then Some (Some s')
      else if decide (48 <= z <= 57 \/ 65 <= z <= 90 \/ 97 <= z <= 122 \/ z = 95) then scan_payload s'
      else Some None
  end.

Definition scan_special (neg : bool) (s : bytes) : option (option (double * bytes)) :=
  w ← scan_word [Byte.x69; Byte.x6e; Byte.x66] s;
  match w with
  | Some r =>
      w ← scan_word [Byte.x69; Byte.x6e; Byte.x69; Byte.x74; Byte.x79] r;
      Some (Some (S754_infinity neg, default r w))
  | None =>
      w ← scan_word [Byte.x6e; Byte.x61; Byte.x6e] s;
      match w with
      | Some r =>
          match r with
          | [] => None
          | Byte.x28 :: r' => p ← scan_payload r'; Some (Some (S754_nan, default r p))
          | _ => Some (Some (S754_nan, r))
          end
      | None => Some None
      end
  end.

(** The number at the start of [s], and where it ends; zero and [s] itself when
    there is none. *)
Definition strtod (s : bytes) : option (double * bytes) :=
  r ← skip_spaces s;
  '(neg, r) ← scan_sign r;
  n ← match r with
      | [] => None
      | Byte.x30 :: ((Byte.x78 | Byte.x58) :: r') =>
          h ← scan_hex neg r';
          match h with Some n => Some (Some n) | None => Some (Some (S754_zero neg, tail r)) end
      | c :: _ => if decide (digit c <> None \/ c = Byte.x2e) then scan_decimal neg r else scan_special neg r
      end;
  Some (default (dbl_zero, s) n).

(** ** strtoull, in base 10 *)

Definition strtoull (s : bytes) : option (Z * bytes) :=
  r ← skip_spaces s;
  '(neg, r) ← scan_sign r;
  '(ds, r) ← scan_digits digit r;
  match ds with
  | [] => Some (0, s)
  | _ =>
      let n := digits_value 10 ds in
      Some (if decide (2 ^ 64 <= n) then 2 ^ 64 - 1 else if neg : bool then u64 (- n) else n, r)
  end.

(** ** sprintf *)

(** The decimal digits of a number, without leading zeros. *)
Fixpoint dec_digits_rev (fuel : nat) (n : Z) : list Z :=
  match fuel with
  | O => []
  | S fuel => if decide (n <= 0) then [] else n mod 10 :: dec_digits_rev fuel (n / 10)
  end.
Definition dec_digits (n : Z) : list Z := rev (dec_digits_rev (S (Z.to_nat (Z.log2 n))) n).

Definition digit_char (d : Z) : byte := z2b (48 + d).

(** %llu. *)
Definition print_llu (n : Z) : bytes := if decide (n = 0) then [Byte.x30] else map digit_char (dec_digits n).

(** [num / den] rounded to the nearest integer, to even when halfway. *)
Definition round_div (num den : Z) : Z :=
  let q := num / den in
  let r := num mod den in
  if decide (2 * r < den) then q else if decide (den < 2 * r) then q + 1 else if Z.even q then q else q + 1.

(** The exponent of the leading decimal digit of [num / den]. *)
Definition leading_exponent (num den : Z) : Z :=
  if decide (den <= num) then Z.of_nat (length (dec_digits (num / den))) - 1
  else - Z.of_nat (length (dec_digits ((den - 1) / num))).

Fixpoint strip_zeros_rev (ds : list Z) : list Z :=
  match ds with 0 :: ds' => strip_zeros_rev ds' | _ => ds end.
Definition strip_zeros (ds : list Z) : list Z := rev (strip_zeros_rev (rev ds)).

Definition with_point (ip fp : list Z) : bytes :=
  map digit_char ip ++ match fp with [] => [] | _ => Byte.x2e :: map digit_char fp end.

(** Two digits of the exponent at least. *)
Definition print_exponent (x : Z) : bytes :=
  let ds := dec_digits (Z.abs x) in
  Byte.x65 :: (if decide (x < 0) then Byte.x2d else Byte.x2b) :: map digit_char (replicate (2 - length ds) 0 ++ ds).

(** The 15 digits [ds] with the exponent [x] of the first, as %.15lg prints them. *)
Definition print_g (ds : list Z) (x : Z) : bytes :=
  if decide (x < -4 \/ 15 <= x) then
    with_point (take 1 ds) (strip_zeros (drop 1 ds)) ++ print_exponent x
  else if decide (0 <= x) then
    with_point (take (Z.to_nat (x + 1)) ds) (strip_zeros (drop (Z.to_nat (x + 1)) ds))
  else with_point [0] (replicate (Z.to_nat (- x - 1)) 0 ++ strip_zeros ds).

(** %.15lg.  The text of a NaN depends on the implementation. *)
Definition print_lg (d : double) : option bytes :=
  let sign (s : bool) := if s then [Byte.x2d] else [] in
  match d with
  | S754_nan => None
  | S754_infinity s => Some (sign s ++ [Byte.x69; Byte.x6e; Byte.x66])
  | S754_zero s => Some (sign s ++ [Byte.x30])
  | S754_finite s m e =>
      let num := Z.pos m * 2 ^ Z.max 0 e in
      let den := 2 ^ Z.max 0 (- e) in
      let x := leading_exponent num den in
      let r := round_div (num * 10 ^ Z.max 0 (14 - x)) (den * 10 ^ Z.max 0 (x - 14)) in
      Some (sign s ++ if decide (r = 10 ^ 15) then print_g (dec_digits (10 ^ 14)) (x + 1) else print_g (dec_digits r) x)
  end.

(** ** Reading back what was printed *)

Lemma digits_value_snoc base ds d : digits_value base (ds ++ [d]) = digits_value base ds * base + d.
Proof. unfold digits_value. by rewrite foldl_app. Qed.

Lemma dec_digits_rev_value fuel n : 0 <= n < 10 ^ Z.of_nat fuel ->
  digits_value 10 (rev (dec_digits_rev fuel n)) = n /\ Forall (fun d => 0 <= d < 10) (dec_digits_rev fuel n).
Proof.
  revert n. induction fuel as [|fuel IH]; intros n Hn.
  { cbn [dec_digits_rev]. split; [|constructor]. unfold digits_value. cbn in *. lia. }
  cbn [dec_digits_rev]. case_decide as Hz; [split; [unfold digits_value; cbn; lia|constructor]|].
  replace (Z.of_nat (S fuel)) with (Z.of_nat fuel + 1) in Hn by lia. rewrite Z.pow_add_r in Hn by lia.
  pose proof (Z.mod_pos_bound n 10 ltac:(lia)) as Hm. pose proof (Z.div_mod n 10 ltac:(lia)) as Hd.
  destruct (IH (n / 10)) as [Hv Hf]; [lia|]. split; [|by constructor].
  cbn [rev]. rewrite digits_value_snoc, Hv. lia.
Qed.

Lemma dec_digits_value n : 0 < n -> digits_value 10 (dec_digits n) = n /\ Forall (fun d => 0 <= d < 10) (dec_digits n).
Proof.
  intros Hn. unfold dec_digits. destruct (dec_digits_rev_value (S (Z.to_nat (Z.log2 n))) n) as [Hv Hf].
  - pose proof (Z.log2_spec n Hn) as [_ Hl]. pose proof (Z.log2_nonneg n).
    replace (Z.of_nat (S (Z.to_nat (Z.log2 n)))) with (Z.succ (Z.log2 n)) by lia.
    pose proof (Z.pow_le_mono_l 2 10 (Z.succ (Z.log2 n)) ltac:(lia)). lia.
  - split; [done|]. by apply Forall_rev.
Qed.

Lemma digit_char_digit d : 0 <= d < 10 -> digit (digit_char d) = Some d.
Proof.
  intros Hd. unfold digit, digit_char. rewrite b2z_z2b, Z.mod_small by lia. rewrite decide_True by lia. f_equal. lia.
Qed.

Lemma digit_char_start d : 0 <= d < 10 -> isspace (digit_char d) = false /\
  scan_sign [digit_char d] = Some (false, [digit_char d]).
Proof.
  intros Hd. assert (d = 0 \/ d = 1 \/ d = 2 \/ d = 3 \/ d = 4 \/ d = 5 \/ d = 6 \/ d = 7 \/ d = 8 \/ d = 9) as Hc by lia.
  destruct_or! Hc; by subst.
Qed.

Lemma scan_sign_digit d s : 0 <= d < 10 -> scan_sign (digit_char d :: s) = Some (false, digit_char d :: s).
Proof.
  intros Hd. assert (d = 0 \/ d = 1 \/ d = 2 \/ d = 3 \/ d = 4 \/ d = 5 \/ d = 6 \/ d = 7 \/ d = 8 \/ d = 9) as Hc by lia.
  destruct_or! Hc; by subst.
Qed.

Lemma scan_digits_chars value ds c r :
  Forall (fun d => value (digit_char d) = Some d) ds -> value c = None ->
  scan_digits value (map digit_char ds ++ c :: r) = Some (ds, c :: r).
Proof.
  intros Hds Hc. induction Hds as [|d ds Hd _ IH]; cbn [map app scan_digits]; [by rewrite Hc|]. by rewrite Hd, IH.
Qed.

Lemma print_llu_digits n : 0 <= n ->
  exists d ds, print_llu n = map digit_char (d :: ds) /\ Forall (fun d => 0 <= d < 10) (d :: ds) /\ digits_value 10 (d :: ds) = n.
Proof.
  intros Hn. unfold print_llu. case_decide as Hz; [exists 0, []; subst; by repeat constructor|].
  destruct (dec_digits_value n) as [Hv Hf]; [lia|]. destruct (dec_digits n) as [|d ds]; [unfold digits_value in Hv; cbn in Hv; lia|].
  by exists d, ds.
Qed.

(** strtoull reads back what %llu printed. *)
Lemma strtoull_print n c r : 0 <= n < 2 ^ 64 -> digit c = None -> strtoull (print_llu n ++ c :: r) = Some (n, c :: r).
Proof.
  intros Hn Hc. destruct (print_llu_digits n) as (d & ds & -> & Hf & Hv); [lia|]. unfold strtoull.
  pose proof Hf as [Hd _]%list.Forall_cons. destruct (digit_char_start d Hd) as [Hs _].
  cbn [map app skip_spaces]. rewrite Hs. cbn [mbind option_bind]. rewrite (scan_sign_digit d) by done. cbn [mbind option_bind].
  change (digit_char d :: map digit_char ds ++ c :: r) with (map digit_char (d :: ds) ++ c :: r).
  rewrite scan_digits_chars by (done || (eapply List.Forall_impl; [|exact Hf]; intros; by apply digit_char_digit)).
  cbn [mbind option_bind]. rewrite Hv, decide_False by lia. done.
Qed.

(** ** Terminated strings

    The scans stop at the terminator at the latest: on a terminated string they
    return, and what they leave is terminated. *)
Definition terminated (s : bytes) : Prop := Byte.x00 ∈ s.

Definition scans {A} (m : option (A * bytes)) : Prop := exists a r, m = Some (a, r) /\ terminated r.
Definition scans_opt {A} (m : option (option (A * bytes))) : Prop := m = Some None \/ exists a r, m = Some (Some (a, r)) /\ terminated r.

Lemma terminated_cons c s : terminated (c :: s) -> c <> Byte.x00 -> terminated s.
Proof. unfold terminated. intros [<-|?]%elem_of_cons; done. Qed.

Lemma skip_spaces_ends s : terminated s -> exists r, skip_spaces s = Some r /\ terminated r.
Proof.
  induction s as [|c s IH]; intros Hs; [by apply not_elem_of_nil in Hs|]. cbn. destruct (isspace c) eqn:E; [|eauto].
  apply IH, (terminated_cons c); [done|]. by intros ->.
Qed.

Lemma scan_sign_ends s : terminated s -> scans (scan_sign s).
Proof.
  destruct s as [|c s]; intros Hs; [by apply not_elem_of_nil in Hs|].
  destruct c; do 2 eexists; (split; [done|]); first [done|by apply terminated_cons in Hs].
Qed.

Lemma scan_digits_ends value s : value Byte.x00 = None -> terminated s -> scans (scan_digits value s).
Proof.
  intros Hv. induction s as [|c s IH]; intros Hs; [by apply not_elem_of_nil in Hs|]. cbn. destruct (value c) as [d|] eqn:E.
  - destruct IH as (ds & r & -> & Hr); [|by do 2 eexists]. apply (terminated_cons c); [done|]. intros ->. congruence.
  - by do 2 eexists.
Qed.

Lemma scan_word_ends w s : Forall (fun a => a <> Byte.x00) w -> terminated s ->
  scan_word w s = Some None \/ exists r, scan_word w s = Some (Some r) /\ terminated r.
Proof.
  revert s. induction w as [|a w IH]; intros s Hw Hs; cbn; [eauto|]. apply list.Forall_cons in Hw as [Ha Hw].
  destruct s as [|c s]; [by apply not_elem_of_nil in Hs|]. case_decide as E; [|by left].
  apply IH; [done|]. apply (terminated_cons c); [done|]. intros ->. by apply Ha.
Qed.

Lemma scan_exponent_ends e s : e <> Byte.x00 -> terminated s -> scans (scan_exponent e s).
Proof.
  intros He Hs. destruct s as [|c s]; [by apply not_elem_of_nil in Hs|]. cbn [scan_exponent].
  case_decide as E; [|by do 2 eexists].
  assert (c <> Byte.x00) as Hc by (intros ->; by apply He).
  destruct (scan_sign_ends s) as (neg & r & -> & Hr); [by eapply terminated_cons|]. cbn [mbind option_bind].
  destruct (scan_digits_ends digit r) as (ds & r' & -> & Hr'); [done|done|]. cbn [mbind option_bind].
  destruct ds; by do 2 eexists.
Qed.

Lemma scan_mantissa_ends value s : value Byte.x00 = None -> terminated s -> scans_opt (scan_mantissa value s).
Proof.
  intros Hv Hs. unfold scan_mantissa. destruct (scan_digits_ends value s) as (ip & r & -> & Hr); [done|done|]. cbn [mbind option_bind].
  assert (scans (match r with Byte.x2e :: r' => scan_digits value r' | _ => Some ([], r) end)) as (fp & r' & -> & Hr').
  { destruct r as [|c r]; [by do 2 eexists|].
    destruct c; try (by do 2 eexists). apply scan_digits_ends; [done|]. by apply terminated_cons in Hr. }
  cbn [mbind option_bind]. destruct ip, fp; [by left|..]; right; by do 2 eexists.
Qed.

Lemma scan_decimal_ends neg s : terminated s -> scans_opt (scan_decimal neg s).
Proof.
  intros Hs. unfold scan_decimal. destruct (scan_mantissa_ends digit s) as [->|([ip fp] & r & -> & Hr)]; [done|done|by left|].
  cbn [mbind option_bind]. destruct (scan_exponent_ends Byte.x65 r) as (e & r' & -> & Hr'); [done|done|]. right. by do 2 eexists.
Qed.

Lemma scan_hex_ends neg s : terminated s -> scans_opt (scan_hex neg s).
Proof.
  intros Hs. unfold scan_hex. destruct (scan_mantissa_ends hex_digit s) as [->|([ip fp] & r & -> & Hr)]; [done|done|by left|].
  cbn [mbind option_bind]. destruct (scan_exponent_ends Byte.x70 r) as (e & r' & -> & Hr'); [done|done|]. right. by do 2 eexists.
Qed.

Lemma scan_payload_ends s : terminated s -> scan_payload s = Some None \/ exists r, scan_payload s = Some (Some r) /\ terminated r.
Proof.
  induction s as [|c s IH]; intros Hs; [by apply not_elem_of_nil in Hs|]. cbn [scan_payload].
  case_decide as H1; [right; eexists; split; [done|]; subst; by apply terminated_cons in Hs|].
  case_decide as H2; [|by left]. apply IH, (terminated_cons c); [done|]. intros ->. change (b2z Byte.x00) with 0 in H2. lia.
Qed.

Lemma scan_special_ends neg s : terminated s -> scans_opt (scan_special neg s).
Proof.
  intros Hs. unfold scan_special.
  destruct (scan_word_ends [Byte.x69; Byte.x6e; Byte.x66] s) as [->|(r & -> & Hr)]; [by repeat constructor|done| |]; cbn [mbind option_bind].
  - destruct (scan_word_ends [Byte.x6e; Byte.x61; Byte.x6e] s) as [->|(r & -> & Hr)]; [by repeat constructor|done|by left|]. cbn [mbind option_bind].
    destruct r as [|c r]; [by apply not_elem_of_nil in Hr|]. right.
    destruct c; try (by do 2 eexists). destruct (scan_payload_ends r) as [->|(r' & -> & Hr')];
      [by apply terminated_cons in Hr|by do 2 eexists..].
  - destruct (scan_word_ends [Byte.x69; Byte.x6e; Byte.x69; Byte.x74; Byte.x79] r) as [->|(r' & -> & Hr')];
      [by repeat constructor|done|right; by do 2 eexists..].
Qed.

(** strtod returns on every terminated string. *)
Lemma strtod_ends s : terminated s -> scans (strtod s).
Proof.
  intros Hs. unfold strtod. destruct (skip_spaces_ends s Hs) as (r & -> & Hr). cbn [mbind option_bind].
  destruct (scan_sign_ends r Hr) as (neg & r1 & -> & Hr1). cbn [mbind option_bind].
  assert (forall m : option (option (double * bytes)), scans_opt m -> scans (n ← m; Some (default (dbl_zero, s) n))) as Hm
    by (intros m [->|(d & r' & -> & Hr')]; by do 2 eexists).
  apply Hm. destruct r1 as [|c r1]; [by apply not_elem_of_nil in Hr1|].
  assert (scans_opt (if decide (digit c <> None \/ c = Byte.x2e) then scan_decimal neg (c :: r1) else scan_special neg (c :: r1))) as Hd
    by (case_decide; [by apply scan_decimal_ends|by apply scan_special_ends]).
  destruct c; try exact Hd. destruct r1 as [|c' r1]; [exact Hd|].
  assert (terminated (c' :: r1)) as Hr2 by (by apply terminated_cons in Hr1).
  destruct c'; try exact Hd; (destruct (scan_hex_ends neg r1) as [->|(d & r' & -> & Hr')];
    [by apply terminated_cons in Hr2|right; by do 2 eexists..]).
Qed.
