(* ===== verification/JsonText.v ===== *)
(** * JsonText: JSON values and their texts

    JSON values as a type, with numbers and strings as they are written, and the text
    of a value without white space.  strtod reads the text of a number to its end. *)

From Stdlib Require Import ZArith Lia Floats.SpecFloat.
From S2P Require Import Prelude CNumbers.
From stdpp Require Import list numbers.

#[local] Open Scope Z_scope.

(** ** Values *)

(** A character of a string: itself, after a backslash, or four hexadecimal digits. *)
Inductive jchar : Type :=
| JPlain (c : byte)
| JEscape (c : byte)
| JUnicode (d0 d1 d2 d3 : byte).

Definition jstring : Type := list jchar.

(** A number as it is written; the digits of the three parts are numbers below 10.
    The sign of the exponent is a minus ([Some true]), a plus or absent. *)
Record jexp : Type := { je_letter : byte; je_sign : option bool; je_digits : list Z }.
Record jnumber : Type := {
  jn_neg : bool;
  jn_int : list Z;
  jn_frac : list Z;
  jn_exp : option jexp
}.

Inductive json : Type :=
| JNull
| JFalse
| JTrue
| JNumber (n : jnumber)
| JString (s : jstring)
| JArray (l : list json)
| JObject (l : list (jstring * json)).

(** Induction with a hypothesis for every value inside. *)
Lemma json_induction (P : json -> Prop) :
  P JNull -> P JFalse -> P JTrue -> (forall n, P (JNumber n)) -> (forall s, P (JString s)) ->
  (forall l, Forall P l -> P (JArray l)) -> (forall l, Forall (fun kv => P kv.2) l -> P (JObject l)) -> forall v, P v.
Proof.
  intros H1 H2 H3 H4 H5 H6 H7. fix IH 1. intros [| | |n|s|l|l]; [done..|apply H4|apply H5|apply H6|apply H7].
  - induction l as [|v l IHl]; constructor; [apply IH|done].
  - induction l as [|[k v] l IHl]; constructor; [apply IH|done].
Qed.

(** ** Well-formed values *)

Definition jchar_ok (c : jchar) : Prop :=
  match c with
  | JPlain c => c <> Byte.x22 /\ c <> Byte.x5c
  | JEscape c => c <> Byte.x75
  | JUnicode d0 d1 d2 d3 => Forall (fun d => hex_digit d <> None) [d0; d1; d2; d3]
  end.

Definition digits_ok (ds : list Z) : Prop := Forall (fun d => 0 <= d < 10) ds.

Definition exp_ok (e : option jexp) : Prop :=
  match e with
  | Some e => tolower (je_letter e) = Byte.x65 /\ digits_ok (je_digits e) /\ je_digits e <> []
  | None => True
  end.

Record jnumber_ok (n : jnumber) : Prop := {
  jo_int : digits_ok (jn_int n) /\ jn_int n <> [];
  jo_frac : digits_ok (jn_frac n);
  jo_exp : exp_ok (jn_exp n)
}.

Fixpoint json_ok (v : json) : Prop :=
  match v with
  | JNull | JFalse | JTrue => True
  | JNumber n => jnumber_ok n
  | JString s => Forall jchar_ok s
  | JArray l => foldr (fun v P => json_ok v /\ P) True l
  | JObject l => foldr (fun kv P => (Forall jchar_ok kv.1 /\ json_ok kv.2) /\ P) True l
  end.

(** ** Texts *)

Definition print_char (c : jchar) : bytes :=
  match c with
  | JPlain c => [c]
  | JEscape c => [Byte.x5c; c]
  | JUnicode d0 d1 d2 d3 => [Byte.x5c; Byte.x75; d0; d1; d2; d3]
  end.

Definition print_string (s : jstring) : bytes := Byte.x22 :: concat (map print_char s) ++ [Byte.x22].

Definition print_exp (e : option jexp) : bytes :=
  match e with
  | None => []
  | Some e =>
      je_letter e :: match je_sign e with Some true => [Byte.x2d] | Some false => [Byte.x2b] | None => [] end ++
      map digit_char (je_digits e)
  end.

Definition print_number (n : jnumber) : bytes :=
  (if jn_neg n then [Byte.x2d] else []) ++ map digit_char (jn_int n) ++
  match jn_frac n with [] => [] | _ => Byte.x2e :: map digit_char (jn_frac n) end ++ print_exp (jn_exp n).

(** The items of a list, each after a comma but the first, and the closing bracket. *)
Definition print_tail {A} (print : A -> bytes) (close : byte) (l : list A) : bytes :=
  concat (map (fun x => Byte.x2c :: print x) l) ++ [close].
Definition print_items {A} (print : A -> bytes) (close : byte) (l : list A) : bytes :=
  match l with [] => [close] | x :: l => print x ++ print_tail print close l end.

Fixpoint print (v : json) : bytes :=
  match v with
  | JNull => [Byte.x6e; Byte.x75; Byte.x6c; Byte.x6c]
  | JFalse => [Byte.x66; Byte.x61; Byte.x6c; Byte.x73; Byte.x65]
  | JTrue => [Byte.x74; Byte.x72; Byte.x75; Byte.x65]
  | JNumber n => print_number n
  | JString s => print_string s
  | JArray l => Byte.x5b :: print_items print Byte.x5d l
  | JObject l => Byte.x7b :: print_items (fun kv => print_string kv.1 ++ Byte.x3a :: print kv.2) Byte.x7d l
  end.

(** ** What texts stand for *)

Definition decode_char (c : jchar) : byte :=
  match c with
  | JPlain c => c
  | JEscape Byte.x62 => Byte.x08
  | JEscape Byte.x6e => Byte.x0a
  | JEscape Byte.x72 => Byte.x0d
  | JEscape Byte.x74 => Byte.x09
  | JEscape c => c
  | JUnicode d0 d1 d2 d3 =>
      let v d := default 0 (hex_digit d) in z2b (v d0 * 4096 + v d1 * 256 + v d2 * 16 + v d3)
  end.

Definition exp_value (e : option jexp) : Z :=
  match e with
  | None => 0
  | Some e => let n := digits_value 10 (je_digits e) in match je_sign e with Some true => - n | _ => n end
  end.

Definition jn_value (n : jnumber) : double :=
  double_of_decimal (jn_neg n) (digits_value 10 (jn_int n ++ jn_frac n)) (exp_value (jn_exp n) - Z.of_nat (length (jn_frac n))).

(** ** Reading numbers *)

(** What may follow a value inside another one, or a number that was copied. *)
Definition delimiter (c : byte) : Prop := c = Byte.x2c \/ c = Byte.x5d \/ c = Byte.x7d \/ c = Byte.x00.

Lemma digits_scan ds c r : digits_ok ds -> digit c = None -> scan_digits digit (map digit_char ds ++ c :: r) = Some (ds, c :: r).
Proof.
  intros Hd Hc. apply scan_digits_chars; [|done]. eapply List.Forall_impl; [|exact Hd]. intros d ?. by apply digit_char_digit.
Qed.

Lemma letter_e c : tolower c = Byte.x65 -> digit c = None /\ c <> Byte.x2e /\ c <> Byte.x78 /\ c <> Byte.x58.
Proof. destruct c; by vm_compute. Qed.

Lemma digit_char_cases d : 0 <= d < 10 ->
  digit_char d = Byte.x30 \/ (digit_char d <> Byte.x30 /\ digit_char d <> Byte.x2e /\ digit_char d <> Byte.x2d /\ digit_char d <> Byte.x2b).
Proof.
  intros Hd. assert (d = 0 \/ d = 1 \/ d = 2 \/ d = 3 \/ d = 4 \/ d = 5 \/ d = 6 \/ d = 7 \/ d = 8 \/ d = 9) as Hc by lia.
  destruct_or! Hc; subst; (by left) || (right; by vm_compute).
Qed.

Lemma scan_print_exp e c r : exp_ok e -> delimiter c ->
  scan_exponent Byte.x65 (print_exp e ++ c :: r) = Some (exp_value e, c :: r).
Proof.
  intros He Hc. assert (digit c = None /\ tolower c <> Byte.x65) as [Hc1 Hc2] by (destruct Hc as [->|[->|[->| ->]]]; done).
  destruct e as [[l sg ds]|]; cbn [print_exp exp_value exp_ok je_letter je_sign je_digits] in *.
  - destruct He as (Hl & Hd & Hne). destruct ds as [|d ds]; [done|]. cbn [app scan_exponent]. rewrite decide_True by done.
    pose proof Hd as [Hd0 _]%list.Forall_cons.
    assert (scan_sign ((match sg with Some true => [Byte.x2d] | Some false => [Byte.x2b] | None => [] end ++ map digit_char (d :: ds)) ++ c :: r)
      = Some (bool_decide (sg = Some true), map digit_char (d :: ds) ++ c :: r)) as ->.
    { destruct sg as [[]|]; cbn [app map]; [done|done|by apply scan_sign_digit]. }
    cbn [mbind option_bind]. rewrite digits_scan by done. cbn [mbind option_bind]. by destruct sg as [[]|].
  - cbn [app scan_exponent]. by rewrite decide_False.
Qed.

Lemma strtod_number (neg : bool) c s : digit c <> None -> head s <> Some Byte.x78 -> head s <> Some Byte.x58 ->
  strtod ((if neg : bool then [Byte.x2d] else []) ++ c :: s) =
    n ← scan_decimal neg (c :: s); Some (default (dbl_zero, (if neg : bool then [Byte.x2d] else []) ++ c :: s) n).
Proof.
  intros Hc H1 H2. unfold strtod.
  destruct c; try (by destruct Hc); destruct neg; cbn [app skip_spaces isspace mbind option_bind scan_sign]; try done;
    (destruct s as [|[] s]; try done; by (destruct H1 || destruct H2)).
Qed.

Lemma scan_frac fp e c r : digits_ok fp -> exp_ok e -> delimiter c ->
  exists c' r', print_exp e ++ c :: r = c' :: r' /\ digit c' = None /\ c' <> Byte.x2e /\ c' <> Byte.x78 /\ c' <> Byte.x58.
Proof.
  intros Hf He Hc. destruct e as [[l sg ds]|]; cbn [print_exp app je_letter].
  - destruct He as (Hl & _). do 2 eexists. split; [done|]. by apply letter_e.
  - exists c, r. split; [done|]. by destruct Hc as [->|[->|[->| ->]]].
Qed.

Lemma scan_print_mantissa ip fp c r :
  digits_ok ip -> ip <> [] -> digits_ok fp -> digit c = None -> c <> Byte.x2e ->
  scan_mantissa digit (map digit_char ip ++ match fp with [] => [] | _ => Byte.x2e :: map digit_char fp end ++ c :: r) =
    Some (Some (ip, fp, c :: r)).
Proof.
  intros Hi Hne Hf Hc Hp. unfold scan_mantissa. destruct ip as [|i ip]; [done|]. destruct fp as [|d fp].
  - cbn [app]. rewrite digits_scan by done. cbn [mbind option_bind]. by destruct c.
  - cbn [app]. rewrite digits_scan by done. cbn [mbind option_bind].
    change (Byte.x2e :: map digit_char (d :: fp)) with ([Byte.x2e] ++ map digit_char (d :: fp)). cbn [app].
    rewrite digits_scan by done. done.
Qed.

(** strtod takes the whole of a number and nothing else. *)
Lemma strtod_print n c r : jnumber_ok n -> delimiter c -> strtod (print_number n ++ c :: r) = Some (jn_value n, c :: r).
Proof.
  intros [[Hi Hne] Hf He] Hc. unfold print_number. rewrite <- !app_assoc.
  destruct (scan_frac (jn_frac n) (jn_exp n) c r) as (c' & r' & Er & Hd' & Hp' & Hx1 & Hx2); [done..|].
  pose proof (scan_print_exp (jn_exp n) c r He Hc) as Hexp. rewrite Er in *.
  pose proof (scan_print_mantissa (jn_int n) (jn_frac n) c' r' Hi Hne Hf Hd' Hp') as Hm.
  destruct (jn_int n) as [|i ip] eqn:Ei; [done|]. pose proof Hi as [Hi0 _]%list.Forall_cons. cbn [map app].
  rewrite strtod_number.
  - unfold scan_decimal. cbn [map app] in Hm. rewrite Hm. cbn [mbind option_bind]. rewrite Hexp. cbn [mbind option_bind].
    unfold jn_value. rewrite Ei. done.
  - by rewrite digit_char_digit.
  - destruct ip as [|i2 ip]; cbn [map app]; [by destruct (jn_frac n); cbn; congruence|].
    apply list.Forall_cons in Hi as [_ [Hi2 _]%list.Forall_cons]. cbn. intros [= E].
    pose proof (digit_char_digit i2 Hi2) as Hd2. rewrite E in Hd2. done.
  - destruct ip as [|i2 ip]; cbn [map app]; [by destruct (jn_frac n); cbn; congruence|].
    apply list.Forall_cons in Hi as [_ [Hi2 _]%list.Forall_cons]. cbn. intros [= E].
    pose proof (digit_char_digit i2 Hi2) as Hd2. rewrite E in Hd2. done.
Qed.
