(* ===== verification/CollateJson.v ===== *)
(** * CollateJson: comparing JSON values

    Models src/collate_json.c, which orders the keys of a view.  The two texts are
    walked token by token, without a parser.  A pointer into a text is the memory
    from there on.  Reading past its end is undefined ([None]), as is a failed
    assertion; [None] is also what a loop gives that does not end, as the one of
    CollateJSON does on a minus sign without digits.  [char] is signed.  The collator
    of ICU is a parameter. *)

From Stdlib Require Import ZArith Lia.
From S2P Require Import Prelude Runs CNumbers.
From stdpp Require Import list numbers.

#[local] Open Scope Z_scope.

Inductive CollateJSONMode : Type := kCollateJSON_Unicode | kCollateJSON_Raw | kCollateJSON_ASCII.

#[global] Instance CollateJSONMode_eq_dec : EqDecision CollateJSONMode.
Proof. solve_decision. Defined.

Definition cmp (n1 n2 : Z) : Z := if decide (n2 < n1) then 1 else if decide (n1 < n2) then -1 else 0.
Definition dcmp (n1 n2 : double) : Z := if dbl_gt n1 n2 then 1 else if dbl_lt n1 n2 then -1 else 0.

Inductive ValueType : Type :=
| kEndArray | kEndObject | kComma | kColon | kNull | kFalse | kTrue | kNumber | kString | kArray | kObject | kIllegal.

#[global] Instance ValueType_eq_dec : EqDecision ValueType.
Proof. solve_decision. Defined.

(** The number of the enumerator. *)
Definition type_int (t : ValueType) : Z :=
  match t with
  | kEndArray => 0 | kEndObject => 1 | kComma => 2 | kColon => 3 | kNull => 4 | kFalse => 5 | kTrue => 6
  | kNumber => 7 | kString => 8 | kArray => 9 | kObject => 10 | kIllegal => 11
  end.

Definition kRawOrderOfValueType (t : ValueType) : Z :=
  match t with
  | kEndArray => -4 | kEndObject => -3 | kComma => -2 | kColon => -1
  | kNull => 2 | kFalse => 1 | kTrue => 3 | kNumber => 0 | kString => 6 | kArray => 5 | kObject => 4
  | kIllegal => 7
  end.

Definition valueTypeOf (c : byte) : ValueType :=
  match c with
  | Byte.x6e => kNull
  | Byte.x66 => kFalse
  | Byte.x74 => kTrue
  | Byte.x30 | Byte.x31 | Byte.x32 | Byte.x33 | Byte.x34
  | Byte.x35 | Byte.x36 | Byte.x37 | Byte.x38 | Byte.x39
  | Byte.x2d => kNumber
  | Byte.x22 => kString
  | Byte.x5d => kEndArray
  | Byte.x7d => kEndObject
  | Byte.x2c => kComma
  | Byte.x3a => kColon
  | Byte.x5b => kArray
  | Byte.x7b => kObject
  | _ => kIllegal
  end.

(** The value of a [char]. *)
Definition schar (c : byte) : Z := let z := b2z c in if decide (z < 128) then z else z - 256.

(** isdigit and isxdigit are undefined for negative characters. *)
Definition digitToInt (c : byte) : option Z :=
  if decide (schar c < 0) then None else Some (default 0 (hex_digit c)).

(** [s] starts at the backslash; the pointer that is left is at the last character
    of the escape. *)
Definition ConvertJSONEscape (s : bytes) : option (byte * bytes) :=
  match s with
  | _ :: c :: s' =>
      match c with
      | Byte.x75 =>
          match s' with
          | d0 :: d1 :: d2 :: d3 :: _ =>
              a ← digitToInt d0; b ← digitToInt d1; c ← digitToInt d2; d ← digitToInt d3;
              let uc := Z.lor (Z.lor (Z.lor (Z.shiftl a 12) (Z.shiftl b 8)) (Z.shiftl c 4)) d in
              Some (z2b uc, drop 3 s')
          | _ => None
          end
      | Byte.x62 => Some (Byte.x08, c :: s')
      | Byte.x6e => Some (Byte.x0a, c :: s')
      | Byte.x72 => Some (Byte.x0d, c :: s')
      | Byte.x74 => Some (Byte.x09, c :: s')
      | _ => Some (c, c :: s')
      end
  | _ => None
  end.

(** A character of a string, unescaped, and the rest. *)
Definition next_char (s : bytes) : option (byte * bytes) :=
  match s with
  | [] => None
  | c :: s' => if decide (c = Byte.x5c) then '(c, r) ← ConvertJSONEscape s; Some (c, tail r) else Some (c, s')
  end.

(** The loop of compareStringsASCII; the strings from the next character on. *)
Fixpoint compare_chars (fuel : nat) (s1 s2 : bytes) : option (Z * bytes * bytes) :=
  match fuel with
  | O => None
  | S fuel =>
      c1 ← head s1;
      c2 ← head s2;
      if decide (c1 = Byte.x22) then
        if decide (c2 = Byte.x22) then Some (0, tail s1, tail s2) else Some (-1, s1, s2)
      else if decide (c2 = Byte.x22) then Some (1, s1, s2)
      else
        '(c1, s1) ← next_char s1;
        '(c2, s2) ← next_char s2;
        let s := cmp (schar c1) (schar c2) in
        if decide (s <> 0) then Some (s, s1, s2) else compare_chars fuel s1 s2
  end.

Definition compareStringsASCII (s1 s2 : bytes) : option (Z * bytes * bytes) :=
  compare_chars (length s1) (tail s1) (tail s2).

(** The first loop of createStringFromJSON: the number of bytes before the closing
    quote, how many of them escapes add, and what follows the quote. *)
Fixpoint scan_string (fuel : nat) (s : bytes) : option (Z * Z * bytes) :=
  match fuel with
  | O => None
  | S fuel =>
      match s with
      | [] => None
      | Byte.x22 :: s' => Some (0, 0, s')
      | Byte.x5c :: s' =>
          c ← head s';
          if decide (c = Byte.x75) then
            if decide (4 < length s')%nat then
              '(n, e, r) ← scan_string fuel (drop 5 s'); Some (n + 6, e + 5, r)
            else None
          else '(n, e, r) ← scan_string fuel (tail s'); Some (n + 2, e + 1, r)
      | _ :: s' => '(n, e, r) ← scan_string fuel s'; Some (n + 1, e, r)
      end
  end.

(** The second loop: the characters with the escapes converted. *)
Fixpoint unescape (fuel : nat) (s : bytes) : option bytes :=
  match fuel with
  | O => None
  | S fuel =>
      c ← head s;
      if decide (c = Byte.x22) then Some []
      else '(c, r) ← next_char s; cs ← unescape fuel r; Some (c :: cs)
  end.

(** [s] starts at the opening quote: the characters, and what follows the string. *)
Definition createStringFromJSON (s : bytes) : option (bytes * bytes) :=
  let start := tail s in
  '(n, escapes, r) ← scan_string (length s) start;
  if decide (0 < escapes) then
    cs ← unescape (length s) start;
    if decide (blen cs = n - escapes) then Some (cs, r) else None
  else Some (take (Z.to_nat n) start, r).

(** ** The collator

    The result of ucol_strcollIter; [None] when ICU fails. *)
Class Collator : Type := ucol_strcoll : bytes -> bytes -> option Z.

Section Collate.
Context `{HU : Collator}.

Definition compareUnicode (str1 str2 : bytes) : Z :=
  match ucol_strcoll str1 str2 with
  | None => -1
  | Some result => if decide (result < 0) then -1 else if decide (0 < result) then 1 else 0
  end.

Definition compareStringsUnicode (s1 s2 : bytes) : option (Z * bytes * bytes) :=
  '(str1, r1) ← createStringFromJSON s1;
  '(str2, r2) ← createStringFromJSON s2;
  Some (compareUnicode str1 str2, r1, r2).

(** strtod on a terminated copy of the [len] bytes that are left: the number and how
    many bytes it takes. *)
Definition readNumber (s : bytes) (len : Z) : option (double * bytes) :=
  if decide (0 < len) then
    if decide (Z.to_nat len <= length s)%nat then
      '(d, r) ← strtod (take (Z.to_nat len) s ++ [Byte.x00]);
      Some (d, drop (S (Z.to_nat len) - length r) s)
    else None
  else None.

(** The number at [s] of a text of [size] bytes that starts with [buf]. *)
Definition read_at (depth : Z) (buf : bytes) (size : Z) (s : bytes) : option (double * bytes) :=
  if decide (depth = 0) then readNumber s (size - (blen buf - blen s)) else strtod s.

(** One round of the loop: [inl z] when it returns [z]. *)
Definition collate_token (buf1 buf2 : bytes) (size1 size2 : Z) (mode : CollateJSONMode) (depth : Z) (str1 str2 : bytes)
    : option (Z + Z * bytes * bytes) :=
  c1 ← head str1;
  c2 ← head str2;
  let type1 := valueTypeOf c1 in
  let type2 := valueTypeOf c2 in
  if decide (type1 <> type2) then
    Some (inl (if decide (mode <> kCollateJSON_Raw) then cmp (type_int type1) (type_int type2)
               else cmp (kRawOrderOfValueType type1) (kRawOrderOfValueType type2)))
  else
    match type1 with
    | kNull | kTrue => Some (inr (depth, drop 4 str1, drop 4 str2))
    | kFalse => Some (inr (depth, drop 5 str1, drop 5 str2))
    | kNumber =>
        '(n1, next1) ← read_at depth buf1 size1 str1;
        '(n2, next2) ← read_at depth buf2 size2 str2;
        let diff := dcmp n1 n2 in
        if decide (diff <> 0) then Some (inl diff) else Some (inr (depth, next1, next2))
    | kString =>
        '(diff, next1, next2) ← if decide (mode = kCollateJSON_Unicode) then compareStringsUnicode str1 str2
                                else compareStringsASCII str1 str2;
        if decide (diff <> 0) then Some (inl diff) else Some (inr (depth, next1, next2))
    | kArray | kObject => Some (inr (depth + 1, tail str1, tail str2))
    | kEndArray | kEndObject => Some (inr (depth - 1, tail str1, tail str2))
    | kComma | kColon => Some (inr (depth, tail str1, tail str2))
    | kIllegal => Some (inl 0)
    end.

(** The loop.  A round that goes on takes a byte of the first text, unless a number
    has no digits, and then so do all the rounds after it. *)
Fixpoint collate_loop (fuel : nat) (buf1 buf2 : bytes) (size1 size2 : Z) (mode : CollateJSONMode)
    (depth : Z) (str1 str2 : bytes) : option Z :=
  match fuel with
  | O => None
  | S fuel =>
      r ← collate_token buf1 buf2 size1 size2 mode depth str1 str2;
      match r with
      | inl z => Some z
      | inr (depth, str1, str2) =>
          if decide (0 < depth) then collate_loop fuel buf1 buf2 size1 size2 mode depth str1 str2 else Some 0
      end
  end.

Definition CollateJSON (buf1 : bytes) (size1 : Z) (buf2 : bytes) (size2 : Z) (mode : CollateJSONMode) : option Z :=
  collate_loop (S (length buf1)) buf1 buf2 size1 size2 mode 0 buf1 buf2.
End Collate.
