(* ===== verification/CollateSpec.v ===== *)
(** * CollateSpec: the order of JSON values

    The order CouchDB gives JSON values: first by type, numbers by value, strings by
    the collator or by their characters, arrays and objects item by item with the
    shorter one first.  CollateJSON computes this order from the texts, and it is a
    total order. *)

From Stdlib Require Import ZArith Lia Floats.SpecFloat.
From S2P Require Import Prelude Runs CNumbers JsonText CollateJson.
From stdpp Require Import list numbers.

#[local] Open Scope Z_scope.

(** ** The order *)

(** Item by item, the shorter list first. *)
Section Lex.
Context {A : Type} (c : A -> A -> Z).
Fixpoint lex_cmp (l1 l2 : list A) : Z :=
  match l1, l2 with
  | [], [] => 0
  | [], _ => -1
  | _, [] => 1
  | x :: l1, y :: l2 => if decide (c x y = 0) then lex_cmp l1 l2 else c x y
  end.
End Lex.

Definition type_of (v : json) : ValueType :=
  match v with
  | JNull => kNull | JFalse => kFalse | JTrue => kTrue | JNumber _ => kNumber | JString _ => kString
  | JArray _ => kArray | JObject _ => kObject
  end.

Definition type_rank (mode : CollateJSONMode) (t : ValueType) : Z :=
  if decide (mode <> kCollateJSON_Raw) then type_int t else kRawOrderOfValueType t.

Section Order.
Context `{HU : Collator}.
Variable mode : CollateJSONMode.

Definition string_cmp (s1 s2 : jstring) : Z :=
  if decide (mode = kCollateJSON_Unicode) then compareUnicode (map decode_char s1) (map decode_char s2)
  else lex_cmp cmp (map schar (map decode_char s1)) (map schar (map decode_char s2)).

Fixpoint collate (v1 v2 : json) : Z :=
  match v1, v2 with
  | JNumber n1, JNumber n2 => dcmp (jn_value n1) (jn_value n2)
  | JString s1, JString s2 => string_cmp s1 s2
  | JArray l1, JArray l2 => lex_cmp collate l1 l2
  | JObject l1, JObject l2 =>
      lex_cmp (fun p q => if decide (string_cmp p.1 q.1 = 0) then collate p.2 q.2 else string_cmp p.1 q.1) l1 l2
  | _, _ => cmp (type_rank mode (type_of v1)) (type_rank mode (type_of v2))
  end.
End Order.

(** ** Reading strings *)

Lemma hex_digit_range d : hex_digit d <> None -> digitToInt d = Some (default 0 (hex_digit d)) /\ 0 <= default 0 (hex_digit d) < 16.
Proof. destruct d; by vm_compute. Qed.

Lemma four_digits a b c d : 0 <= a < 16 -> 0 <= b < 16 -> 0 <= c < 16 -> 0 <= d < 16 ->
  Z.lor (Z.lor (Z.lor (Z.shiftl a 12) (Z.shiftl b 8)) (Z.shiftl c 4)) d = a * 4096 + b * 256 + c * 16 + d.
Proof.
  intros. rewrite !Z.shiftl_mul_pow2 by lia. rewrite lor_high_low by lia.
  replace (a * 2 ^ 12 + b * 2 ^ 8) with ((a * 16 + b) * 2 ^ 8) by lia. rewrite lor_high_low by lia.
  replace ((a * 16 + b) * 2 ^ 8 + c * 2 ^ 4) with ((a * 256 + b * 16 + c) * 2 ^ 4) by lia. rewrite lor_high_low by lia. lia.
Qed.

Lemma next_print_char ch s : jchar_ok ch -> next_char (print_char ch ++ s) = Some (decode_char ch, s).
Proof.
  destruct ch as [c|c|d0 d1 d2 d3]; cbn [jchar_ok print_char app next_char].
  - intros [_ Hc]. by rewrite decide_False.
  - intros Hc. rewrite decide_True by done. by destruct c.
  - intros (H0 & (H1 & (H2 & (H3 & _)%list.Forall_cons)%list.Forall_cons)%list.Forall_cons)%list.Forall_cons.
    rewrite decide_True by done. cbn [ConvertJSONEscape].
    destruct (hex_digit_range _ H0) as [-> R0], (hex_digit_range _ H1) as [-> R1], (hex_digit_range _ H2) as [-> R2],
      (hex_digit_range _ H3) as [-> R3]. cbn [mbind option_bind drop tail decode_char]. by rewrite four_digits.
Qed.

Lemma print_char_head ch s : jchar_ok ch -> exists c r, print_char ch ++ s = c :: r /\ c <> Byte.x22.
Proof. destruct ch; cbn; [intros []|..]; eauto. Qed.

Lemma compare_print_chars fuel s1 s2 r1 r2 : Forall jchar_ok s1 -> Forall jchar_ok s2 -> (length s1 < fuel)%nat ->
  exists r1' r2', let z := lex_cmp cmp (map schar (map decode_char s1)) (map schar (map decode_char s2)) in
    compare_chars fuel (concat (map print_char s1) ++ Byte.x22 :: r1) (concat (map print_char s2) ++ Byte.x22 :: r2) =
      Some (z, r1', r2') /\ (z = 0 -> r1' = r1 /\ r2' = r2).
Proof.
  revert s1 s2. induction fuel as [|fuel IH]; intros s1 s2 H1 H2 Hf; [lia|].
  destruct s1 as [|c1 s1], s2 as [|c2 s2]; cbn [map concat app]; rewrite <- ?app_assoc; cbn [compare_chars].
  - cbn. by do 2 eexists.
  - apply list.Forall_cons in H2 as [Hc2 _]. destruct (print_char_head c2 (concat (map print_char s2) ++ Byte.x22 :: r2) Hc2) as (c & r & -> & Hc).
    cbn [head mbind option_bind]. rewrite decide_True by done. rewrite decide_False by done. by do 2 eexists.
  - apply list.Forall_cons in H1 as [Hc1 _]. destruct (print_char_head c1 (concat (map print_char s1) ++ Byte.x22 :: r1) Hc1) as (c & r & -> & Hc).
    cbn [head mbind option_bind]. rewrite decide_False by done. rewrite decide_True by done. by do 2 eexists.
  - apply list.Forall_cons in H1 as [Hc1 H1]. apply list.Forall_cons in H2 as [Hc2 H2]. cbn in Hf.
    pose proof (next_print_char c1 (concat (map print_char s1) ++ Byte.x22 :: r1) Hc1) as N1.
    pose proof (next_print_char c2 (concat (map print_char s2) ++ Byte.x22 :: r2) Hc2) as N2.
    destruct (print_char_head c1 (concat (map print_char s1) ++ Byte.x22 :: r1) Hc1) as (a1 & t1 & E1 & Ha1).
    destruct (print_char_head c2 (concat (map print_char s2) ++ Byte.x22 :: r2) Hc2) as (a2 & t2 & E2 & Ha2).
    rewrite E1 in *. rewrite E2 in *. cbn [head mbind option_bind]. rewrite !decide_False by done.
    rewrite N1. cbn [mbind option_bind]. rewrite N2. cbn [mbind option_bind lex_cmp].
    destruct (decide (cmp (schar (decode_char c1)) (schar (decode_char c2)) = 0)) as [Hz|Hz].
    + rewrite decide_False by auto. apply IH; [done|done|lia].
    + rewrite decide_True by done. by do 2 eexists.
Qed.

Lemma concat_chars_length s : (length s <= length (concat (map print_char s)))%nat.
Proof. induction s as [|[] s IH]; cbn; lia. Qed.

Lemma compare_ascii_print s1 s2 r1 r2 : Forall jchar_ok s1 -> Forall jchar_ok s2 ->
  exists r1' r2', let z := lex_cmp cmp (map schar (map decode_char s1)) (map schar (map decode_char s2)) in
    compareStringsASCII (print_string s1 ++ r1) (print_string s2 ++ r2) = Some (z, r1', r2') /\ (z = 0 -> r1' = r1 /\ r2' = r2).
Proof.
  intros H1 H2. unfold compareStringsASCII, print_string. cbn [app tail]. rewrite <- !app_assoc. cbn [app].
  apply compare_print_chars; [done|done|]. pose proof (concat_chars_length s1). cbn [length]. rewrite length_app. cbn [length]. lia.
Qed.

(** How many bytes the escapes of a string take beyond its characters. *)
Definition escapes (s : jstring) : Z := foldr (fun c z => blen (print_char c) - 1 + z) 0 s.

Lemma Some_triple (a b a' b' : Z) (r : bytes) : a = a' -> b = b' -> Some (a, b, r) = Some (a', b', r).
Proof. by intros -> ->. Qed.

Lemma scan_print_string fuel s r : Forall jchar_ok s -> (length s < fuel)%nat ->
  scan_string fuel (concat (map print_char s) ++ Byte.x22 :: r) = Some (blen (concat (map print_char s)), escapes s, r).
Proof.
  revert s. induction fuel as [|fuel IH]; intros s Hs Hf; [lia|].
  destruct s as [|c s]; [done|]. apply list.Forall_cons in Hs as [Hc Hs]. cbn [length] in Hf.
  specialize (IH s Hs ltac:(lia)). cbn [map concat]. rewrite <- app_assoc.
  unfold escapes in *. cbn [foldr]. unfold blen in *. rewrite length_app, Nat2Z.inj_add.
  destruct c as [c|c|d0 d1 d2 d3]; cbn [print_char app scan_string jchar_ok length] in *.
  - destruct Hc as [H1 H2]. destruct c; try done; rewrite IH; cbn [mbind option_bind]; apply Some_triple; lia.
  - cbn [head mbind option_bind]. rewrite decide_False by done. cbn [tail]. rewrite IH. cbn [mbind option_bind]. apply Some_triple; lia.
  - cbn [head mbind option_bind]. rewrite decide_True by done. rewrite decide_True by (cbn; lia). cbn [skipn].
    rewrite drop_0, IH. cbn [mbind option_bind]. apply Some_triple; lia.
Qed.

Lemma unescape_print fuel s r : Forall jchar_ok s -> (length s < fuel)%nat ->
  unescape fuel (concat (map print_char s) ++ Byte.x22 :: r) = Some (map decode_char s).
Proof.
  revert s. induction fuel as [|fuel IH]; intros s Hs Hf; [lia|].
  destruct s as [|c s]; [done|]. apply list.Forall_cons in Hs as [Hc Hs]. cbn [length] in Hf.
  specialize (IH s Hs ltac:(lia)). cbn [map concat]. rewrite <- app_assoc. cbn [unescape].
  pose proof (next_print_char c (concat (map print_char s) ++ Byte.x22 :: r) Hc) as N.
  destruct (print_char_head c (concat (map print_char s) ++ Byte.x22 :: r) Hc) as (a & t & E & Ha). rewrite E in *.
  cbn [head mbind option_bind]. rewrite decide_False by done. rewrite N. cbn [mbind option_bind]. by rewrite IH.
Qed.

Lemma escapes_length s : blen (concat (map print_char s)) = Z.of_nat (length s) + escapes s /\ 0 <= escapes s.
Proof.
  unfold escapes, blen. induction s as [|c s [IH1 IH2]]; [done|]. cbn [map concat length foldr]. rewrite length_app.
  assert (1 <= Z.of_nat (length (print_char c))) by (destruct c; cbn; lia). lia.
Qed.

Lemma no_escapes s : escapes s = 0 -> concat (map print_char s) = map decode_char s.
Proof.
  induction s as [|c s IH]; [done|]. pose proof (proj2 (escapes_length s)). unfold escapes in *. cbn [foldr map concat].
  destruct c; cbn [print_char] in *; unfold blen in *; cbn [length] in *; [|lia..]. intros E. cbn. f_equal. apply IH. lia.
Qed.

Lemma create_string_print s r : Forall jchar_ok s -> createStringFromJSON (print_string s ++ r) = Some (map decode_char s, r).
Proof.
  intros Hs. unfold createStringFromJSON, print_string. cbn [app tail]. rewrite <- app_assoc. cbn [app length].
  pose proof (concat_chars_length s) as Hl. destruct (escapes_length s) as [He Hn].
  rewrite scan_print_string by (done || (rewrite length_app; cbn [length]; lia)). cbn [mbind option_bind].
  case_decide as Hp.
  - rewrite unescape_print by (done || (rewrite length_app; cbn [length]; lia)). cbn [mbind option_bind].
    rewrite decide_True; [done|]. unfold blen in *. rewrite length_map. lia.
  - assert (escapes s = 0) as E by lia. unfold blen. rewrite Nat2Z.id. do 2 f_equal.
    rewrite take_app_le, take_ge by lia. by apply no_escapes.
Qed.

(** ** The walk over two texts *)

Lemma json_ok_array l : json_ok (JArray l) <-> Forall json_ok l.
Proof. cbn. induction l as [|v l IH]; cbn; [split; [constructor|done]|]. by rewrite list.Forall_cons, IH. Qed.
Lemma json_ok_object l : json_ok (JObject l) <-> Forall (fun kv => Forall jchar_ok kv.1 /\ json_ok kv.2) l.
Proof. cbn. induction l as [|v l IH]; cbn; [split; [constructor|done]|]. by rewrite list.Forall_cons, IH. Qed.

Lemma cmp_refl n : cmp n n = 0.
Proof. unfold cmp. by rewrite !decide_False by lia. Qed.
Lemma cmp_zero a b : cmp a b = 0 <-> a = b.
Proof. unfold cmp. repeat case_decide; lia. Qed.
Lemma cmp_sign a b : (a < b -> cmp a b = -1) /\ (b < a -> cmp a b = 1).
Proof. unfold cmp. repeat case_decide; lia. Qed.

Lemma type_rank_inj mode t1 t2 : type_rank mode t1 = type_rank mode t2 -> t1 = t2.
Proof. unfold type_rank. case_decide; destruct t1, t2; cbn; done || lia. Qed.

Lemma print_type v : json_ok v -> exists c r, print v = c :: r /\ valueTypeOf c = type_of v.
Proof.
  destruct v as [| | |n|s|l|l]; try (by do 2 eexists). cbn. intros [[Hi Hne] _ _]. unfold print_number.
  destruct (jn_neg n); cbn [app]; [by do 2 eexists|]. destruct (jn_int n) as [|d ds]; [done|]. cbn.
  do 2 eexists. split; [done|]. apply list.Forall_cons in Hi as [Hd _].
  assert (d = 0 \/ d = 1 \/ d = 2 \/ d = 3 \/ d = 4 \/ d = 5 \/ d = 6 \/ d = 7 \/ d = 8 \/ d = 9) as Hc by lia.
  destruct_or! Hc; by subst.
Qed.

Section Walk.
Context `{HU : Collator}.
Variable mode : CollateJSONMode.
Variables (buf1 buf2 : bytes) (size1 size2 : Z).

Abbreviation loop := (fun n d s1 s2 => collate_loop n buf1 buf2 size1 size2 mode d s1 s2).
Abbreviation token := (collate_token buf1 buf2 size1 size2 mode).

(** After [k] rounds from depth [d] the loop has returned [z], or is at [o]. *)
Definition leads (k : nat) (d : Z) (s1 s2 : bytes) (o : Z + Z * bytes * bytes) : Prop :=
  forall n, loop (k + n)%nat d s1 s2 =
    match o with
    | inl z => Some z
    | inr (d', r1, r2) => if decide (0 < d') then loop n d' r1 r2 else Some 0
    end.

(** At most as many rounds as bytes. *)
Definition leads_in (m : nat) (d : Z) (s1 s2 : bytes) (o : Z + Z * bytes * bytes) : Prop :=
  exists k, (1 <= k <= m)%nat /\ leads k d s1 s2 o.

Definition verdict (z d : Z) (r1 r2 : bytes) : Z + Z * bytes * bytes := if decide (z = 0) then inr (d, r1, r2) else inl z.

Lemma leads_token m d s1 s2 o : (1 <= m)%nat -> token d s1 s2 = Some o -> leads_in m d s1 s2 o.
Proof. intros Hm E. exists 1%nat. split; [lia|]. intros n. cbn. rewrite E. cbn. by destruct o as [|[[]]]. Qed.

Lemma leads_trans m1 m2 d s1 s2 d1 t1 t2 o : 0 < d1 ->
  leads_in m1 d s1 s2 (inr (d1, t1, t2)) -> leads_in m2 d1 t1 t2 o -> leads_in (m1 + m2) d s1 s2 o.
Proof.
  intros Hd (k1 & Hk1 & L1) (k2 & Hk2 & L2). exists (k1 + k2)%nat. split; [lia|]. intros n.
  rewrite <- Nat.add_assoc, L1, decide_True by done. apply L2.
Qed.

Lemma leads_weaken m m' d s1 s2 o : (m <= m')%nat -> leads_in m d s1 s2 o -> leads_in m' d s1 s2 o.
Proof. intros Hm (k & Hk & L). exists k. split; [lia|done]. Qed.

(** A comparison that decides, or is followed by another. *)
Lemma leads_seq m1 m2 d s1 s2 z1 z2 t1 t2 d2 r1 r2 : 0 < d ->
  leads_in m1 d s1 s2 (verdict z1 d t1 t2) -> (z1 = 0 -> leads_in m2 d t1 t2 (verdict z2 d2 r1 r2)) ->
  leads_in (m1 + m2) d s1 s2 (verdict (if decide (z1 = 0) then z2 else z1) d2 r1 r2).
Proof.
  intros Hd H1 H2. unfold verdict at 1 in H1. destruct (decide (z1 = 0)) as [Hz|Hz].
  - eapply leads_trans; [exact Hd|exact H1|by apply H2].
  - unfold verdict. rewrite decide_False by done. eapply leads_weaken; [|exact H1]. lia.
Qed.

(** Tokens of different types. *)
Lemma leads_types m d c1 c2 s1 s2 : (1 <= m)%nat -> valueTypeOf c1 <> valueTypeOf c2 ->
  leads_in m d (c1 :: s1) (c2 :: s2) (inl (cmp (type_rank mode (valueTypeOf c1)) (type_rank mode (valueTypeOf c2)))).
Proof.
  intros Hm Hne. apply leads_token; [done|]. unfold collate_token. cbn [head mbind option_bind].
  rewrite decide_True by done. unfold type_rank. by case_decide.
Qed.

(** ** Lists of items *)

Definition delimited (r : bytes) : Prop := exists c r', r = c :: r' /\ delimiter c.

Section Items.
Context {A : Type} (p : A -> bytes) (c : A -> A -> Z) (ok : A -> Prop) (close : byte).
Hypothesis close_type : close = Byte.x5d \/ close = Byte.x7d.

(** What comparing an item does. *)
Definition item_leads (x : A) : Prop :=
  forall y d r1 r2, ok y -> 0 < d -> delimited r1 -> delimited r2 ->
    leads_in (length (p x)) d (p x ++ r1) (p y ++ r2) (verdict (c x y) d r1 r2).

(** An item starts like a value. *)
Hypothesis item_type : forall x, ok x -> exists b r v, p x = b :: r /\ valueTypeOf b = type_of v.

Lemma tail_delimited l r : delimited (print_tail p close l ++ r).
Proof.
  destruct l as [|x l]; cbn.
  - exists close, r. split; [done|]. unfold delimiter. destruct close_type as [->| ->]; auto.
  - do 2 eexists. split; [done|]. by left.
Qed.

Lemma close_leads m d r1 r2 : (1 <= m)%nat -> leads_in m (d + 1) (close :: r1) (close :: r2) (inr (d, r1, r2)).
Proof.
  intros Hm. apply leads_token; [done|]. unfold collate_token. cbn [head mbind option_bind].
  rewrite decide_False by auto. destruct close_type as [->| ->]; cbn; do 4 f_equal; lia.
Qed.

Lemma close_rank : valueTypeOf close <> kComma /\ (forall v, valueTypeOf close <> type_of v) /\
  cmp (type_rank mode (valueTypeOf close)) (type_rank mode kComma) = -1 /\
  cmp (type_rank mode kComma) (type_rank mode (valueTypeOf close)) = 1 /\
  forall v, cmp (type_rank mode (valueTypeOf close)) (type_rank mode (type_of v)) = -1 /\
            cmp (type_rank mode (type_of v)) (type_rank mode (valueTypeOf close)) = 1.
Proof. destruct close_type as [->| ->]; unfold type_rank; case_decide; (split_and!; [done|by intros []|done|done|by intros []]). Qed.

Lemma print_tail_cons x l : print_tail p close (x :: l) = Byte.x2c :: p x ++ print_tail p close l.
Proof. unfold print_tail. cbn. by rewrite <- app_assoc. Qed.

Lemma tail_leads l1 l2 d r1 r2 : Forall item_leads l1 -> Forall ok l2 -> 0 <= d ->
  leads_in (length (print_tail p close l1)) (d + 1) (print_tail p close l1 ++ r1) (print_tail p close l2 ++ r2)
    (verdict (lex_cmp c l1 l2) d r1 r2).
Proof.
  intros H1. revert l2. destruct close_rank as (Hcc & _ & Hlt & Hgt & _).
  induction H1 as [|x l1 Hx _ IH]; intros l2 H2 Hd; destruct H2 as [|y l2 Hy H2]; rewrite ?print_tail_cons; cbn [lex_cmp length].
  - by apply close_leads.
  - unfold verdict. rewrite decide_False by done. rewrite <- Hlt. by apply leads_types.
  - unfold verdict. rewrite decide_False by done. rewrite <- Hgt. apply leads_types; [lia|]. by apply not_eq_sym.
  - cbn [app]. rewrite <- !app_assoc, length_app.
    eapply (leads_trans 1 _ _ _ _ (d + 1)); [lia|eapply leads_token; [lia|reflexivity]|]. cbn [tail].
    eapply leads_seq; [lia| |].
    + apply Hx; [done|lia|apply tail_delimited..].
    + intros _. by apply IH.
Qed.

Lemma items_leads l1 l2 d r1 r2 : Forall item_leads l1 -> Forall ok l1 -> Forall ok l2 -> 0 <= d ->
  leads_in (length (print_items p close l1)) (d + 1) (print_items p close l1 ++ r1) (print_items p close l2 ++ r2)
    (verdict (lex_cmp c l1 l2) d r1 r2).
Proof.
  intros H1 Ho1 H2 Hd. destruct close_rank as (_ & Hcv & _ & _ & Hv).
  destruct l1 as [|x l1], l2 as [|y l2]; cbn [print_items lex_cmp].
  - by apply close_leads.
  - apply list.Forall_cons in H2 as [Hy _]. destruct (item_type y Hy) as (b & t & v & -> & Hb). cbn [app length].
    unfold verdict. rewrite decide_False by done. rewrite <- (proj1 (Hv v)), <- Hb. apply leads_types; [lia|by rewrite Hb].
  - apply list.Forall_cons in Ho1 as [Hx _]. destruct (item_type x Hx) as (b & t & v & -> & Hb). cbn [app length].
    unfold verdict. rewrite decide_False by done. rewrite <- (proj2 (Hv v)), <- Hb. apply leads_types; [lia|].
    rewrite Hb. by apply not_eq_sym.
  - apply list.Forall_cons in H1 as [Hx H1]. apply list.Forall_cons in H2 as [Hy H2]. rewrite <- !app_assoc, length_app.
    eapply leads_seq; [lia| |].
    + apply Hx; [done|lia|apply tail_delimited..].
    + intros _. by apply tail_leads.
Qed.
End Items.

(** ** Values *)

Lemma string_leads m s1 s2 d r1 r2 : (1 <= m)%nat -> Forall jchar_ok s1 -> Forall jchar_ok s2 ->
  leads_in m d (print_string s1 ++ r1) (print_string s2 ++ r2) (verdict (string_cmp mode s1 s2) d r1 r2).
Proof.
  intros Hm H1 H2. apply leads_token; [done|]. unfold collate_token.
  assert (forall s r, head (print_string s ++ r) = Some Byte.x22) as Hh by done. rewrite !Hh. cbn [mbind option_bind].
  rewrite decide_False by auto. cbn [valueTypeOf]. unfold string_cmp, verdict. case_decide as Hmode.
  - unfold compareStringsUnicode. rewrite !create_string_print by done. cbn [mbind option_bind].
    destruct (decide (compareUnicode _ _ = 0)); [rewrite decide_False by auto|rewrite decide_True by done]; done.
  - destruct (compare_ascii_print s1 s2 r1 r2 H1 H2) as (t1 & t2 & E & Hz). rewrite E. cbn [mbind option_bind].
    destruct (decide (lex_cmp _ _ _ = 0)) as [Ez|]; [|by rewrite decide_True].
    rewrite decide_False by auto. by destruct (Hz Ez) as [-> ->].
Qed.

(** The two numbers are read at depth [d], when there are two. *)
Definition numbers_read (v1 v2 : json) (d : Z) (r1 r2 : bytes) : Prop :=
  match v1, v2 with
  | JNumber n1, JNumber n2 =>
      read_at d buf1 size1 (print_number n1 ++ r1) = Some (jn_value n1, r1) /\
      read_at d buf2 size2 (print_number n2 ++ r2) = Some (jn_value n2, r2)
  | _, _ => True
  end.

Lemma numbers_inside v1 v2 d r1 r2 : json_ok v1 -> json_ok v2 -> 0 < d -> delimited r1 -> delimited r2 -> numbers_read v1 v2 d r1 r2.
Proof.
  intros H1 H2 Hd (c1 & t1 & -> & Hc1) (c2 & t2 & -> & Hc2). destruct v1, v2; try done. cbn. unfold read_at.
  rewrite !decide_False by lia. by rewrite !strtod_print.
Qed.

Lemma number_leads m n1 n2 d r1 r2 : (1 <= m)%nat -> jnumber_ok n1 -> jnumber_ok n2 -> numbers_read (JNumber n1) (JNumber n2) d r1 r2 ->
  leads_in m d (print_number n1 ++ r1) (print_number n2 ++ r2) (verdict (dcmp (jn_value n1) (jn_value n2)) d r1 r2).
Proof.
  intros Hm H1 H2 [E1 E2]. apply leads_token; [done|].
  destruct (print_type (JNumber n1) H1) as (c1 & t1 & P1 & T1), (print_type (JNumber n2) H2) as (c2 & t2 & P2 & T2). cbn in *.
  rewrite P1, P2 in *. cbn [app] in *. unfold collate_token. cbn [head mbind option_bind]. rewrite T1, T2, decide_False by auto.
  rewrite E1. cbn [mbind option_bind]. rewrite E2. cbn [mbind option_bind]. unfold verdict.
  destruct (decide (dcmp _ _ = 0)); [rewrite decide_False by auto|rewrite decide_True by done]; done.
Qed.

(** Values of different types. *)
Lemma collate_types v1 v2 : type_of v1 <> type_of v2 ->
  collate mode v1 v2 = cmp (type_rank mode (type_of v1)) (type_rank mode (type_of v2)) /\ collate mode v1 v2 <> 0.
Proof.
  intros Hne. assert (collate mode v1 v2 = cmp (type_rank mode (type_of v1)) (type_rank mode (type_of v2))) as E
    by (destruct v1, v2; done). split; [done|]. rewrite E, cmp_zero. by intros ?%type_rank_inj.
Qed.

Lemma types_lead v1 v2 d r1 r2 : json_ok v1 -> json_ok v2 -> type_of v1 <> type_of v2 ->
  leads_in (length (print v1)) d (print v1 ++ r1) (print v2 ++ r2) (verdict (collate mode v1 v2) d r1 r2).
Proof.
  intros H1 H2 Hne. destruct (collate_types v1 v2 Hne) as [E Hz]. unfold verdict. rewrite decide_False by done. rewrite E.
  destruct (print_type v1 H1) as (c1 & t1 & -> & T1), (print_type v2 H2) as (c2 & t2 & -> & T2). rewrite <- T1, <- T2 in *.
  apply leads_types; [cbn; lia|done].
Qed.

Definition value_leads (v1 : json) : Prop :=
  json_ok v1 -> forall v2 d r1 r2, json_ok v2 -> 0 <= d -> numbers_read v1 v2 d r1 r2 ->
    leads_in (length (print v1)) d (print v1 ++ r1) (print v2 ++ r2) (verdict (collate mode v1 v2) d r1 r2).

Lemma array_leads l : Forall value_leads l -> value_leads (JArray l).
Proof.
  intros Hl H1 v2 d r1 r2 H2 Hd Hn. destruct (decide (type_of (JArray l) = type_of v2)) as [Ht|]; [|by apply types_lead].
  destruct v2 as [| | | | |l2|]; try done. apply json_ok_array in H1, H2. cbn [print collate length app].
  eapply (leads_trans 1 _ _ _ _ (d + 1)); [lia|eapply leads_token; [lia|reflexivity]|]. cbn [tail].
  apply (items_leads print (collate mode) json_ok); [by left| | |done|done|done].
  - intros x Hx. destruct (print_type x Hx) as (b & r & ? & ?). by exists b, r, x.
  - eapply List.Forall_impl; [|exact (proj2 (list.Forall_and _ _) (conj Hl H1))]. intros x [Hx Hxo] y d' t1 t2 Hy Hd' Ht1 Ht2.
    apply Hx; [done|done|lia|by apply numbers_inside].
Qed.

Lemma object_leads l : Forall (fun kv => value_leads kv.2) l -> value_leads (JObject l).
Proof.
  intros Hl H1 v2 d r1 r2 H2 Hd Hn. destruct (decide (type_of (JObject l) = type_of v2)) as [Ht|]; [|by apply types_lead].
  destruct v2 as [| | | | | |l2]; try done. apply json_ok_object in H1, H2. cbn [print collate length app].
  eapply (leads_trans 1 _ _ _ _ (d + 1)); [lia|eapply leads_token; [lia|reflexivity]|]. cbn [tail].
  eapply (items_leads _ _ (fun kv => Forall jchar_ok kv.1 /\ json_ok kv.2)); [by right| | |done|done|done].
  - intros [k v] Hx. eexists _, _, (JString k). by split.
  - eapply List.Forall_impl; [|exact (proj2 (list.Forall_and _ _) (conj Hl H1))].
    intros [k x] [Hx [Hk Hxo]] [k2 y] d' t1 t2 [Hk2 Hy] Hd' Ht1 Ht2. cbn [fst snd] in *.
    rewrite <- !app_assoc, length_app. cbn [length]. eapply leads_seq; [done|apply string_leads; [cbn; lia|done|done]|]. intros _.
    eapply (leads_trans 1); [exact Hd'|eapply leads_token; [lia|reflexivity]|]. cbn [tail].
    apply Hx; [done|done|lia|by apply numbers_inside].
Qed.

Lemma values_lead v : value_leads v.
Proof.
  induction v as [| | |n|s|l IH|l IH] using json_induction; [..|by apply array_leads|by apply object_leads];
    intros H1 v2 d r1 r2 H2 Hd Hn.
  all: match goal with |- leads_in (length (print ?v)) _ _ _ _ => destruct (decide (type_of v = type_of v2)) as [Ht|]; [|by apply types_lead] end.
  all: destruct v2; try done.
  4: { apply number_leads; try done. by destruct (print_type (JNumber n) H1) as (? & ? & -> & _); cbn; lia. }
  4: { apply string_leads; try done. cbn. lia. }
  all: apply leads_token; [cbn; lia|]; unfold verdict; rewrite decide_True by apply cmp_refl; done.
Qed.
End Walk.

(** ** Total orders

    Stated for one element against all others, so that they can be proved by
    induction on values. *)

Definition flips {A} (c : A -> A -> Z) (x : A) : Prop := forall y, c x y = - c y x.
Definition chains {A} (c : A -> A -> Z) (x : A) : Prop :=
  forall y z, c x y <= 0 -> c y z <= 0 -> c x z <= 0 /\ (c x z = 0 <-> c x y = 0 /\ c y z = 0).
Definition ordered {A} (c : A -> A -> Z) (x : A) : Prop := flips c x /\ chains c x.

Lemma ordered_Comparison {A} (c : A -> A -> Z) : (forall x, ordered c x) -> Comparison c.
Proof.
  intros H. split.
  - intros a b. rewrite (proj1 (H a) b). lia.
  - intros a b d Hab Hbd. by apply (proj2 (H a) b d).
Qed.

(** The sign of a comparison. *)
Lemma sign_ordered {A} (c : A -> A -> Z) `{!Comparison c} x : ordered (fun x y => cmp (c x y) 0) x.
Proof.
  assert (forall a b, (cmp (c a b) 0 = 0 <-> c a b = 0) /\ (cmp (c a b) 0 <= 0 <-> c a b <= 0)) as S
    by (intros; unfold cmp; repeat case_decide; lia).
  split.
  - intros y. pose proof (cmp_flip x y). pose proof (cmp_flip y x). unfold cmp. repeat case_decide; lia.
  - intros y z. rewrite !(proj1 (S _ _)), !(proj2 (S _ _)). intros H1 H2.
    pose proof (cmp_trans x y z H1 H2) as H3. split; [done|].
    pose proof (cmp_flip z x). pose proof (cmp_flip y x). pose proof (cmp_flip z y).
    pose proof (cmp_trans z x y). pose proof (cmp_trans y z x). pose proof (cmp_trans y x z). pose proof (cmp_trans z y x).
    pose proof (cmp_flip x z). pose proof (cmp_flip x y). pose proof (cmp_flip y z). lia.
Qed.

Lemma cmp_ordered n : ordered cmp n.
Proof. split; [intros m|intros m k]; unfold cmp; repeat case_decide; lia. Qed.

Lemma on_ordered {A B} (f : A -> B) (c : B -> B -> Z) x : ordered c (f x) -> ordered (fun x y => c (f x) (f y)) x.
Proof. intros [H1 H2]. split; [intros y; apply H1|intros y z; apply H2]. Qed.

(** One comparison and then another. *)
Definition then_cmp {A B} (c1 : A -> A -> Z) (c2 : B -> B -> Z) (x y : A * B) : Z :=
  if decide (c1 x.1 y.1 = 0) then c2 x.2 y.2 else c1 x.1 y.1.

Lemma then_ordered {A B} (c1 : A -> A -> Z) (c2 : B -> B -> Z) x :
  ordered c1 x.1 -> ordered c2 x.2 -> ordered (then_cmp c1 c2) x.
Proof.
  intros [F1 C1] [F2 C2]. split; unfold then_cmp.
  - intros y. specialize (F1 y.1). specialize (F2 y.2). repeat case_decide; lia.
  - intros y z. specialize (C1 y.1 z.1). specialize (C2 y.2 z.2). repeat case_decide; intros; split; lia.
Qed.

Lemma lex_ordered {A} (c : A -> A -> Z) l : Forall (ordered c) l -> ordered (lex_cmp c) l.
Proof.
  intros Hl. split.
  - induction Hl as [|x l [F _] _ IH]; intros [|y l2]; cbn; try done. specialize (F y). specialize (IH l2). repeat case_decide; lia.
  - induction Hl as [|x l [_ C] _ IH]; intros [|y l2] [|z l3]; cbn; try (lia || (repeat case_decide; lia)).
    specialize (C y z). specialize (IH l2 l3). repeat case_decide; intros; split; lia.
Qed.

(** ** The order of numbers *)

(** Doubles other than NaN are ordered by class, exponent and mantissa. *)
Definition dbl_key (x : double) : Z * Z * Z :=
  match x with
  | S754_infinity true => (-2, 0, 0)
  | S754_finite true m e => (-1, - e, - Z.pos m)
  | S754_zero _ | S754_nan => (0, 0, 0)
  | S754_finite false m e => (1, e, Z.pos m)
  | S754_infinity false => (2, 0, 0)
  end.

Lemma dcmp_key x y : x <> S754_nan -> y <> S754_nan -> dcmp x y = then_cmp (then_cmp cmp cmp) cmp (dbl_key x) (dbl_key y).
Proof.
  intros Hx Hy. unfold dcmp, dbl_gt, dbl_lt, SFltb, then_cmp, cmp.
  destruct x as [sx|[]| |[] m1 e1], y as [sy|[]| |[] m2 e2]; try done; cbn;
    change (Pos.compare_cont Eq m2 m1) with (Pos.compare m2 m1); change (Pos.compare_cont Eq m1 m2) with (Pos.compare m1 m2);
    destruct (Z.compare_spec e2 e1), (Z.compare_spec e1 e2); try lia;
    destruct (Pos.compare_spec m2 m1), (Pos.compare_spec m1 m2); try lia; cbn; repeat case_decide; lia.
Qed.

Lemma shr_nonneg m r s e n : 0 <= m -> 0 <= shr_m (shr {| shr_m := m; shr_r := r; shr_s := s |} e n).1.
Proof.
  intros Hm. destruct n as [|p|p]; [done| |done]. cbn [shr fst].
  assert (forall q x, 0 <= shr_m x -> 0 <= shr_m (SpecFloat.iter_pos shr_1 q x)) as H; [|by apply H].
  clear. intros q. induction q as [q IH|q IH|]; intros x Hx; cbn [SpecFloat.iter_pos]; [apply IH, IH|apply IH, IH|];
    try done; destruct x as [[|[]|] ? ?]; cbn in *; lia.
Qed.

Lemma round_nonneg m l : 0 <= m -> 0 <= round_nearest_even m l.
Proof. intros. destruct l as [|[]]; cbn; repeat case_match; lia. Qed.

Lemma round_not_nan s m e l : 0 <= m -> binary_round_aux 53 1024 s m e l <> S754_nan.
Proof.
  intros Hm. unfold binary_round_aux, shr_fexp.
  destruct (shr _ e _) as [a ea] eqn:Ea. destruct (shr _ ea _) as [b eb] eqn:Eb.
  assert (0 <= shr_m a) as Ha.
  { assert (exists r t, shr_record_of_loc m l = {| shr_m := m; shr_r := r; shr_s := t |}) as (r & t & E)
      by (destruct l as [|[]]; by do 2 eexists).
    pose proof (shr_nonneg m r t e (fexp 53 1024 (Zdigits2 m + e) - e) Hm) as H. rewrite <- E in H.
    replace a with (shr (shr_record_of_loc m l) e (fexp 53 1024 (Zdigits2 m + e) - e)).1; [done|]. exact (f_equal fst Ea). }
  assert (0 <= shr_m b) as Hb.
  { replace b with (b, eb).1 by done. rewrite <- Eb. apply shr_nonneg, round_nonneg, Ha. }
  destruct (shr_m b); [done| |lia]. by case_match.
Qed.

Lemma decimal_not_nan s m e : double_of_decimal s m e <> S754_nan.
Proof.
  unfold double_of_decimal. destruct m as [|p|p]; [done| |done]. case_decide as He.
  - unfold binary_round. destruct (shl_align _ _ _). by apply round_not_nan.
  - unfold SFdiv_core_binary. cbv zeta. destruct (Z.div_eucl _ _) as [q r] eqn:Eq. apply round_not_nan.
    assert (q = (q, r).1) as -> by done. rewrite <- Eq.
    match goal with |- 0 <= (Z.div_eucl ?a ?b).1 => change (0 <= a / b) end.
    apply Z.div_pos; [|apply Z.pow_pos_nonneg; lia]. case_match; [lia|apply Z.shiftl_nonneg; lia|lia].
Qed.

Lemma number_ordered n : ordered (fun n1 n2 => dcmp (jn_value n1) (jn_value n2)) n.
Proof.
  destruct (on_ordered (fun n => dbl_key (jn_value n)) (then_cmp (then_cmp cmp cmp) cmp) n) as [F C];
    [by repeat apply then_ordered; apply cmp_ordered|].
  assert (forall n1 n2, dcmp (jn_value n1) (jn_value n2) = then_cmp (then_cmp cmp cmp) cmp (dbl_key (jn_value n1)) (dbl_key (jn_value n2))) as E
    by (intros; apply dcmp_key; apply decimal_not_nan).
  split; [intros m|intros m k]; rewrite !E; [apply F|apply C].
Qed.

(** ** The order of values *)

(** What ICU documents of a collator that was opened: it gives an order. *)
Class CollatorLaws `{HU : Collator} : Type := {
  ucol_cmp : bytes -> bytes -> Z;
  ucol_order : Comparison ucol_cmp;
  ucol_succeeds : forall s1 s2, ucol_strcoll s1 s2 = Some (ucol_cmp s1 s2)
}.

Section TotalOrder.
Context `{HU : Collator, !CollatorLaws}.
Variable mode : CollateJSONMode.

Lemma string_ordered s : ordered (string_cmp mode) s.
Proof.
  unfold string_cmp. destruct (decide (mode = kCollateJSON_Unicode)) as [Hm|Hm].
  - pose proof ucol_order. apply (on_ordered (map decode_char)). destruct (sign_ordered ucol_cmp (map decode_char s)) as [F C].
    assert (forall a b, compareUnicode a b = cmp (ucol_cmp a b) 0) as E
      by (intros; unfold compareUnicode, cmp; rewrite ucol_succeeds; repeat case_decide; lia).
    split; [intros y|intros y z]; rewrite !E; [apply F|apply C].
  - apply (on_ordered (fun s => map schar (map decode_char s))). apply lex_ordered, Forall_true. intros. apply cmp_ordered.
Qed.

(** Values of one type are compared by [c]; the others by the ranks of their types. *)
Lemma by_type_ordered v :
  (forall v2, type_of v2 = type_of v -> collate mode v v2 = - collate mode v2 v) ->
  (forall v2 v3, type_of v2 = type_of v -> type_of v3 = type_of v -> collate mode v v2 <= 0 -> collate mode v2 v3 <= 0 ->
     collate mode v v3 <= 0 /\ (collate mode v v3 = 0 <-> collate mode v v2 = 0 /\ collate mode v2 v3 = 0)) ->
  ordered (collate mode) v.
Proof.
  intros F C.
  assert (forall a b, type_of a <> type_of b -> collate mode a b <= 0 ->
    type_rank mode (type_of a) < type_rank mode (type_of b) /\ collate mode a b = -1) as L.
  { intros a b Hne. destruct (collate_types mode a b Hne) as [-> Hz]. intros Hle.
    destruct (cmp_sign (type_rank mode (type_of a)) (type_rank mode (type_of b))).
    assert (type_rank mode (type_of a) <> type_rank mode (type_of b)) by (by intros ?%type_rank_inj). lia. }
  assert (forall a b, type_rank mode (type_of a) < type_rank mode (type_of b) -> collate mode a b = -1) as R.
  { intros a b Hlt. destruct (collate_types mode a b) as [-> _]; [intros E; rewrite E in Hlt; lia|]. by apply cmp_sign. }
  split.
  - intros v2. destruct (decide (type_of v2 = type_of v)) as [|Hne]; [by apply F|].
    destruct (collate_types mode v v2) as [-> _]; [by auto|]. destruct (collate_types mode v2 v) as [-> _]; [done|].
    unfold cmp. repeat case_decide; lia.
  - intros v2 v3 H1 H2.
    destruct (decide (type_of v = type_of v2)) as [E2|N2], (decide (type_of v2 = type_of v3)) as [E3|N3].
    + apply C; congruence.
    + destruct (L _ _ N3 H2) as [Hlt E]. rewrite <- E2 in Hlt. rewrite (R _ _ Hlt). lia.
    + destruct (L _ _ N2 H1) as [Hlt E]. rewrite E3 in Hlt. rewrite (R _ _ Hlt). lia.
    + destruct (L _ _ N2 H1) as [Hlt1 E1], (L _ _ N3 H2) as [Hlt2 E2]. rewrite (R v v3) by lia. lia.
Qed.

Lemma collate_ordered v : ordered (collate mode) v.
Proof.
  induction v as [| | |n|s|l IH|l IH] using json_induction; apply by_type_ordered; intros.
  all: repeat match goal with H : type_of ?v = _ |- _ => destruct v; try discriminate H; clear H end.
  all: cbn [collate] in *.
  1-6: rewrite ?cmp_refl in *; done || lia.
  - apply number_ordered.
  - by apply (number_ordered n).
  - apply string_ordered.
  - by apply string_ordered.
  - by apply (lex_ordered _ l IH).
  - by apply (lex_ordered _ l IH).
  - apply (lex_ordered (then_cmp (string_cmp mode) (collate mode)) l).
    eapply List.Forall_impl; [|exact IH]. intros kv Hkv. apply then_ordered; [apply string_ordered|done].
  - apply (lex_ordered (then_cmp (string_cmp mode) (collate mode)) l); [|done|done].
    eapply List.Forall_impl; [|exact IH]. intros kv Hkv. apply then_ordered; [apply string_ordered|done].
Qed.
End TotalOrder.

(** ** CollateJSON *)

Section Collation.
Context `{HU : Collator}.

(** A number at the top is copied and terminated before it is read. *)
Lemma read_number_print n r : jnumber_ok n -> readNumber (print_number n ++ r) (blen (print_number n)) = Some (jn_value n, r).
Proof.
  intros Hn. destruct (print_type (JNumber n) Hn) as (c & t & E & _). cbn in E. unfold readNumber, blen.
  rewrite decide_True by (rewrite E; cbn; lia). rewrite Nat2Z.id, decide_True by (rewrite length_app; lia).
  rewrite take_app_length, strtod_print by (done || by repeat right). cbn [mbind option_bind length].
  do 2 f_equal. by rewrite Nat.sub_succ, Nat.sub_0_r, drop_app_length.
Qed.

Lemma collate_text mode v1 v2 m1 m2 : json_ok v1 -> json_ok v2 ->
  CollateJSON (print v1 ++ m1) (blen (print v1)) (print v2 ++ m2) (blen (print v2)) mode = Some (collate mode v1 v2).
Proof.
  intros H1 H2. unfold CollateJSON.
  destruct (values_lead mode (print v1 ++ m1) (print v2 ++ m2) (blen (print v1)) (blen (print v2)) v1 H1 v2 0 m1 m2 H2 ltac:(lia))
    as (k & Hk & L).
  - destruct v1, v2; try done. cbn. unfold read_at. rewrite !decide_True by done. unfold blen. rewrite !Z.sub_diag, !Z.sub_0_r.
    by rewrite !read_number_print.
  - replace (S (length (print v1 ++ m1))) with (k + (S (length (print v1 ++ m1)) - k))%nat by (rewrite length_app; lia).
    rewrite L. unfold verdict. by case_decide as E; [rewrite E|].
Qed.


(** C15: CollateJSON is a total order of the texts of values. *)
Theorem CollateJSON_orders mode `{!CollatorLaws} :
  Compares json_ok (fun v1 v2 => CollateJSON (print v1) (blen (print v1)) (print v2) (blen (print v2)) mode) (collate mode).
Proof.
  split; [apply ordered_Comparison, collate_ordered|]. intros v1 v2 H1 H2.
  rewrite <- (app_nil_r (print v1)) at 1. rewrite <- (app_nil_r (print v2)) at 1. by apply collate_text.
Qed.
End Collation.

(** ** Examples *)

(** A collator that compares bytes. *)
Definition byte_collator : Collator := fun s1 s2 => Some (lex_cmp cmp (map b2z s1) (map b2z s2)).

Definition byte_collator_laws : @CollatorLaws byte_collator.
Proof.
  refine {| ucol_cmp := fun s1 s2 => lex_cmp cmp (map b2z s1) (map b2z s2) |}; [|done].
  apply ordered_Comparison. intros s. apply (on_ordered (map b2z)), lex_ordered, Forall_true. intros. apply cmp_ordered.
Defined.

Definition number (neg : bool) (i f : list Z) : jnumber := {| jn_neg := neg; jn_int := i; jn_frac := f; jn_exp := None |}.

(** ["a",-12.5,{"\u0041":null}] and the same with 0x0A escaped and false at the end. *)
Definition sample1 : json :=
  JArray [JString [JPlain Byte.x61]; JNumber (number true [1; 2] [5]); JObject [([JUnicode Byte.x30 Byte.x30 Byte.x34 Byte.x31], JNull)]].
Definition sample2 : json :=
  JArray [JString [JPlain Byte.x61]; JNumber (number true [1; 2] [5; 0]); JObject [([JPlain Byte.x41], JFalse)]].

Lemma sample1_ok : json_ok sample1.
Proof. repeat constructor; done. Qed.
Lemma sample2_ok : json_ok sample2.
Proof. repeat constructor; done. Qed.


Lemma CollateJSON_orders_witness :
  exists z, @CollateJSON byte_collator (print sample2) (blen (print sample2)) (print sample1) (blen (print sample1)) kCollateJSON_Raw = Some z /\ z <= 0.
Proof.
  pose proof (@CollateJSON_orders byte_collator kCollateJSON_Raw byte_collator_laws) as [_ H].
  exists (-1). rewrite (H sample2 sample1) by (apply sample1_ok || apply sample2_ok). by vm_compute.
Defined.

(** A string of one character as it is written. *)
Definition quoted (c : jchar) : bytes := print_string [c].
Definition collate_quoted (mode : CollateJSONMode) (c1 c2 : jchar) : option Z :=
  @CollateJSON byte_collator (quoted c1) (blen (quoted c1)) (quoted c2) (blen (quoted c2)) mode.


