(* ===== verification/JsonReduce.v ===== *)
(** * JsonReduce: the built-in reductions of JSON values

    Models src/json_reduce.c: how many values a view has, the sum of those that are
    numbers, and their statistics.  A reducer keeps its state in a buffer of its
    caller, as a number or a structure; here the buffer has that type.  The result is
    printed over it as JSON, and read again when reductions are reduced.  [None]
    stands for a failed assertion, for undefined behaviour, and for the text of a NaN,
    which C leaves open. *)

From Stdlib Require Import ZArith Lia Floats.SpecFloat Strings.String.
From S2P Require Import Prelude CNumbers JsonText CollateJson CollateSpec.
From stdpp Require Import list numbers sets.

#[local] Open Scope Z_scope.

(** ** Numbers in buffers

    A [sized_buf] is the memory it points to and its size. *)

(** The terminated copy, or [Some None] when the size does not suit. *)
Definition buf_to_str (buf : bytes) (size : Z) : option (option bytes) :=
  if decide (size < 1 \/ 31 < size) then Some None
  else if decide (size <= blen buf) then Some (Some (take (Z.to_nat size) buf ++ [Byte.x00]))
  else None.

(** The number, if the conversion took a character. *)
Definition converted {A} (str : bytes) (r : A * bytes) : option A :=
  if decide (length r.2 < length str)%nat then Some r.1 else None.

Definition buf_to_uint64 (buf : bytes) (size : Z) : option (option Z) :=
  str ← buf_to_str buf size;
  match str with
  | None => Some None
  | Some str => r ← strtoull str; Some (converted str r)
  end.

Definition buf_to_double (buf : bytes) (size : Z) : option (option double) :=
  str ← buf_to_str buf size;
  match str with
  | None => Some None
  | Some str => r ← strtod str; Some (converted str r)
  end.

(** The text with its terminator fits the buffer. *)
Definition sprintf (size : Z) (text : bytes) : option bytes :=
  if decide (blen text < size) then Some text else None.

(** A reducer: [add] is given a key and a value, [add_reduced] the memory and the size
    of a reduced value, [finish] the size of the buffer. *)
Record JSONReducer : Type := {
  jr_buf : Type;
  jr_init : jr_buf;
  jr_add : jr_buf -> bytes -> bytes -> option jr_buf;
  jr_add_reduced : jr_buf -> bytes -> Z -> option jr_buf;
  jr_finish : jr_buf -> Z -> option bytes
}.

(** ** Count *)

Definition init_count : Z := 0.
Definition add_count (buffer : Z) (key value : bytes) : option Z := Some (u64 (buffer + 1)).
Definition add_reduced_count (buffer : Z) (reduced_value : bytes) (size : Z) : option Z :=
  parsed ← buf_to_uint64 reduced_value size;
  reduced_count ← parsed;
  Some (u64 (buffer + reduced_count)).
Definition finish_count (buffer : Z) (size : Z) : option bytes := sprintf size (print_llu buffer).

Definition JSONCountReducer : JSONReducer :=
  {| jr_init := init_count; jr_add := add_count; jr_add_reduced := add_reduced_count; jr_finish := finish_count |}.

(** ** Sum *)

Definition init_sum : double := dbl_zero.
Definition add_sum (buffer : double) (key value : bytes) : option double :=
  n ← buf_to_double value (blen value);
  match n with Some n => Some (dbl_add buffer n) | None => Some buffer end.
Definition add_reduced_sum (buffer : double) (reduced_value : bytes) (size : Z) : option double :=
  parsed ← buf_to_double reduced_value size;
  reduced_sum ← parsed;
  Some (dbl_add buffer reduced_sum).
Definition finish_sum (buffer : double) (size : Z) : option bytes := text ← print_lg buffer; sprintf size text.

Definition JSONSumReducer : JSONReducer :=
  {| jr_init := init_sum; jr_add := add_sum; jr_add_reduced := add_reduced_sum; jr_finish := finish_sum |}.

(** ** Statistics *)

Record stats : Type := { st_count : Z; st_sum : double; st_min : double; st_max : double; st_sumsqr : double }.

Definition init_stats : stats :=
  {| st_count := 0; st_sum := dbl_zero; st_min := dbl_zero; st_max := dbl_zero; st_sumsqr := dbl_zero |}.

Definition add_stats (s : stats) (key value : bytes) : option stats :=
  n ← buf_to_double value (blen value);
  match n with
  | None => Some s
  | Some n =>
      let '(min, max) :=
        if decide (st_count s = 0) then (n, n)
        else if dbl_gt n (st_max s) then (st_min s, n)
        else if dbl_lt n (st_min s) then (n, st_max s)
        else (st_min s, st_max s) in
      Some {| st_count := u64 (st_count s + 1); st_sum := dbl_add (st_sum s) n; st_min := min; st_max := max;
              st_sumsqr := dbl_add (st_sumsqr s) (dbl_mul n n) |}
  end.

(** The name of a field after [open], in quotes, and a colon. *)
Definition field (open : byte) (name : string) : bytes :=
  open :: Byte.x22 :: list_byte_of_string name ++ [Byte.x22; Byte.x3a].

(** The directives of sscanf: a literal text, %llu and %lg.  The assertion fails when
    one of them does not match, except for the last bracket, which stores nothing.  A
    number that a letter follows, where sscanf and strtod may differ, is left out. *)
Fixpoint scan_literal (w s : bytes) : option bytes :=
  match w, s with
  | [], _ => Some s
  | a :: w, c :: s => if decide (a = c) then scan_literal w s else None
  | _, [] => None
  end.
Definition scan_llu (s : bytes) : option (Z * bytes) :=
  r ← strtoull s; n ← converted s r; Some (n, r.2).
Definition scan_lg (s : bytes) : option (double * bytes) :=
  r ← strtod s;
  n ← converted s r;
  c ← head r.2;
  let z := b2z (tolower c) in if decide (97 <= z <= 122) then None else Some (n, r.2).

Definition scan_stats (buf : bytes) : option stats :=
  r ← scan_literal (field Byte.x7b "count") buf;
  '(count, r) ← scan_llu r;
  r ← scan_literal (field Byte.x2c "max") r;
  '(max, r) ← scan_lg r;
  r ← scan_literal (field Byte.x2c "min") r;
  '(min, r) ← scan_lg r;
  r ← scan_literal (field Byte.x2c "sum") r;
  '(sum, r) ← scan_lg r;
  r ← scan_literal (field Byte.x2c "sumsqr") r;
  '(sumsqr, _) ← scan_lg r;
  Some {| st_count := count; st_sum := sum; st_min := min; st_max := max; st_sumsqr := sumsqr |}.

(** The size of the reduced value is not looked at. *)
Definition add_reduced_stats (s : stats) (reduced_value : bytes) (size : Z) : option stats :=
  reduced ← scan_stats reduced_value;
  Some {| st_count := u64 (st_count s + st_count reduced);
          st_sum := dbl_add (st_sum s) (st_sum reduced);
          st_min := if dbl_lt (st_min reduced) (st_min s) || (st_count s =? 0) then st_min reduced else st_min s;
          st_max := if dbl_gt (st_max reduced) (st_max s) || (st_count s =? 0) then st_max reduced else st_max s;
          st_sumsqr := dbl_add (st_sumsqr s) (st_sumsqr reduced) |}.

Definition print_stats (s : stats) : option bytes :=
  max ← print_lg (st_max s);
  min ← print_lg (st_min s);
  sum ← print_lg (st_sum s);
  sumsqr ← print_lg (st_sumsqr s);
  Some (field Byte.x7b "count" ++ print_llu (st_count s) ++ field Byte.x2c "max" ++ max ++ field Byte.x2c "min" ++ min ++
        field Byte.x2c "sum" ++ sum ++ field Byte.x2c "sumsqr" ++ sumsqr ++ [Byte.x7d]).

Definition finish_stats (s : stats) (size : Z) : option bytes :=
  text ← print_stats s;
  text ← sprintf size text;
  if decide (blen text <= size) then Some text else None.

Definition JSONStatsReducer : JSONReducer :=
  {| jr_init := init_stats; jr_add := add_stats; jr_add_reduced := add_reduced_stats; jr_finish := finish_stats |}.

(** The values of a run of items. *)
Fixpoint add_all (r : JSONReducer) (s : jr_buf r) (key : bytes) (values : list bytes) : option (jr_buf r) :=
  match values with
  | [] => Some s
  | v :: values => s ← jr_add r s key v; add_all r s key values
  end.

(** ** Printed numbers can be read

    A [spec_float] that is a binary64 number, other than a NaN. *)
Definition dbl_ok (d : double) : Prop :=
  match d with
  | S754_nan => False
  | S754_finite _ m e => Z.pos m < 2 ^ 53 /\ -1074 <= e <= 971
  | _ => True
  end.

Lemma dec_digits_rev_bounds fuel n : 0 < n < 10 ^ Z.of_nat fuel ->
  exists l, length (dec_digits_rev fuel n) = S l /\ 10 ^ Z.of_nat l <= n < 10 ^ Z.of_nat (S l).
Proof.
  revert n. induction fuel as [|fuel IH]; intros n Hn; [cbn in Hn; lia|].
  cbn [dec_digits_rev]. rewrite decide_False by lia. cbn [length].
  replace (Z.of_nat (S fuel)) with (Z.of_nat fuel + 1) in Hn by lia. rewrite Z.pow_add_r in Hn by lia.
  pose proof (Z.mod_pos_bound n 10 ltac:(lia)) as Hm. pose proof (Z.div_mod n 10 ltac:(lia)) as Hd.
  destruct (decide (n < 10)) as [Hs|Hs].
  - exists 0%nat. rewrite Z.div_small by lia.
    replace (dec_digits_rev fuel 0) with (@nil Z) by (by destruct fuel). split; [done|]. cbn. lia.
  - destruct (IH (n / 10)) as (l & -> & Hl); [lia|]. exists (S l). split; [done|].
    rewrite !Nat2Z.inj_succ, !Z.pow_succ_r in * by lia. lia.
Qed.

Lemma dec_digits_bounds n : 0 < n ->
  exists l, length (dec_digits n) = S l /\ 10 ^ Z.of_nat l <= n < 10 ^ Z.of_nat (S l).
Proof.
  intros Hn. unfold dec_digits. rewrite length_rev. apply dec_digits_rev_bounds.
  pose proof (Z.log2_spec n Hn) as [_ Hl]. pose proof (Z.log2_nonneg n).
  replace (Z.of_nat (S (Z.to_nat (Z.log2 n)))) with (Z.succ (Z.log2 n)) by lia.
  pose proof (Z.pow_le_mono_l 2 10 (Z.succ (Z.log2 n)) ltac:(lia)). lia.
Qed.

Lemma dec_digits_short n k : 0 < n < 10 ^ Z.of_nat k -> (length (dec_digits n) <= k)%nat.
Proof.
  intros [H1 H2]. destruct (dec_digits_bounds n H1) as (l & -> & Hl & _).
  assert (Z.of_nat l < Z.of_nat k) by (apply (Z.pow_lt_mono_r_iff 10); lia). lia.
Qed.

(** The exponent is that of the first digit. *)
Lemma leading_exponent_spec num den : 0 < num -> 0 < den ->
  let x := leading_exponent num den in
  den * 10 ^ Z.max 0 x <= num * 10 ^ Z.max 0 (- x) /\ num * 10 ^ Z.max 0 (- x - 1) < den * 10 ^ Z.max 0 (x + 1).
Proof.
  intros Hn Hd. unfold leading_exponent. case_decide as Hc.
  - assert (0 < num / den) as Hq by (apply Z.div_str_pos; lia).
    destruct (dec_digits_bounds _ Hq) as (l & -> & Hl). cbv zeta.
    replace (Z.of_nat (S l) - 1) with (Z.of_nat l) by lia. rewrite Nat2Z.inj_succ in Hl.
    rewrite (Z.max_r 0 (Z.of_nat l)), (Z.max_r 0 (Z.of_nat l + 1)), (Z.max_l 0 (- _)), (Z.max_l 0 (- _ - 1)) by lia. rewrite !Z.pow_0_r.
    pose proof (Z.div_mod num den ltac:(lia)). pose proof (Z.mod_pos_bound num den ltac:(lia)).
    unfold Z.succ in Hl. assert (den * 10 ^ Z.of_nat l <= den * (num / den)) by (apply Z.mul_le_mono_nonneg_l; lia).
    assert (den * (num / den + 1) <= den * 10 ^ (Z.of_nat l + 1)) by (apply Z.mul_le_mono_nonneg_l; lia). lia.
  - assert (0 < (den - 1) / num) as Hq by (apply Z.div_str_pos; lia).
    destruct (dec_digits_bounds _ Hq) as (l & -> & Hl). cbv zeta.
    rewrite (Z.max_l 0 (- Z.of_nat (S l))), (Z.max_l 0 (- Z.of_nat (S l) + 1)) by lia. rewrite (Z.max_r 0 (- - Z.of_nat (S l))), (Z.max_r 0 (- - Z.of_nat (S l) - 1)) by lia. rewrite !Z.pow_0_r.
    replace (- - Z.of_nat (S l)) with (Z.of_nat (S l)) by lia. replace (Z.of_nat (S l) - 1) with (Z.of_nat l) by lia.
    pose proof (Z.div_mod (den - 1) num ltac:(lia)). pose proof (Z.mod_pos_bound (den - 1) num ltac:(lia)).
    assert (num * 10 ^ Z.of_nat l <= num * ((den - 1) / num)) by (apply Z.mul_le_mono_nonneg_l; lia).
    assert (num * ((den - 1) / num + 1) <= num * 10 ^ Z.of_nat (S l)) by (apply Z.mul_le_mono_nonneg_l; lia). lia.
Qed.

Lemma pow10_split a b : 0 <= a -> 0 <= b -> 10 ^ (a + b) = 10 ^ a * 10 ^ b.
Proof. intros. by apply Z.pow_add_r. Qed.

(** Scaled by it, the number has fifteen digits before the point. *)
Lemma scaled_bounds num den : 0 < num -> 0 < den ->
  let x := leading_exponent num den in
  let n := num * 10 ^ Z.max 0 (14 - x) in let d := den * 10 ^ Z.max 0 (x - 14) in
  0 < d /\ 10 ^ 14 * d <= n /\ n < 10 ^ 15 * d.
Proof.
  intros Hn Hd x n d. destruct (leading_exponent_spec num den Hn Hd) as [H1 H2]. fold x in H1, H2.
  assert (forall k, 0 <= k -> 0 < 10 ^ k) as Hp by (intros; by apply Z.pow_pos_nonneg). unfold n, d.
  split; [pose proof (Hp (Z.max 0 (x - 14))); nia|].
  destruct (decide (x < 0)) as [Hx|Hx]; [|destruct (decide (x <= 14)) as [Hx2|Hx2]].
  - rewrite (Z.max_l 0 x), (Z.max_r 0 (- x)) in H1 by lia. rewrite (Z.max_r 0 (- x - 1)), (Z.max_l 0 (x + 1)) in H2 by lia.
    rewrite (Z.max_r 0 (14 - x)), (Z.max_l 0 (x - 14)), !Z.pow_0_r in * by lia.
    replace (14 - x) with (14 + - x) at 1 by lia. replace (14 - x) with (15 + (- x - 1)) by lia.
    rewrite !pow10_split by lia. pose proof (Hp 14). pose proof (Hp 15). nia.
  - rewrite (Z.max_r 0 x), (Z.max_l 0 (- x)) in H1 by lia. rewrite (Z.max_l 0 (- x - 1)), (Z.max_r 0 (x + 1)) in H2 by lia.
    rewrite (Z.max_r 0 (14 - x)), (Z.max_l 0 (x - 14)), !Z.pow_0_r in * by lia.
    replace 14 with (x + (14 - x)) at 1 by lia. replace 15 with ((x + 1) + (14 - x)) at 1 by lia.
    rewrite !(pow10_split _ (14 - x)) by lia. pose proof (Hp (14 - x) ltac:(lia)) as HP.
    apply (Z.mul_le_mono_pos_r _ _ _ HP) in H1. apply (Z.mul_lt_mono_pos_r _ _ _ HP) in H2. lia.
  - rewrite (Z.max_r 0 x), (Z.max_l 0 (- x)) in H1 by lia. rewrite (Z.max_l 0 (- x - 1)), (Z.max_r 0 (x + 1)) in H2 by lia.
    rewrite (Z.max_l 0 (14 - x)), (Z.max_r 0 (x - 14)), !Z.pow_0_r in * by lia.
    replace x with (14 + (x - 14)) in H1 by lia. replace (x + 1) with (15 + (x - 14)) in H2 by lia.
    rewrite !(pow10_split _ (x - 14)) in * by lia. lia.
Qed.

Lemma round_div_bounds a b n d : 0 < d -> a * d <= n -> n < b * d -> a <= round_div n d <= b.
Proof.
  intros Hd Ha Hb. unfold round_div. pose proof (Z.div_mod n d ltac:(lia)). pose proof (Z.mod_pos_bound n d Hd).
  assert (a <= n / d < b) by (split; [apply Z.div_le_lower_bound; lia|apply Z.div_lt_upper_bound; lia]).
  repeat case_decide; [lia|lia|]. destruct (Z.even _); lia.
Qed.

Lemma strip_zeros_ok ds : digits_ok ds -> digits_ok (strip_zeros ds) /\ (length (strip_zeros ds) <= length ds)%nat.
Proof.
  intros Hd. unfold strip_zeros. rewrite length_rev, <- (length_rev ds).
  assert (digits_ok (rev ds)) as Hr by (by apply Forall_rev).
  assert (forall l, digits_ok l -> digits_ok (strip_zeros_rev l) /\ (length (strip_zeros_rev l) <= length l)%nat) as H.
  { induction l as [|d l IH]; intros Hl; [done|]. pose proof Hl as [_ Hl2]%list.Forall_cons. cbn [strip_zeros_rev].
    destruct d; [|by split..]. destruct (IH Hl2). cbn. split; [done|lia]. }
  destruct (H _ Hr). split; [by apply Forall_rev|done].
Qed.

(** The exponent as it is printed. *)
Definition exponent_text (x : Z) : jexp :=
  let ds := dec_digits (Z.abs x) in
  {| je_letter := Byte.x65; je_sign := Some (bool_decide (x < 0)); je_digits := replicate (2 - length ds) 0 ++ ds |}.

(** With its sign, [text] is a number of JSON, and short. *)
Definition prints_number (s : bool) (text : bytes) : Prop :=
  exists n, jnumber_ok n /\ (if s then [Byte.x2d] else []) ++ text = print_number n /\ (length (print_number n) <= 24)%nat.

Lemma prints_with_point (s : bool) ip fp e : digits_ok ip -> ip <> [] -> digits_ok fp -> exp_ok e ->
  (length ip + length fp + length (print_exp e) <= 22)%nat -> prints_number s (with_point ip fp ++ print_exp e).
Proof.
  intros Hi Hne Hf He Hl. exists {| jn_neg := s; jn_int := ip; jn_frac := fp; jn_exp := e |}. split; [by split|].
  unfold print_number, with_point. cbn [jn_neg jn_int jn_frac jn_exp]. rewrite <- !app_assoc. split; [done|].
  rewrite !length_app, length_map. destruct s, fp; cbn [length map] in *; rewrite ?length_map; lia.
Qed.

Lemma print_exponent_text x : 4 < Z.abs x < 1000 ->
  print_exponent x = print_exp (Some (exponent_text x)) /\ exp_ok (Some (exponent_text x)) /\ (length (print_exponent x) <= 5)%nat.
Proof.
  intros Hx. destruct (dec_digits_value (Z.abs x)) as [_ Hed]; [lia|].
  pose proof (dec_digits_short (Z.abs x) 3 ltac:(cbn; lia)) as Hel.
  destruct (dec_digits_bounds (Z.abs x)) as (l & El & _); [lia|].
  unfold print_exponent, exponent_text. cbn [print_exp exp_ok je_letter je_sign je_digits]. split_and!; [|done| | |].
  - destruct (decide (x < 0)); [rewrite bool_decide_true by done|rewrite bool_decide_false by done]; done.
  - apply Forall_app; split; [by apply Forall_replicate|done].
  - intros [_ E]%app_nil. by rewrite E in El.
  - cbn [length]. rewrite length_map, length_app, length_replicate. lia.
Qed.

(** What %.15lg prints for fifteen digits is a number of JSON. *)
Lemma print_g_number (s : bool) ds x : digits_ok ds -> length ds = 15%nat -> -1000 < x < 1000 -> prints_number s (print_g ds x).
Proof.
  intros Hd Hl Hx. assert (forall k, digits_ok (take k ds) /\ digits_ok (drop k ds)) as Hk.
  { intros k. split; [by apply Forall_take|by apply Forall_drop]. }
  unfold print_g. case_decide as H1; [|case_decide as H2].
  - destruct (strip_zeros_ok (drop 1 ds) (proj2 (Hk 1%nat))) as [Hf Hfl]. destruct (print_exponent_text x) as (E & He & Hel); [lia|].
    rewrite E in *. apply prints_with_point; [apply Hk|by destruct ds|done|done|].
    rewrite length_drop in Hfl. rewrite length_take. lia.
  - destruct (strip_zeros_ok (drop (Z.to_nat (x + 1)) ds) (proj2 (Hk _))) as [Hf Hfl].
    rewrite <- (app_nil_r (with_point _ _)). change [] with (print_exp None). apply prints_with_point; [apply Hk| |done|done|].
    + replace (Z.to_nat (x + 1)) with (S (Z.to_nat x)) by lia. by destruct ds.
    + rewrite length_drop in Hfl. rewrite length_take. cbn. lia.
  - destruct (strip_zeros_ok ds Hd) as [Hf Hfl].
    rewrite <- (app_nil_r (with_point _ _)). change [] with (print_exp None) at 2. apply prints_with_point; [by repeat constructor|done| |done|].
    + apply Forall_app; split; [by apply Forall_replicate|done].
    + rewrite length_app, length_replicate. cbn. lia.
Qed.

Lemma leading_exponent_bounds num den A B k : 0 < num < A -> 0 < den <= B -> A < 10 ^ k -> B < 10 ^ (k - 1) -> 0 < k ->
  - k < leading_exponent num den < k.
Proof.
  intros Hn Hd HA HB Hk. destruct (leading_exponent_spec num den) as [H1 H2]; [lia|lia|]. set (x := leading_exponent num den) in *. split.
  - apply Z.nle_gt. intros Hx. rewrite (Z.max_l 0 (x + 1)) in H2 by lia.
    assert (10 ^ (k - 1) <= 10 ^ Z.max 0 (- x - 1)) by (apply Z.pow_le_mono_r; lia). nia.
  - apply Z.nle_gt. intros Hx. rewrite (Z.max_l 0 (- x)) in H1 by lia.
    assert (10 ^ k <= 10 ^ Z.max 0 x) by (apply Z.pow_le_mono_r; lia). nia.
Qed.

(** The exponents of doubles have at most three digits. *)
Lemma exponent_bounds m e : Z.pos m < 2 ^ 53 -> -1074 <= e <= 971 ->
  -999 < leading_exponent (Z.pos m * 2 ^ Z.max 0 e) (2 ^ Z.max 0 (- e)) < 999.
Proof.
  intros Hm He. assert (forall k, 0 < 2 ^ Z.max 0 k) as Hpos by (intros; apply Z.pow_pos_nonneg; lia).
  apply (leading_exponent_bounds _ _ (2 ^ (53 + 971)) (2 ^ 1074) 999); [split| |by vm_compute..].
  - apply Z.mul_pos_pos; [done|apply Hpos].
  - rewrite Z.pow_add_r by done. apply (Z.lt_le_trans _ (2 ^ 53 * 2 ^ Z.max 0 e)).
    + apply Z.mul_lt_mono_pos_r; [apply Hpos|done].
    + apply Z.mul_le_mono_nonneg_l; [done|]. apply Z.pow_le_mono_r; [done|]. apply Z.max_lub; [done|apply He].
  - split; [apply Hpos|]. apply Z.pow_le_mono_r; [done|]. clear Hpos. lia.
Qed.

Lemma dec_digits_15 r : 10 ^ 14 <= r < 10 ^ 15 -> digits_ok (dec_digits r) /\ length (dec_digits r) = 15%nat.
Proof.
  intros Hr. split; [apply dec_digits_value; lia|]. destruct (dec_digits_bounds r) as (l & -> & H1 & H2); [lia|].
  assert (Z.of_nat l < 15) by (apply (Z.pow_lt_mono_r_iff 10); lia).
  assert (14 < Z.of_nat (S l)) by (apply (Z.pow_lt_mono_r_iff 10); lia). lia.
Qed.

(** %.15lg prints a double as a short text that strtod reads to its end. *)
Lemma print_lg_reads d : dbl_ok d ->
  exists text d', print_lg d = Some text /\ 0 < blen text <= 24 /\
    forall c r, delimiter c -> strtod (text ++ c :: r) = Some (d', c :: r).
Proof.
  assert (forall s text, prints_number s text -> exists text' d', Some ((if s then [Byte.x2d] else []) ++ text) = Some text' /\
    0 < blen text' <= 24 /\ forall c r, delimiter c -> strtod (text' ++ c :: r) = Some (d', c :: r)) as Hn.
  { intros s text (n & Hok & -> & Hl). exists (print_number n), (jn_value n). split; [done|]. split.
    - destruct (print_number n) as [|b t] eqn:E; [|unfold blen; cbn in *; lia].
      unfold print_number in E. destruct Hok as [[_ Hne] _ _]. destruct (jn_neg n), (jn_int n); done.
    - intros c r Hc. by apply strtod_print. }
  destruct d as [s|s| |s m e]; cbn [dbl_ok print_lg]; intros Hd.
  - apply (Hn s). exists {| jn_neg := s; jn_int := [0]; jn_frac := []; jn_exp := None |}.
    split; [by repeat constructor|]. by destruct s; cbn; split; [|lia|..|lia].
  - exists ((if s then [Byte.x2d] else []) ++ [Byte.x69; Byte.x6e; Byte.x66]), (S754_infinity s). split; [done|].
    split; [by destruct s|]. intros c r Hc. by destruct Hc as [->|[->|[->| ->]]], s.
  - done.
  - destruct Hd as [Hm He]. set (num := Z.pos m * 2 ^ Z.max 0 e). set (den := 2 ^ Z.max 0 (- e)).
    assert (0 < num) by (apply Z.mul_pos_pos; [lia|apply Z.pow_pos_nonneg; lia]).
    assert (0 < den) by (apply Z.pow_pos_nonneg; lia).
    pose proof (exponent_bounds m e Hm He) as Hx. fold num den in Hx.
    destruct (scaled_bounds num den) as (Hp & Hlo & Hhi); [done|done|]. set (x := leading_exponent num den) in *.
    pose proof (round_div_bounds _ _ _ _ Hp Hlo Hhi) as Hr. set (r := round_div _ _) in *.
    apply (Hn s). case_decide as Er.
    + destruct (dec_digits_15 (10 ^ 14)) as [??]; [lia|]. apply print_g_number; [done|done|lia].
    + destruct (dec_digits_15 r) as [??]; [lia|]. apply print_g_number; [done|done|lia].
Qed.

(** ** Reductions of reductions *)

Lemma converted_app {A} (n : A) text c r : text <> [] -> converted (text ++ c :: r) (n, c :: r) = Some n.
Proof. intros Hn. unfold converted. rewrite decide_True; [done|]. rewrite length_app. destruct text; cbn; [done|lia]. Qed.

Lemma scan_literal_app w r : scan_literal w (w ++ r) = Some r.
Proof. induction w as [|a w IH]; cbn; [by destruct r|]. by rewrite decide_True. Qed.

Lemma print_llu_length n : 0 <= n < 2 ^ 64 -> 0 < blen (print_llu n) <= 20.
Proof.
  intros Hn. unfold print_llu. case_decide; [done|]. unfold blen. rewrite length_map.
  destruct (dec_digits_bounds n) as (l & El & _); [lia|].
  pose proof (dec_digits_short n 20 ltac:(cbn; lia)) as Hl. lia.
Qed.

Lemma text_nonempty (text : bytes) : 0 < blen text -> text <> [].
Proof. by intros ? ->. Qed.

Lemma scan_llu_print n c r : 0 <= n < 2 ^ 64 -> digit c = None -> scan_llu (print_llu n ++ c :: r) = Some (n, c :: r).
Proof.
  intros Hn Hc. unfold scan_llu. rewrite strtoull_print by done. cbn [mbind option_bind].
  rewrite converted_app by (apply text_nonempty, print_llu_length; lia). done.
Qed.

Lemma scan_lg_text text d c r : 0 < blen text -> delimiter c -> strtod (text ++ c :: r) = Some (d, c :: r) ->
  scan_lg (text ++ c :: r) = Some (d, c :: r).
Proof.
  intros Ht Hc E. unfold scan_lg. rewrite E. cbn [mbind option_bind]. rewrite converted_app by (by apply text_nonempty).
  cbn [mbind option_bind snd head]. by destruct Hc as [->|[->|[->| ->]]].
Qed.

Lemma scan_llu_field n name r : 0 <= n < 2 ^ 64 ->
  scan_llu (print_llu n ++ field Byte.x2c name ++ r) = Some (n, field Byte.x2c name ++ r).
Proof. intros Hn. unfold field. cbn [app]. by rewrite scan_llu_print. Qed.

Lemma scan_lg_field text d name r : 0 < blen text -> (forall c r, delimiter c -> strtod (text ++ c :: r) = Some (d, c :: r)) ->
  scan_lg (text ++ field Byte.x2c name ++ r) = Some (d, field Byte.x2c name ++ r).
Proof. intros Ht H. unfold field. cbn [app]. apply scan_lg_text; [done|by left|]. apply H. by left. Qed.

Lemma buf_to_str_text text m : 0 < blen text <= 31 -> buf_to_str (text ++ m) (blen text) = Some (Some (text ++ [Byte.x00])).
Proof.
  intros Ht. unfold buf_to_str. rewrite decide_False by lia. unfold blen in *.
  rewrite decide_True by (rewrite length_app; lia). by rewrite Nat2Z.id, take_app_length.
Qed.

(** The size of the buffer view_reduce gives to a reducer. *)
Definition reduce_size : Z := 500 - 133 - 2.

Lemma add_reduced_count_print b n m : 0 <= n < 2 ^ 64 ->
  add_reduced_count b (print_llu n ++ m) (blen (print_llu n)) = Some (u64 (b + n)).
Proof.
  intros Hn. pose proof (print_llu_length n Hn) as Hl. unfold add_reduced_count, buf_to_uint64.
  rewrite buf_to_str_text by lia. cbn [mbind option_bind].
  rewrite strtoull_print by done. cbn [mbind option_bind]. by rewrite converted_app by (apply text_nonempty; lia).
Qed.

Definition stats_ok (s : stats) : Prop :=
  0 <= st_count s < 2 ^ 64 /\ dbl_ok (st_sum s) /\ dbl_ok (st_min s) /\ dbl_ok (st_max s) /\ dbl_ok (st_sumsqr s).

Lemma print_stats_reads s : stats_ok s -> exists text s', print_stats s = Some text /\ blen text <= 200 /\ st_count s' = st_count s /\
  forall m, scan_stats (text ++ m) = Some s'.
Proof.
  intros (Hc & H1 & H2 & H3 & H4).
  destruct (print_lg_reads _ H1) as (t1 & d1 & P1 & L1 & R1), (print_lg_reads _ H2) as (t2 & d2 & P2 & L2 & R2),
    (print_lg_reads _ H3) as (t3 & d3 & P3 & L3 & R3), (print_lg_reads _ H4) as (t4 & d4 & P4 & L4 & R4).
  assert (delimiter Byte.x2c /\ delimiter Byte.x7d) as [D1 D2] by (split; [by left|by do 2 right; left]).
  do 2 eexists. unfold print_stats. rewrite P1, P2, P3, P4. cbn [mbind option_bind]. split; [done|].
  pose proof (print_llu_length _ Hc) as Lc. split; [|split; [|intros m]].
  - unfold blen in *. rewrite !length_app. cbn. lia.
  - instantiate (1 := {| st_count := st_count s; st_sum := d1; st_min := d2; st_max := d3; st_sumsqr := d4 |}). done.
  - unfold scan_stats. rewrite <- !app_assoc, scan_literal_app. cbn [mbind option_bind].
    rewrite scan_llu_field by done. cbn [mbind option_bind]. rewrite scan_literal_app. cbn [mbind option_bind].
    rewrite (scan_lg_field t3 d3) by (lia || auto). cbn [mbind option_bind]. rewrite scan_literal_app. cbn [mbind option_bind].
    rewrite (scan_lg_field t2 d2) by (lia || auto). cbn [mbind option_bind]. rewrite scan_literal_app. cbn [mbind option_bind].
    rewrite (scan_lg_field t1 d1) by (lia || auto). cbn [mbind option_bind]. rewrite scan_literal_app. cbn [mbind option_bind].
    cbn [app]. rewrite (scan_lg_text t4 d4) by (lia || auto). done.
Qed.

(** A reduction can be reduced again.  What the reducers print for a count, a sum and
    statistics fits the buffer, and reading it back never fails an assertion: a count
    comes back exactly, and so does the count of the statistics; the other numbers come
    back as the doubles nearest to their fifteen digits. *)
Theorem reductions_reduce_again n d s : 0 <= n < 2 ^ 64 -> dbl_ok d -> stats_ok s ->
  (exists text, finish_count n reduce_size = Some text /\
     forall b m, add_reduced_count b (text ++ m) (blen text) = Some (u64 (b + n))) /\
  (exists text d', finish_sum d reduce_size = Some text /\
     forall b m, add_reduced_sum b (text ++ m) (blen text) = Some (dbl_add b d')) /\
  (exists text s', finish_stats s reduce_size = Some text /\ st_count s' = st_count s /\
     forall b m, exists b', add_reduced_stats b (text ++ m) (blen text) = Some b' /\
       st_count b' = u64 (st_count b + st_count s) /\ st_sum b' = dbl_add (st_sum b) (st_sum s') /\
       (st_count b = 0 -> st_min b' = st_min s' /\ st_max b' = st_max s')).
Proof.
  intros Hn Hd Hs. unfold reduce_size. split_and!.
  - exists (print_llu n). pose proof (print_llu_length n Hn). split; [|intros; by apply add_reduced_count_print].
    unfold finish_count, sprintf. by rewrite decide_True by lia.
  - destruct (print_lg_reads d Hd) as (text & d' & P & L & R). exists text, d'. unfold finish_sum. rewrite P. cbn [mbind option_bind].
    split; [unfold sprintf; by rewrite decide_True by lia|]. intros b m. unfold add_reduced_sum, buf_to_double.
    rewrite buf_to_str_text by lia. cbn [mbind option_bind]. rewrite R by (by do 3 right). cbn [mbind option_bind].
    by rewrite converted_app by (apply text_nonempty; lia).
  - destruct (print_stats_reads s Hs) as (text & s' & P & L & Ec & R). exists text, s'. unfold finish_stats. rewrite P.
    cbn [mbind option_bind]. unfold sprintf. rewrite decide_True by lia. cbn [mbind option_bind]. rewrite decide_True by lia.
    split_and!; [done|done|]. intros b m. unfold add_reduced_stats. rewrite R. cbn [mbind option_bind]. eexists. split; [done|].
    cbn. rewrite Ec. split_and!; [done|done|]. intros ->. by rewrite !orb_true_r.
Qed.

(** ** Statistics of values *)

(** The number a value is, if it is one for buf_to_double. *)
Definition number_of (value : bytes) : option double := mjoin (buf_to_double value (blen value)).

Lemma buf_to_double_total value : buf_to_double value (blen value) = Some (number_of value).
Proof.
  unfold number_of, buf_to_double, buf_to_str. case_decide; [done|]. rewrite decide_True by lia. cbn [mbind option_bind].
  match goal with |- context [strtod ?s] => destruct (strtod_ends s) as (d & r & -> & _) end; [|done].
  unfold terminated. set_solver.
Qed.

Lemma not_lt_trans x y z : x <> S754_nan -> y <> S754_nan -> z <> S754_nan ->
  dbl_lt y x = false -> dbl_lt z y = false -> dbl_lt z x = false.
Proof.
  assert (forall a b, dbl_lt b a = false <-> dcmp a b <= 0) as E.
  { intros a b. unfold dcmp. change (dbl_gt a b) with (dbl_lt b a). destruct (dbl_lt b a), (dbl_lt a b); split; try done; lia. }
  intros Hx Hy Hz. rewrite !E, !dcmp_key by done. intros H1 H2.
  assert (forall k, ordered (then_cmp (then_cmp cmp cmp) cmp) k) as O by (intros; by repeat apply then_ordered; apply cmp_ordered).
  by apply (proj2 (O _) _ _ H1 H2).
Qed.

Lemma lt_asym x y : dbl_lt x y = true -> dbl_lt y x = false.
Proof.
  intros H. unfold dbl_lt, SFltb in *. destruct x as [?|[]| |[] m1 e1], y as [?|[]| |[] m2 e2]; try done; cbn in *;
    change (Pos.compare_cont Eq m2 m1) with (Pos.compare m2 m1) in *; change (Pos.compare_cont Eq m1 m2) with (Pos.compare m1 m2) in *;
    rewrite (Z.compare_antisym e1 e2); destruct (Z.compare e1 e2); try done; cbn in *;
    rewrite (Pos.compare_antisym m1 m2); by destruct (Pos.compare m1 m2).
Qed.

Lemma lt_irrefl x : dbl_lt x x = false.
Proof. destruct (dbl_lt x x) eqn:E; [|done]. by rewrite (lt_asym _ _ E) in E. Qed.

(** [s] describes the numbers [ns], in the order they came. *)
Record describes (ns : list double) (s : stats) : Prop := {
  ds_count : st_count s = Z.of_nat (length ns);
  ds_sum : st_sum s = foldl dbl_add dbl_zero ns;
  ds_sumsqr : st_sumsqr s = foldl (fun a n => dbl_add a (dbl_mul n n)) dbl_zero ns;
  ds_extremes : ns <> [] -> st_min s ∈ ns /\ st_max s ∈ ns;
  ds_bounds : forall n, n ∈ ns -> dbl_lt n (st_min s) = false /\ dbl_gt n (st_max s) = false
}.

(** The smallest and the largest number after [n]. *)
Lemma extremes_step ns mn mx n mn' mx' :
  (ns <> [] -> mn ∈ ns /\ mx ∈ ns) -> (forall m, m ∈ ns -> dbl_lt m mn = false /\ dbl_gt m mx = false) ->
  Forall (fun n => n <> S754_nan) (ns ++ [n]) ->
  (mn', mx') = (if decide (ns = []) then (n, n) else if dbl_gt n mx then (mn, n) else if dbl_lt n mn then (n, mx) else (mn, mx)) ->
  mn' ∈ ns ++ [n] /\ mx' ∈ ns ++ [n] /\ forall m, m ∈ ns ++ [n] -> dbl_lt m mn' = false /\ dbl_gt m mx' = false.
Proof.
  intros Hx Hb [Hns [Hn _]%list.Forall_cons]%Forall_app E. rewrite list.Forall_forall in Hns.
  case_decide as H0; [subst; injection E as -> ->; split_and!; [set_solver..|]; intros m ->%list_elem_of_singleton; split; apply lt_irrefl|].
  destruct (Hx H0) as [Hmin Hmax]. destruct (Hb _ Hmax) as [Hmm _]. specialize (Hns _ Hmin) as Nmin. specialize (Hns _ Hmax) as Nmax.
  change (forall m, m ∈ ns -> dbl_lt m mn = false /\ dbl_lt mx m = false) in Hb.
  change (dbl_gt n mx) with (dbl_lt mx n) in E. change (dbl_gt ?m mx') with (dbl_lt mx' m).
  destruct (dbl_lt mx n) eqn:Eg; [|destruct (dbl_lt n mn) eqn:El]; injection E as -> ->; (split_and!; [set_solver..|]);
    intros m [Hm| ->%list_elem_of_singleton]%elem_of_app.
  - destruct (Hb m Hm). split; [done|]. apply (not_lt_trans m mx n); [by apply Hns|done|done|done|by apply lt_asym].
  - split; [|apply lt_irrefl]. apply (not_lt_trans mn mx n); [done|done|done|done|by apply lt_asym].
  - destruct (Hb m Hm). split; [|done]. apply (not_lt_trans n mn m); [done|done|by apply Hns|by apply lt_asym|done].
  - split; [apply lt_irrefl|done].
  - by apply Hb.
  - done.
Qed.

Lemma add_stats_describes ns s key value : describes ns s -> Forall (fun n => n <> S754_nan) (ns ++ option_list (number_of value)) ->
  Z.of_nat (length ns) + 1 < 2 ^ 64 ->
  exists s', add_stats s key value = Some s' /\ describes (ns ++ option_list (number_of value)) s'.
Proof.
  intros [Hc Hs Hq Hx Hb] Hnan Hl. unfold add_stats. rewrite buf_to_double_total. cbn [mbind option_bind].
  destruct (number_of value) as [n|]; cbn [option_list] in *; [|exists s; rewrite app_nil_r; by split].
  assert (st_count s = 0 <-> ns = []) as Ez by (rewrite Hc; destruct ns; cbn; split; done || lia).
  destruct (if decide (st_count s = 0) then _ else _) as [mn mx] eqn:E.
  destruct (extremes_step ns (st_min s) (st_max s) n mn mx Hx Hb Hnan) as (H1 & H2 & H3).
  { etransitivity; [exact (eq_sym E)|]. repeat case_decide; done || tauto. }
  eexists. split; [done|]. split; cbn.
  - rewrite length_app, Hc. unfold u64. rewrite Z.mod_small by lia. cbn. lia.
  - by rewrite foldl_app, Hs.
  - by rewrite foldl_app, Hq.
  - by intros _.
  - done.
Qed.

(** Statistics.  On any values, those of 1 to 31 bytes that start with a number are
    counted, added up and their squares added up, in their order; the smallest and the
    largest are among them and no other is smaller or larger. *)
Theorem stats_describe_values key values : Forall (fun n => n <> S754_nan) (omap number_of values) ->
  Z.of_nat (length values) + 1 < 2 ^ 64 ->
  exists s, add_all JSONStatsReducer init_stats key values = Some s /\ describes (omap number_of values) s.
Proof.
  assert (forall ns s, describes ns s -> Forall (fun n => n <> S754_nan) (ns ++ omap number_of values) ->
    Z.of_nat (length ns + length values) + 1 < 2 ^ 64 ->
    exists s', add_all JSONStatsReducer s key values = Some s' /\ describes (ns ++ omap number_of values) s') as H.
  { induction values as [|v values IH]; intros ns s Hd Hn Hl; cbn [add_all].
    { exists s. cbn. by rewrite app_nil_r. }
    assert (omap number_of (v :: values) = option_list (number_of v) ++ omap number_of values) as E
      by (cbn; by destruct (number_of v)).
    rewrite E in *. rewrite app_assoc in *. cbn [length] in Hl.
    destruct (add_stats_describes ns s key v Hd) as (s1 & E1 & Hd1); [by apply Forall_app in Hn as [? _]|lia|].
    cbn [jr_add JSONStatsReducer]. rewrite E1. cbn [mbind option_bind]. apply IH; [done|done|].
    rewrite length_app. assert (length (option_list (number_of v)) <= 1)%nat by (by destruct (number_of v); cbn; lia). lia. }
  intros Hn Hl. apply (H [] init_stats); [|done|cbn; lia]. split; try done. intros n Hn'. by apply not_elem_of_nil in Hn'.
Qed.

Lemma reductions_reduce_again_witness :
  exists text, finish_count 7 reduce_size = Some text /\
    forall b m, add_reduced_count b (text ++ m) (blen text) = Some (u64 (b + 7)).
Proof.
  apply (reductions_reduce_again 7 (S754_finite true 6755399441055744 (-51)) init_stats).
  - lia.
  - by vm_compute.
  - by vm_compute.
Defined.

(** The values 12, null and -0.5. *)
Definition sample_values : list bytes := map list_byte_of_string ["12"; "null"; "-0.5"]%string.

Lemma stats_describe_values_witness :
  exists s, add_all JSONStatsReducer init_stats [] sample_values = Some s /\ st_count s = 2.
Proof.
  destruct (stats_describe_values [] sample_values) as (s & E & Hd).
  - vm_compute. by repeat constructor.
  - by vm_compute.
  - exists s. split; [exact E|]. rewrite (ds_count _ _ Hd). by vm_compute.
Defined.
