(* ===== verification/TreeFile.v ===== *)
(** * TreeFile: chunks and headers in the database file

    Models src/couch_file_read.c and src/couch_file_write.c over the file
    interface.  Every 4096-byte block starts with a byte that tells a header
    block (1) from a data block (0); [layout] is the image of a run of data with
    those bytes inserted, and the theorems show that the writer produces it, the
    reader removes it, and a chunk once written is read back unchanged however
    much is appended later.  Snappy is third-party code: a parameter, with the
    laws its header documents. *)

From Stdlib Require Import ZArith Lia.
From S2P Require Import Prelude Bitfield NodeTypes Crc32 FileOps.
From stdpp Require Import list numbers.

#[local] Open Scope Z_scope.
#[local] Open Scope couch_scope.

Definition COUCH_BLOCK_SIZE : Z := 4096.
Definition MAX_HEADER_SIZE : Z := 1024.

(** ** Snappy *)

Class Snappy : Type := {
  snappy_max_compressed_length : Z -> Z;
  snappy_compress : bytes -> Z -> option bytes;
  snappy_uncompressed_length : bytes -> option Z;
  snappy_uncompress : bytes -> Z -> option bytes
}.

(** snappy-c.h: an output buffer of the maximal length always suffices, the
    length is stored in the output, and decompression inverts compression;
    snappy.cc: the maximal length is [32 + n + n / 6]. *)
Class SnappyLaws `{Snappy} : Prop := {
  snappy_roundtrip : forall b, blen b < 2 ^ 32 ->
    exists c, snappy_compress b (snappy_max_compressed_length (blen b)) = Some c /\
              snappy_uncompressed_length c = Some (blen b) /\
              snappy_uncompress c (blen b) = Some b /\
              blen c <= 32 + blen b + blen b / 6
}.

(** ** The file *)

Record tree_file (H : Type) : Type := { tf_pos : Z; tf_handle : H }.
Arguments tf_pos {H}.
Arguments tf_handle {H}.

#[global] Instance tree_file_Faulty {H} `{Faulty H} : Faulty (tree_file H) :=
  fun f => io_failed (tf_handle f).

Section Ops.
Context {H : Type} `{FileOps H}.

Definition tf_set_pos (p : Z) : M (tree_file H) unit :=
  modify (fun f => {| tf_pos := p; tf_handle := tf_handle f |}).
Definition tf_get_pos : M (tree_file H) Z := fun f => Ret (tf_pos f) f.

(** [file->ops->pread] and [file->ops->pwrite]. *)
Definition file_pread (n : nat) (off : Z) : M (tree_file H) (result bytes) :=
  fun f => let '(h, r) := ops_pread (tf_handle f) n off in
           Ret r {| tf_pos := tf_pos f; tf_handle := h |}.
Definition file_pwrite (bs : bytes) (off : Z) : M (tree_file H) (result nat) :=
  fun f => let '(h, r) := ops_pwrite (tf_handle f) bs off in
           Ret r {| tf_pos := tf_pos f; tf_handle := h |}.
Definition file_sync : M (tree_file H) couchstore_error_t :=
  fun f => let '(h, e) := ops_sync (tf_handle f) in
           Ret e {| tf_pos := tf_pos f; tf_handle := h |}.
Definition file_goto_eof : M (tree_file H) Z :=
  fun f => let '(h, p) := ops_goto_eof (tf_handle f) in
           Ret p {| tf_pos := tf_pos f; tf_handle := h |}.

(** The handle keeps the file as the close leaves it; the destructor only frees. *)
Definition tree_file_close : M (tree_file H) unit :=
  modify (fun f => {| tf_pos := tf_pos f; tf_handle := ops_close (tf_handle f) |}).

(** ** Reading *)

(** Past the prefix byte of a block. *)
Definition skip_prefix (pos : Z) : Z :=
  if decide (pos mod COUCH_BLOCK_SIZE = 0) then pos + 1 else pos.

(** The loop of read_skipping_prefixes; [acc] is what [dst] holds so far.  Each
    round reads at least a byte, so [len] rounds are enough. *)
Fixpoint read_loop (fuel : nat) (pos len : Z) (acc : bytes) : M (tree_file H) (result bytes * Z) :=
  if decide (len <= 0) then ret (Done acc, pos)
  else match fuel with
  | O => nofuel
  | S fuel' =>
      let read_size := COUCH_BLOCK_SIZE - pos mod COUCH_BLOCK_SIZE in
      let read_size := if decide (len < read_size) then len else read_size in
      let* r := file_pread (Z.to_nat read_size) pos in
      match r with
      | Error e => ret (Error e, pos)
      | Done [] => ret (Error COUCHSTORE_ERROR_READ, pos)
      | Done got => read_loop fuel' (skip_prefix (pos + blen got)) (len - blen got) (acc ++ got)
      end
  end.

(** Returns the bytes, or the error, and the advanced position. *)
Definition read_skipping_prefixes (pos len : Z) : M (tree_file H) (result bytes * Z) :=
  read_loop (Z.to_nat len) (skip_prefix pos) len [].

Definition pread_bin_internal (pos : Z) (header : bool) : M (tree_file H) (result bytes) :=
  let* (info, pos) := read_skipping_prefixes pos 8 in
  match info with
  | Error e => ret (Error e)
  | Done info =>
      let chunk_len := Z.land (ntohl (le_val (take 4 info))) 0x7FFFFFFF in
      let crc32 := ntohl (le_val (drop 4 info)) in
      if decide (header = true /\ (chunk_len < 4 \/ MAX_HEADER_SIZE < chunk_len)) then
        ret (Error COUCHSTORE_ERROR_CORRUPT)
      else
        let chunk_len := if header then chunk_len - 4 else chunk_len in
        let* (buf, _) := read_skipping_prefixes pos chunk_len in
        match buf with
        | Error e => ret (Error e)
        | Done buf =>
            if decide (crc32 <> 0 /\ crc32 <> hash_crc32 buf) then
              ret (Error COUCHSTORE_ERROR_CHECKSUM_FAIL)
            else ret (Done buf)
        end
  end.

Definition pread_header (pos : Z) : M (tree_file H) (result bytes) :=
  pread_bin_internal (pos + 1) true.

Definition pread_bin (pos : Z) : M (tree_file H) (result bytes) :=
  pread_bin_internal pos false.

Definition pread_compressed `{Snappy} (pos : Z) : M (tree_file H) (result bytes) :=
  let* r := pread_bin_internal pos false in
  match r with
  | Error e => ret (Error e)
  | Done compressed_buf =>
      match snappy_uncompressed_length compressed_buf with
      | None => ret (Error COUCHSTORE_ERROR_CORRUPT)
      | Some uncompressed_len =>
          match snappy_uncompress compressed_buf uncompressed_len with
          | None => ret (Error COUCHSTORE_ERROR_CORRUPT)
          | Some new_buf => ret (Done new_buf)
          end
      end
  end.

(** ** Writing *)

(** The loop of raw_write: [buf] is what remains to be written.  A round that
    writes a block prefix is followed by one that writes data. *)
Fixpoint raw_write_loop (fuel : nat) (buf : bytes) (write_pos : Z) : M (tree_file H) (result Z) :=
  match buf with
  | [] => ret (Done write_pos)
  | _ :: _ =>
      match fuel with
      | O => nofuel
      | S fuel' =>
          let block_remain := COUCH_BLOCK_SIZE - write_pos mod COUCH_BLOCK_SIZE in
          let block_remain := if decide (blen buf < block_remain) then blen buf else block_remain in
          if decide (write_pos mod COUCH_BLOCK_SIZE = 0) then
            let* written := file_pwrite [Byte.x00] write_pos in
            match written with
            | Error e => ret (Error e)
            | Done _ => raw_write_loop fuel' buf (write_pos + 1)
            end
          else
            let* written := file_pwrite (take (Z.to_nat block_remain) buf) write_pos in
            match written with
            | Error e => ret (Error e)
            | Done n => raw_write_loop fuel' (drop n buf) (write_pos + Z.of_nat n)
            end
      end
  end.

(** The number of bytes written, block prefixes included. *)
Definition raw_write (buf : bytes) (pos : Z) : M (tree_file H) (result Z) :=
  let* r := raw_write_loop (2 * length buf + 1) buf pos in
  match r with
  | Error e => ret (Error e)
  | Done write_pos => ret (Done (write_pos - pos))
  end.

(** Where a header goes: the next block boundary. *)
Definition header_pos (write_pos : Z) : Z :=
  if decide (write_pos mod COUCH_BLOCK_SIZE <> 0)
  then write_pos + (COUCH_BLOCK_SIZE - write_pos mod COUCH_BLOCK_SIZE) else write_pos.

Definition db_write_header (buf : bytes) : M (tree_file H) (result Z) :=
  let* write_pos := tf_get_pos in
  let size := htonl (blen buf + 4) in
  let crc32 := htonl (hash_crc32 buf) in
  let write_pos := header_pos write_pos in
  let pos := write_pos in
  let headerbuf := Byte.x01 :: le_bytes 4 size ++ le_bytes 4 crc32 in
  let* written := file_pwrite headerbuf write_pos in
  match written with
  | Error e => ret (Error e)
  | Done n =>
      let write_pos := write_pos + Z.of_nat n in
      let* written := raw_write buf write_pos in
      match written with
      | Error e => ret (Error e)
      | Done n => tf_set_pos (write_pos + n) ;; ret (Done pos)
      end
  end.

(** On success, the position of the chunk and the size it takes on disk. *)
Definition db_write_buf (buf : bytes) : M (tree_file H) (result (Z * Z)) :=
  let* write_pos := tf_get_pos in
  let end_pos := write_pos in
  let size := htonl (Z.lor (blen buf) 0x80000000) in
  let crc32 := htonl (hash_crc32 buf) in
  let headerbuf := le_bytes 4 size ++ le_bytes 4 crc32 in
  let* written := raw_write headerbuf end_pos in
  match written with
  | Error e => ret (Error e)
  | Done n =>
      let end_pos := end_pos + n in
      let* written := raw_write buf end_pos in
      match written with
      | Error e => ret (Error e)
      | Done n =>
          let end_pos := end_pos + n in
          tf_set_pos end_pos ;; ret (Done (write_pos, end_pos - write_pos))
      end
  end.

Definition db_write_buf_compressed `{Snappy} (buf : bytes) : M (tree_file H) (result (Z * Z)) :=
  let max_size := snappy_max_compressed_length (blen buf) in
  match snappy_compress buf max_size with
  | None => ret (Error COUCHSTORE_ERROR_WRITE)
  | Some to_write => db_write_buf to_write
  end.
End Ops.

(** ** The image of a run of data

    [layout pos buf]: the bytes that stand in the file when [buf] is written
    from offset [pos], a zero byte first in every block. *)
Fixpoint layout (pos : Z) (buf : bytes) : bytes :=
  match buf with
  | [] => []
  | b :: buf' =>
      if decide (pos mod COUCH_BLOCK_SIZE = 0)
      then Byte.x00 :: b :: layout (pos + 2) buf'
      else b :: layout (pos + 1) buf'
  end.

Lemma block_mod_succ pos :
  pos mod COUCH_BLOCK_SIZE = 0 -> (pos + 1) mod COUCH_BLOCK_SIZE = 1.
Proof. unfold COUCH_BLOCK_SIZE. intros Hp. Z.div_mod_to_equations. lia. Qed.

Lemma layout_app pos a b :
  layout pos (a ++ b) = layout pos a ++ layout (pos + blen (layout pos a)) b.
Proof.
  revert pos. induction a as [|x a IH]; intros pos; cbn [layout app].
  - unfold blen. cbn. by rewrite Z.add_0_r.
  - case_decide; rewrite IH; unfold blen; cbn [app length];
      (match goal with |- context [layout (pos + Z.of_nat ?n) b] =>
         match goal with |- context [layout (pos + ?k + ?m) b] =>
           replace (pos + k + m) with (pos + Z.of_nat n) by lia end end); done.
Qed.

Lemma layout_skip pos buf :
  buf <> [] -> pos mod COUCH_BLOCK_SIZE = 0 -> layout pos buf = Byte.x00 :: layout (pos + 1) buf.
Proof.
  intros Hb Hp. destruct buf as [|b buf]; [done|]. cbn [layout].
  rewrite decide_True by done. rewrite decide_False by (rewrite block_mod_succ; done).
  do 3 f_equal. lia.
Qed.

(** Inside a block nothing is inserted. *)
Lemma layout_in_block pos buf :
  pos mod COUCH_BLOCK_SIZE <> 0 -> blen buf <= COUCH_BLOCK_SIZE - pos mod COUCH_BLOCK_SIZE ->
  layout pos buf = buf.
Proof.
  unfold COUCH_BLOCK_SIZE, blen. revert pos. induction buf as [|b buf IH]; intros pos Hp Hl; [done|].
  cbn [layout length] in *. unfold COUCH_BLOCK_SIZE. rewrite decide_False by done. f_equal.
  destruct buf as [|b' buf]; [done|]. cbn [length] in *.
  assert ((pos + 1) mod 4096 = pos mod 4096 + 1) as E by (Z.div_mod_to_equations; lia).
  pose proof (Z.mod_pos_bound pos 4096 eq_refl). apply IH; rewrite E; cbn [length]; lia.
Qed.

Lemma layout_length_ge pos buf : blen buf <= blen (layout pos buf).
Proof.
  unfold blen. revert pos. induction buf as [|b buf IH]; intros pos; cbn [layout]; [lia|].
  case_decide; cbn [length]; specialize (IH (pos + 2)) as H2; specialize (IH (pos + 1)) as H1; lia.
Qed.

Lemma layout_length_le pos buf : blen (layout pos buf) <= 2 * blen buf.
Proof.
  unfold blen. revert pos. induction buf as [|b buf IH]; intros pos; cbn [layout]; [lia|].
  case_decide; cbn [length]; specialize (IH (pos + 2)) as H2; specialize (IH (pos + 1)) as H1; lia.
Qed.

Lemma layout_nil pos buf : layout pos buf = [] <-> buf = [].
Proof. destruct buf; cbn [layout]; [done|]. case_decide; done. Qed.

Lemma skip_prefix_ge pos : pos <= skip_prefix pos <= pos + 1.
Proof. unfold skip_prefix. case_decide; lia. Qed.

Lemma skip_prefix_mod pos : skip_prefix pos mod COUCH_BLOCK_SIZE <> 0.
Proof. unfold skip_prefix. case_decide; [by rewrite block_mod_succ|done]. Qed.

Lemma skip_prefix_idem pos : skip_prefix (skip_prefix pos) = skip_prefix pos.
Proof. unfold skip_prefix at 1. by rewrite decide_False by apply skip_prefix_mod. Qed.

(** Starting past the prefix instead of at it makes no difference. *)
Lemma has_skip_layout c pos buf :
  0 <= pos -> has c pos (layout pos buf) -> has c (skip_prefix pos) (layout (skip_prefix pos) buf).
Proof.
  intros Hp Hhas. unfold skip_prefix. case_decide as Hb; [|done].
  destruct (decide (buf = [])) as [->|Hne]; [apply has_nil; lia|].
  rewrite layout_skip in Hhas by done. by apply (has_app _ _ [Byte.x00]) in Hhas as [_ Hhas].
Qed.

Lemma skip_layout_end pos buf :
  skip_prefix (skip_prefix pos + blen (layout (skip_prefix pos) buf)) =
  skip_prefix (pos + blen (layout pos buf)).
Proof.
  unfold skip_prefix at 2 3. case_decide as Hb; [|done].
  destruct (decide (buf = [])) as [->|Hne].
  - cbn [layout]. unfold blen. cbn [length]. rewrite !Z.add_0_r.
    unfold skip_prefix. rewrite decide_False by (rewrite block_mod_succ; done).
    by rewrite decide_True.
  - rewrite (layout_skip pos) by done. f_equal. unfold blen. cbn [length]. lia.
Qed.

(** The data of a chunk: its length with the top bit set, its checksum, its body. *)
Definition chunk (buf : bytes) : bytes :=
  be_bytes 4 (Z.lor (blen buf) 0x80000000) ++ be_bytes 4 (hash_crc32 buf) ++ buf.

(** The data of a header after the marker byte: the length counts the checksum. *)
Definition header_chunk (buf : bytes) : bytes :=
  be_bytes 4 (blen buf + 4) ++ be_bytes 4 (hash_crc32 buf) ++ buf.

Lemma blen_be_bytes n z : blen (be_bytes n z) = Z.of_nat n.
Proof. unfold blen. by rewrite be_bytes_length. Qed.
Lemma chunk_length buf : blen (chunk buf) = 8 + blen buf.
Proof. unfold chunk. rewrite !blen_app, !blen_be_bytes. lia. Qed.
Lemma header_chunk_length buf : blen (header_chunk buf) = 8 + blen buf.
Proof. unfold header_chunk. rewrite !blen_app, !blen_be_bytes. lia. Qed.

(** A header starts at the next block boundary, with a 1 for its first byte. *)
Definition header_image (pos : Z) (buf : bytes) : bytes :=
  Byte.x01 :: layout (pos + 1) (header_chunk buf).

Lemma header_pos_spec p :
  p <= header_pos p < p + COUCH_BLOCK_SIZE /\ header_pos p mod COUCH_BLOCK_SIZE = 0.
Proof.
  unfold header_pos, COUCH_BLOCK_SIZE. case_decide as E.
  - split; [|Z.div_mod_to_equations; lia]. pose proof (Z.mod_pos_bound p 4096 eq_refl). lia.
  - split; [lia|]. destruct (decide (p mod 4096 = 0)); done.
Qed.

Lemma header_pos_mono p q : p <= q -> header_pos p <= header_pos q.
Proof.
  intros Hpq. destruct (header_pos_spec p) as [Hp Ep], (header_pos_spec q) as [Hq Eq].
  unfold COUCH_BLOCK_SIZE in *. Z.div_mod_to_equations. lia.
Qed.

(** A buffer shorter than a block meets at most one block boundary. *)
Lemma layout_length_short pos buf :
  blen buf < COUCH_BLOCK_SIZE -> blen (layout pos buf) <= blen buf + 1.
Proof.
  intros Hl. destruct (decide (buf = [])) as [->|Hne]; [by cbn|].
  assert (Hal : forall p b, p mod COUCH_BLOCK_SIZE = 0 -> blen b < COUCH_BLOCK_SIZE ->
                  blen (layout p b) <= blen b + 1).
  { intros p b Hp Hb. destruct (decide (b = [])) as [->|Hnb]; [by cbn|].
    rewrite layout_skip, layout_in_block; rewrite ?block_mod_succ by done; try done.
    - unfold blen. cbn [length]. lia.
    - lia. }
  destruct (Z.eqb_spec (pos mod COUCH_BLOCK_SIZE) 0) as [E|E]; [by apply Hal|].
  pose proof (Z.mod_pos_bound pos COUCH_BLOCK_SIZE eq_refl) as Hm.
  set (r := COUCH_BLOCK_SIZE - pos mod COUCH_BLOCK_SIZE) in *.
  destruct (decide (blen buf <= r)); [rewrite layout_in_block by done; lia|].
  rewrite <- (take_drop (Z.to_nat r) buf) at 1. unfold blen in *. rewrite layout_app, length_app.
  rewrite (layout_in_block pos (take _ _)) by (unfold blen; rewrite ?length_take; lia).
  specialize (Hal (pos + blen (take (Z.to_nat r) buf)) (drop (Z.to_nat r) buf)).
  unfold blen in *. rewrite length_take, length_drop in *. rewrite Nat.min_l in * by lia.
  assert ((pos + Z.of_nat (Z.to_nat r)) mod COUCH_BLOCK_SIZE = 0) as Hz.
  { subst r. unfold COUCH_BLOCK_SIZE in *. Z.div_mod_to_equations. lia. }
  specialize (Hal Hz). lia.
Qed.

(** No block after [pos] starts with the mark of a header. *)
Definition no_header_after (c : bytes) (pos : Z) : Prop :=
  forall i b, pos < Z.of_nat i -> Z.of_nat i mod COUCH_BLOCK_SIZE = 0 -> c !! i = Some b -> b = Byte.x00.

Lemma layout_block pos buf i b :
  layout pos buf !! i = Some b -> (pos + Z.of_nat i) mod COUCH_BLOCK_SIZE = 0 -> b = Byte.x00.
Proof.
  revert pos i. induction buf as [|x buf IH]; intros pos i; cbn [layout]; [done|].
  case_decide as Hd.
  - destruct i as [|[|i]]; cbn.
    + by intros [= <-].
    + intros _ Hm. rewrite block_mod_succ in Hm by done. done.
    + intros Hi Hm. apply (IH _ _ Hi). rewrite <- Hm. f_equal. lia.
  - destruct i as [|i]; cbn.
    + intros _ Hm. rewrite Z.add_0_r in Hm. done.
    + intros Hi Hm. apply (IH _ _ Hi). rewrite <- Hm. f_equal. lia.
Qed.

(** Data never looks like a header. *)
Lemma no_header_after_layout c pos off buf :
  0 <= off -> no_header_after c pos -> no_header_after (splice c (Z.to_nat off) (layout off buf)) pos.
Proof.
  intros Ho Hc i b Hi Hm Hb. apply splice_lookup_cases in Hb as [Hb|[->|[Hle Hb]]]; [by eapply Hc|done|].
  eapply layout_block; [exact Hb|]. rewrite <- Hm. f_equal. lia.
Qed.

(** Nothing in the rest of a header looks like another one. *)
Lemma no_header_after_header c pos buf :
  0 <= pos -> no_header_after c pos -> no_header_after (splice c (Z.to_nat pos) (header_image pos buf)) pos.
Proof.
  intros Hp Hc i b Hi Hm Hb. apply splice_lookup_cases in Hb as [Hb|[->|[Hle Hb]]]; [by eapply Hc|done|].
  unfold header_image in Hb. destruct (i - Z.to_nat pos)%nat as [|j] eqn:E; [lia|].
  rewrite lookup_cons in Hb. eapply layout_block; [exact Hb|]. rewrite <- Hm. f_equal. lia.
Qed.

Lemma no_header_after_end c pos : blen c <= pos + 1 -> no_header_after c pos.
Proof. unfold blen. intros Hl i b Hi _ Hb. apply lookup_lt_Some in Hb. lia. Qed.

(** What is read at a position is determined by how much is read. *)
Lemma layout_unique c pos a b :
  has c pos (layout pos a) -> has c pos (layout pos b) -> length a = length b -> a = b.
Proof.
  revert pos b. induction a as [|x a IH]; intros pos [|y b] Ha Hb Hl; try done. cbn [layout] in Ha, Hb.
  case_decide.
  - apply has_cons in Ha as [_ Ha], Hb as [_ Hb]. apply has_cons in Ha as [Ex Ha], Hb as [Ey Hb].
    replace (pos + 1 + 1) with (pos + 2) in * by lia. rewrite Ex in Ey. injection Ey as <-. f_equal.
    apply (IH (pos + 2)); [done|done|]. by injection Hl.
  - apply has_cons in Ha as [Ex Ha], Hb as [Ey Hb]. rewrite Ex in Ey. injection Ey as <-. f_equal.
    apply (IH (pos + 1)); [done|done|]. by injection Hl.
Qed.

Lemma chunk_unique c pos a b :
  has c pos (layout pos (chunk a)) -> has c pos (layout pos (chunk b)) -> blen a < 2 ^ 31 -> blen b < 2 ^ 31 -> a = b.
Proof.
  intros Ha Hb La Lb.
  assert (be_bytes 4 (Z.lor (blen a) 0x80000000) = be_bytes 4 (Z.lor (blen b) 0x80000000)) as E.
  { eapply (layout_unique c pos); [| |by rewrite !be_bytes_length].
    - unfold chunk in Ha. rewrite layout_app in Ha. by apply has_app in Ha as [? _].
    - unfold chunk in Hb. rewrite layout_app in Hb. by apply has_app in Hb as [? _]. }
  apply (f_equal be_val) in E. rewrite !be_val_be_bytes in E.
  pose proof (blen_nonneg a). pose proof (blen_nonneg b).
  assert (forall x, 0 <= x < 2 ^ 31 -> Z.lor x 0x80000000 mod 256 ^ Z.of_nat 4 = 2 ^ 31 + x) as Hx.
  { intros x Hx. rewrite Z.lor_comm. change 0x80000000 with (1 * 2 ^ 31). rewrite lor_high_low by lia.
    change (256 ^ Z.of_nat 4) with (2 ^ 32). rewrite Z.mod_small; lia. }
  rewrite !Hx in E by lia.
  assert (chunk a = chunk b) as Ec.
  { eapply (layout_unique c pos); [done|done|]. apply Nat2Z.inj. fold (blen (chunk a)) (blen (chunk b)).
    rewrite !chunk_length. lia. }
  unfold chunk in Ec. apply app_inj_1 in Ec as [_ Ec]; [|by rewrite !be_bytes_length].
  by apply app_inj_1 in Ec as [_ Ec]; [|by rewrite !be_bytes_length].
Qed.

Section Specs.
Context {H : Type} `{HO : FileOps H} `{HF : Faulty H} `{HL : !FileLaws H}.

(** The handle of a file is in order and the file ends at the append position. *)
Definition tf_ok (f : tree_file H) : Prop :=
  file_ok (tf_handle f) /\ 0 <= tf_pos f /\ blen (contents (tf_handle f)) <= tf_pos f.

Definition tf_contents (f : tree_file H) : bytes := contents (tf_handle f).

(** A file to append to: what it holds behind the append position ends in the same
    block, and no read has gone there. *)
Definition tf_appending (f : tree_file H) : Prop :=
  file_ok (tf_handle f) /\ 0 <= tf_pos f /\ unread (tf_handle f) (tf_pos f) /\
  blen (contents (tf_handle f)) <= header_pos (tf_pos f).

Lemma tf_ok_appending f : tf_ok f -> tf_appending f.
Proof.
  intros (Hok & Hp & Hend). destruct (header_pos_spec (tf_pos f)) as [? _]. split_and!; [done|done| |lia].
  eapply unread_mono; [by apply unread_end|done].
Qed.

Lemma sticky_file_pread n off : sticky (file_pread (H := H) n off).
Proof.
  intros f Hf. unfold file_pread. pose proof (pread_sticky (tf_handle f) n off Hf).
  by destruct (ops_pread _ _ _).
Qed.
Lemma sticky_file_pwrite bs off : sticky (file_pwrite (H := H) bs off).
Proof.
  intros f Hf. unfold file_pwrite. pose proof (pwrite_sticky (tf_handle f) bs off Hf).
  by destruct (ops_pwrite _ _ _).
Qed.
Lemma sticky_file_sync : sticky (file_sync (H := H)).
Proof.
  intros f Hf. unfold file_sync. pose proof (sync_sticky (tf_handle f) Hf).
  by destruct (ops_sync _).
Qed.
Lemma sticky_file_goto_eof : sticky (file_goto_eof (H := H)).
Proof.
  intros f Hf. unfold file_goto_eof. pose proof (goto_eof_sticky (tf_handle f) Hf).
  by destruct (ops_goto_eof _).
Qed.
Lemma sticky_tree_file_close : sticky (tree_file_close (H := H)).
Proof. intros f Hf. exact (close_sticky (tf_handle f) Hf). Qed.
Lemma sticky_tf_set_pos p : sticky (tf_set_pos (H := H) p).
Proof. by intros f. Qed.
Lemma sticky_tf_get_pos : sticky (tf_get_pos (H := H)).
Proof. by intros f. Qed.

#[local] Hint Resolve sticky_file_pread sticky_file_pwrite sticky_file_sync
  sticky_file_goto_eof sticky_tree_file_close sticky_tf_set_pos sticky_tf_get_pos : sticky.

Lemma sticky_read_loop fuel pos len acc : sticky (read_loop (H := H) fuel pos len acc).
Proof. revert pos len acc. induction fuel as [|fuel IH]; intros; cbn [read_loop]; solve_sticky. Qed.
Lemma sticky_raw_write_loop fuel buf pos : sticky (raw_write_loop (H := H) fuel buf pos).
Proof. revert buf pos. induction fuel as [|fuel IH]; intros [|b buf] pos; cbn [raw_write_loop]; solve_sticky. Qed.
#[local] Hint Resolve sticky_read_loop sticky_raw_write_loop : sticky.
Lemma sticky_read_skipping_prefixes pos len : sticky (read_skipping_prefixes (H := H) pos len).
Proof. unfold read_skipping_prefixes. solve_sticky. Qed.
Lemma sticky_raw_write buf pos : sticky (raw_write (H := H) buf pos).
Proof. unfold raw_write. solve_sticky. Qed.
#[local] Hint Resolve sticky_read_skipping_prefixes sticky_raw_write : sticky.
Lemma sticky_pread_bin_internal pos header : sticky (pread_bin_internal (H := H) pos header).
Proof. unfold pread_bin_internal. solve_sticky. Qed.
#[local] Hint Resolve sticky_pread_bin_internal : sticky.
Lemma sticky_pread_compressed `{Snappy} pos : sticky (pread_compressed (H := H) pos).
Proof. unfold pread_compressed. solve_sticky. Qed.
Lemma sticky_db_write_header buf : sticky (db_write_header (H := H) buf).
Proof. unfold db_write_header. solve_sticky. Qed.
Lemma sticky_db_write_buf buf : sticky (db_write_buf (H := H) buf).
Proof. unfold db_write_buf. solve_sticky. Qed.
#[local] Hint Resolve sticky_db_write_buf : sticky.
Lemma sticky_db_write_buf_compressed `{Snappy} buf : sticky (db_write_buf_compressed (H := H) buf).
Proof. unfold db_write_buf_compressed. solve_sticky. Qed.

(** ** The primitives under the laws *)

Lemma wp_file_pread n off Q (f : tree_file H) :
  file_ok (tf_handle f) -> 0 <= off ->
  (forall f', tf_pos f' = tf_pos f -> file_ok (tf_handle f') -> tf_contents f' = tf_contents f ->
    Q (Done (take n (drop (Z.to_nat off) (tf_contents f)))) f') ->
  wp (file_pread n off) Q f.
Proof.
  intros Hok Hoff HQ. unfold wp, file_pread.
  destruct (ops_pread (tf_handle f) n off) as [h r] eqn:E.
  destruct (pread_law _ _ _ _ _ Hok Hoff E) as (Hok' & Hc & Hr). intros Hfail.
  destruct r as [bs|e].
  - destruct Hr as [_ ->]. by apply HQ.
  - unfold io_failed, tree_file_Faulty in Hfail. cbn in Hfail. congruence.
Qed.

Lemma wp_file_pwrite bs off Q (f : tree_file H) :
  file_ok (tf_handle f) -> 0 <= off -> (0 < length bs <= 4096)%nat -> unread (tf_handle f) off ->
  (forall f', tf_pos f' = tf_pos f -> file_ok (tf_handle f') ->
    tf_contents f' = splice (tf_contents f) (Z.to_nat off) bs ->
    off + blen bs <= max_file_size ->
    (forall a, unread (tf_handle f) a -> unread (tf_handle f') a) ->
    Q (Done (length bs)) f') ->
  wp (file_pwrite bs off) Q f.
Proof.
  intros Hok Hoff Hl Hun HQ. unfold wp, file_pwrite.
  destruct (ops_pwrite (tf_handle f) bs off) as [h r] eqn:E.
  destruct (pwrite_law _ _ _ _ _ Hok Hoff Hl Hun E) as (Hok' & Hr). intros Hfail.
  destruct r as [k|e].
  - destruct Hr as [Hr|(_ & -> & Hc & Hmax & Hu)]; [|by apply HQ]. unfold io_failed, tree_file_Faulty in Hfail. cbn in Hfail. congruence.
  - unfold io_failed, tree_file_Faulty in Hfail. cbn in Hfail. congruence.
Qed.

Lemma wp_file_goto_eof Q (f : tree_file H) :
  file_ok (tf_handle f) -> synced (tf_handle f) ->
  (forall f', tf_pos f' = tf_pos f -> file_ok (tf_handle f') -> tf_contents f' = tf_contents f ->
    Q (blen (tf_contents f)) f') ->
  wp file_goto_eof Q f.
Proof.
  intros Hok Hs HQ. unfold wp, file_goto_eof. destruct (ops_goto_eof (tf_handle f)) as [h p] eqn:E.
  destruct (goto_eof_law _ _ _ Hok Hs E) as (Hok' & Hc & Hnn & Hneg). intros Hfail.
  destruct (decide (0 <= p)) as [Hp|Hp].
  - destruct (Hnn Hp) as [-> _]. by apply HQ.
  - unfold io_failed, tree_file_Faulty in Hfail. cbn [tf_handle] in Hfail. rewrite Hneg in Hfail by lia. done.
Qed.

Lemma wp_tree_file_close Q (f : tree_file H) :
  file_ok (tf_handle f) ->
  (forall f', tf_pos f' = tf_pos f -> file_ok (tf_handle f') -> tf_contents f' = tf_contents f ->
    (forall a, unread (tf_handle f) a -> unread (tf_handle f') a) -> synced (tf_handle f') -> Q tt f') ->
  wp tree_file_close Q f.
Proof.
  intros Hok HQ Hfail. cbn in Hfail |- *. unfold io_failed, tree_file_Faulty in Hfail. cbn in Hfail.
  destruct (close_law _ Hok) as (Hok' & [Hf|(_ & Hc & Hs & Hu)]); [congruence|]. by apply HQ.
Qed.

Lemma wp_file_sync Q (f : tree_file H) :
  file_ok (tf_handle f) ->
  (forall f', tf_pos f' = tf_pos f -> file_ok (tf_handle f') -> tf_contents f' = tf_contents f ->
    (forall a, unread (tf_handle f) a -> unread (tf_handle f') a) -> synced (tf_handle f') ->
    Q COUCHSTORE_SUCCESS f') ->
  wp file_sync Q f.
Proof.
  intros Hok HQ. unfold wp, file_sync. destruct (ops_sync (tf_handle f)) as [h e] eqn:E.
  destruct (sync_law _ _ _ Hok E) as (Hok' & Hc & Hu & Hs & Hf). intros Hfail.
  destruct (decide (e = COUCHSTORE_SUCCESS)) as [->|Hne].
  - destruct (Hs eq_refl). by apply HQ.
  - unfold io_failed, tree_file_Faulty in Hfail. cbn in Hfail. specialize (Hf Hne). congruence.
Qed.

(** ** Reading removes the block prefixes *)

Lemma wp_read_loop fuel buf acc pos Q (f : tree_file H) :
  file_ok (tf_handle f) -> 0 <= pos -> pos mod COUCH_BLOCK_SIZE <> 0 -> (length buf <= fuel)%nat ->
  has (tf_contents f) pos (layout pos buf) ->
  (forall f', tf_pos f' = tf_pos f -> file_ok (tf_handle f') -> tf_contents f' = tf_contents f ->
    Q (Done (acc ++ buf), skip_prefix (pos + blen (layout pos buf))) f') ->
  wp (read_loop fuel pos (blen buf) acc) Q f.
Proof.
  revert buf acc pos f. induction fuel as [|fuel IH]; intros buf acc pos f Hok Hp0 Hp Hfuel Hhas HQ.
  { destruct buf; cbn in Hfuel; [|lia]. cbn. apply wp_ret.
    rewrite app_nil_r in HQ. unfold skip_prefix in HQ. cbn [layout] in HQ.
    unfold blen in HQ. cbn [length] in HQ. rewrite Z.add_0_r, decide_False in HQ by done. by apply HQ. }
  cbn [read_loop]. case_decide as Hlen.
  { destruct buf; [|unfold blen in Hlen; cbn in Hlen; lia]. apply wp_ret.
    rewrite app_nil_r in HQ. unfold skip_prefix in HQ. cbn [layout] in HQ.
    unfold blen in HQ. cbn [length] in HQ. rewrite Z.add_0_r, decide_False in HQ by done. by apply HQ. }
  pose proof (Z.mod_pos_bound pos COUCH_BLOCK_SIZE eq_refl) as Hm.
  set (n := if decide (blen buf < COUCH_BLOCK_SIZE - pos mod COUCH_BLOCK_SIZE) then blen buf
            else COUCH_BLOCK_SIZE - pos mod COUCH_BLOCK_SIZE).
  assert (0 < n <= blen buf /\ n <= COUCH_BLOCK_SIZE - pos mod COUCH_BLOCK_SIZE) as [Hn Hnb]
    by (unfold n; case_decide; lia).
  set (a := take (Z.to_nat n) buf). set (b := drop (Z.to_nat n) buf).
  assert (buf = a ++ b) as Hbuf by (symmetry; apply take_drop).
  assert (blen a = n) as Ha by (unfold a, blen in *; rewrite length_take; lia).
  assert (layout pos a = a) as Hla by (apply layout_in_block; [done|lia]).
  rewrite Hbuf, layout_app, Hla, Ha in Hhas. apply has_app in Hhas as [Hhas Hhasb].
  apply wp_bind; [intros; solve_sticky|]. apply wp_file_pread; [done|done|].
  intros f' Hpos' Hok' Hc'.
  assert (take (Z.to_nat n) (drop (Z.to_nat pos) (tf_contents f)) = a) as ->.
  { replace (Z.to_nat n) with (length a) by (unfold blen in Ha; lia). by apply has_take. }
  destruct a as [|x a'] eqn:Ea; [unfold blen in Ha; cbn in Ha; lia|]. rewrite <- Ea in *.
  rewrite Ha in *. rewrite Hbuf at 1.
  replace (blen (a ++ b) - n) with (blen b) by (unfold blen in *; rewrite length_app; lia).
  assert (length b < length buf)%nat by (unfold b, blen in *; rewrite length_drop; lia).
  assert (Hhasb' : has (tf_contents f') (skip_prefix (pos + n)) (layout (skip_prefix (pos + n)) b))
    by (rewrite Hc'; apply has_skip_layout; [lia|done]).
  pose proof (skip_prefix_ge (pos + n)).
  apply IH; [done|lia|apply skip_prefix_mod|lia|done|].
  intros f'' Hpos'' Hok'' Hc''. rewrite <- app_assoc, <- Hbuf, skip_layout_end.
  replace (pos + n + blen (layout (pos + n) b)) with (pos + blen (layout pos buf));
    [apply HQ; congruence|].
  rewrite Hbuf, layout_app, Hla, Ha. unfold blen in *. rewrite length_app. lia.
Qed.

Lemma wp_read_skipping_prefixes buf pos Q (f : tree_file H) :
  file_ok (tf_handle f) -> 0 <= pos -> has (tf_contents f) pos (layout pos buf) ->
  (forall f', tf_pos f' = tf_pos f -> file_ok (tf_handle f') -> tf_contents f' = tf_contents f ->
    Q (Done buf, skip_prefix (pos + blen (layout pos buf))) f') ->
  wp (read_skipping_prefixes pos (blen buf)) Q f.
Proof.
  intros Hok Hp Hhas HQ. unfold read_skipping_prefixes.
  pose proof (skip_prefix_ge pos).
  apply wp_read_loop; [done|lia|apply skip_prefix_mod|unfold blen; lia| |].
  - by apply has_skip_layout.
  - intros f' ? ? ?. rewrite skip_layout_end. by apply HQ.
Qed.

Lemma read_skipping_prefixes_skip pos len :
  read_skipping_prefixes (H := H) (skip_prefix pos) len = read_skipping_prefixes pos len.
Proof. unfold read_skipping_prefixes. by rewrite skip_prefix_idem. Qed.

(** ** Writing inserts them *)

Definition write_fuel (buf : bytes) (pos : Z) : nat :=
  2 * length buf + (if decide (pos mod COUCH_BLOCK_SIZE = 0) then 1 else 0).

Lemma wp_raw_write_loop fuel buf pos Q (f : tree_file H) :
  file_ok (tf_handle f) -> 0 <= pos -> unread (tf_handle f) pos -> (write_fuel buf pos <= fuel)%nat ->
  (forall f', tf_pos f' = tf_pos f -> file_ok (tf_handle f') ->
    tf_contents f' = splice (tf_contents f) (Z.to_nat pos) (layout pos buf) ->
    (buf <> [] -> pos + blen (layout pos buf) <= max_file_size) ->
    (forall a, unread (tf_handle f) a -> unread (tf_handle f') a) ->
    Q (Done (pos + blen (layout pos buf))) f') ->
  wp (raw_write_loop fuel buf pos) Q f.
Proof.
  revert buf pos f. induction fuel as [|fuel IH]; intros [|b0 buf0] pos f Hok Hp Hun Hfuel HQ.
  1,3: cbn; apply wp_ret; specialize (HQ f); unfold blen in HQ; cbn in HQ; rewrite Z.add_0_r in HQ; by apply HQ.
  { unfold write_fuel in Hfuel. cbn in Hfuel. lia. }
  set (buf := b0 :: buf0) in *. cbn [raw_write_loop]. fold buf.
  assert (buf <> []) as Hne by done.
  pose proof (Z.mod_pos_bound pos COUCH_BLOCK_SIZE eq_refl) as Hm.
  case_decide as Hb.
  - (* a block prefix *)
    apply wp_bind; [intros; solve_sticky|]. apply wp_file_pwrite; [done|done|cbn; lia|done|].
    intros f1 Hp1 Hok1 Hc1 Hmax1 Hu1.
    apply IH; [done|lia|apply Hu1; eapply unread_mono; [done|lia]| |].
    { unfold write_fuel in *. rewrite decide_True in Hfuel by done.
      rewrite decide_False by (rewrite block_mod_succ; done). lia. }
    intros f2 Hp2 Hok2 Hc2 Hmax2 Hu2.
    replace (pos + 1 + blen (layout (pos + 1) buf)) with (pos + blen (layout pos buf)) in *
      by (rewrite (layout_skip pos) by done; unfold blen; cbn [length]; lia).
    apply HQ; [congruence|done| |by intros; apply Hmax2|auto].
    rewrite Hc2, Hc1, (layout_skip pos) by done.
    replace (Z.to_nat (pos + 1)) with (Z.to_nat pos + length [Byte.x00])%nat by (cbn; lia).
    apply splice_splice.
  - (* data up to the end of the block *)
    set (n := if decide (blen buf < COUCH_BLOCK_SIZE - pos mod COUCH_BLOCK_SIZE) then blen buf
              else COUCH_BLOCK_SIZE - pos mod COUCH_BLOCK_SIZE).
    assert (0 < blen buf) by (unfold blen, buf; cbn; lia).
    assert (0 < n <= blen buf /\ n <= COUCH_BLOCK_SIZE - pos mod COUCH_BLOCK_SIZE) as [Hn Hnb]
      by (unfold n; case_decide; lia).
    set (a := take (Z.to_nat n) buf). set (b := drop (Z.to_nat n) buf).
    assert (buf = a ++ b) as Hbuf by (symmetry; apply take_drop).
    assert (blen a = n) as Ha by (unfold a, blen in *; rewrite length_take; lia).
    assert (layout pos a = a) as Hla by (apply layout_in_block; [done|lia]).
    assert (layout pos buf = a ++ layout (pos + n) b) as Hlb by (rewrite Hbuf, layout_app, Hla, Ha; done).
    assert (length a = Z.to_nat n) as Hla' by (unfold blen in Ha; lia).
    apply wp_bind; [intros; solve_sticky|].
    apply wp_file_pwrite; [done|done|unfold COUCH_BLOCK_SIZE in *; lia|done|].
    intros f1 Hp1 Hok1 Hc1 Hmax1 Hu1.
    rewrite Hla', Z2Nat.id by lia. fold b.
    apply IH; [done|lia|apply Hu1; eapply unread_mono; [done|lia]| |].
    { unfold write_fuel in *. rewrite (decide_False (P := pos mod _ = 0)) in Hfuel by done.
      assert (length b + 1 <= length buf)%nat by (unfold b, blen in *; rewrite length_drop; lia).
      case_decide; lia. }
    intros f2 Hp2 Hok2 Hc2 Hmax2 Hu2.
    assert (pos + n + blen (layout (pos + n) b) = pos + blen (layout pos buf)) as Hend
      by (rewrite Hlb; unfold blen in *; rewrite length_app; lia).
    rewrite Hend in *. apply HQ; [congruence|done| | |auto].
    + rewrite Hc2, Hc1, Hlb. replace (Z.to_nat (pos + n)) with (Z.to_nat pos + length a)%nat by lia.
      apply splice_splice.
    + intros _. destruct (decide (b = [])) as [Hbe|]; [|by apply Hmax2].
      rewrite Hlb, Hbe. cbn [layout]. by rewrite app_nil_r.
Qed.

Lemma wp_raw_write buf pos Q (f : tree_file H) :
  file_ok (tf_handle f) -> 0 <= pos -> unread (tf_handle f) pos ->
  (forall f', tf_pos f' = tf_pos f -> file_ok (tf_handle f') ->
    tf_contents f' = splice (tf_contents f) (Z.to_nat pos) (layout pos buf) ->
    (buf <> [] -> pos + blen (layout pos buf) <= max_file_size) ->
    (forall a, unread (tf_handle f) a -> unread (tf_handle f') a) ->
    Q (Done (blen (layout pos buf))) f') ->
  wp (raw_write buf pos) Q f.
Proof.
  intros Hok Hp Hun HQ. unfold raw_write. apply wp_bind; [intros; solve_sticky|].
  apply wp_raw_write_loop; [done|done|done|unfold write_fuel; case_decide; lia|].
  intros f' ? ? ? ? ?. apply wp_ret.
  replace (pos + blen (layout pos buf) - pos) with (blen (layout pos buf)) by lia. by apply HQ.
Qed.

(** ** Chunks *)

Lemma wp_db_write_buf buf Q (f : tree_file H) :
  tf_appending f ->
  (forall f', tf_appending f' -> (tf_ok f -> tf_ok f') ->
    tf_pos f' = tf_pos f + blen (layout (tf_pos f) (chunk buf)) ->
    tf_contents f' = splice (tf_contents f) (Z.to_nat (tf_pos f)) (layout (tf_pos f) (chunk buf)) ->
    tf_pos f' <= max_file_size ->
    (forall a, unread (tf_handle f) a -> unread (tf_handle f') a) ->
    Q (Done (tf_pos f, blen (layout (tf_pos f) (chunk buf)))) f') ->
  wp (db_write_buf buf) Q f.
Proof.
  intros (Hok & Hp & Hun & Hend) HQ. unfold db_write_buf, bind at 1, tf_get_pos.
  set (pos := tf_pos f) in *. rewrite !htonl_image.
  set (hdr := be_bytes 4 _ ++ be_bytes 4 _).
  assert (chunk buf = hdr ++ buf) as Hchunk by (unfold chunk, hdr; by rewrite <- app_assoc).
  assert (hdr <> []) as Hhdr by (unfold hdr; intros E%(f_equal length); by rewrite length_app, !be_bytes_length in E).
  apply (wp_bind (S := tree_file H)); [intros; solve_sticky|].
  apply wp_raw_write; [done|done|done|]. intros f1 Hp1 Hok1 Hc1 Hmax1 Hu1.
  fold pos in Hp1, Hc1, Hmax1 |- *. set (n1 := blen (layout pos hdr)) in *.
  assert (0 <= n1) by (unfold n1, blen; lia).
  apply wp_bind; [intros; solve_sticky|].
  apply wp_raw_write; [done|lia|apply Hu1; eapply unread_mono; [done|lia]|].
  intros f2 Hp2 Hok2 Hc2 Hmax2 Hu2.
  set (n2 := blen (layout (pos + n1) buf)) in *.
  assert (0 <= n2) by (unfold n2, blen; lia).
  assert (layout pos (chunk buf) = layout pos hdr ++ layout (pos + n1) buf) as Hlay
    by (rewrite Hchunk; apply layout_app).
  assert (blen (layout pos (chunk buf)) = n1 + n2) as Hlen
    by (rewrite Hlay; apply blen_app).
  assert (contents (tf_handle f2) = splice (tf_contents f) (Z.to_nat pos) (layout pos (chunk buf))) as Hc.
  { unfold tf_contents in *. rewrite Hc2, Hc1, Hlay.
    replace (Z.to_nat (pos + n1)) with (Z.to_nat pos + length (layout pos hdr))%nat
      by (unfold n1, blen; lia). apply splice_splice. }
  assert (pos + n1 + n2 <= max_file_size).
  { destruct (decide (buf = [])) as [->|]; [|by apply Hmax2].
    specialize (Hmax1 Hhdr). unfold n2, blen. cbn. lia. }
  intros _. unfold ret. rewrite Hlen in HQ.
  replace (pos + n1 + n2 - pos) with (n1 + n2) by lia.
  pose proof (splice_length_le (tf_contents f) (Z.to_nat pos) (layout pos (chunk buf))) as Hs.
  apply HQ; cbn [tf_pos tf_handle]; [| |lia|done|lia|auto].
  - pose proof (header_pos_mono pos (pos + n1 + n2) ltac:(lia)).
    destruct (header_pos_spec (pos + n1 + n2)) as [? _]. split_and!; cbn [tf_pos tf_handle]; [done|lia| |].
    + apply Hu2, Hu1. eapply unread_mono; [done|lia].
    + rewrite Hc. unfold blen, tf_contents in *. lia.
  - intros (_ & _ & Hend'). split_and!; cbn [tf_pos tf_handle]; [done|lia|]. rewrite Hc.
    unfold blen, tf_contents in *. lia.
Qed.

(** A chunk with any checksum: zero is not compared. *)
Definition chunk_with (crc : Z) (buf : bytes) : bytes :=
  be_bytes 4 (Z.lor (blen buf) 0x80000000) ++ be_bytes 4 crc ++ buf.

Lemma wp_pread_chunk crc buf pos Q (f : tree_file H) :
  file_ok (tf_handle f) -> 0 <= pos -> blen buf < 2 ^ 31 -> 0 <= crc < 2 ^ 32 ->
  has (tf_contents f) pos (layout pos (chunk_with crc buf)) ->
  (forall f', tf_pos f' = tf_pos f -> file_ok (tf_handle f') -> tf_contents f' = tf_contents f ->
    Q (if decide (crc <> 0 /\ crc <> hash_crc32 buf) then Error COUCHSTORE_ERROR_CHECKSUM_FAIL else Done buf) f') ->
  wp (pread_bin_internal pos false) Q f.
Proof.
  intros Hok Hp Hlen Hcrc Hhas HQ. unfold pread_bin_internal, chunk_with in *.
  set (size := Z.lor (blen buf) 0x80000000) in *.
  set (hdr := be_bytes 4 size ++ be_bytes 4 crc).
  assert (be_bytes 4 size ++ be_bytes 4 crc ++ buf = hdr ++ buf) as E
    by (unfold hdr; by rewrite <- app_assoc).
  rewrite E, layout_app in Hhas. apply has_app in Hhas as [Hh1 Hh2].
  assert (blen hdr = 8) as Hhl by (unfold hdr, blen; by rewrite length_app, !be_bytes_length).
  set (q := pos + blen (layout pos hdr)) in *.
  assert (0 <= q) by (unfold q, blen; lia).
  apply wp_bind; [intros [? ?]; solve_sticky|]. rewrite <- Hhl.
  apply wp_read_skipping_prefixes; [done|done|done|]. fold q.
  intros f1 Hp1 Hok1 Hc1.
  assert (take 4 hdr = be_bytes 4 size) as -> by (apply take_app_length'; by rewrite be_bytes_length).
  assert (drop 4 hdr = be_bytes 4 crc) as -> by (apply drop_app_length'; by rewrite be_bytes_length).
  rewrite !ntohl_le_val, !be_val_be_bytes by (by rewrite be_bytes_length).
  rewrite (Z.mod_small crc) by done.
  assert (Z.land (size mod 256 ^ Z.of_nat 4) 0x7FFFFFFF = blen buf) as ->.
  { unfold size. change 0x7FFFFFFF with (Z.ones 31). rewrite Z.land_ones by lia.
    assert (0 <= blen buf) by (unfold blen; lia).
    rewrite Z.lor_comm. change 0x80000000 with (1 * 2 ^ 31). rewrite lor_high_low by lia.
    change (256 ^ Z.of_nat 4) with (2 ^ 32). rewrite (Z.mod_small (1 * 2 ^ 31 + _) (2 ^ 32)) by lia.
    symmetry. apply Z.mod_unique with 1; lia. }
  rewrite decide_False by (intros [? _]; done).
  apply wp_bind; [intros [? ?]; solve_sticky|]. rewrite read_skipping_prefixes_skip.
  apply wp_read_skipping_prefixes; [done|done|by rewrite Hc1|].
  intros f2 Hp2 Hok2 Hc2. specialize (HQ f2 ltac:(congruence) ltac:(done) ltac:(congruence)).
  case_decide; by apply wp_ret.
Qed.

Lemma wp_pread_bin buf pos Q (f : tree_file H) :
  file_ok (tf_handle f) -> 0 <= pos -> blen buf < 2 ^ 31 ->
  has (tf_contents f) pos (layout pos (chunk buf)) ->
  (forall f', tf_pos f' = tf_pos f -> file_ok (tf_handle f') -> tf_contents f' = tf_contents f ->
    Q (Done buf) f') ->
  wp (pread_bin_internal pos false) Q f.
Proof.
  intros Hok Hp Hlen Hhas HQ. apply (wp_pread_chunk (hash_crc32 buf) buf); try done; [apply hash_crc32_range|].
  intros f' Hp' Hok' Hc'. rewrite decide_False by (by intros [_ ?]). by apply HQ.
Qed.

(** ** Headers *)

Lemma wp_db_write_header buf Q (f : tree_file H) :
  file_ok (tf_handle f) -> 0 <= tf_pos f -> unread (tf_handle f) (tf_pos f) ->
  let pos := header_pos (tf_pos f) in
  (forall f', file_ok (tf_handle f') ->
    tf_pos f' = pos + blen (header_image pos buf) ->
    tf_contents f' = splice (tf_contents f) (Z.to_nat pos) (header_image pos buf) ->
    tf_pos f' <= max_file_size ->
    (forall a, unread (tf_handle f) a -> unread (tf_handle f') a) ->
    Q (Done pos) f') ->
  wp (db_write_header buf) Q f.
Proof.
  intros Hok Hp Hun pos HQ. unfold db_write_header, bind at 1, tf_get_pos.
  fold (header_pos (tf_pos f)). fold pos. rewrite !htonl_image.
  set (mark := Byte.x01 :: _).
  pose proof (header_pos_spec (tf_pos f)) as [Hge Hal]. fold pos in Hge, Hal.
  assert (blen mark = 9) as Hml by (unfold mark, blen; cbn [length]; by rewrite length_app, !be_bytes_length).
  assert (header_image pos buf = mark ++ layout (pos + 9) buf) as Himg.
  { unfold header_image, header_chunk, mark. rewrite app_assoc, layout_app.
    rewrite (layout_in_block (pos + 1) (_ ++ _)); unfold blen;
      rewrite ?length_app, ?be_bytes_length, ?block_mod_succ by done; [|done..].
    cbn [app]. do 3 f_equal. lia. }
  assert (unread (tf_handle f) pos) as Hunp by (eapply unread_mono; [done|lia]).
  apply (wp_bind (S := tree_file H)); [intros; solve_sticky|].
  apply wp_file_pwrite; [done|lia|unfold blen in Hml; lia|done|].
  intros f1 Hp1 Hok1 Hc1 Hmax1 Hu1.
  replace (Z.of_nat (length mark)) with 9 by (unfold blen in Hml; lia).
  apply wp_bind; [intros; solve_sticky|].
  apply wp_raw_write; [done|lia|apply Hu1; eapply unread_mono; [done|lia]|].
  intros f2 Hp2 Hok2 Hc2 Hmax2 Hu2.
  assert (blen (header_image pos buf) = 9 + blen (layout (pos + 9) buf)) as Hlen
    by (rewrite Himg, blen_app, Hml; done).
  fold pos in Hc1, Hc2, Hmax1, Hmax2 |- *.
  intros _. unfold ret. apply HQ; cbn [tf_pos tf_handle]; [done|lia| | |auto].
  - change (contents (tf_handle f2)) with (tf_contents f2). unfold tf_contents at 1; cbn [tf_handle].
    change (contents (tf_handle f2)) with (tf_contents f2). rewrite Hc2, Hc1, Himg.
    replace (Z.to_nat (pos + 9)) with (Z.to_nat pos + length mark)%nat by (unfold blen in Hml; lia).
    apply splice_splice.
  - destruct (decide (buf = [])) as [->|Hne]; [unfold blen; cbn; lia|]. specialize (Hmax2 Hne). lia.
Qed.

Lemma wp_pread_header buf pos Q (f : tree_file H) :
  file_ok (tf_handle f) -> 0 <= pos -> pos mod COUCH_BLOCK_SIZE = 0 -> blen buf + 4 <= MAX_HEADER_SIZE ->
  has (tf_contents f) pos (header_image pos buf) ->
  (forall f', tf_pos f' = tf_pos f -> file_ok (tf_handle f') -> tf_contents f' = tf_contents f ->
    Q (Done buf) f') ->
  wp (pread_header pos) Q f.
Proof.
  intros Hok Hp Hal Hlen Hhas HQ. unfold pread_header, pread_bin_internal.
  change (header_image pos buf) with ([Byte.x01] ++ layout (pos + 1) (header_chunk buf)) in Hhas.
  apply has_app in Hhas as [_ Hhas]. unfold blen at 1 in Hhas. cbn [length] in Hhas.
  change (pos + Z.of_nat 1) with (pos + 1) in Hhas. unfold header_chunk in Hhas.
  set (hdr := be_bytes 4 (blen buf + 4) ++ be_bytes 4 (hash_crc32 buf)).
  rewrite app_assoc, layout_app in Hhas. fold hdr in Hhas. apply has_app in Hhas as [Hh1 Hh2].
  assert (blen hdr = 8) as Hhl by (unfold hdr, blen; by rewrite length_app, !be_bytes_length).
  set (q := pos + 1 + blen (layout (pos + 1) hdr)) in *.
  assert (0 <= q) by (unfold q, blen; lia).
  apply wp_bind; [intros [? ?]; solve_sticky|]. rewrite <- Hhl.
  apply wp_read_skipping_prefixes; [done|lia|done|]. fold q. intros f1 Hp1 Hok1 Hc1.
  assert (take 4 hdr = be_bytes 4 (blen buf + 4)) as -> by (apply take_app_length'; by rewrite be_bytes_length).
  assert (drop 4 hdr = be_bytes 4 (hash_crc32 buf)) as -> by (apply drop_app_length'; by rewrite be_bytes_length).
  rewrite !ntohl_le_val, !be_val_be_bytes by (by rewrite be_bytes_length).
  pose proof (hash_crc32_range buf) as Hcrc. pose proof (blen_nonneg buf). unfold MAX_HEADER_SIZE in *.
  rewrite (Z.mod_small (hash_crc32 buf)) by done.
  rewrite (Z.mod_small (blen buf + 4)) by (change (256 ^ Z.of_nat 4) with (2 ^ 32); lia).
  change 0x7FFFFFFF with (Z.ones 31). rewrite Z.land_ones, (Z.mod_small (blen buf + 4)) by lia.
  rewrite decide_False by lia. replace (blen buf + 4 - 4) with (blen buf) by lia.
  apply wp_bind; [intros [? ?]; solve_sticky|]. rewrite read_skipping_prefixes_skip.
  apply wp_read_skipping_prefixes; [done|done|by rewrite Hc1|].
  intros f2 Hp2 Hok2 Hc2. rewrite decide_False by (intros [_ ?]; done).
  apply wp_ret. apply HQ; congruence.
Qed.
End Specs.
#[export] Hint Resolve sticky_file_pread sticky_file_pwrite sticky_file_sync
  sticky_file_goto_eof sticky_tree_file_close sticky_tf_set_pos sticky_tf_get_pos sticky_read_skipping_prefixes
  sticky_raw_write sticky_pread_bin_internal sticky_pread_compressed sticky_db_write_header
  sticky_db_write_buf sticky_db_write_buf_compressed : sticky.
