(* ===== verification/NodeStore.v ===== *)
(** * NodeStore: what the database file promises to the B-tree

    The B-tree calls two functions of the file layer: db_write_buf_compressed,
    which appends a node, and pread_compressed, which reads one back.  The
    classes below state what it relies on; the rest of the file proves that
    TreeFile keeps that promise: a stored chunk stays where it is, unchanged,
    whatever is read or appended later. *)

From Stdlib Require Import ZArith Lia.
From S2P Require Import Prelude Bitfield NodeTypes Crc32 FileOps TreeFile.
From stdpp Require Import list numbers.

#[local] Open Scope Z_scope.
#[local] Open Scope couch_scope.

(** The operations: the position and the size on disk of a stored node; the node
    stored at a position. *)
Class NodeStore (F : Type) : Type := {
  write_node : bytes -> M F (result (Z * Z));
  read_node : Z -> M F (result bytes)
}.
#[global] Hint Mode NodeStore ! : typeclass_instances.

(** A node is written whole when it is shorter than this. *)
Definition max_node : Z := 2 ^ 30.

(** What a program that only appends relies on. *)
Class NodeWriterLaws (F : Type) `{Faulty F, !NodeStore F} : Type := {
  ns_ok : F -> Prop;
  ns_stored : F -> Z -> bytes -> Z -> Prop;
  ns_ext : relation F;
  ns_ext_preorder : PreOrder ns_ext;
  ns_stored_ext : forall f f' pos buf dsz,
    ns_ext f f' -> ns_stored f pos buf dsz -> ns_stored f' pos buf dsz;
  ns_stored_range : forall f pos buf dsz, ns_stored f pos buf dsz -> 0 <= pos < 2 ^ 47 /\ 0 < dsz;
  wp_write_node : forall f buf (Q : result (Z * Z) -> F -> Prop),
    ns_ok f -> blen buf < max_node ->
    (forall f' pos dsz, ns_ok f' -> ns_ext f f' -> ns_stored f' pos buf dsz -> Q (Done (pos, dsz)) f') ->
    wp (write_node (F := F) buf) Q f;
  write_node_sticky : forall buf, sticky (write_node (F := F) buf)
}.

Class NodeStoreLaws (F : Type) `{Faulty F, !NodeStore F} : Type := {
  ns_writer :: NodeWriterLaws F;
  wp_read_node : forall f pos buf dsz (Q : result bytes -> F -> Prop),
    ns_ok f -> ns_stored f pos buf dsz ->
    (forall f', ns_ok f' -> ns_ext f f' -> Q (Done buf) f') ->
    wp (read_node (F := F) pos) Q f;
  read_node_sticky : forall pos, sticky (read_node (F := F) pos)
}.
#[export] Hint Resolve write_node_sticky read_node_sticky : sticky.
#[export] Hint Extern 0 (NodeWriterLaws _) => typeclasses eauto : sticky.
#[export] Existing Instance ns_ext_preorder.

(** ** The database file is a node store *)

Section TreeFileStore.
Context {H : Type} `{HO : FileOps H} `{HF : Faulty H} `{HL : !FileLaws H}.

(** A chunk holding [c] stands at [pos], below the end of the file. *)
Definition chunk_at (f : tree_file H) (pos : Z) (c : bytes) : Prop :=
  0 <= pos /\ pos + blen (layout pos (chunk c)) <= tf_pos f /\ blen c < 2 ^ 31 /\
  has (tf_contents f) pos (layout pos (chunk c)).

(** Everything below the end of [f] is still there in [f'], and what is new does
    not look like a header. *)
Definition tf_ext (f f' : tree_file H) : Prop :=
  tf_pos f <= tf_pos f' /\
  (forall pos a, has (tf_contents f) pos a -> pos + blen a <= tf_pos f -> has (tf_contents f') pos a) /\
  (forall pos, no_header_after (tf_contents f) pos -> no_header_after (tf_contents f') pos).

#[global] Instance tf_ext_preorder : PreOrder tf_ext.
Proof.
  split; [by intros f; split|]. intros f1 f2 f3 (Hp1 & H1 & N1) (Hp2 & H2 & N2). split_and!; [lia| |auto].
  intros pos a Ha Hle. apply H2; [by apply H1|lia].
Qed.

Lemma tf_ext_same f f' : tf_pos f' = tf_pos f -> tf_contents f' = tf_contents f -> tf_ext f f'.
Proof. intros Hp Hc. unfold tf_ext. rewrite Hc. split_and!; [lia|done|done]. Qed.

Lemma tf_ext_layout f f' buf :
  0 <= tf_pos f -> tf_pos f <= tf_pos f' ->
  tf_contents f' = splice (tf_contents f) (Z.to_nat (tf_pos f)) (layout (tf_pos f) buf) -> tf_ext f f'.
Proof.
  intros H0 Hp Hc. unfold tf_ext. rewrite Hc. split_and!; [done| |].
  - intros pos a Ha Hle. apply splice_keeps; [done|lia].
  - intros pos Hn. by apply no_header_after_layout.
Qed.

Lemma chunk_at_ext f f' pos c : tf_ext f f' -> chunk_at f pos c -> chunk_at f' pos c.
Proof. intros (Hp & He & _) (? & ? & ? & ?). split_and!; [done|lia|done|by apply He]. Qed.

(** The first half alone: what stands below the end of [f] is kept, a header may
    be new. *)
Definition tf_keep (f f' : tree_file H) : Prop :=
  tf_pos f <= tf_pos f' /\
  (forall pos a, has (tf_contents f) pos a -> pos + blen a <= tf_pos f -> has (tf_contents f') pos a).

Lemma tf_ext_keep f f' : tf_ext f f' -> tf_keep f f'.
Proof. by intros (? & ? & _). Qed.

#[global] Instance tf_keep_preorder : PreOrder tf_keep.
Proof.
  split; [by intros f; split|]. intros f1 f2 f3 (Hp1 & H1) (Hp2 & H2). split; [lia|].
  intros pos a Ha Hle. apply H2; [by apply H1|lia].
Qed.

Lemma chunk_at_keep f f' pos c : tf_keep f f' -> chunk_at f pos c -> chunk_at f' pos c.
Proof. intros (Hp & He) (? & ? & ? & ?). split_and!; [done|lia|done|by apply He]. Qed.

Lemma chunk_at_unique f pos a b : chunk_at f pos a -> chunk_at f pos b -> a = b.
Proof. intros (_ & _ & ? & ?) (_ & _ & ? & ?). by eapply chunk_unique. Qed.

(** Appending a chunk stores it and disturbs nothing. *)
Lemma wp_append buf Q (f : tree_file H) :
  tf_appending f -> blen buf < 2 ^ 31 ->
  (forall f', tf_appending f' -> (tf_ok f -> tf_ok f') -> tf_ext f f' -> chunk_at f' (tf_pos f) buf -> tf_pos f < 2 ^ 47 ->
    tf_pos f' = tf_pos f + blen (layout (tf_pos f) (chunk buf)) ->
    Q (Done (tf_pos f, blen (layout (tf_pos f) (chunk buf)))) f') ->
  wp (db_write_buf buf) Q f.
Proof.
  intros Hf Hl HQ. pose proof Hf as (_ & Hp & _). apply wp_db_write_buf; [done|].
  intros f' Hf' Hok' Hpos Hc Hmax _.
  pose proof (layout_length_ge (tf_pos f) (chunk buf)) as Hge.
  assert (8 <= blen (chunk buf)) by (unfold chunk, blen; solve_len).
  apply HQ; [done|done| | |unfold max_file_size in *; lia|done].
  - eapply tf_ext_layout; [lia| |exact Hc]; lia.
  - split_and!; [done|lia|done|]. rewrite Hc. by apply splice_has.
Qed.

(** A stored chunk is read back. *)
Lemma wp_chunk_read pos buf Q (f : tree_file H) :
  tf_ok f -> chunk_at f pos buf ->
  (forall f', tf_ok f' -> tf_ext f f' -> tf_pos f' = tf_pos f -> Q (Done buf) f') ->
  wp (pread_bin pos) Q f.
Proof.
  intros (Hok & Hp & Hend) (Hpos & Hle & Hl & Hhas) HQ. apply (wp_pread_bin buf); [done..|].
  intros f' Hp' Hok' Hc'. apply HQ; [|by apply tf_ext_same|done].
  unfold tf_contents in *. split; [done|]. rewrite Hp', Hc'. done.
Qed.

Context `{HS : Snappy} `{HSL : !SnappyLaws}.

Definition node_stored (f : tree_file H) (pos : Z) (buf : bytes) (dsz : Z) : Prop :=
  exists c, chunk_at f pos c /\ dsz = blen (layout pos (chunk c)) /\ pos < 2 ^ 47 /\
    snappy_uncompressed_length c = Some (blen buf) /\ snappy_uncompress c (blen buf) = Some buf.

#[global] Instance tree_file_NodeStore : NodeStore (tree_file H) :=
  {| write_node := db_write_buf_compressed; read_node := pread_compressed |}.

Lemma wp_db_write_buf_compressed buf Q (f : tree_file H) :
  tf_appending f -> blen buf < max_node ->
  (forall f' pos dsz, tf_appending f' -> (tf_ok f -> tf_ok f') -> tf_ext f f' -> node_stored f' pos buf dsz ->
     pos = tf_pos f -> dsz <= 2 * (40 + blen buf + blen buf / 6) -> Q (Done (pos, dsz)) f') ->
  wp (db_write_buf_compressed buf) Q f.
Proof.
  unfold max_node. intros Hf Hl HQ. unfold db_write_buf_compressed.
  destruct (snappy_roundtrip buf) as (c & -> & Hlen & Hun & Hc); [lia|].
  assert (blen buf / 6 <= blen buf) by (apply Z.div_le_upper_bound; pose proof (blen_nonneg buf); lia).
  apply wp_append; [done| |].
  - assert (6 * (blen buf / 6) <= blen buf) by (apply Z.mul_div_le; lia). lia.
  - intros f' Hf' Hok' Hext Hat Hlt _. apply HQ; [done..| |done|]; [by exists c|].
    etransitivity; [apply layout_length_le|]. rewrite chunk_length. lia.
Qed.

Lemma wp_pread_compressed pos buf dsz Q (f : tree_file H) :
  tf_ok f -> node_stored f pos buf dsz ->
  (forall f', tf_ok f' -> tf_ext f f' -> tf_pos f' = tf_pos f -> Q (Done buf) f') ->
  wp (pread_compressed pos) Q f.
Proof.
  intros Hf (c & Hat & _ & _ & Hlen & Hun) HQ. unfold pread_compressed.
  apply wp_bind; [intros; solve_sticky|]. apply (wp_chunk_read pos c); [done..|].
  intros f' Hf' He Hp. rewrite Hlen, Hun. apply wp_ret. by apply HQ.
Qed.

Lemma node_stored_ext (f f' : tree_file H) pos buf dsz :
  tf_ext f f' -> node_stored f pos buf dsz -> node_stored f' pos buf dsz.
Proof. intros He (c & Hat & ?). exists c. split; [by eapply chunk_at_ext|done]. Qed.

Lemma node_stored_keep (f f' : tree_file H) pos buf dsz :
  tf_keep f f' -> node_stored f pos buf dsz -> node_stored f' pos buf dsz.
Proof. intros He (c & Hat & ?). exists c. split; [by eapply chunk_at_keep|done]. Qed.

Lemma node_stored_range (f : tree_file H) pos buf dsz :
  node_stored f pos buf dsz -> 0 <= pos < 2 ^ 47 /\ 0 < dsz.
Proof.
  intros (c & (Hp & _) & -> & Hlt & _). split; [done|].
  pose proof (layout_length_ge pos (chunk c)).
  assert (8 <= blen (chunk c)) by (unfold chunk, blen; solve_len). lia.
Qed.

#[global] Instance tree_file_NodeWriterLaws : NodeWriterLaws (tree_file H).
Proof.
  refine {| ns_ok := tf_ok; ns_stored := node_stored; ns_ext := tf_ext |}.
  - apply node_stored_ext.
  - apply node_stored_range.
  - intros f buf Q Hf Hl HQ. apply wp_db_write_buf_compressed; [by apply tf_ok_appending|done|]. eauto.
  - intros. apply sticky_db_write_buf_compressed.
Defined.

(** The same file while it is only appended to. *)
Definition appending_NodeWriterLaws : NodeWriterLaws (tree_file H).
Proof.
  refine {| ns_ok := tf_appending; ns_stored := node_stored; ns_ext := tf_ext |}.
  - apply node_stored_ext.
  - apply node_stored_range.
  - intros f buf Q Hf Hl HQ. apply wp_db_write_buf_compressed; [done..|]. eauto.
  - intros. apply sticky_db_write_buf_compressed.
Defined.

#[global] Instance tree_file_NodeStoreLaws : NodeStoreLaws (tree_file H).
Proof.
  refine {| ns_writer := tree_file_NodeWriterLaws |}.
  - intros f pos buf dsz Q Hf Hst HQ. by apply (wp_pread_compressed pos buf dsz); eauto.
  - intros. apply sticky_pread_compressed.
Defined.
End TreeFileStore.
