(* ===== verification/Header.v ===== *)
(** * Header: the database header, commit and recovery

    Models the first part of src/couch_db.c: reading and writing the header,
    the backward scan of find_header, couchstore_commit and
    couchstore_open_db_ex.  The theorems show that a header that was written is
    read back, and that opening a file finds the last committed header whatever
    data was appended after it. *)

From Stdlib Require Import ZArith Lia.
From S2P Require Import Prelude Bitfield NodeTypes Crc32 FileOps TreeFile NodeStore.
From stdpp Require Import list numbers.

#[local] Open Scope Z_scope.
#[local] Open Scope couch_scope.

Definition COUCH_DISK_VERSION : Z := 11.
Definition ROOT_BASE_SIZE : Z := 12.
Definition HEADER_BASE_SIZE : Z := 25.

Record db_header : Type := {
  dh_disk_version : Z;
  dh_update_seq : Z;
  dh_by_id_root : option node_pointer;
  dh_by_seq_root : option node_pointer;
  dh_local_docs_root : option node_pointer;
  dh_purge_seq : Z;
  dh_purge_ptr : Z;
  dh_position : Z
}.

(** [calloc] of a [Db]. *)
Definition zero_header : db_header :=
  {| dh_disk_version := 0; dh_update_seq := 0; dh_by_id_root := None; dh_by_seq_root := None;
     dh_local_docs_root := None; dh_purge_seq := 0; dh_purge_ptr := 0; dh_position := 0 |}.

Record Db (H : Type) : Type := { db_file : tree_file H; db_hdr : db_header }.
Arguments db_file {H}.
Arguments db_hdr {H}.

#[global] Instance Db_Faulty {H} `{Faulty H} : Faulty (Db H) := fun d => io_failed (db_file d).

Section Header.
Context {H : Type} `{FileOps H}.

Definition in_file {A} (m : M (tree_file H) A) : M (Db H) A :=
  zoom db_file (fun f d => {| db_file := f; db_hdr := db_hdr d |}) m.
Definition get_header : M (Db H) db_header := fun d => Ret (db_hdr d) d.
Definition set_header (h : db_header) : M (Db H) unit :=
  fun d => Ret tt {| db_file := db_file d; db_hdr := h |}.

(** ** Reading *)

(** A root from [root_size] bytes of the header; it must lie before the header. *)
Definition read_db_root (position : Z) (root_data : bytes) (root_size : Z)
    : M (Db H) (result (option node_pointer)) :=
  if decide (0 < root_size) then
    if decide (root_size < ROOT_BASE_SIZE) then ret (Error COUCHSTORE_ERROR_CORRUPT)
    else
      let* root := need (read_root root_data (Z.to_nat root_size)) in
      if decide (position <= np_pointer root) then ret (Error COUCHSTORE_ERROR_CORRUPT)
      else ret (Done (Some root))
  else ret (Done None).

(** The fields after the version, in the order the code stores them in the db. *)
Definition decode_header (pos : Z) (buf : bytes) : M (Db H) couchstore_error_t :=
  let* h := get_header in
  let* version := need (slice 0 1 buf) in
  let h := {| dh_disk_version := decode_raw08 version; dh_update_seq := dh_update_seq h;
              dh_by_id_root := dh_by_id_root h; dh_by_seq_root := dh_by_seq_root h;
              dh_local_docs_root := dh_local_docs_root h; dh_purge_seq := dh_purge_seq h;
              dh_purge_ptr := dh_purge_ptr h; dh_position := pos |} in
  set_header h ;;
  if decide (dh_disk_version h <> COUCH_DISK_VERSION) then ret COUCHSTORE_ERROR_HEADER_VERSION
  else
    let* raw := need (as_raw_file_header buf) in
    let h := {| dh_disk_version := dh_disk_version h;
                dh_update_seq := decode_raw48 (rfh_update_seq raw);
                dh_by_id_root := dh_by_id_root h; dh_by_seq_root := dh_by_seq_root h;
                dh_local_docs_root := dh_local_docs_root h;
                dh_purge_seq := decode_raw48 (rfh_purge_seq raw);
                dh_purge_ptr := decode_raw48 (rfh_purge_ptr raw); dh_position := pos |} in
    set_header h ;;
    if decide (dh_position h < dh_purge_ptr h) then ret COUCHSTORE_ERROR_CORRUPT
    else
      let seqrootsize := decode_raw16 (rfh_seqrootsize raw) in
      let idrootsize := decode_raw16 (rfh_idrootsize raw) in
      let localrootsize := decode_raw16 (rfh_localrootsize raw) in
      if decide (blen buf <> HEADER_BASE_SIZE + seqrootsize + idrootsize + localrootsize)
      then ret COUCHSTORE_ERROR_CORRUPT
      else
        let root_data := drop sizeof_raw_file_header buf in
        let* r := read_db_root pos root_data seqrootsize in
        match r with
        | Error e => ret e
        | Done by_seq_root =>
            let h := {| dh_disk_version := dh_disk_version h; dh_update_seq := dh_update_seq h;
                        dh_by_id_root := dh_by_id_root h; dh_by_seq_root := by_seq_root;
                        dh_local_docs_root := dh_local_docs_root h; dh_purge_seq := dh_purge_seq h;
                        dh_purge_ptr := dh_purge_ptr h; dh_position := pos |} in
            set_header h ;;
            let root_data := drop (Z.to_nat seqrootsize) root_data in
            let* r := read_db_root pos root_data idrootsize in
            match r with
            | Error e => ret e
            | Done by_id_root =>
                let h := {| dh_disk_version := dh_disk_version h; dh_update_seq := dh_update_seq h;
                            dh_by_id_root := by_id_root; dh_by_seq_root := dh_by_seq_root h;
                            dh_local_docs_root := dh_local_docs_root h; dh_purge_seq := dh_purge_seq h;
                            dh_purge_ptr := dh_purge_ptr h; dh_position := pos |} in
                set_header h ;;
                let root_data := drop (Z.to_nat idrootsize) root_data in
                let* r := read_db_root pos root_data localrootsize in
                match r with
                | Error e => ret e
                | Done local_docs_root =>
                    set_header {| dh_disk_version := dh_disk_version h; dh_update_seq := dh_update_seq h;
                                  dh_by_id_root := dh_by_id_root h; dh_by_seq_root := dh_by_seq_root h;
                                  dh_local_docs_root := local_docs_root; dh_purge_seq := dh_purge_seq h;
                                  dh_purge_ptr := dh_purge_ptr h; dh_position := pos |} ;;
                    ret COUCHSTORE_SUCCESS
                end
            end
        end.

Definition find_header_at_pos (pos : Z) : M (Db H) couchstore_error_t :=
  let* r := in_file (file_pread 2 pos) in
  match r with
  | Done [b0; _] =>
      if decide (b0 = Byte.x00) then ret COUCHSTORE_ERROR_NO_HEADER
      else if decide (b0 <> Byte.x01) then ret COUCHSTORE_ERROR_CORRUPT
      else
        let* r := in_file (pread_header pos) in
        match r with
        | Error e => ret e
        | Done buf => decode_header pos buf
        end
  | _ => ret COUCHSTORE_ERROR_READ
  end.

(** The scan back through the blocks; [fuel] counts them. *)
Fixpoint find_header_loop (fuel : nat) (pos : Z) (last_header_errcode : couchstore_error_t)
    : M (Db H) couchstore_error_t :=
  if decide (pos < 0) then ret last_header_errcode
  else match fuel with
  | O => nofuel
  | S fuel' =>
      let* errcode := find_header_at_pos pos in
      match errcode with
      | COUCHSTORE_SUCCESS => ret COUCHSTORE_SUCCESS
      | COUCHSTORE_ERROR_NO_HEADER => find_header_loop fuel' (pos - COUCH_BLOCK_SIZE) last_header_errcode
      | COUCHSTORE_ERROR_ALLOC_FAIL => ret COUCHSTORE_ERROR_ALLOC_FAIL
      | e => find_header_loop fuel' (pos - COUCH_BLOCK_SIZE) e
      end
  end.

(** C's [%] truncates towards zero. *)
Definition find_header : M (Db H) couchstore_error_t :=
  let* p := in_file tf_get_pos in
  let pos := p - 2 in
  let pos := pos - Z.rem pos COUCH_BLOCK_SIZE in
  find_header_loop (Z.to_nat (pos / COUCH_BLOCK_SIZE + 1)) pos COUCHSTORE_ERROR_NO_HEADER.

(** ** Writing *)

Definition root_size (root : option node_pointer) : Z :=
  match root with Some r => ROOT_BASE_SIZE + blen (np_reduce_value r) | None => 0 end.

(** The buffer write_header fills. *)
Definition header_bytes (h : db_header) : bytes :=
  encode_raw08 COUCH_DISK_VERSION ++ encode_raw48 (dh_update_seq h) ++
  encode_raw48 (dh_purge_seq h) ++ encode_raw48 (dh_purge_ptr h) ++
  encode_raw16 (u16 (root_size (dh_by_seq_root h))) ++ encode_raw16 (u16 (root_size (dh_by_id_root h))) ++
  encode_raw16 (u16 (root_size (dh_local_docs_root h))) ++
  encode_root (dh_by_seq_root h) ++ encode_root (dh_by_id_root h) ++ encode_root (dh_local_docs_root h).

Definition set_position (pos : Z) (h : db_header) : db_header :=
  {| dh_disk_version := dh_disk_version h; dh_update_seq := dh_update_seq h;
     dh_by_id_root := dh_by_id_root h; dh_by_seq_root := dh_by_seq_root h;
     dh_local_docs_root := dh_local_docs_root h; dh_purge_seq := dh_purge_seq h;
     dh_purge_ptr := dh_purge_ptr h; dh_position := pos |}.

Definition write_header : M (Db H) couchstore_error_t :=
  let* h := get_header in
  let* r := in_file (db_write_header (header_bytes h)) in
  match r with
  | Error e => ret e
  | Done pos => set_header (set_position pos h) ;; ret COUCHSTORE_SUCCESS
  end.

Definition create_header : M (Db H) couchstore_error_t :=
  set_header {| dh_disk_version := COUCH_DISK_VERSION; dh_update_seq := 0; dh_by_id_root := None;
                dh_by_seq_root := None; dh_local_docs_root := None; dh_purge_seq := 0;
                dh_purge_ptr := 0; dh_position := 0 |} ;;
  write_header.

(** The result of the write that extends the file is ignored. *)
Definition couchstore_commit : M (Db H) couchstore_error_t :=
  let* h := get_header in
  let* curpos := in_file tf_get_pos in
  in_file (tf_set_pos (curpos + (25 + root_size (dh_by_seq_root h) + root_size (dh_by_id_root h) +
                                 root_size (dh_local_docs_root h)))) ;;
  let* _ := in_file (db_write_buf [Byte.x00]) in
  let* errcode := in_file file_sync in
  in_file (tf_set_pos curpos) ;;
  if decide (errcode = COUCHSTORE_SUCCESS) then
    let* errcode := write_header in
    if decide (errcode = COUCHSTORE_SUCCESS) then in_file file_sync else ret errcode
  else ret errcode.

(** couchstore_open_db_ex once tree_file_open has given a handle: [rdonly] and
    [create] are the two flags. *)
Definition open_flags_ok (rdonly create : bool) : bool := negb (rdonly && create).

Definition open_header (rdonly : bool) : M (Db H) couchstore_error_t :=
  set_header zero_header ;;
  let* pos := in_file file_goto_eof in
  in_file (tf_set_pos pos) ;;
  if decide (pos = 0) then
    if rdonly then ret COUCHSTORE_ERROR_NO_HEADER else create_header
  else find_header.

(** What it frees is not used again. *)
Definition couchstore_close_db : M (Db H) couchstore_error_t :=
  in_file tree_file_close ;; ret COUCHSTORE_SUCCESS.

Definition couchstore_open_db_ex (rdonly create : bool) : M (Db H) couchstore_error_t :=
  if open_flags_ok rdonly create then
    let* errcode := open_header rdonly in
    if decide (errcode <> COUCHSTORE_SUCCESS) then couchstore_close_db ;; ret errcode else ret errcode
  else ret COUCHSTORE_ERROR_INVALID_ARGUMENTS.

Definition couchstore_get_header_position : M (Db H) Z :=
  let* h := get_header in ret (dh_position h).
End Header.

(** ** Well-formed headers *)

Definition root_wf (pos : Z) (root : option node_pointer) : Prop :=
  match root with
  | None => True
  | Some r => 0 <= np_pointer r < pos
  end.

(** A header that can be written at [pos]. *)
Record header_wf (pos : Z) (h : db_header) : Prop := {
  hw_pos : 0 <= pos < 2 ^ 48;
  hw_update_seq : 0 <= dh_update_seq h < 2 ^ 48;
  hw_purge_seq : 0 <= dh_purge_seq h < 2 ^ 48;
  hw_purge_ptr : 0 <= dh_purge_ptr h <= pos;
  hw_by_seq : root_wf pos (dh_by_seq_root h);
  hw_by_id : root_wf pos (dh_by_id_root h);
  hw_local : root_wf pos (dh_local_docs_root h);
  hw_size : blen (header_bytes h) + 4 <= MAX_HEADER_SIZE
}.

(** What reading a header gives back: roots have no key and sizes are stored
    modulo their field. *)
Definition norm_root (root : option node_pointer) : option node_pointer :=
  r ← root; Some {| np_key := []; np_pointer := np_pointer r; np_reduce_value := np_reduce_value r;
                    np_subtreesize := np_subtreesize r mod 2 ^ 48 |}.
Definition norm_header (pos : Z) (h : db_header) : db_header :=
  {| dh_disk_version := COUCH_DISK_VERSION; dh_update_seq := dh_update_seq h;
     dh_by_id_root := norm_root (dh_by_id_root h); dh_by_seq_root := norm_root (dh_by_seq_root h);
     dh_local_docs_root := norm_root (dh_local_docs_root h); dh_purge_seq := dh_purge_seq h;
     dh_purge_ptr := dh_purge_ptr h; dh_position := pos |}.

Lemma encode_root_length root : blen (encode_root root) = root_size root.
Proof.
  destruct root as [r|]; [|done]. unfold encode_root, root_size, blen, ROOT_BASE_SIZE.
  autorewrite with len. lia.
Qed.

Lemma root_size_nonneg root : 0 <= root_size root.
Proof. rewrite <- encode_root_length. apply blen_nonneg. Qed.

Lemma header_bytes_length h :
  blen (header_bytes h) = HEADER_BASE_SIZE + root_size (dh_by_seq_root h) + root_size (dh_by_id_root h) +
                          root_size (dh_local_docs_root h).
Proof.
  unfold header_bytes. rewrite !blen_app, !encode_root_length. unfold blen at 1 2 3 4 5 6 7.
  autorewrite with len. unfold HEADER_BASE_SIZE. lia.
Qed.

Lemma read_root_norm r rest :
  0 <= np_pointer r < 2 ^ 48 ->
  read_root (encode_root (Some r) ++ rest) (Z.to_nat (root_size (Some r))) = norm_root (Some r).
Proof.
  intros Hp. set (r' := {| np_key := np_key r; np_pointer := np_pointer r;
    np_reduce_value := np_reduce_value r; np_subtreesize := np_subtreesize r mod 2 ^ 48 |}).
  assert (encode_root (Some r) = encode_root (Some r')) as ->.
  { unfold encode_root, r'. cbn [np_pointer np_subtreesize np_reduce_value].
    rewrite !encode_raw48_be. change (2 ^ 48) with (256 ^ Z.of_nat 6). by rewrite be_bytes_mod. }
  pose proof (encode_root_length (Some r')) as Hl. change (root_size (Some r)) with (root_size (Some r')).
  rewrite <- Hl. unfold blen. rewrite Nat2Z.id.
  rewrite read_root_encode_root; [done|done|]. cbn. apply Z.mod_pos_bound. lia.
Qed.

Section Specs.
Context {H : Type} `{HO : FileOps H}.

Lemma read_db_root_encode pos root rest (d : Db H) :
  0 <= pos < 2 ^ 48 -> root_wf pos root ->
  read_db_root pos (encode_root root ++ rest) (root_size root) d = Ret (Done (norm_root root)) d.
Proof.
  intros Hpos Hr. unfold read_db_root. destruct root as [r|]; [|by rewrite decide_False by (cbn; lia)].
  cbn in Hr. pose proof (blen_nonneg (np_reduce_value r)).
  rewrite decide_True by (cbn; unfold ROOT_BASE_SIZE; lia).
  rewrite decide_False by (cbn; lia). unfold bind, need. rewrite read_root_norm by lia.
  cbn [norm_root mbind option_bind]. unfold ret. rewrite decide_False by (cbn; lia). done.
Qed.

(** decode_header inverts header_bytes. *)
Lemma decode_header_bytes pos h (d : Db H) :
  header_wf pos h ->
  decode_header pos (header_bytes h) d =
  Ret COUCHSTORE_SUCCESS {| db_file := db_file d; db_hdr := norm_header pos h |}.
Proof.
  intros [Hpos Hseq Hps Hpp Hr1 Hr2 Hr3 Hsize].
  pose proof (header_bytes_length h) as Hlen. unfold MAX_HEADER_SIZE, HEADER_BASE_SIZE in *.
  pose proof (root_size_nonneg (dh_by_seq_root h)). pose proof (root_size_nonneg (dh_by_id_root h)).
  pose proof (root_size_nonneg (dh_local_docs_root h)).
  set (raw := {| rfh_version := encode_raw08 COUCH_DISK_VERSION; rfh_update_seq := encode_raw48 (dh_update_seq h);
    rfh_purge_seq := encode_raw48 (dh_purge_seq h); rfh_purge_ptr := encode_raw48 (dh_purge_ptr h);
    rfh_seqrootsize := encode_raw16 (u16 (root_size (dh_by_seq_root h)));
    rfh_idrootsize := encode_raw16 (u16 (root_size (dh_by_id_root h)));
    rfh_localrootsize := encode_raw16 (u16 (root_size (dh_local_docs_root h))) |}).
  set (roots := encode_root (dh_by_seq_root h) ++ encode_root (dh_by_id_root h) ++ encode_root (dh_local_docs_root h)).
  assert (header_bytes h = raw_file_header_bytes raw ++ roots) as Eb.
  { unfold header_bytes, raw_file_header_bytes, raw, roots. cbn [rfh_version rfh_update_seq rfh_purge_seq
      rfh_purge_ptr rfh_seqrootsize rfh_idrootsize rfh_localrootsize]. by rewrite <- !app_assoc. }
  assert (as_raw_file_header (header_bytes h) = Some raw) as Eraw.
  { rewrite Eb. apply as_raw_file_header_bytes; unfold raw; cbn; by autorewrite with len. }
  assert (drop sizeof_raw_file_header (header_bytes h) = roots) as Edrop.
  { rewrite Eb. apply drop_app_length'. unfold raw_file_header_bytes, raw. cbn [rfh_version rfh_update_seq rfh_purge_seq
      rfh_purge_ptr rfh_seqrootsize rfh_idrootsize rfh_localrootsize]. by autorewrite with len. }
  assert (slice 0 1 (header_bytes h) = Some (encode_raw08 COUCH_DISK_VERSION)) as Ever
    by (apply slice_app_head; by autorewrite with len).
  assert (forall r, 0 <= root_size r < 2 ^ 16 -> decode_raw16 (encode_raw16 (u16 (root_size r))) = root_size r) as E16.
  { intros r Hr. rewrite decode_encode_raw16. unfold u16. rewrite Z.mod_mod, Z.mod_small by lia. done. }
  unfold decode_header, bind, get_header, set_header, need, ret. rewrite Ever. cbn [dh_disk_version db_file db_hdr].
  change (decode_raw08 (encode_raw08 COUCH_DISK_VERSION)) with COUCH_DISK_VERSION. rewrite decide_False by (intros ?; done).
  rewrite Eraw. unfold raw.
  cbn [rfh_update_seq rfh_purge_seq rfh_purge_ptr rfh_seqrootsize rfh_idrootsize rfh_localrootsize dh_position dh_purge_ptr].
  rewrite !decode_encode_raw48, !Z.mod_small by lia. rewrite decide_False by lia.
  rewrite !E16 by lia. rewrite decide_False by (unfold HEADER_BASE_SIZE; lia). rewrite Edrop. unfold roots.
  assert (forall r rest, drop (Z.to_nat (root_size r)) (encode_root r ++ rest) = rest) as Ed.
  { intros r rest. apply drop_app_length'. rewrite <- encode_root_length. unfold blen. lia. }
  rewrite read_db_root_encode by done. cbv iota. rewrite Ed, read_db_root_encode by done. cbv iota.
  rewrite Ed, <- (app_nil_r (encode_root (dh_local_docs_root h))), read_db_root_encode by done. done.
Qed.

(** ** Programs on a db *)

Context `{HF : Faulty H} `{HL : !FileLaws H}.

Lemma wp_in_file {A} (m : M (tree_file H) A) Q (d : Db H) :
  wp m (fun a f => Q a {| db_file := f; db_hdr := db_hdr d |}) (db_file d) -> wp (in_file m) Q d.
Proof. unfold in_file. zoomed (fun _ : Db H => false); symmetry; apply orb_false_r. Qed.

Lemma sticky_in_file {A} (m : M (tree_file H) A) : sticky m -> sticky (in_file m).
Proof. unfold in_file. zoomed (fun _ : Db H => false); symmetry; apply orb_false_r. Qed.
Lemma sticky_get_header : sticky (get_header (H := H)).
Proof. by intros d. Qed.
Lemma sticky_set_header h : sticky (set_header (H := H) h).
Proof. by intros d. Qed.
#[local] Hint Resolve sticky_in_file sticky_get_header sticky_set_header : sticky.

Lemma sticky_read_db_root pos data n : sticky (read_db_root (H := H) pos data n).
Proof. unfold read_db_root. solve_sticky. Qed.
#[local] Hint Resolve sticky_read_db_root : sticky.
Lemma sticky_decode_header pos buf : sticky (decode_header (H := H) pos buf).
Proof. unfold decode_header. solve_sticky. Qed.
#[local] Hint Resolve sticky_decode_header : sticky.
Lemma sticky_pread_header pos : sticky (pread_header (H := H) pos).
Proof. unfold pread_header. solve_sticky. Qed.
#[local] Hint Resolve sticky_pread_header : sticky.
Lemma sticky_find_header_at_pos pos : sticky (find_header_at_pos (H := H) pos).
Proof. unfold find_header_at_pos. solve_sticky. Qed.
#[local] Hint Resolve sticky_find_header_at_pos : sticky.
Lemma sticky_find_header_loop fuel pos e : sticky (find_header_loop (H := H) fuel pos e).
Proof. revert pos e. induction fuel as [|fuel IH]; intros pos e; cbn [find_header_loop]; solve_sticky. Qed.
#[local] Hint Resolve sticky_find_header_loop : sticky.
Lemma sticky_find_header : sticky (find_header (H := H)).
Proof. unfold find_header. solve_sticky. Qed.
Lemma sticky_write_header : sticky (write_header (H := H)).
Proof. unfold write_header. solve_sticky. Qed.
#[local] Hint Resolve sticky_find_header sticky_write_header : sticky.
Lemma sticky_create_header : sticky (create_header (H := H)).
Proof. unfold create_header. solve_sticky. Qed.
#[local] Hint Resolve sticky_create_header : sticky.
Lemma sticky_couchstore_commit : sticky (couchstore_commit (H := H)).
Proof. unfold couchstore_commit. solve_sticky. Qed.
Lemma sticky_open_header r : sticky (open_header (H := H) r).
Proof. unfold open_header. solve_sticky. Qed.
Lemma sticky_couchstore_close_db : sticky (couchstore_close_db (H := H)).
Proof. unfold couchstore_close_db. solve_sticky. Qed.
Lemma sticky_couchstore_open_db_ex r c : sticky (couchstore_open_db_ex (H := H) r c).
Proof. unfold couchstore_open_db_ex, couchstore_close_db, open_header. solve_sticky. Qed.

(** The part after a header was found or made. *)
Lemma wp_open_success rdonly create Q (d : Db H) :
  open_flags_ok rdonly create = true ->
  wp (open_header rdonly) (fun e d' => e = COUCHSTORE_SUCCESS /\ Q e d') d -> wp (couchstore_open_db_ex rdonly create) Q d.
Proof.
  intros Hfl Hw. unfold couchstore_open_db_ex. rewrite Hfl.
  apply wp_bind; [intros; unfold couchstore_close_db; solve_sticky|].
  eapply wp_mono; [exact Hw|]. intros e d' [-> HQ]. rewrite decide_False by auto. by apply wp_ret.
Qed.

(** ** Finding the header *)

(** The header [h] stands at [pos] of the bytes [c]. *)
Definition header_at (c : bytes) (pos : Z) (h : db_header) : Prop :=
  pos mod COUCH_BLOCK_SIZE = 0 /\ header_wf pos h /\ has c pos (header_image pos (header_bytes h)).

Definition same_file (f f' : tree_file H) : Prop :=
  tf_pos f' = tf_pos f /\ file_ok (tf_handle f') /\ tf_contents f' = tf_contents f.

Lemma header_image_two pos h : exists b rest, header_image pos (header_bytes h) = Byte.x01 :: b :: rest.
Proof.
  unfold header_image, header_chunk. destruct (be_bytes 4 _) as [|x l] eqn:E.
  { apply (f_equal length) in E. by rewrite be_bytes_length in E. }
  cbn [app layout]. case_decide; eauto.
Qed.

Lemma wp_find_header_at pos h Q (d : Db H) :
  file_ok (tf_handle (db_file d)) -> header_at (tf_contents (db_file d)) pos h ->
  (forall f', same_file (db_file d) f' ->
    Q COUCHSTORE_SUCCESS {| db_file := f'; db_hdr := norm_header pos h |}) ->
  wp (find_header_at_pos pos) Q d.
Proof.
  intros Hok (Hal & Hwf & Hhas) HQ. pose proof (hw_pos _ _ Hwf) as Hpos. unfold find_header_at_pos.
  apply wp_bind; [intros; solve_sticky|]. apply wp_in_file, wp_file_pread; [done|lia|].
  intros f1 Hp1 Hok1 Hc1. destruct (header_image_two pos h) as (b & rest & E).
  assert (take 2 (drop (Z.to_nat pos) (tf_contents (db_file d))) = [Byte.x01; b]) as ->.
  { apply (has_take _ pos [Byte.x01; b]). rewrite E in Hhas.
    by apply (has_app _ pos [Byte.x01; b] rest) in Hhas as [? _]. }
  rewrite decide_False by done. rewrite decide_False by (by intros []).
  apply wp_bind; [intros; solve_sticky|]. apply wp_in_file. cbn [db_file].
  apply (wp_pread_header (header_bytes h)); [done|lia|done|apply Hwf|by rewrite Hc1|].
  intros f2 Hp2 Hok2 Hc2. unfold wp. rewrite decode_header_bytes by done. intros _. cbn [db_file].
  apply HQ. unfold same_file. split_and!; congruence.
Qed.

(** A block past the end of the file, or one that starts with a zero. *)
Lemma wp_find_no_header pos Q (d : Db H) :
  file_ok (tf_handle (db_file d)) -> 0 <= pos ->
  (forall b, tf_contents (db_file d) !! Z.to_nat pos = Some b -> b = Byte.x00) ->
  (forall f' e, same_file (db_file d) f' -> e = COUCHSTORE_ERROR_NO_HEADER \/ e = COUCHSTORE_ERROR_READ ->
    Q e {| db_file := f'; db_hdr := db_hdr d |}) ->
  wp (find_header_at_pos pos) Q d.
Proof.
  intros Hok Hpos Hz HQ. unfold find_header_at_pos.
  apply wp_bind; [intros; solve_sticky|]. apply wp_in_file, wp_file_pread; [done|lia|].
  intros f1 Hp1 Hok1 Hc1.
  destruct (take 2 (drop (Z.to_nat pos) (tf_contents (db_file d)))) as [|b0 [|b1 [|b2 l]]] eqn:E;
    try (apply wp_ret, HQ; [done|by right]).
  assert (b0 = Byte.x00) as ->.
  { apply Hz. rewrite <- (Nat.add_0_r (Z.to_nat pos)), <- lookup_drop, <- (lookup_take_lt _ 2) by lia. by rewrite E. }
  rewrite decide_True by done. apply wp_ret, HQ; [done|by left].
Qed.

Lemma wp_find_header_loop fuel pos hp h e0 Q (d : Db H) :
  file_ok (tf_handle (db_file d)) -> header_at (tf_contents (db_file d)) hp h ->
  no_header_after (tf_contents (db_file d)) hp -> hp <= pos -> pos mod COUCH_BLOCK_SIZE = 0 ->
  (Z.to_nat (pos / COUCH_BLOCK_SIZE + 1) <= fuel)%nat ->
  (forall f', same_file (db_file d) f' ->
    Q COUCHSTORE_SUCCESS {| db_file := f'; db_hdr := norm_header hp h |}) ->
  wp (find_header_loop fuel pos e0) Q d.
Proof.
  revert pos e0 d. induction fuel as [|fuel IH]; intros pos e0 d Hok Hat Hno Hle Hal Hfuel HQ.
  all: pose proof Hat as (Hal' & Hwf & _); pose proof (hw_pos _ _ Hwf) as Hhp.
  all: assert (0 <= pos / COUCH_BLOCK_SIZE) by (apply Z.div_pos; unfold COUCH_BLOCK_SIZE; lia).
  { lia. }
  cbn [find_header_loop]. rewrite decide_False by lia. apply wp_bind; [intros; solve_sticky|].
  destruct (decide (pos = hp)) as [->|Hne].
  { apply (wp_find_header_at _ h); [done|done|]. intros f' Hf'. by apply wp_ret, HQ. }
  apply wp_find_no_header; [done|lia| |].
  { intros b Hb. apply (Hno (Z.to_nat pos)); [lia| |done]. by rewrite Z2Nat.id by lia. }
  intros f' e (Hp & Hok' & Hc) He.
  assert (Hnext : forall e', wp (find_header_loop fuel (pos - COUCH_BLOCK_SIZE) e') Q
                     {| db_file := f'; db_hdr := db_hdr d |}).
  { intros e'. unfold COUCH_BLOCK_SIZE in *. apply IH; cbn [db_file]; rewrite ?Hc; [done|done|done| | | |].
    - Z.div_mod_to_equations. lia.
    - Z.div_mod_to_equations. lia.
    - replace (pos - 4096) with (pos + (-1) * 4096) by lia. rewrite Z.div_add by lia. lia.
    - intros f2 (Hp2 & Hok2 & Hc2). apply HQ. cbn [db_file] in *. unfold same_file. split_and!; congruence. }
  destruct He as [-> | ->]; apply Hnext.
Qed.

Lemma wp_find_header hp h Q (d : Db H) :
  file_ok (tf_handle (db_file d)) -> header_at (tf_contents (db_file d)) hp h ->
  no_header_after (tf_contents (db_file d)) hp -> hp + 2 <= tf_pos (db_file d) ->
  (forall f', same_file (db_file d) f' ->
    Q COUCHSTORE_SUCCESS {| db_file := f'; db_hdr := norm_header hp h |}) ->
  wp find_header Q d.
Proof.
  intros Hok Hat Hno Hle HQ. unfold find_header. apply wp_bind; [intros; solve_sticky|].
  apply wp_in_file. intros _. cbv zeta. destruct d as [f hd]. cbn [db_file db_hdr] in *.
  pose proof Hat as (Hal & Hwf & _). pose proof (hw_pos _ _ Hwf) as Hhp.
  set (p := tf_pos f - 2). rewrite Z.rem_mod_nonneg by (unfold COUCH_BLOCK_SIZE, p in *; lia).
  eapply wp_find_header_loop; [done|exact Hat|done| | |done|done]; unfold COUCH_BLOCK_SIZE, p in *.
  - Z.div_mod_to_equations. lia.
  - Z.div_mod_to_equations. lia.
Qed.

(** ** Committing *)

Lemma wp_write_header Q (d : Db H) :
  file_ok (tf_handle (db_file d)) -> 0 <= tf_pos (db_file d) ->
  unread (tf_handle (db_file d)) (tf_pos (db_file d)) ->
  let pos := header_pos (tf_pos (db_file d)) in
  let img := header_image pos (header_bytes (db_hdr d)) in
  (forall f', file_ok (tf_handle f') -> tf_pos f' = pos + blen img ->
    tf_contents f' = splice (tf_contents (db_file d)) (Z.to_nat pos) img ->
    tf_pos f' <= max_file_size ->
    (forall a, unread (tf_handle (db_file d)) a -> unread (tf_handle f') a) ->
    Q COUCHSTORE_SUCCESS {| db_file := f'; db_hdr := set_position pos (db_hdr d) |}) ->
  wp write_header Q d.
Proof.
  intros Hok Hp Hun pos img HQ. unfold write_header. apply wp_bind; [intros; solve_sticky|].
  intros _. apply wp_bind; [intros; solve_sticky|]. apply wp_in_file, wp_db_write_header; [done..|].
  intros f' Hok' Hp' Hc' Hmax Hu _. by apply HQ.
Qed.

(** The zero that extends the file ends before the header does. *)
Lemma commit_extent pos h (c : bytes) :
  0 <= pos -> blen c <= header_pos pos -> blen (header_bytes h) + 4 <= MAX_HEADER_SIZE ->
  let hp := header_pos pos in
  let img := header_image hp (header_bytes h) in
  let zpos := pos + blen (header_bytes h) in
  blen (splice (splice c (Z.to_nat zpos) (layout zpos (chunk [Byte.x00]))) (Z.to_nat hp) img) <= hp + blen img.
Proof.
  intros Hpos Hc Hsz hp img zpos. destruct (header_pos_spec pos) as [Hhp Hal]. fold hp in Hhp, Hal.
  assert (blen (chunk [Byte.x00]) = 9) as Hch by apply chunk_length.
  assert (9 + blen (header_bytes h) <= blen img) as Himg.
  { unfold img, header_image. rewrite blen_cons.
    pose proof (layout_length_ge (hp + 1) (header_chunk (header_bytes h))) as Hge.
    rewrite header_chunk_length in Hge. lia. }
  pose proof (header_bytes_length h) as Hhl.
  pose proof (root_size_nonneg (dh_by_seq_root h)). pose proof (root_size_nonneg (dh_by_id_root h)).
  pose proof (root_size_nonneg (dh_local_docs_root h)).
  unfold HEADER_BASE_SIZE, MAX_HEADER_SIZE in *.
  assert (zpos + blen (layout zpos (chunk [Byte.x00])) <= hp + blen img) as Hend.
  { destruct (decide (hp = pos)) as [E|E].
    - rewrite layout_in_block; rewrite ?Hch; [lia| |]; subst zpos; unfold COUCH_BLOCK_SIZE in *;
        rewrite E in Hal; Z.div_mod_to_equations; lia.
    - pose proof (layout_length_short zpos (chunk [Byte.x00])) as Hs. rewrite Hch in Hs.
      unfold COUCH_BLOCK_SIZE in Hs. subst zpos. lia. }
  unfold blen in *. etransitivity; [apply inj_le, splice_length_le|].
  pose proof (splice_length_le c (Z.to_nat zpos) (layout zpos (chunk [Byte.x00]))). subst zpos. lia.
Qed.

(** After a commit the header stands at the first block boundary, nothing behind
    it looks like one, and what was below it is untouched. *)
Lemma wp_couchstore_commit Q (d : Db H) :
  tf_appending (db_file d) ->
  let hp := header_pos (tf_pos (db_file d)) in
  (hp < 2 ^ 48 -> header_wf hp (db_hdr d)) ->
  (forall f', tf_ok f' -> synced (tf_handle f') -> hp + 2 <= tf_pos f' ->
    header_at (tf_contents f') hp (db_hdr d) -> no_header_after (tf_contents f') hp ->
    tf_pos f' = hp + blen (header_image hp (header_bytes (db_hdr d))) ->
    (forall pos a, has (tf_contents (db_file d)) pos a -> pos + blen a <= tf_pos (db_file d) ->
       has (tf_contents f') pos a) ->
    Q COUCHSTORE_SUCCESS {| db_file := f'; db_hdr := set_position hp (db_hdr d) |}) ->
  wp couchstore_commit Q d.
Proof.
  intros (Hok & Hp & Hun & Hend) hp Hwf HQ. unfold couchstore_commit. fold hp in Hend.
  destruct (header_pos_spec (tf_pos (db_file d))) as [Hhp Hal]. fold hp in Hhp, Hal.
  apply wp_bind; [intros; solve_sticky|]. intros _.
  apply wp_bind; [intros; solve_sticky|]. apply wp_in_file. intros _.
  apply wp_bind; [intros; solve_sticky|]. apply wp_in_file. intros _. cbn [db_file db_hdr].
  set (zpos := _ + (_ + _)).
  assert (zpos = tf_pos (db_file d) + blen (header_bytes (db_hdr d))) as Hz.
  { rewrite header_bytes_length. unfold zpos, HEADER_BASE_SIZE. lia. }
  pose proof (blen_nonneg (header_bytes (db_hdr d))).
  apply wp_bind; [intros; solve_sticky|]. apply wp_in_file, wp_db_write_buf; cbn [db_file db_hdr].
  { pose proof (header_pos_mono (tf_pos (db_file d)) zpos ltac:(lia)).
    split_and!; cbn [tf_handle tf_pos]; [done|lia|eapply unread_mono; [exact Hun|lia]|lia]. }
  cbn [tf_handle tf_pos]. intros f1 (Hok1 & _ & _) _ Hp1 Hc1 Hmax1 Hu1. pose proof (blen_nonneg (layout zpos (chunk [Byte.x00]))).
  specialize (Hwf ltac:(unfold max_file_size, COUCH_BLOCK_SIZE in *; lia)).
  apply wp_bind; [intros; solve_sticky|]. apply wp_in_file, wp_file_sync; cbn [db_file db_hdr]; [done|].
  intros f2 _ Hok2 Hc2 Hu2 _.
  apply wp_bind; [intros; solve_sticky|]. apply wp_in_file. intros _. cbn [db_file db_hdr].
  rewrite decide_True by done. apply wp_bind; [intros; solve_sticky|].
  apply wp_write_header; cbn [db_file db_hdr tf_handle tf_pos]; [done|done| |].
  { by apply Hu2, Hu1. }
  fold hp. intros f3 Hok3 Hp3 Hc3 Hmax3 _. rewrite decide_True by done.
  apply wp_in_file, wp_file_sync; cbn [db_file db_hdr]; [done|].
  intros f4 Hp4 Hok4 Hc4 _ Hs4.
  assert (Hcs : tf_contents f4 = splice (splice (tf_contents (db_file d)) (Z.to_nat zpos)
             (layout zpos (chunk [Byte.x00]))) (Z.to_nat hp) (header_image hp (header_bytes (db_hdr d)))).
  { unfold tf_contents in *. cbn [tf_handle] in *. by rewrite Hc4, Hc3, Hc2, Hc1. }
  destruct (header_image_two hp (db_hdr d)) as (b & rest & E2).
  assert (hp + 2 <= tf_pos f4).
  { rewrite Hp4, Hp3, E2, !blen_cons. pose proof (blen_nonneg rest). lia. }
  apply HQ; [|done|done| | |by rewrite Hp4|].
  - split_and!; [done|lia|]. fold (tf_contents f4). rewrite Hcs, Hp4, Hp3, Hz.
    apply commit_extent; [done..|apply Hwf].
  - split_and!; [done..|]. rewrite Hcs. apply splice_has. lia.
  - rewrite Hcs. apply no_header_after_header; [lia|]. apply no_header_after_layout; [lia|].
    apply no_header_after_end. unfold tf_contents. lia.
  - intros pos a Ha Hle. rewrite Hcs. apply splice_keeps; [|lia]. apply splice_keeps; [done|lia].
Qed.

(** ** Opening *)

Lemma wp_couchstore_open hp h rdonly create Q (d : Db H) :
  open_flags_ok rdonly create = true ->
  file_ok (tf_handle (db_file d)) -> synced (tf_handle (db_file d)) ->
  header_at (tf_contents (db_file d)) hp h -> no_header_after (tf_contents (db_file d)) hp ->
  (forall f', tf_ok f' -> tf_contents f' = tf_contents (db_file d) ->
    tf_pos f' = blen (tf_contents (db_file d)) ->
    Q COUCHSTORE_SUCCESS {| db_file := f'; db_hdr := norm_header hp h |}) ->
  wp (couchstore_open_db_ex rdonly create) Q d.
Proof.
  intros Hfl Hok Hsy Hat Hno HQ. apply wp_open_success; [done|]. unfold open_header.
  apply wp_bind; [intros; solve_sticky|]. intros _.
  apply wp_bind; [intros; solve_sticky|]. apply wp_in_file, wp_file_goto_eof; [done..|].
  cbn [db_file db_hdr]. intros f1 Hp1 Hok1 Hc1.
  apply wp_bind; [intros; solve_sticky|]. apply wp_in_file. intros _. cbn [db_file db_hdr].
  pose proof Hat as (_ & Hwf & Hhas). pose proof (hw_pos _ _ Hwf).
  destruct (header_image_two hp h) as (b & rest & E2).
  assert (hp + 2 <= blen (tf_contents (db_file d))).
  { apply has_end in Hhas; [|by rewrite E2]. rewrite E2, !blen_cons in Hhas. pose proof (blen_nonneg rest). lia. }
  rewrite decide_False by lia. unfold tf_contents in *. cbn [tf_handle] in *.
  apply (wp_find_header hp h); unfold tf_contents; cbn [db_file tf_handle tf_pos]; rewrite ?Hc1; try done.
  intros f2 (Hp2 & Hok2 & Hc2). unfold tf_contents in *. cbn [tf_handle tf_pos] in *.
  split; [done|]. apply HQ; [|congruence|congruence]. split_and!; [done|lia|]. rewrite Hp2, Hc2, Hc1. lia.
Qed.
End Specs.
