(* ===== verification/BTree.v ===== *)
(** * BTree: modification of the copy-on-write B-tree

    Models src/btree_modify.c and the types of src/couch_btree.h over a node
    store.  A [couchfile_modify_result] collects the items of the node being
    built ([mr_values]) and the pointers to the nodes already written
    ([mr_pointers]); the functions return it with the C return code, and where
    the C code ignores the code the model does too.  The actions
    [rq->actions[start .. end - 1]] are passed as a list.  The C state of the
    fetch callback is a second component of the state. *)

From Stdlib Require Import ZArith Lia.
From S2P Require Import Prelude Bitfield NodeTypes NodeStore.
From stdpp Require Import list numbers.

#[local] Open Scope Z_scope.
#[local] Open Scope couch_scope.

Definition CHUNK_THRESHOLD : Z := 1279.
Definition CHUNK_SIZE : Z := CHUNK_THRESHOLD * 2 / 3.

Inductive node_type : Type := KP_NODE | KV_NODE.

#[global] Instance node_type_eq_dec : EqDecision node_type.
Proof. solve_decision. Defined.

Definition node_type_byte (t : node_type) : byte :=
  match t with KP_NODE => Byte.x00 | KV_NODE => Byte.x01 end.

Record nodelist : Type := {
  nl_data : bytes;
  nl_key : bytes;
  nl_pointer : option node_pointer
}.

(** What an item adds to the length of a node. *)
Definition item_size (i : nodelist) : Z := blen (nl_key i) + blen (nl_data i) + 5.

(** A reduce function gets the list and the number of items to reduce; [None]
    when it would read outside an item. *)
Definition reduce_fn : Type := list nodelist -> nat -> option bytes.

Inductive modify_action (A : Type) : Type :=
| ACTION_FETCH (key : bytes) (arg : A)
| ACTION_REMOVE (key : bytes)
| ACTION_INSERT (key data : bytes).
Arguments ACTION_FETCH {A}.
Arguments ACTION_REMOVE {A}.
Arguments ACTION_INSERT {A}.

Definition act_key {A} (a : modify_action A) : bytes :=
  match a with ACTION_FETCH k _ => k | ACTION_REMOVE k => k | ACTION_INSERT k _ => k end.

Record modify_request (C A : Type) : Type := {
  rq_compare : bytes -> bytes -> option Z;
  rq_fetch_callback : option (bytes -> option bytes -> A -> C -> option C);
  rq_reduce : option reduce_fn;
  rq_rereduce : option reduce_fn;
  rq_compacting : bool
}.
Arguments rq_compare {C A}.
Arguments rq_fetch_callback {C A}.
Arguments rq_reduce {C A}.
Arguments rq_rereduce {C A}.
Arguments rq_compacting {C A}.

Record modify_result : Type := {
  mr_values : list nodelist;
  mr_node_len : Z;
  mr_count : Z;
  mr_pointers : list nodelist;
  mr_modified : bool;
  mr_node_type : node_type
}.

Definition make_modres (t : node_type) : modify_result :=
  {| mr_values := []; mr_node_len := 0; mr_count := 0; mr_pointers := [];
     mr_modified := false; mr_node_type := t |}.

Definition set_modified (m : modify_result) : modify_result :=
  {| mr_values := mr_values m; mr_node_len := mr_node_len m; mr_count := mr_count m;
     mr_pointers := mr_pointers m; mr_modified := true; mr_node_type := mr_node_type m |}.

(** Append an item to the values and count it. *)
Definition add_value (i : nodelist) (m : modify_result) : modify_result :=
  {| mr_values := mr_values m ++ [i]; mr_node_len := mr_node_len m + item_size i;
     mr_count := mr_count m + 1; mr_pointers := mr_pointers m;
     mr_modified := mr_modified m; mr_node_type := mr_node_type m |}.

Definition encode_pointer (ptr : node_pointer) : nodelist :=
  {| nl_data := encode_raw48 (np_pointer ptr) ++ encode_raw48 (np_subtreesize ptr) ++
                encode_raw16 (u16 (blen (np_reduce_value ptr))) ++ np_reduce_value ptr;
     nl_key := np_key ptr;
     nl_pointer := Some ptr |}.

(** [buf] is the node from the start of the item's value on: the C function is
    given no length. *)
Definition read_pointer (key : bytes) (buf : bytes) : option node_pointer :=
  raw ← as_raw_node_pointer buf;
  red ← slice sizeof_raw_node_pointer (Z.to_nat (decode_raw16 (rnp_reduce_value_size raw))) buf;
  Some {| np_key := key; np_pointer := decode_raw48 (rnp_pointer raw);
          np_reduce_value := red; np_subtreesize := decode_raw48 (rnp_subtreesize raw) |}.

(** The loop that fills [nodebuf]: the bytes written, the sizes of the subtrees,
    the last key, the number of items written and those left.  [mr_quota] is a
    [size_t]. *)
Fixpoint flush_loop (t : node_type) (i : list nodelist) (mr_quota : Z) (dst : bytes)
    (subtreesize : Z) (final_key : bytes) (itmcount : nat)
    : bytes * Z * bytes * nat * list nodelist :=
  match i with
  | [] => (dst, subtreesize, final_key, itmcount, [])
  | x :: next =>
      if decide (0 < mr_quota \/ ((itmcount < 2)%nat /\ t = KP_NODE)) then
        flush_loop t next (u64 (mr_quota - (blen (nl_key x) + blen (nl_data x) + 5)))
          (dst ++ write_kv (nl_key x) (nl_data x))
          (match nl_pointer x with
           | Some p => u64 (subtreesize + np_subtreesize p)
           | None => subtreesize
           end)
          (nl_key x) (S itmcount)
      else (dst, subtreesize, final_key, itmcount, i)
  end.

Section Modify.
Context {F C A : Type} `{NodeStore F}.
Variable rq : modify_request C A.

(** [char reducebuf[500]]. *)
Definition REDUCE_BUF_SIZE : Z := 500.

Definition on_file {B} (m : M F B) : M (F * C) B := zoom fst (fun f s => (f, snd s)) m.

(** The calls of the reduce functions in flush_mr_partial. *)
Definition reduce_items (t : node_type) (values : list nodelist) (itmcount : nat) : option bytes :=
  match t with
  | KV_NODE => match rq_reduce rq with Some f => f values itmcount | None => Some [] end
  | KP_NODE => match rq_rereduce rq with Some f => f values itmcount | None => Some [] end
  end.

Definition flush_mr_partial (res : modify_result) (mr_quota : Z)
    : M (F * C) (modify_result * couchstore_error_t) :=
  if decide (mr_values res = [] \/ mr_modified res = false) then ret (res, COUCHSTORE_SUCCESS)
  else
    let '(writebuf, subtreesize, final_key, itmcount, i) :=
      flush_loop (mr_node_type res) (mr_values res) (u64 mr_quota)
        [node_type_byte (mr_node_type res)] 0 [] 0 in
    (* nodebuf has node_len + 1 bytes *)
    if decide (mr_node_len res + 1 < blen writebuf) then undef
    else
      let count := mr_count res - Z.of_nat itmcount in
      let* w := on_file (write_node writebuf) in
      match w with
      | Error e =>
          ret ({| mr_values := mr_values res; mr_node_len := mr_node_len res; mr_count := count;
                  mr_pointers := mr_pointers res; mr_modified := mr_modified res;
                  mr_node_type := mr_node_type res |}, e)
      | Done (diskpos, disk_size) =>
          let* reducebuf := need (reduce_items (mr_node_type res) (mr_values res) itmcount) in
          if decide (REDUCE_BUF_SIZE < blen reducebuf) then undef
          else
            let ptr := {| np_key := final_key; np_pointer := diskpos; np_reduce_value := reducebuf;
                          np_subtreesize := u64 (subtreesize + disk_size) |} in
            let pel := encode_pointer ptr in
            ret ({| mr_values := i; mr_node_len := mr_node_len res - (blen writebuf - 1);
                    mr_count := count; mr_pointers := mr_pointers res ++ [pel];
                    mr_modified := mr_modified res; mr_node_type := mr_node_type res |},
                 COUCHSTORE_SUCCESS)
      end.

Definition flush_mr (res : modify_result) : M (F * C) (modify_result * couchstore_error_t) :=
  flush_mr_partial res (mr_node_len res).

Definition maybe_flush (mr : modify_result) : M (F * C) (modify_result * couchstore_error_t) :=
  if rq_compacting rq then
    if decide (mr_modified mr = true /\ CHUNK_SIZE < mr_node_len mr) then flush_mr mr
    else ret (mr, COUCHSTORE_SUCCESS)
  else
    if decide (mr_modified mr = true /\ CHUNK_THRESHOLD < mr_node_len mr /\ 3 < mr_count mr)
    then flush_mr_partial mr CHUNK_SIZE
    else ret (mr, COUCHSTORE_SUCCESS).

Definition mr_push_item (k v : bytes) (dst : modify_result)
    : M (F * C) (modify_result * couchstore_error_t) :=
  maybe_flush (add_value {| nl_data := v; nl_key := k; nl_pointer := None |} dst).

Definition mr_push_pointerinfo (ptr : node_pointer) (dst : modify_result)
    : M (F * C) (modify_result * couchstore_error_t) :=
  maybe_flush (add_value (encode_pointer ptr) dst).

(** The pointers of [src] appended one by one to the values of [dst].  After an
    error the callers use neither result again. *)
Fixpoint mr_move_pointers (pointers : list nodelist) (dst : modify_result)
    : M (F * C) (modify_result * couchstore_error_t) :=
  match pointers with
  | [] => ret (dst, COUCHSTORE_SUCCESS)
  | ptr :: next =>
      let* (dst, e) := maybe_flush (add_value ptr dst) in
      if decide (e = COUCHSTORE_SUCCESS) then mr_move_pointers next dst else ret (dst, e)
  end.

Definition fetch (k : bytes) (v : option bytes) (arg : A) : M (F * C) unit :=
  match rq_fetch_callback rq with
  | None => ret tt
  | Some cb => fun s => match cb k v arg (snd s) with
                        | Some c => Ret tt (fst s, c)
                        | None => Undef s
                        end
  end.

(** ** Leaf nodes *)

(** An action whose key the leaf does not hold at this point. *)
Definition action_no_item (a : modify_action A) (local_result : modify_result)
    : M (F * C) modify_result :=
  match a with
  | ACTION_INSERT k data =>
      let* (r, _) := mr_push_item k data (set_modified local_result) in ret r
  | ACTION_REMOVE _ => ret (set_modified local_result)
  | ACTION_FETCH k arg => fetch k None arg ;; ret local_result
  end.

(** The inner loop over the actions for one item of the leaf: the actions left. *)
Fixpoint kv_item (cmp_key val_buf : bytes) (acts : list (modify_action A)) (local_result : modify_result)
    : M (F * C) (list (modify_action A) * modify_result) :=
  match acts with
  | [] => let* (r, _) := mr_push_item cmp_key val_buf local_result in ret ([], r)
  | a :: acts' =>
      let* cmp_val := need (rq_compare rq cmp_key (act_key a)) in
      if decide (cmp_val < 0) then
        let* (r, _) := mr_push_item cmp_key val_buf local_result in ret (acts, r)
      else if decide (0 < cmp_val) then
        let* r := action_no_item a local_result in kv_item cmp_key val_buf acts' r
      else
        match a with
        | ACTION_INSERT k data =>
            let* (r, _) := mr_push_item k data (set_modified local_result) in ret (acts', r)
        | ACTION_REMOVE _ => ret (acts', set_modified local_result)
        | ACTION_FETCH k arg =>
            fetch k (Some val_buf) arg ;; kv_item cmp_key val_buf acts' local_result
        end
  end.

(** The loop over the items; [buf] is the node from [bufpos] on.  An item takes
    at least five bytes, so the length of the node is fuel enough. *)
Fixpoint kv_loop (fuel : nat) (buf : bytes) (acts : list (modify_action A)) (local_result : modify_result)
    : M (F * C) (list (modify_action A) * modify_result) :=
  match buf with
  | [] => ret (acts, local_result)
  | _ :: _ =>
      match fuel with
      | O => nofuel
      | S fuel' =>
          let* (cmp_key, val_buf, n) := need (read_kv buf) in
          let* (acts, r) := kv_item cmp_key val_buf acts local_result in
          kv_loop fuel' (drop n buf) acts r
      end
  end.

(** At the end of a leaf node. *)
Fixpoint kv_rest (acts : list (modify_action A)) (local_result : modify_result)
    : M (F * C) modify_result :=
  match acts with
  | [] => ret local_result
  | a :: acts' => let* r := action_no_item a local_result in kv_rest acts' r
  end.

Definition kv_node (buf : bytes) (acts : list (modify_action A))
    : M (F * C) (modify_result * couchstore_error_t) :=
  let* (acts, r) := kv_loop (length buf) buf acts (make_modres KV_NODE) in
  let* r := kv_rest acts r in
  ret (r, COUCHSTORE_SUCCESS).

(** ** Interior nodes *)

(** The actions up to [range_end], and those from it on. *)
Fixpoint action_range (cmp_key : bytes) (acts : list (modify_action A))
    : option (list (modify_action A) * list (modify_action A)) :=
  match acts with
  | [] => Some ([], [])
  | a :: acts' =>
      c ← rq_compare rq (act_key a) cmp_key;
      if decide (c <= 0) then '(x, y) ← action_range cmp_key acts'; Some (a :: x, y)
      else Some ([], acts)
  end.

Section Recursion.
(** The recursive call of modify_node. *)
Variable rec : node_pointer -> list (modify_action A) -> modify_result ->
  M (F * C) (modify_result * couchstore_error_t).

(** The first loop over the items of an interior node: what is left of the node. *)
Fixpoint kp_loop (fuel : nat) (buf : bytes) (acts : list (modify_action A)) (local_result : modify_result)
    : M (F * C) (bytes * modify_result * couchstore_error_t) :=
  match buf, acts with
  | [], _ | _, [] => ret (buf, local_result, COUCHSTORE_SUCCESS)
  | _ :: _, a :: _ =>
      match fuel with
      | O => nofuel
      | S fuel' =>
          let* (cmp_key, val_buf, n) := need (read_kv buf) in
          let val := drop (n - length val_buf) buf in
          let buf' := drop n buf in
          let* cmp_val := need (rq_compare rq cmp_key (act_key a)) in
          match buf' with
          | [] =>
              let* desc := need (read_pointer cmp_key val) in
              let* (r, e) := rec desc acts local_result in
              ret ([], r, e)
          | _ :: _ =>
              if decide (cmp_val < 0) then
                let* add := need (read_pointer cmp_key val) in
                let* (r, e) := mr_push_pointerinfo add local_result in
                if decide (e = COUCHSTORE_SUCCESS) then kp_loop fuel' buf' acts r else ret (buf', r, e)
              else
                let* (now, later) := need (action_range cmp_key acts) in
                let* desc := need (read_pointer cmp_key val) in
                let* (r, e) := rec desc now local_result in
                if decide (e = COUCHSTORE_SUCCESS) then kp_loop fuel' buf' later r else ret (buf', r, e)
          end
      end
  end.

(** The second loop: the items after the last action. *)
Fixpoint kp_rest (fuel : nat) (buf : bytes) (local_result : modify_result)
    : M (F * C) (modify_result * couchstore_error_t) :=
  match buf with
  | [] => ret (local_result, COUCHSTORE_SUCCESS)
  | _ :: _ =>
      match fuel with
      | O => nofuel
      | S fuel' =>
          let* (cmp_key, val_buf, n) := need (read_kv buf) in
          let* add := need (read_pointer cmp_key (drop (n - length val_buf) buf)) in
          let* (r, e) := mr_push_pointerinfo add local_result in
          if decide (e = COUCHSTORE_SUCCESS) then kp_rest fuel' (drop n buf) r else ret (r, e)
      end
  end.

Definition kp_node (buf : bytes) (acts : list (modify_action A))
    : M (F * C) (modify_result * couchstore_error_t) :=
  let* (buf, r, e) := kp_loop (length buf) buf acts (make_modres KP_NODE) in
  if decide (e = COUCHSTORE_SUCCESS) then kp_rest (length buf) buf r else ret (r, e).
End Recursion.

(** ** Nodes *)

(** [fuel] bounds the depth of the tree. *)
Fixpoint modify_node (fuel : nat) (nptr : option node_pointer) (acts : list (modify_action A))
    (dst : modify_result) : M (F * C) (modify_result * couchstore_error_t) :=
  match acts with
  | [] => ret (dst, COUCHSTORE_SUCCESS)
  | _ :: _ =>
      match fuel with
      | O => nofuel
      | S fuel' =>
          let* nodebuf := match nptr with
                          | Some p => on_file (read_node (np_pointer p))
                          | None => ret (Done [])
                          end in
          match nodebuf with
          | Error _ => ret (dst, COUCHSTORE_ERROR_READ)
          | Done nodebuf =>
              let* (local_result, e) :=
                match nptr, nodebuf with
                | None, _ => kv_node [] acts
                | Some _, [] => undef
                | Some _, t :: buf =>
                    if decide (t = Byte.x01) then kv_node buf acts
                    else if decide (t = Byte.x00) then
                      kp_node (fun p => modify_node fuel' (Some p)) buf acts
                    else ret (make_modres KP_NODE, COUCHSTORE_ERROR_CORRUPT)
                end in
              if decide (e <> COUCHSTORE_SUCCESS) then ret (dst, e)
              else
                let* (local_result, e) := flush_mr local_result in
                if decide (e <> COUCHSTORE_SUCCESS) then ret (dst, e)
                else
                  match mr_modified local_result, nptr with
                  | false, Some p =>
                      let* (dst, _) := mr_push_pointerinfo p dst in ret (dst, COUCHSTORE_SUCCESS)
                  | _, _ => mr_move_pointers (mr_pointers local_result) (set_modified dst)
                  end
          end
      end
  end.

(** ** Roots *)

(** Move the pointers up a level until one is left: [fuel] bounds the number of
    levels added. *)
Fixpoint finish_loop (fuel : nat) (root_result collector : modify_result)
    : M (F * C) (option node_pointer * couchstore_error_t) :=
  match mr_pointers root_result with
  | [p] => ret (nl_pointer p, COUCHSTORE_SUCCESS)
  | _ =>
      match fuel with
      | O => nofuel
      | S fuel' =>
          let* (collector, e) := mr_move_pointers (mr_pointers root_result) collector in
          if decide (e <> COUCHSTORE_SUCCESS) then ret (None, e)
          else
            let* (collector, e) := flush_mr collector in
            if decide (e <> COUCHSTORE_SUCCESS) then ret (None, e)
            else
              (* swapped, with the pointers of the old root_result moved out *)
              finish_loop fuel' collector
                {| mr_values := mr_values root_result; mr_node_len := mr_node_len root_result;
                   mr_count := mr_count root_result; mr_pointers := [];
                   mr_modified := mr_modified root_result; mr_node_type := mr_node_type root_result |}
      end
  end.

Definition finish_root (fuel : nat) (root_result : modify_result)
    : M (F * C) (option node_pointer * couchstore_error_t) :=
  let collector := set_modified (make_modres KP_NODE) in
  let* (root_result, _) := flush_mr root_result in
  finish_loop fuel root_result collector.

(** [values_end->pointer], the sentinel's being null. *)
Definition values_end_pointer (m : modify_result) : option node_pointer :=
  i ← list.last (mr_values m); nl_pointer i.

Definition modify_btree (fuel : nat) (root : option node_pointer) (acts : list (modify_action A))
    : M (F * C) (option node_pointer * couchstore_error_t) :=
  let* (root_result, e) := modify_node fuel root acts (make_modres KP_NODE) in
  if decide (e <> COUCHSTORE_SUCCESS) then ret (None, e)
  else if mr_modified root_result then
    if decide (1 < mr_count root_result \/ mr_pointers root_result <> []) then
      let* (p, e) := finish_root fuel root_result in
      if decide (e <> COUCHSTORE_SUCCESS) then ret (None, e) else ret (p, e)
    else ret (values_end_pointer root_result, COUCHSTORE_SUCCESS)
  else ret (root, COUCHSTORE_SUCCESS).

(** The request new_btree_modres makes has [compacting] set. *)
Definition new_btree_modres : modify_result := set_modified (make_modres KV_NODE).

Definition complete_new_btree (fuel : nat) (mr : modify_result)
    : M (F * C) (option node_pointer * couchstore_error_t) :=
  let* (mr, e) := flush_mr mr in
  if decide (e <> COUCHSTORE_SUCCESS) then ret (None, e)
  else
    let* (targ_mr, e) := mr_move_pointers (mr_pointers mr) (set_modified (make_modres KP_NODE)) in
    if decide (e <> COUCHSTORE_SUCCESS) then ret (None, e)
    else if decide (1 < mr_count targ_mr \/ mr_pointers targ_mr <> []) then finish_root fuel targ_mr
    else ret (values_end_pointer targ_mr, COUCHSTORE_SUCCESS).
End Modify.
