(* ===== verification/BTreeInv.v ===== *)
(** * BTreeInv: what a tree on disk holds, and flushing

    [node_at st h pos kvs sz]: the node at [pos] is the root of a tree of height
    [h] that holds the items [kvs] in order and whose nodes take [sz] bytes on
    disk.  [rep st h m kvs]: the result [m], at height [h], stands for the
    items [kvs]: those below the pointers already written, then those in its
    values.  Every operation on a result keeps what it stands for. *)

From Stdlib Require Import ZArith Lia.
From S2P Require Import Prelude Bitfield NodeTypes NodeStore BTree.
From stdpp Require Import list numbers.

#[local] Open Scope Z_scope.
#[local] Open Scope couch_scope.

Abbreviation kv := (list Init.Byte.byte * list Init.Byte.byte)%type (only parsing).

Definition leaf_item (x : kv) : nodelist :=
  {| nl_data := x.2; nl_key := x.1; nl_pointer := None |}.

(** The image of a node holding [items]. *)
Definition items_buf (items : list nodelist) : bytes :=
  concat (map (fun i => write_kv (nl_key i) (nl_data i)) items).
Definition node_buf (t : node_type) (items : list nodelist) : bytes :=
  node_type_byte t :: items_buf items.

Definition sumZ {X} (f : X -> Z) (l : list X) : Z := foldr (fun x s => f x + s) 0 l.

(** An upper bound on what an item can add to a node at any level. *)
Definition weight (kvs : list kv) : Z := sumZ (fun x => blen x.1 + blen x.2 + 1024) kvs.

(** A pointer with the items and the size of the tree below it. *)
Record child : Type := { ch_ptr : node_pointer; ch_kvs : list kv; ch_size : Z }.
Definition ch_item (c : child) : nodelist := encode_pointer (ch_ptr c).
Definition ch_all (cs : list child) : list kv := concat (map ch_kvs cs).

Definition level_type (h : nat) : node_type := match h with O => KV_NODE | S _ => KP_NODE end.

(** ** Arithmetic of items *)

Section Sums.
Context {X : Type} (f : X -> Z).

Lemma sumZ_app l1 l2 : sumZ f (l1 ++ l2) = sumZ f l1 + sumZ f l2.
Proof. induction l1 as [|x l1 IH]; cbn; [done|]. unfold sumZ in *. rewrite IH. lia. Qed.

Lemma sumZ_nonneg l : (forall x, 0 <= f x) -> 0 <= sumZ f l.
Proof. intros Hf. induction l as [|x l IH]; cbn; [done|]. specialize (Hf x). unfold sumZ in *. lia. Qed.
End Sums.

Lemma weight_app l1 l2 : weight (l1 ++ l2) = weight l1 + weight l2.
Proof. apply sumZ_app. Qed.

Lemma sumZ_perm {X} (g : X -> Z) l l' : l ≡ₚ l' -> sumZ g l = sumZ g l'.
Proof. induction 1; cbn; unfold sumZ in *; cbn in *; lia. Qed.

Lemma weight_perm l l' : l ≡ₚ l' -> weight l = weight l'.
Proof. apply sumZ_perm. Qed.

Lemma weight_nonneg l : 0 <= weight l.
Proof. apply sumZ_nonneg. intros x. pose proof (blen_nonneg x.1). pose proof (blen_nonneg x.2). lia. Qed.

Lemma weight_elem x l : x ∈ l -> blen x.1 + blen x.2 + 1024 <= weight l.
Proof.
  induction 1 as [x l|x y l Hx IH]; unfold weight; cbn.
  - pose proof (weight_nonneg l) as Hw. unfold weight, sumZ in Hw. lia.
  - fold (sumZ (fun x : kv => blen x.1 + blen x.2 + 1024) l) (weight l).
    pose proof (blen_nonneg y.1). pose proof (blen_nonneg y.2). lia.
Qed.

Lemma weight_length l : Z.of_nat (length l) <= weight l.
Proof.
  induction l as [|x l IH]; [done|]. cbn [length]. change (x :: l) with ([x] ++ l). rewrite weight_app.
  assert (1 <= weight [x]); [|lia]. unfold weight. cbn.
  pose proof (blen_nonneg x.1). pose proof (blen_nonneg x.2). lia.
Qed.

Lemma item_size_pos i : 5 <= item_size i.
Proof. unfold item_size. pose proof (blen_nonneg (nl_key i)). pose proof (blen_nonneg (nl_data i)). lia. Qed.

Lemma items_buf_app l1 l2 : items_buf (l1 ++ l2) = items_buf l1 ++ items_buf l2.
Proof. unfold items_buf. by rewrite map_app, concat_app. Qed.

Lemma items_buf_size l : blen (items_buf l) = sumZ item_size l.
Proof.
  induction l as [|i l IH]; [done|]. change (i :: l) with ([i] ++ l).
  rewrite items_buf_app, blen_app, sumZ_app, IH. unfold items_buf, blen, item_size, sumZ, blen. solve_len.
  cbn. rewrite app_nil_r. autorewrite with len. lia.
Qed.

Lemma ch_all_app cs1 cs2 : ch_all (cs1 ++ cs2) = ch_all cs1 ++ ch_all cs2.
Proof. unfold ch_all. by rewrite map_app, concat_app. Qed.

Lemma ch_item_size c :
  item_size (ch_item c) = blen (np_key (ch_ptr c)) + blen (np_reduce_value (ch_ptr c)) + 19.
Proof. unfold item_size, ch_item, encode_pointer, blen. cbn. autorewrite with len. lia. Qed.

(** ** flush_loop *)

Definition subtree_sum (s : Z) (items : list nodelist) : Z :=
  foldl (fun s x => match nl_pointer x with Some p => u64 (s + np_subtreesize p) | None => s end) s items.

Definition final_key_of (k : bytes) (items : list nodelist) : bytes :=
  match list.last items with Some x => nl_key x | None => k end.

(** The loop writes a prefix of the items: at least one when the quota is
    positive, two of an interior node when there are two, and all of them when
    the quota is their size. *)
Lemma flush_loop_spec t items q dst sub fk n :
  exists j, (j <= length items)%nat /\
    flush_loop t items q dst sub fk n =
      (dst ++ items_buf (take j items), subtree_sum sub (take j items),
       final_key_of fk (take j items), (n + j)%nat, drop j items) /\
    (0 < q -> items <> [] -> (1 <= j)%nat) /\
    (t = KP_NODE -> (2 - n <= j \/ j = length items)%nat) /\
    (q = sumZ item_size items -> q < 2 ^ 64 -> j = length items).
Proof.
  revert q dst sub fk n. induction items as [|x items IH]; intros q dst sub fk n.
  { exists 0%nat. cbn. rewrite app_nil_r, Nat.add_0_r. split_and!; try done. auto. }
  cbn [flush_loop]. case_decide as Hq.
  - fold (item_size x). set (sub' := match nl_pointer x with Some p => _ | None => sub end).
    destruct (IH (u64 (q - item_size x)) (dst ++ write_kv (nl_key x) (nl_data x)) sub' (nl_key x) (S n))
      as (j & Hj & -> & _ & Hkp & Hall).
    exists (S j). cbn [length take drop]. split_and!; [lia| |lia| |].
    + change (x :: take j items) with ([x] ++ take j items). rewrite items_buf_app.
      unfold items_buf at 2. cbn [map concat]. rewrite app_nil_r, app_assoc.
      replace (S n + j)%nat with (n + S j)%nat by lia. do 2 f_equal.
      unfold final_key_of. rewrite last_app. destruct (list.last (take j items)) eqn:E; [done|].
      done.
    + intros Ht. specialize (Hkp Ht). lia.
    + intros -> Hlt. f_equal. cbn [sumZ foldr] in Hlt. fold (sumZ item_size items) in Hlt.
      pose proof (sumZ_nonneg item_size items (fun i => ltac:(pose proof (item_size_pos i); lia))).
      pose proof (item_size_pos x).
      apply Hall; unfold u64; cbn [sumZ foldr]; fold (sumZ item_size items); rewrite ?Z.mod_small; lia.
  - exists 0%nat. cbn [length take drop]. rewrite app_nil_r, Nat.add_0_r.
    split_and!; [lia|done|intros ?; tauto| |].
    + intros ->. left. destruct (decide (n < 2)%nat); [tauto|lia].
    + intros -> Hlt. destruct Hq. left. cbn [sumZ foldr]. fold (sumZ item_size items).
      pose proof (sumZ_nonneg item_size items (fun i => ltac:(pose proof (item_size_pos i); lia))).
      pose proof (item_size_pos x). lia.
Qed.

Lemma subtree_sum_leaf s kvs : subtree_sum s (map leaf_item kvs) = s.
Proof. revert s. induction kvs as [|x kvs IH]; intros s; [done|]. apply IH. Qed.

Lemma u64_mod48 a : u64 a mod 2 ^ 48 = a mod 2 ^ 48.
Proof.
  unfold u64. apply Z.mod_mod_divide. by exists (2 ^ 16).
Qed.

Lemma subtree_sum_children s cs :
  Forall (fun c => np_subtreesize (ch_ptr c) mod 2 ^ 48 = ch_size c mod 2 ^ 48) cs ->
  subtree_sum s (map ch_item cs) mod 2 ^ 48 = (s + sumZ ch_size cs) mod 2 ^ 48.
Proof.
  revert s. induction cs as [|c cs IH]; intros s Hcs.
  { cbn. by rewrite Z.add_0_r. }
  inversion_clear Hcs as [|? ? Hc Hcs']. cbn [map]. unfold subtree_sum. cbn [foldl].
  fold (subtree_sum (u64 (s + np_subtreesize (ch_ptr c))) (map ch_item cs)).
  change (nl_pointer (ch_item c)) with (Some (ch_ptr c)). cbv iota.
  rewrite (IH _ Hcs'). cbn [sumZ foldr]. fold (sumZ ch_size cs).
  rewrite <- Zplus_mod_idemp_l, u64_mod48.
  rewrite (Z.add_assoc s), <- (Zplus_mod_idemp_l (s + ch_size c)). f_equal. f_equal.
  rewrite <- Zplus_mod_idemp_r, Hc, Zplus_mod_idemp_r. done.
Qed.

(** ** Trees on disk *)

Section Trees.
Context {F : Type} `{HF : Faulty F} `{HN : !NodeStore F} `{HL : !NodeWriterLaws F}.
(** What an item must satisfy, and the reduction of the items of a subtree. *)
Variable kvok : bytes -> bytes -> Prop.
Variable rval : list kv -> bytes.

Definition kvs_ok (kvs : list kv) : Prop := Forall (fun x => kvok x.1 x.2) kvs.

(** The key of a pointer is the last key below it. *)
Definition ptr_facts (c : child) : Prop :=
  (exists v, list.last (ch_kvs c) = Some (np_key (ch_ptr c), v)) /\
  np_reduce_value (ch_ptr c) = rval (ch_kvs c) /\
  np_subtreesize (ch_ptr c) mod 2 ^ 48 = ch_size c mod 2 ^ 48.

Fixpoint node_at (st : F) (h : nat) (pos : Z) (kvs : list kv) (sz : Z) : Prop :=
  match h with
  | O => kvs <> [] /\ kvs_ok kvs /\ ns_stored st pos (node_buf KV_NODE (map leaf_item kvs)) sz
  | S h' => exists cs dsz,
      cs <> [] /\ Forall (fun c => ptr_facts c /\ node_at st h' (np_pointer (ch_ptr c)) (ch_kvs c) (ch_size c)) cs /\
      kvs = ch_all cs /\ sz = dsz + sumZ ch_size cs /\
      ns_stored st pos (node_buf KP_NODE (map ch_item cs)) dsz
  end.

Definition child_at (st : F) (h : nat) (c : child) : Prop :=
  ptr_facts c /\ node_at st h (np_pointer (ch_ptr c)) (ch_kvs c) (ch_size c).

(** A root of height [h]: no tree at all, or a pointer to one.  The key of a
    root is not used: a root read from a header has none. *)
Definition root_at (st : F) (h : nat) (root : option node_pointer) (kvs : list kv) : Prop :=
  match root with
  | None => kvs = [] /\ h = O
  | Some p => exists sz, node_at st h (np_pointer p) kvs sz /\
      np_reduce_value p = rval kvs /\ np_subtreesize p mod 2 ^ 48 = sz mod 2 ^ 48
  end.

Definition ptrs_at (st : F) (h : nat) (ps : list nodelist) (kvs : list kv) : Prop :=
  exists cs, ps = map ch_item cs /\ Forall (child_at st h) cs /\ kvs = ch_all cs.

Definition values_at (st : F) (h : nat) (vs : list nodelist) (kvs : list kv) : Prop :=
  match h with
  | O => vs = map leaf_item kvs /\ kvs_ok kvs
  | S h' => ptrs_at st h' vs kvs
  end.

Definition rep (st : F) (h : nat) (m : modify_result) (kvs : list kv) : Prop :=
  mr_node_type m = level_type h /\
  mr_node_len m = sumZ item_size (mr_values m) /\
  mr_count m = Z.of_nat (length (mr_values m)) /\
  exists pk vk, kvs = pk ++ vk /\ ptrs_at st h (mr_pointers m) pk /\ values_at st h (mr_values m) vk.

(** *** Trees survive extension of the file *)

(** [st'] holds every node of [st]. *)
Definition keeps_nodes (st st' : F) : Prop :=
  forall pos buf dsz, ns_stored st pos buf dsz -> ns_stored st' pos buf dsz.

Lemma node_at_keep st st' h pos kvs sz :
  keeps_nodes st st' -> node_at st h pos kvs sz -> node_at st' h pos kvs sz.
Proof.
  intros He. revert pos kvs sz. induction h as [|h IH]; intros pos kvs sz; cbn.
  - intros (? & ? & ?). split_and!; [done..|]. by apply He.
  - intros (cs & dsz & ? & Hcs & ? & ? & ?). exists cs, dsz. split_and!; [done| |done|done|by apply He].
    eapply List.Forall_impl; [|exact Hcs]. intros c [? ?]. split; [done|]. by apply IH.
Qed.

Lemma root_at_keep st st' h root kvs : keeps_nodes st st' -> root_at st h root kvs -> root_at st' h root kvs.
Proof. intros He. destruct root; [|done]. intros (sz & ? & ?). exists sz. split; [by eapply node_at_keep|done]. Qed.

Lemma ext_keeps_nodes st st' : ns_ext st st' -> keeps_nodes st st'.
Proof. intros He pos buf dsz. by apply ns_stored_ext. Qed.

Lemma node_at_ext st st' h pos kvs sz :
  ns_ext st st' -> node_at st h pos kvs sz -> node_at st' h pos kvs sz.
Proof. intros He. by apply node_at_keep, ext_keeps_nodes. Qed.

Lemma child_at_ext st st' h c : ns_ext st st' -> child_at st h c -> child_at st' h c.
Proof. intros He [? ?]. split; [done|]. by eapply node_at_ext. Qed.

Lemma ptrs_at_ext st st' h ps kvs : ns_ext st st' -> ptrs_at st h ps kvs -> ptrs_at st' h ps kvs.
Proof.
  intros He (cs & ? & ? & ?). exists cs. split_and!; [done| |done].
  eapply List.Forall_impl; [|done]. intros c. by apply child_at_ext.
Qed.

Lemma values_at_ext st st' h vs kvs : ns_ext st st' -> values_at st h vs kvs -> values_at st' h vs kvs.
Proof. destruct h; [done|]. apply ptrs_at_ext. Qed.

Lemma rep_ext st st' h m kvs : ns_ext st st' -> rep st h m kvs -> rep st' h m kvs.
Proof.
  intros He (? & ? & ? & pk & vk & ? & ? & ?). split_and!; [done..|]. exists pk, vk.
  split_and!; [done|by eapply ptrs_at_ext|by eapply values_at_ext].
Qed.

Lemma root_at_ext st st' h root kvs : ns_ext st st' -> root_at st h root kvs -> root_at st' h root kvs.
Proof. intros He. by apply root_at_keep, ext_keeps_nodes. Qed.

Lemma child_root st h c : child_at st h c -> root_at st h (Some (ch_ptr c)) (ch_kvs c).
Proof. intros [(_ & ? & ?) ?]. by exists (ch_size c). Qed.

(** *** Lists of pointers *)

Lemma ptrs_at_app st h ps1 ps2 k1 k2 :
  ptrs_at st h ps1 k1 -> ptrs_at st h ps2 k2 -> ptrs_at st h (ps1 ++ ps2) (k1 ++ k2).
Proof.
  intros (cs1 & -> & ? & ->) (cs2 & -> & ? & ->). exists (cs1 ++ cs2).
  by rewrite map_app, ch_all_app, Forall_app.
Qed.

Lemma ptrs_at_one st h c : child_at st h c -> ptrs_at st h [ch_item c] (ch_kvs c).
Proof.
  intros Hc. exists [c]. split_and!; [done|by apply Forall_singleton|].
  unfold ch_all. cbn. by rewrite app_nil_r.
Qed.

Lemma values_at_app st h v1 v2 k1 k2 :
  values_at st h v1 k1 -> values_at st h v2 k2 -> values_at st h (v1 ++ v2) (k1 ++ k2).
Proof.
  destruct h; [|apply ptrs_at_app]. intros [-> ?] [-> ?]. cbn. rewrite map_app. unfold kvs_ok in *.
  by rewrite Forall_app.
Qed.

Lemma values_at_split st h vs kvs j :
  values_at st h vs kvs ->
  exists k1 k2, kvs = k1 ++ k2 /\ values_at st h (take j vs) k1 /\ values_at st h (drop j vs) k2.
Proof.
  destruct h; cbn.
  - intros [-> Hk]. exists (take j kvs), (drop j kvs). unfold kvs_ok in *.
    rewrite <- (take_drop j kvs), Forall_app in Hk. destruct Hk.
    split_and!; [by rewrite take_drop|by rewrite firstn_map|done|by rewrite skipn_map|done].
  - intros (cs & -> & Hcs & ->). rewrite <- (take_drop j cs), Forall_app in Hcs. destruct Hcs.
    exists (ch_all (take j cs)), (ch_all (drop j cs)).
    rewrite <- ch_all_app, take_drop, firstn_map, skipn_map. split; [done|]. split; eexists; done.
Qed.

(** *** The items of a tree *)

Lemma ch_all_last cs c :
  list.last cs = Some c -> ch_kvs c <> [] -> list.last (ch_all cs) = list.last (ch_kvs c).
Proof.
  intros Hl Hne. apply last_Some in Hl as [cs' ->]. rewrite ch_all_app. unfold ch_all at 2. cbn [map concat].
  rewrite app_nil_r, last_app. destruct (list.last (ch_kvs c)) eqn:E; [done|].
  by apply last_None in E.
Qed.

Lemma ptr_facts_nonempty c : ptr_facts c -> ch_kvs c <> [].
Proof. intros [[v Hv] _] E. by rewrite E in Hv. Qed.

Lemma ch_all_ok st h cs :
  (forall pos kvs sz, node_at st h pos kvs sz -> kvs_ok kvs) ->
  Forall (child_at st h) cs -> kvs_ok (ch_all cs).
Proof.
  intros Hn. induction 1 as [|c cs [_ Hc] _ IH]; [constructor|].
  change (c :: cs) with ([c] ++ cs). rewrite ch_all_app. apply Forall_app. split; [|done].
  unfold ch_all. cbn. rewrite app_nil_r. by eapply Hn.
Qed.

Lemma node_at_ok st h pos kvs sz : node_at st h pos kvs sz -> kvs_ok kvs.
Proof.
  revert pos kvs sz. induction h as [|h IH]; intros pos kvs sz; cbn; [by intros (_ & ? & _)|].
  intros (cs & dsz & _ & Hcs & -> & _). by eapply ch_all_ok.
Qed.

Lemma values_at_ok st h vs kvs : values_at st h vs kvs -> kvs_ok kvs.
Proof.
  destruct h as [|h]; [by intros [_ ?]|]. intros (cs & _ & Hcs & ->).
  eapply ch_all_ok; [|done]. intros. by eapply node_at_ok.
Qed.

Lemma values_at_nil st h kvs : values_at st h [] kvs -> kvs = [].
Proof.
  destruct h; cbn.
  - intros [E _]. by destruct kvs.
  - intros (cs & E & _ & ->). by destruct cs.
Qed.

Lemma child_length c : ptr_facts c -> (1 <= length (ch_kvs c))%nat.
Proof. intros Hc%ptr_facts_nonempty. destruct (ch_kvs c); cbn; [done|lia]. Qed.

Lemma ptrs_at_length st h ps kvs : ptrs_at st h ps kvs -> (length ps <= length kvs)%nat.
Proof.
  intros (cs & -> & Hcs & ->). rewrite length_map. induction Hcs as [|c cs [Hc _] _ IH]; [done|].
  change (c :: cs) with ([c] ++ cs). rewrite ch_all_app, !length_app. apply child_length in Hc.
  unfold ch_all at 1. cbn [map concat]. rewrite app_nil_r. cbn [length]. lia.
Qed.

Lemma values_at_length st h vs kvs : values_at st h vs kvs -> (length vs <= length kvs)%nat.
Proof.
  destruct h; [|apply ptrs_at_length]. intros [-> _]. by rewrite length_map.
Qed.

(** The size of a node is bounded by the weight of the items below it. *)
Lemma values_at_size st h vs kvs :
  (forall l, blen (rval l) <= REDUCE_BUF_SIZE) -> values_at st h vs kvs -> sumZ item_size vs <= weight kvs.
Proof.
  unfold REDUCE_BUF_SIZE. intros Hr. destruct h as [|h]; cbn.
  - intros [-> _]. induction kvs as [|x kvs IH]; [done|]. unfold weight in *. cbn.
    unfold item_size in *. cbn. unfold sumZ in *. lia.
  - intros (cs & -> & Hcs & ->). induction Hcs as [|c cs [((v & Hv) & Hred & _) _] _ IH]; [done|].
    change (c :: cs) with ([c] ++ cs). rewrite ch_all_app, map_app, sumZ_app, weight_app.
    assert (sumZ item_size (map ch_item [c]) <= weight (ch_all [c])); [|lia].
    unfold ch_all. cbn [map concat sumZ foldr]. rewrite app_nil_r, ch_item_size, Hred, Z.add_0_r.
    apply last_Some_elem_of, weight_elem in Hv. cbn in Hv. specialize (Hr (ch_kvs c)).
    pose proof (blen_nonneg v). lia.
Qed.
End Trees.

(** ** Programs on the file and the callback's state *)

#[global] Instance prod_Faulty {F C} `{Faulty F} `{Faulty C} : Faulty (F * C) :=
  fun s => io_failed s.1 || io_failed s.2.

(** The state of a callback that does no input or output of its own. *)
Definition pure_ctx (C : Type) : Faulty C := fun _ => false.

Section OnFile.
Context {F C : Type} `{HF : Faulty F} `{HC : Faulty C}.

Lemma wp_on_file {B} (m : M F B) Q (s : F * C) :
  wp m (fun b f' => Q b (f', s.2)) s.1 -> wp (on_file m) Q s.
Proof. unfold on_file. by zoomed (fun s : F * C => io_failed s.2). Qed.
Lemma sticky_on_file {B} (m : M F B) : sticky m -> sticky (on_file (C := C) m).
Proof. unfold on_file. by zoomed (fun s : F * C => io_failed s.2). Qed.
Lemma sticky_on_write `{HN : !NodeStore F} `{HL : !NodeWriterLaws F} buf :
  sticky (on_file (C := C) (write_node (F := F) buf)).
Proof. apply sticky_on_file, write_node_sticky. Qed.
Lemma sticky_on_read `{HN : !NodeStore F} `{HL : !NodeStoreLaws F} pos :
  sticky (on_file (C := C) (read_node (F := F) pos)).
Proof. apply sticky_on_file, read_node_sticky. Qed.
End OnFile.

#[local] Existing Instance pure_ctx | 100.

Lemma failed_pure {F C} `{Faulty F} (s : F * C) : io_failed s = io_failed s.1.
Proof. apply orb_false_r. Qed.

Section Sticky.
Context {F C A : Type} `{HF : Faulty F} `{HN : !NodeStore F} `{HL : !NodeWriterLaws F}.
Variable rq : modify_request C A.

#[local] Hint Resolve sticky_on_write : sticky.

Lemma sticky_flush_mr_partial m q : sticky (flush_mr_partial (F := F) rq m q).
Proof. unfold flush_mr_partial. solve_sticky. Qed.
#[local] Hint Resolve sticky_flush_mr_partial : sticky.

Lemma sticky_flush_mr m : sticky (flush_mr (F := F) rq m).
Proof. apply sticky_flush_mr_partial. Qed.
#[local] Hint Resolve sticky_flush_mr : sticky.

Lemma sticky_maybe_flush m : sticky (maybe_flush (F := F) rq m).
Proof. unfold maybe_flush. solve_sticky. Qed.
#[local] Hint Resolve sticky_maybe_flush : sticky.

Lemma sticky_mr_push_item k v m : sticky (mr_push_item (F := F) rq k v m).
Proof. apply sticky_maybe_flush. Qed.
Lemma sticky_mr_push_pointerinfo p m : sticky (mr_push_pointerinfo (F := F) rq p m).
Proof. apply sticky_maybe_flush. Qed.
Lemma sticky_mr_move_pointers ps m : sticky (mr_move_pointers (F := F) rq ps m).
Proof. revert m. induction ps as [|p ps IH]; intros m; cbn; solve_sticky. Qed.
Lemma sticky_fetch k v arg : sticky (fetch (F := F) rq k v arg).
Proof. intros s Hs. unfold fetch. destruct (rq_fetch_callback rq) as [cb|]; [|done]. by destruct (cb _ _ _ _). Qed.
#[local] Hint Resolve sticky_mr_push_item sticky_mr_push_pointerinfo sticky_mr_move_pointers sticky_fetch : sticky.

Lemma sticky_action_no_item a m : sticky (action_no_item (F := F) rq a m).
Proof. unfold action_no_item. solve_sticky. Qed.
#[local] Hint Resolve sticky_action_no_item : sticky.
Lemma sticky_kv_item k v acts m : sticky (kv_item (F := F) rq k v acts m).
Proof. revert m. induction acts as [|a acts IH]; intros m; cbn; solve_sticky. Qed.
#[local] Hint Resolve sticky_kv_item : sticky.
Lemma sticky_kv_loop fuel buf acts m : sticky (kv_loop (F := F) rq fuel buf acts m).
Proof. revert buf acts m. induction fuel as [|fuel IH]; intros [|b buf] acts m; cbn [kv_loop]; solve_sticky. Qed.
Lemma sticky_kv_rest acts m : sticky (kv_rest (F := F) rq acts m).
Proof. revert m. induction acts as [|a acts IH]; intros m; cbn; solve_sticky. Qed.
#[local] Hint Resolve sticky_kv_loop sticky_kv_rest : sticky.
Lemma sticky_kv_node buf acts : sticky (kv_node (F := F) rq buf acts).
Proof. unfold kv_node. solve_sticky. Qed.
#[local] Hint Resolve sticky_kv_node : sticky.

Lemma sticky_kp_loop rec fuel buf acts m :
  (forall p acts m, sticky (rec p acts m)) -> sticky (kp_loop (F := F) rq rec fuel buf acts m).
Proof.
  intros Hr. revert buf acts m.
  induction fuel as [|fuel IH]; intros [|b buf] [|a acts] m; cbn [kp_loop]; solve_sticky.
Qed.
Lemma sticky_kp_rest fuel buf m : sticky (kp_rest (F := F) rq fuel buf m).
Proof. revert buf m. induction fuel as [|fuel IH]; intros [|b buf] m; cbn [kp_rest]; solve_sticky. Qed.
#[local] Hint Resolve sticky_kp_rest : sticky.
Lemma sticky_kp_node rec buf acts :
  (forall p acts m, sticky (rec p acts m)) -> sticky (kp_node (F := F) rq rec buf acts).
Proof.
  intros Hr. unfold kp_node. apply sticky_bind; [by apply sticky_kp_loop|]. solve_sticky.
Qed.
Lemma sticky_finish_loop fuel m1 m2 : sticky (finish_loop (F := F) rq fuel m1 m2).
Proof.
  revert m1 m2. induction fuel as [|fuel IH]; intros m1 m2; cbn [finish_loop]; solve_sticky.
Qed.
#[local] Hint Resolve sticky_finish_loop : sticky.
Lemma sticky_finish_root fuel m : sticky (finish_root (F := F) rq fuel m).
Proof. unfold finish_root. solve_sticky. Qed.
#[local] Hint Resolve sticky_finish_root : sticky.
Lemma sticky_complete_new_btree fuel m : sticky (complete_new_btree (F := F) rq fuel m).
Proof. unfold complete_new_btree. solve_sticky. Qed.
End Sticky.

#[export] Hint Resolve sticky_on_write sticky_on_read sticky_flush_mr_partial sticky_flush_mr
  sticky_maybe_flush sticky_mr_push_item sticky_mr_push_pointerinfo sticky_mr_move_pointers
  sticky_fetch sticky_action_no_item sticky_kv_item sticky_kv_loop sticky_kv_rest sticky_kv_node
  sticky_kp_rest sticky_finish_loop sticky_finish_root sticky_complete_new_btree : sticky.

Section StickyModify.
Context {F C A : Type} `{HF : Faulty F} `{HN : !NodeStore F} `{HL : !NodeStoreLaws F}.
Variable rq : modify_request C A.

Lemma sticky_modify_node fuel nptr acts m : sticky (modify_node (F := F) rq fuel nptr acts m).
Proof.
  revert nptr acts m. induction fuel as [|fuel IH]; intros nptr [|a acts] m; cbn [modify_node]; solve_sticky.
  apply sticky_kp_node. auto.
Qed.
#[local] Hint Resolve sticky_modify_node : sticky.
Lemma sticky_modify_btree fuel root acts : sticky (modify_btree (F := F) rq fuel root acts).
Proof. unfold modify_btree. solve_sticky. Qed.
End StickyModify.
#[export] Hint Resolve sticky_modify_node sticky_modify_btree : sticky.
