(* ===== verification/BTreeFlush.v ===== *)
(** * BTreeFlush: writing nodes

    Flushing, pushing and moving keep what a result stands for ([rep]), never
    overrun the node buffer, and use up the items: the potential of a result,
    twice its pointers plus its values, never grows by a flush.  That makes
    finish_root terminate. *)

From Stdlib Require Import ZArith Lia.
From S2P Require Import Prelude Bitfield NodeTypes NodeStore BTree BTreeInv.
From stdpp Require Import list numbers.

#[local] Open Scope Z_scope.
#[local] Open Scope couch_scope.
#[local] Existing Instance pure_ctx | 100.

(** Simplify the fields of a result. *)
Ltac mr_cbn :=
  cbn [mr_node_type mr_node_len mr_count mr_values mr_pointers mr_modified
       add_value set_modified make_modres].

(** What the B-tree needs of the reduce functions: [rval] of the items of a
    leaf, and of a node from the reductions of its children. *)
Class ReduceLaws {C A} (rq : modify_request C A) (kvok : bytes -> bytes -> Prop)
    (rval : list kv -> bytes) : Prop := {
  rl_leaf : forall kvs rest, kvs_ok kvok kvs ->
    reduce_items rq KV_NODE (map leaf_item kvs ++ rest) (length kvs) = Some (rval kvs);
  rl_ptrs : forall cs rest, Forall (fun c => np_reduce_value (ch_ptr c) = rval (ch_kvs c)) cs ->
    reduce_items rq KP_NODE (map ch_item cs ++ rest) (length cs) = Some (rval (ch_all cs));
  rl_size : forall kvs, blen (rval kvs) <= REDUCE_BUF_SIZE;
  rl_fits : forall k v, kvok k v -> kv_fits k v
}.

Section Flush.
Context {F C A : Type} `{HF : Faulty F} `{HN : !NodeStore F} `{HL : !NodeWriterLaws F}.
Variable rq : modify_request C A.
Variable kvok : bytes -> bytes -> Prop.
Variable rval : list kv -> bytes.
Context `{HR : !ReduceLaws rq kvok rval}.

#[local] Abbreviation rep := (rep kvok rval).
#[local] Abbreviation child_at := (child_at kvok rval).
#[local] Abbreviation values_at := (values_at kvok rval).
#[local] Abbreviation ptrs_at := (ptrs_at kvok rval).

(** The node written from some of the values, and its pointer. *)
Lemma new_node st h vs kvs rest pos dsz :
  values_at st h vs kvs -> vs <> [] -> ns_stored st pos (node_buf (level_type h) vs) dsz ->
  reduce_items rq (level_type h) (vs ++ rest) (length vs) = Some (rval kvs) /\
  exists sz, child_at st h
    {| ch_ptr := {| np_key := final_key_of [] vs; np_pointer := pos; np_reduce_value := rval kvs;
                    np_subtreesize := u64 (subtree_sum 0 vs + dsz) |};
       ch_kvs := kvs; ch_size := sz |}.
Proof.
  destruct h as [|h]; cbn [level_type].
  - intros [-> Hok] Hne Hst. rewrite length_map. split; [by apply rl_leaf|].
    assert (kvs <> []) as Hk by (by intros ->). exists dsz. split; [|done].
    unfold ptr_facts. cbn [ch_ptr ch_kvs ch_size np_key np_reduce_value np_subtreesize]. split_and!.
    + destruct (list.last kvs) as [[k v]|] eqn:E; [|by apply last_None in E].
      exists v. unfold final_key_of. rewrite fmap_last, E. done.
    + done.
    + by rewrite subtree_sum_leaf, u64_mod48.
  - intros (cs & -> & Hcs & ->) Hne Hst. rewrite length_map.
    assert (cs <> []) as Hk by (by intros ->). split.
    { apply rl_ptrs. eapply List.Forall_impl; [|exact Hcs]. by intros c ((_ & ? & _) & _). }
    exists (dsz + sumZ ch_size cs). split.
    + unfold ptr_facts. cbn [ch_ptr ch_kvs ch_size np_key np_reduce_value np_subtreesize].
      destruct (list.last cs) as [c|] eqn:E; [|by apply last_None in E].
      assert (child_at st h c) as [Hc _] by (eapply list.Forall_forall; [exact Hcs|by apply last_Some_elem_of]).
      pose proof (ptr_facts_nonempty _ _ Hc) as Hcn. destruct Hc as ((v & Hv) & _). split_and!; [|done|].
      * exists v. rewrite (ch_all_last _ _ E Hcn), Hv. unfold final_key_of. by rewrite fmap_last, E.
      * rewrite u64_mod48, <- Zplus_mod_idemp_l, subtree_sum_children, Zplus_mod_idemp_l; [f_equal; lia|].
        eapply List.Forall_impl; [|exact Hcs]. by intros c' ((_ & _ & ?) & _).
    + exists cs, dsz. split_and!; done.
Qed.

(** What [m] becomes when its first [j] values have been written as one node. *)
Record flushed (m m' : modify_result) (j : nat) : Prop := {
  fl_values : mr_values m' = drop j (mr_values m);
  fl_pointers : length (mr_pointers m') = S (length (mr_pointers m));
  fl_modified : mr_modified m' = mr_modified m;
  fl_some : (1 <= j <= length (mr_values m))%nat
}.

Lemma wp_flush_mr_partial st c h m kvs q Q :
  ns_ok st -> rep st h m kvs -> weight kvs + 1 < max_node ->
  mr_modified m = true -> mr_values m <> [] -> 0 < q < 2 ^ 64 ->
  (forall st' m' j, ns_ok st' -> ns_ext st st' -> rep st' h m' kvs -> flushed m m' j ->
    (h <> O -> (2 <= j \/ j = length (mr_values m))%nat) ->
    (q = mr_node_len m -> j = length (mr_values m)) ->
    Q (m', COUCHSTORE_SUCCESS) (st', c)) ->
  wp (flush_mr_partial (F := F) rq m q) Q (st, c).
Proof.
  intros Hst (Ht & Hlen & Hcount & pk & vk & Hkvs & Hps & Hvs) Hw Hmod Hne Hq HQ.
  pose proof (values_at_size kvok rval _ _ _ _ rl_size Hvs) as Hsz.
  pose proof (weight_nonneg pk) as Hpk. rewrite Hkvs, weight_app in Hw. unfold max_node in Hw.
  unfold flush_mr_partial. rewrite decide_False by (intros [?|?]; congruence).
  assert (u64 q = q) as -> by (apply Z.mod_small; lia). rewrite Ht.
  destruct (flush_loop_spec (level_type h) (mr_values m) q [node_type_byte (level_type h)] 0 [] 0)
    as (j & Hj & -> & Hj1 & Hj2 & Hjall).
  specialize (Hj1 ltac:(lia) Hne).
  destruct (values_at_split kvok rval _ _ _ _ j Hvs) as (k1 & k2 & -> & Hv1 & Hv2).
  set (vs := take j (mr_values m)) in *. set (vs' := drop j (mr_values m)) in *.
  assert (mr_values m = vs ++ vs') as Hsplit by (symmetry; apply take_drop).
  assert (length vs = j) as Hvsl by (apply length_take_le; lia).
  assert (vs <> []) as Hvne by (intros E; rewrite E in Hvsl; cbn in Hvsl; lia).
  change ([_] ++ items_buf vs) with (node_buf (level_type h) vs).
  assert (blen (node_buf (level_type h) vs) = sumZ item_size vs + 1) as Hb
    by (rewrite <- items_buf_size; unfold node_buf, blen; cbn [length]; lia).
  assert (sumZ item_size (mr_values m) = sumZ item_size vs + sumZ item_size vs') as Hsum
    by (rewrite Hsplit; apply sumZ_app).
  assert (0 <= sumZ item_size vs') by (apply sumZ_nonneg; intros i; pose proof (item_size_pos i); lia).
  rewrite decide_False by lia.
  apply wp_bind; [intros [[??]|?]; solve_sticky|]. apply wp_on_file. cbn [fst snd].
  apply wp_write_node; [done|unfold max_node; lia|]. intros st' pos dsz Hst' Hext Hstored.
  destruct (new_node st' h vs k1 vs' pos dsz) as [Hred [sz Hch]];
    [by eapply values_at_ext|done|done|].
  rewrite Hsplit, Nat.add_0_l, <- Hvsl, Hred. apply wp_bind; [intros; solve_sticky|].
  apply wp_ret. rewrite decide_False by (pose proof (rl_size (rq := rq) (kvok := kvok) k1); lia).
  apply wp_ret. apply HQ with j; [done|done| | | |].
  - split_and!; mr_cbn; [done|rewrite Hb; lia|unfold vs'; rewrite length_drop; lia|].
    exists (pk ++ k1), k2. split_and!; [by rewrite <- app_assoc| |by eapply values_at_ext].
    apply ptrs_at_app; [by eapply ptrs_at_ext|]. apply (ptrs_at_one _ _ _ _ _ Hch).
  - split; cbn; [done|rewrite length_app; cbn; lia|done|lia].
  - intros Hh. destruct h; [done|]. specialize (Hj2 eq_refl). lia.
  - intros E. apply Hjall; lia.
Qed.

(** flush_mr leaves no values. *)
Lemma wp_flush_mr st c h m kvs Q :
  ns_ok st -> rep st h m kvs -> weight kvs + 1 < max_node -> mr_modified m = true ->
  (forall st' m', ns_ok st' -> ns_ext st st' -> rep st' h m' kvs -> mr_modified m' = true ->
    mr_values m' = [] ->
    length (mr_pointers m') =
      (length (mr_pointers m) + (if decide (mr_values m = []) then 0 else 1))%nat ->
    Q (m', COUCHSTORE_SUCCESS) (st', c)) ->
  wp (flush_mr (F := F) rq m) Q (st, c).
Proof.
  intros Hst Hrep Hw Hmod HQ. unfold flush_mr.
  destruct (decide (mr_values m = [])) as [E|Hne].
  { unfold flush_mr_partial. rewrite decide_True by auto. apply wp_ret.
    apply HQ; [done|reflexivity|done|done|done|lia]. }
  pose proof Hrep as (_ & Hlen & _ & pk & vk & -> & _ & Hvs).
  pose proof (values_at_size kvok rval _ _ _ _ rl_size Hvs). pose proof (weight_nonneg pk).
  rewrite weight_app in Hw. unfold max_node in Hw.
  assert (5 <= sumZ item_size (mr_values m)).
  { destruct (mr_values m) as [|x l]; [done|]. cbn. fold (sumZ item_size l).
    pose proof (item_size_pos x). pose proof (sumZ_nonneg item_size l (fun i => ltac:(pose proof (item_size_pos i); lia))).
    lia. }
  eapply wp_flush_mr_partial; [done|exact Hrep|rewrite weight_app; unfold max_node; lia|done|done|lia|].
  intros st' m' j Hst' Hext Hrep' Hfl _ Hall. specialize (Hall eq_refl).
  apply HQ; [done|done|done|by rewrite (fl_modified _ _ _ Hfl)| |].
  - rewrite (fl_values _ _ _ Hfl), Hall. apply drop_all.
  - rewrite (fl_pointers _ _ _ Hfl). lia.
Qed.

(** An unmodified result is not written. *)
Lemma flush_mr_unmodified m (s : F * C) :
  mr_modified m = false -> flush_mr rq m s = Ret (m, COUCHSTORE_SUCCESS) s.
Proof. intros Hm. unfold flush_mr, flush_mr_partial. by rewrite decide_True by auto. Qed.

Lemma maybe_flush_unmodified m (s : F * C) :
  mr_modified m = false -> maybe_flush rq m s = Ret (m, COUCHSTORE_SUCCESS) s.
Proof.
  intros Hm. unfold maybe_flush. rewrite Hm.
  destruct (rq_compacting rq); by rewrite decide_False by (by intros [? _]).
Qed.

(** ** maybe_flush *)

(** Twice the pointers plus the values. *)
Definition potential (m : modify_result) : nat :=
  2 * length (mr_pointers m) + length (mr_values m).

(** Items short enough that a node over the limit has two of them. *)
Definition small_items (m : modify_result) : Prop :=
  rq_compacting rq = false \/ Forall (fun i => item_size i <= CHUNK_SIZE) (mr_values m).

Lemma flushed_potential m m' j :
  flushed m m' j -> (2 <= j)%nat -> (potential m' <= potential m)%nat.
Proof.
  intros Hfl Hj. unfold potential. rewrite (fl_values _ _ _ Hfl), (fl_pointers _ _ _ Hfl), length_drop.
  pose proof (fl_some _ _ _ Hfl). lia.
Qed.

Lemma wp_maybe_flush st c h m kvs Q :
  ns_ok st -> rep st h m kvs -> weight kvs + 1 < max_node ->
  (forall st' m', ns_ok st' -> ns_ext st st' -> rep st' h m' kvs ->
    mr_modified m' = mr_modified m ->
    (exists j, mr_values m' = drop j (mr_values m)) ->
    (h <> O -> small_items m -> (potential m' <= potential m)%nat) ->
    Q (m', COUCHSTORE_SUCCESS) (st', c)) ->
  wp (maybe_flush (F := F) rq m) Q (st, c).
Proof.
  intros Hst Hrep Hw HQ.
  assert (Hskip : wp (ret (m, COUCHSTORE_SUCCESS)) Q (st, c)).
  { apply wp_ret. apply HQ; [done|reflexivity|done|done|by exists 0%nat|done]. }
  unfold maybe_flush. destruct (rq_compacting rq) eqn:Ec; (case_decide as Hd; [|exact Hskip]).
  - destruct Hd as [Hmod Hsize]. change CHUNK_SIZE with 852 in *.
    pose proof Hrep as (_ & Hlen & _ & pk & vk & Hkvs & _ & Hvs).
    assert (mr_values m <> []) as Hne by (intros E; rewrite E in Hlen; cbn in Hlen; lia).
    pose proof (values_at_size kvok rval _ _ _ _ rl_size Hvs). pose proof (weight_nonneg pk).
    pose proof Hw as Hw'. rewrite Hkvs, weight_app in Hw'. unfold max_node in Hw'.
    eapply wp_flush_mr_partial; [done|exact Hrep|done|done|done|lia|].
    intros st' m' j Hst' Hext Hrep' Hfl _ Hall. specialize (Hall eq_refl).
    apply HQ; [done|done|done|apply (fl_modified _ _ _ Hfl)|exists j; apply (fl_values _ _ _ Hfl)|].
    intros _ [?|Hsmall]; [congruence|]. eapply flushed_potential; [done|]. rewrite Hall.
    destruct (mr_values m) as [|x [|y l]]; [done| |cbn; lia].
    rewrite Forall_singleton in Hsmall. change CHUNK_SIZE with 852 in Hsmall. cbn [sumZ foldr] in Hlen. lia.
  - destruct Hd as (Hmod & Hsize & Hcnt).
    pose proof Hrep as (_ & _ & Hcount & _).
    assert (mr_values m <> []) as Hne by (intros E; rewrite E in Hcount; cbn in Hcount; lia).
    eapply wp_flush_mr_partial; [done|exact Hrep|done|done|done|change CHUNK_SIZE with 852; lia|].
    intros st' m' j Hst' Hext Hrep' Hfl Hj2 _.
    apply HQ; [done|done|done|apply (fl_modified _ _ _ Hfl)|exists j; apply (fl_values _ _ _ Hfl)|].
    intros Hh _. eapply flushed_potential; [done|]. specialize (Hj2 Hh). lia.
Qed.

(** ** Pushing and moving *)

Lemma rep_make st h : rep st h (make_modres (level_type h)) [].
Proof.
  split_and!; [done..|]. exists [], []. split_and!; [done|by exists []|].
  destruct h; [split; [done|constructor]|by exists []].
Qed.

Lemma rep_set_modified st h m kvs : rep st h m kvs -> rep st h (set_modified m) kvs.
Proof. done. Qed.

Lemma rep_add st h m kvs i k1 :
  rep st h m kvs -> values_at st h [i] k1 -> rep st h (add_value i m) (kvs ++ k1).
Proof.
  intros (Ht & Hlen & Hcnt & pk & vk & -> & Hps & Hvs) Hi. split_and!; mr_cbn; [done| | |].
  - rewrite sumZ_app. cbn. lia.
  - rewrite length_app. cbn. lia.
  - exists pk, (vk ++ k1). split_and!; [by rewrite app_assoc|done|by apply values_at_app].
Qed.

Lemma leaf_value_at st k v : kvok k v -> values_at st 0 [leaf_item (k, v)] [(k, v)].
Proof. intros Hk. split; [done|]. by apply Forall_singleton. Qed.

Lemma wp_push st c h m kvs i k1 Q :
  ns_ok st -> rep st h m kvs -> values_at st h [i] k1 -> weight (kvs ++ k1) + 1 < max_node ->
  (forall st' m', ns_ok st' -> ns_ext st st' -> rep st' h m' (kvs ++ k1) ->
    mr_modified m' = mr_modified m -> Q (m', COUCHSTORE_SUCCESS) (st', c)) ->
  wp (maybe_flush (F := F) rq (add_value i m)) Q (st, c).
Proof.
  intros Hst Hrep Hi Hw HQ. eapply wp_maybe_flush; [done|by apply rep_add|done|].
  intros st' m' ? ? ? Hmod _ _. by apply HQ.
Qed.

Lemma small_items_add m i :
  small_items m -> (rq_compacting rq = false \/ item_size i <= CHUNK_SIZE) -> small_items (add_value i m).
Proof.
  intros [?|Hm] [?|Hi]; [by left..|]. right. cbn. apply Forall_app. split; [done|by apply Forall_singleton].
Qed.

Lemma small_items_drop m m' j : small_items m -> mr_values m' = drop j (mr_values m) -> small_items m'.
Proof. intros [?|Hm] E; [by left|]. right. rewrite E. by apply Forall_drop. Qed.

Lemma wp_mr_move_pointers st c h m kvs ps k1 Q :
  ns_ok st -> rep st (S h) m kvs -> ptrs_at st h ps k1 -> weight (kvs ++ k1) + 1 < max_node ->
  (forall st' m', ns_ok st' -> ns_ext st st' -> rep st' (S h) m' (kvs ++ k1) ->
    mr_modified m' = mr_modified m ->
    (small_items m -> (rq_compacting rq = false \/ Forall (fun i => item_size i <= CHUNK_SIZE) ps) ->
      (potential m' <= potential m + length ps)%nat) ->
    Q (m', COUCHSTORE_SUCCESS) (st', c)) ->
  wp (mr_move_pointers (F := F) rq ps m) Q (st, c).
Proof.
  revert st m kvs k1. induction ps as [|i ps IH]; intros st m kvs k1 Hst Hrep Hps Hw HQ.
  { destruct Hps as (cs & E & _ & ->). destruct cs; [|done]. apply wp_ret. rewrite app_nil_r in HQ.
    apply HQ; [done|reflexivity|done|done|cbn; lia]. }
  destruct (values_at_split kvok rval st (S h) _ _ 1 Hps) as (ka & kb & -> & Ha & Hb).
  cbn [take drop] in Ha, Hb. rewrite app_assoc in *.
  pose proof (weight_nonneg kb) as Hkb. cbn [mr_move_pointers].
  apply wp_bind; [intros [??]; solve_sticky|].
  eapply wp_maybe_flush; [done|by apply rep_add|rewrite weight_app in Hw; lia|].
  intros st' m' Hst' Hext Hrep' Hmod [j Hj] Hpot. rewrite decide_True by done.
  eapply IH; [done|exact Hrep'|by eapply ptrs_at_ext|done|].
  intros st2 m2 Hst2 Hext2 Hrep2 Hmod2 Hpot2.
  apply HQ; [done|by transitivity st'|done|by rewrite Hmod2, Hmod|].
  intros Hsm Hsi. assert (small_items (add_value i m)) as Hsm'.
  { apply small_items_add; [done|]. destruct Hsi as [?|Hsi]; [by left|]. right. by inversion Hsi. }
  specialize (Hpot ltac:(done) Hsm').
  assert (small_items m') by (by eapply small_items_drop).
  specialize (Hpot2 ltac:(done)). cbn [length].
  assert (potential (add_value i m) = S (potential m))
    by (unfold potential; cbn; rewrite length_app; cbn; lia).
  assert (potential m2 <= potential m' + length ps)%nat; [|lia].
  apply Hpot2. destruct Hsi as [?|Hsi]; [by left|]. right. by inversion Hsi.
Qed.

(** ** finish_root *)

(** A compaction shrinks every level when no key is too long. *)
Definition small_keys (kvs : list kv) : Prop :=
  rq_compacting rq = false \/
  Forall (fun x => forall l, blen x.1 + blen (rval l) + 19 <= CHUNK_SIZE) kvs.

Lemma ptrs_at_small st h ps kvs :
  small_keys kvs -> ptrs_at st h ps kvs ->
  rq_compacting rq = false \/ Forall (fun i => item_size i <= CHUNK_SIZE) ps.
Proof.
  intros [?|Hk]; [by left|]. intros (cs & -> & Hcs & ->). right. apply Forall_map.
  apply list.Forall_forall. intros c Hc. rewrite ch_item_size.
  apply (proj1 (list.Forall_forall _ _) Hcs) in Hc as Hcat. destruct Hcat as [((v & Hv) & -> & _) _].
  rewrite list.Forall_forall in Hk. apply last_Some_elem_of in Hv.
  apply (Hk (np_key (ch_ptr c), v)). unfold ch_all. apply list_elem_of_In, in_concat.
  exists (ch_kvs c). split; [apply in_map|]; by apply list_elem_of_In.
Qed.

(** A result with nothing left in its values. *)
Definition drained (m : modify_result) : Prop :=
  mr_node_type m = KP_NODE /\ mr_node_len m = 0 /\ mr_count m = 0 /\ mr_values m = [] /\ mr_modified m = true.

Lemma drained_rep st h m : drained m -> mr_pointers m = [] -> rep st (S h) m [].
Proof.
  intros (? & ? & ? & Hv & _) Hp. split_and!; [done|by rewrite Hv|by rewrite Hv|].
  exists [], []. rewrite Hp, Hv. split_and!; [done|by exists []|by exists []].
Qed.

Lemma rep_drained st h m kvs :
  rep st (S h) m kvs -> mr_values m = [] -> mr_modified m = true ->
  drained m /\ ptrs_at st (S h) (mr_pointers m) kvs.
Proof.
  intros (? & Hl & Hc & pk & vk & -> & Hps & Hvs) Hv ?. rewrite Hv in *. split; [done|].
  apply values_at_nil in Hvs as ->. by rewrite app_nil_r.
Qed.

Lemma wp_finish_loop fuel st c h m1 m2 kvs Q :
  ns_ok st -> drained m1 -> drained m2 -> mr_pointers m2 = [] ->
  ptrs_at st h (mr_pointers m1) kvs -> mr_pointers m1 <> [] -> weight kvs + 1 < max_node ->
  small_keys kvs -> (length (mr_pointers m1) <= S fuel)%nat ->
  (forall st' h' p, ns_ok st' -> ns_ext st st' -> root_at kvok rval st' h' (Some p) kvs ->
    Q (Some p, COUCHSTORE_SUCCESS) (st', c)) ->
  wp (finish_loop (F := F) rq fuel m1 m2) Q (st, c).
Proof.
  revert st h m1 m2. induction fuel as [|fuel IH];
    intros st h m1 m2 Hst Hd1 Hd2 Hp2 Hps Hne Hw Hsm Hfuel HQ;
    destruct (mr_pointers m1) as [|p1 [|p2 ps]] eqn:E1; try done; cbn [finish_loop]; rewrite E1.
  1, 3: destruct Hps as (cs & Ecs & Hcs & ->); destruct cs as [|ch [|??]]; simplify_eq/=;
    apply wp_ret, (HQ _ h); [done|reflexivity|]; rewrite Forall_singleton in Hcs;
    unfold ch_all; cbn [map concat]; rewrite app_nil_r; by apply child_root.
  { cbn in Hfuel. lia. }
  set (ps1 := p1 :: p2 :: ps) in *.
  pose proof (ptrs_at_small _ _ _ _ Hsm Hps) as Hsmall.
  apply wp_bind; [intros [??]; solve_sticky|].
  eapply wp_mr_move_pointers; [done|by eapply drained_rep|exact Hps|done|].
  intros st1 m3 Hst1 Hext1 Hrep3 Hmod3 Hpot3.
  specialize (Hpot3 ltac:(right; destruct Hd2 as (_ & _ & _ & -> & _); constructor) Hsmall).
  assert (potential m2 = 0%nat) as E2 by (destruct Hd2 as (_ & _ & _ & Hv & _); unfold potential; by rewrite Hv, Hp2).
  rewrite decide_False by auto. cbn [app] in Hrep3.
  apply wp_bind; [intros [??]; solve_sticky|].
  assert (mr_modified m3 = true) as Hmod3' by (rewrite Hmod3; by destruct Hd2 as (_ & _ & _ & _ & ?)).
  eapply wp_flush_mr; [done|exact Hrep3|done|done|].
  intros st2 m4 Hst2 Hext2 Hrep4 Hmod4 Hv4 Hl4. rewrite decide_False by auto.
  destruct (rep_drained _ _ _ _ Hrep4 Hv4 Hmod4) as [Hd4 Hps4].
  assert (length (mr_pointers m4) <= S fuel)%nat as Hlen.
  { unfold potential in Hpot3, E2. fold (length ps1) in Hfuel. rewrite Hl4.
    case_decide as Ev; [rewrite Ev in Hpot3|destruct (mr_values m3); [done|]];
      unfold ps1 in *; cbn [length] in *; lia. }
  assert (mr_pointers m4 <> []) as Hne4.
  { intros E4. rewrite E4 in Hps4. destruct Hps4 as (cs & Ecs & _ & ->). destruct cs; [|done].
    destruct Hps as (cs & Ecs' & Hcs & Hnil). destruct cs as [|ch cs]; [done|].
    inversion_clear Hcs as [|? ? [Hch _] _]. apply ptr_facts_nonempty in Hch.
    unfold ch_all in Hnil. cbn in Hnil. by destruct (ch_kvs ch). }
  eapply IH; [done|done| |done|exact Hps4|done|done|done|done|].
  - destruct Hd1 as (? & ? & ? & ? & ?). by split_and!.
  - intros st3 h3 p Hst3 Hext3 Hroot. apply (HQ _ h3); [done| |done].
    transitivity st1; [done|]. by transitivity st2.
Qed.

Lemma wp_finish_root fuel st c h m kvs Q :
  ns_ok st -> rep st (S h) m kvs -> mr_modified m = true -> kvs <> [] -> weight kvs + 1 < max_node ->
  small_keys kvs -> (length kvs <= S fuel)%nat ->
  (forall st' h' p, ns_ok st' -> ns_ext st st' -> root_at kvok rval st' h' (Some p) kvs ->
    Q (Some p, COUCHSTORE_SUCCESS) (st', c)) ->
  wp (finish_root (F := F) rq fuel m) Q (st, c).
Proof.
  intros Hst Hrep Hmod Hne Hw Hsm Hfuel HQ. unfold finish_root.
  apply wp_bind; [intros [??]; solve_sticky|].
  eapply wp_flush_mr; [done|exact Hrep|done|done|]. intros st1 m1 Hst1 Hext1 Hrep1 Hmod1 Hv1 _.
  destruct (rep_drained _ _ _ _ Hrep1 Hv1 Hmod1) as [Hd1 Hps1].
  pose proof (ptrs_at_length _ _ _ _ _ _ Hps1).
  eapply wp_finish_loop; [done|done|done|done|exact Hps1| |done|done|lia|].
  - intros E. rewrite E in Hps1. by apply (values_at_nil kvok rval st1 (S (S h))) in Hps1.
  - intros st2 h2 p Hst2 Hext2 Hr. apply (HQ _ h2); [done|by transitivity st1|done].
Qed.

(** A result with at most one value and no pointers is a root already. *)
Lemma values_end_root st h m kvs :
  rep st (S h) m kvs -> ~ (1 < mr_count m \/ mr_pointers m <> []) ->
  exists h', root_at kvok rval st h' (values_end_pointer m) kvs.
Proof.
  intros (_ & _ & Hc & pk & vk & -> & Hps & Hvs) Hn.
  destruct (mr_pointers m); [|destruct Hn; by right].
  assert (pk = []) as -> by (by apply (values_at_nil kvok rval st (S (S h)))).
  destruct Hvs as (cs & Ev & Hcs & ->). unfold values_end_pointer. rewrite Ev in *.
  destruct cs as [|ch [|??]]; [by exists O| |cbn in Hc; destruct Hn; left; lia].
  rewrite Forall_singleton in Hcs. exists h. unfold ch_all. cbn [map concat app]. rewrite app_nil_r.
  by apply child_root.
Qed.

Lemma wp_complete_new_btree fuel st c m kvs Q :
  ns_ok st -> rep st 0 m kvs -> mr_modified m = true -> weight kvs + 1 < max_node ->
  small_keys kvs -> (length kvs <= S fuel)%nat ->
  (forall st' h' root, ns_ok st' -> ns_ext st st' -> root_at kvok rval st' h' root kvs ->
    Q (root, COUCHSTORE_SUCCESS) (st', c)) ->
  wp (complete_new_btree (F := F) rq fuel m) Q (st, c).
Proof.
  intros Hst Hrep Hmod Hw Hsm Hfuel HQ. unfold complete_new_btree.
  apply wp_bind; [intros [??]; solve_sticky|].
  eapply wp_flush_mr; [done|exact Hrep|done|done|]. intros st1 m1 Hst1 Hext1 Hrep1 Hmod1 Hv1 _.
  rewrite decide_False by auto.
  assert (ptrs_at st1 0 (mr_pointers m1) kvs) as Hps.
  { destruct Hrep1 as (_ & _ & _ & pk & vk & -> & Hps & Hvs). rewrite Hv1 in Hvs.
    apply values_at_nil in Hvs as ->. by rewrite app_nil_r. }
  apply wp_bind; [intros [??]; solve_sticky|].
  eapply wp_mr_move_pointers; [done|apply rep_set_modified, (rep_make st1 1)|exact Hps|done|].
  intros st2 m2 Hst2 Hext2 Hrep2 Hmod2 _. rewrite decide_False by auto. cbn [app] in Hrep2.
  case_decide as Hd.
  - eapply wp_finish_root; [done|exact Hrep2|done| |done|done|done|].
    + intros ->. destruct Hrep2 as (_ & _ & Hc & pk & vk & E & Hp2 & Hv2).
      symmetry in E. apply app_eq_nil in E as [-> ->].
      apply ptrs_at_length in Hp2. apply values_at_length in Hv2. cbn in Hp2, Hv2.
      destruct Hd as [?|Hd]; [lia|]. destruct (mr_pointers m2); [done|cbn in Hp2; lia].
    + intros st3 h3 p Hst3 Hext3 Hr. apply (HQ _ h3); [done|transitivity st1; [done|by transitivity st2]|done].
  - apply wp_ret. destruct (values_end_root _ _ _ _ Hrep2 Hd) as [h2 Hr].
    apply (HQ _ h2); [done|by transitivity st1|done].
Qed.
End Flush.
