(* ===== verification/TreeSpec.v ===== *)
(** * TreeSpec: what a batch of actions means

    The abstract specification of modify_btree: a tree is a list of items sorted
    by key, a batch of actions turns it into another one ([outcome]), and the
    fetches report what the tree held before the batch ([fetch_all]).  [outcome]
    composes over a split of the key space, which is how the B-tree computes it. *)

From Stdlib Require Import ZArith Lia Sorted.
From S2P Require Import Prelude Bitfield NodeTypes Util NodeStore BTree BTreeInv.
From stdpp Require Import list numbers gmap.

#[local] Open Scope Z_scope.

Definition is_fetch {A : Type} (a : modify_action A) : Prop :=
  match a with ACTION_FETCH _ _ => True | _ => False end.

(** The value of the first item with key [k]. *)
Fixpoint value_of (k : bytes) (kvs : list kv) : option bytes :=
  match kvs with
  | [] => None
  | (k', v) :: kvs' => if decide (k = k') then Some v else value_of k kvs'
  end.

#[global] Instance is_fetch_dec {A : Type} (a : modify_action A) : Decision (is_fetch a).
Proof. destruct a; cbn; apply _. Defined.

(** What the insertions of a batch may add to the weight of a tree. *)
Definition aweight {A : Type} (acts : list (modify_action A)) : Z :=
  sumZ (fun a => match a with ACTION_INSERT k v => blen k + blen v + 1024 | _ => 0 end) acts.

(** The batch as an update of a finite map, action by action. *)
Definition apply_action {A : Type} (m : gmap bytes bytes) (a : modify_action A) : gmap bytes bytes :=
  match a with
  | ACTION_FETCH _ _ => m
  | ACTION_REMOVE k => delete k m
  | ACTION_INSERT k v => <[k := v]> m
  end.
Definition apply_actions {A : Type} (m : gmap bytes bytes) (acts : list (modify_action A)) : gmap bytes bytes :=
  foldl apply_action m acts.

Definition as_map (kvs : list kv) : gmap bytes bytes := list_to_map kvs.

Section Spec.
Context {C A : Type} {compare : bytes -> bytes -> option Z} `{HK : !KeyOrder compare}.

Definition ksorted (kvs : list kv) : Prop := StronglySorted (fun x y => klt x.1 y.1) kvs.

(** The order a batch must have: by key, at most one insertion or removal for a
    key, and the fetches of a key before it. *)
Definition act_lt (a b : modify_action A) : Prop :=
  klt (act_key a) (act_key b) \/ (act_key a = act_key b /\ is_fetch a).
Definition acts_sorted (acts : list (modify_action A)) : Prop := StronglySorted act_lt acts.

Definition touched (k : bytes) (acts : list (modify_action A)) : Prop :=
  ACTION_REMOVE k ∈ acts \/ exists v, ACTION_INSERT k v ∈ acts.

Definition outcome (kvs : list kv) (acts : list (modify_action A)) (kvs' : list kv) : Prop :=
  ksorted kvs' /\
  (forall k v, (k, v) ∈ kvs' <-> ACTION_INSERT k v ∈ acts \/ ((k, v) ∈ kvs /\ ~ touched k acts)) /\
  weight kvs' <= weight kvs + aweight acts /\
  (length kvs' <= length kvs + length acts)%nat.

Definition keys_of (kvs : list kv) (acts : list (modify_action A)) : list bytes :=
  map fst kvs ++ map act_key acts.
Definition before (l1 l2 : list bytes) : Prop := forall u w, u ∈ l1 -> w ∈ l2 -> klt u w.

(** The calls of the fetch callback, in order. *)
Fixpoint fetch_all (cb : option (bytes -> option bytes -> A -> C -> option C)) (kvs : list kv)
    (acts : list (modify_action A)) (c : C) : option C :=
  match acts with
  | [] => Some c
  | ACTION_FETCH k arg :: acts' =>
      c' ← match cb with Some f => f k (value_of k kvs) arg c | None => Some c end;
      fetch_all cb kvs acts' c'
  | _ :: acts' => fetch_all cb kvs acts' c
  end.

(** ** Sortedness *)

Lemma ksorted_app k1 k2 :
  ksorted (k1 ++ k2) <-> ksorted k1 /\ ksorted k2 /\ forall x y, x ∈ k1 -> y ∈ k2 -> klt x.1 y.1.
Proof.
  unfold ksorted. induction k1 as [|x k1 IH]; cbn.
  - split; [|tauto]. intros Hs. split_and!; [constructor|done|]. intros ? ? Hx. by apply not_elem_of_nil in Hx.
  - split.
    + intros Hs. apply StronglySorted_inv in Hs as [Hs Hall]. apply IH in Hs as (H1 & H2 & H3).
      apply list.Forall_app in Hall as [Ha Hb]. split_and!; [by constructor|done|].
      intros u w [->|Hu]%elem_of_cons Hw; [|by apply H3]. by eapply list.Forall_forall in Hb.
    + intros (H1 & H2 & H3). apply StronglySorted_inv in H1 as [H1 Hall]. constructor.
      * apply IH. split_and!; [done..|]. intros u w Hu. apply H3. by apply list_elem_of_further.
      * apply list.Forall_app. split; [done|]. apply list.Forall_forall. intros y Hy. apply H3; [|done].
        by apply list_elem_of_here.
Qed.

Lemma acts_sorted_app a1 a2 : acts_sorted (a1 ++ a2) -> acts_sorted a1 /\ acts_sorted a2.
Proof.
  unfold acts_sorted. induction a1 as [|x a1 IH]; cbn; [split; [constructor|done]|].
  intros Hs. apply StronglySorted_inv in Hs as [Hs Hall]. apply IH in Hs as [H1 H2].
  apply list.Forall_app in Hall as [Ha _]. split; [by constructor|done].
Qed.

Lemma klt_asym a b : klt a b -> ~ klt b a.
Proof. intros H1 H2. apply (klt_irrefl a). by eapply klt_trans. Qed.

(** The two outcomes of a comparison the loops tell apart. *)
Lemma compare_cases a b : vkey a -> vkey b ->
  exists c, compare a b = Some c /\ ((c < 0 /\ klt a b) \/ (0 <= c /\ (b = a \/ klt b a))).
Proof.
  intros Ha Hb. destruct (Util.compare_spec a b Ha Hb) as [(c & E & ? & ?)|[(c & E & ? & ?)|(c & E & ? & ?)]];
    exists c; (split; [done|]); [left; auto|right; split; [lia|by left]|right; split; [lia|by right]].
Qed.

(** ** Outcomes *)

Lemma not_touched_nil k : ~ touched k [].
Proof. intros [H|[v H]]; by apply not_elem_of_nil in H. Qed.

Lemma touched_app k a1 a2 : touched k (a1 ++ a2) <-> touched k a1 \/ touched k a2.
Proof. unfold touched. setoid_rewrite elem_of_app. naive_solver. Qed.

Lemma touched_key k acts : touched k acts -> k ∈ map act_key acts.
Proof.
  intros [H|[v H]]; apply list_elem_of_fmap; eexists; (split; [|exact H]); done.
Qed.

Lemma aweight_app (a1 a2 : list (modify_action A)) : aweight (a1 ++ a2) = aweight a1 + aweight a2.
Proof. apply sumZ_app. Qed.

Lemma aweight_nonneg (acts : list (modify_action A)) : 0 <= aweight acts.
Proof.
  apply sumZ_nonneg. intros [| |k v]; [done..|]. pose proof (blen_nonneg k). pose proof (blen_nonneg v). lia.
Qed.

Lemma aweight_insert k v : aweight [@ACTION_INSERT A k v] = weight [(k, v)].
Proof. done. Qed.

Lemma outcome_keep kvs : ksorted kvs -> outcome kvs [] kvs.
Proof.
  intros Hs. split_and!; [done| |unfold aweight; cbn; lia|lia].
  intros k v. split; [|by intros [?%not_elem_of_nil|[? _]]]. intros. right. split; [done|apply not_touched_nil].
Qed.

Lemma outcome_keys kvs acts o x : outcome kvs acts o -> x ∈ o -> x.1 ∈ keys_of kvs acts.
Proof.
  intros (_ & Hm & _) Hx. destruct x as [k v]. apply Hm in Hx as [Hi|[Hx _]]; apply elem_of_app; [right|left];
    apply list_elem_of_fmap; eexists; (split; [|eassumption]); done.
Qed.

(** Outcomes on two parts of the key space make an outcome on the whole. *)
Lemma outcome_app k1 a1 o1 k2 a2 o2 :
  outcome k1 a1 o1 -> outcome k2 a2 o2 -> before (keys_of k1 a1) (keys_of k2 a2) ->
  outcome (k1 ++ k2) (a1 ++ a2) (o1 ++ o2).
Proof.
  intros H1 H2 Hb. pose proof H1 as (Hs1 & Hm1 & Hw1 & Hl1). pose proof H2 as (Hs2 & Hm2 & Hw2 & Hl2).
  split_and!.
  - apply ksorted_app. split_and!; [done..|]. intros x y Hx Hy.
    apply Hb; by eapply outcome_keys.
  - intros k v. rewrite !elem_of_app, Hm1, Hm2, touched_app.
    assert ((k, v) ∈ k1 -> ~ touched k a2) as Ha.
    { intros Hx Ht%touched_key. apply (klt_irrefl k), Hb; apply elem_of_app; [left|right; done].
      apply list_elem_of_fmap. by exists (k, v). }
    assert ((k, v) ∈ k2 -> ~ touched k a1) as Hc.
    { intros Hx Ht%touched_key. apply (klt_irrefl k), Hb; apply elem_of_app; [right; done|left].
      apply list_elem_of_fmap. by exists (k, v). }
    naive_solver.
  - rewrite !weight_app, aweight_app. lia.
  - rewrite !length_app. lia.
Qed.

Lemma outcome_fetch kvs k arg acts o :
  outcome kvs acts o -> outcome kvs (ACTION_FETCH k arg :: acts) o.
Proof.
  intros (Hs & Hm & Hw & Hl). split_and!; [done| |done|cbn; lia].
  intros k' v. rewrite Hm. unfold touched. setoid_rewrite elem_of_cons. naive_solver.
Qed.

Lemma outcome_remove_absent k : outcome [] [ACTION_REMOVE k] [].
Proof.
  split_and!; [constructor| |done|cbn; lia]. intros k' v. set_solver.
Qed.

Lemma outcome_insert_absent k v : outcome [] [ACTION_INSERT k v] [(k, v)].
Proof.
  split_and!; [by repeat constructor| |unfold weight, aweight; cbn; lia|cbn; lia].
  intros k' v'. set_solver.
Qed.

Lemma outcome_remove k v : outcome [(k, v)] [ACTION_REMOVE k] [].
Proof.
  pose proof (blen_nonneg k). pose proof (blen_nonneg v).
  split_and!; [constructor| |unfold weight, aweight; cbn; lia|cbn; lia].
  intros k' v'. unfold touched. set_solver.
Qed.

Lemma outcome_insert k v v' : outcome [(k, v)] [ACTION_INSERT k v'] [(k, v')].
Proof.
  pose proof (blen_nonneg k). pose proof (blen_nonneg v).
  split_and!; [by repeat constructor| |unfold weight, aweight; cbn; lia|cbn; lia].
  intros k1 v1. unfold touched. set_solver.
Qed.

(** ** Fetches *)

Lemma value_of_app k k1 k2 : value_of k (k1 ++ k2) = match value_of k k1 with Some v => Some v | None => value_of k k2 end.
Proof. induction k1 as [|[k' v'] k1 IH]; cbn; [done|]. case_decide; done. Qed.

Lemma value_of_here k v kvs : value_of k ((k, v) :: kvs) = Some v.
Proof. cbn. by rewrite decide_True. Qed.

Lemma value_of_not_in k kvs : k ∉ map fst kvs -> value_of k kvs = None.
Proof.
  induction kvs as [|[k' v'] kvs IH]; cbn; [done|]. intros Hk. apply not_elem_of_cons in Hk as [? ?].
  rewrite decide_False by done. auto.
Qed.

Lemma fetch_all_app cb kvs a1 a2 c :
  fetch_all cb kvs (a1 ++ a2) c = c' ← fetch_all cb kvs a1 c; fetch_all cb kvs a2 c'.
Proof.
  revert c. induction a1 as [|[k arg|k|k v] a1 IH]; intros c; cbn [app fetch_all]; [done| |apply IH|apply IH].
  destruct (match cb with Some f => f k (value_of k kvs) arg c | None => Some c end); cbn; [apply IH|done].
Qed.

Lemma fetch_all_ext cb kvs kvs' acts c :
  (forall k, k ∈ map act_key acts -> value_of k kvs = value_of k kvs') ->
  fetch_all cb kvs acts c = fetch_all cb kvs' acts c.
Proof.
  revert c. induction acts as [|a acts IH]; intros c Hk; [done|].
  assert (forall c, fetch_all cb kvs acts c = fetch_all cb kvs' acts c) as IH'
    by (intros; apply IH; intros; apply Hk; by apply list_elem_of_further).
  destruct a as [k arg|k|k v]; cbn; [|apply IH'..].
  rewrite (Hk k) by (apply list_elem_of_here).
  destruct (match cb with Some f => f k (value_of k kvs') arg c | None => Some c end); cbn; [apply IH'|done].
Qed.

Lemma before_not_in l1 l2 u : before l1 l2 -> u ∈ l1 -> u ∉ l2.
Proof. intros Hb H1 H2. apply (klt_irrefl u). by apply Hb. Qed.

(** The fetches of the two parts of a batch see the two parts of the tree. *)
Lemma fetch_all_split cb k1 a1 k2 a2 c c1 c2 :
  before (keys_of k1 a1) (keys_of k2 a2) ->
  fetch_all cb k1 a1 c = Some c1 -> fetch_all cb k2 a2 c1 = Some c2 ->
  fetch_all cb (k1 ++ k2) (a1 ++ a2) c = Some c2.
Proof.
  intros Hb H1 H2. rewrite fetch_all_app.
  rewrite (fetch_all_ext cb _ k1), H1; [cbn; rewrite (fetch_all_ext cb _ k2); [done|]|]; intros k Hk; rewrite value_of_app.
  - rewrite (value_of_not_in k k1); [done|]. intros Hin. eapply (before_not_in _ _ k Hb); apply elem_of_app; auto.
  - destruct (value_of k k1); [done|]. apply value_of_not_in. intros Hin.
    eapply (before_not_in _ _ k Hb); apply elem_of_app; auto.
Qed.

Lemma fetch_all_split_inv cb k1 a1 k2 a2 c c2 :
  before (keys_of k1 a1) (keys_of k2 a2) ->
  fetch_all cb (k1 ++ k2) (a1 ++ a2) c = Some c2 ->
  exists c1, fetch_all cb k1 a1 c = Some c1 /\ fetch_all cb k2 a2 c1 = Some c2.
Proof.
  intros Hb. rewrite fetch_all_app.
  rewrite (fetch_all_ext cb (k1 ++ k2) k1 a1).
  2:{ intros k Hk. rewrite value_of_app. destruct (value_of k k1); [done|]. apply value_of_not_in. intros Hin.
      eapply (before_not_in _ _ k Hb); apply elem_of_app; auto. }
  destruct (fetch_all cb k1 a1 c) as [c1|]; cbn; [|done]. intros H2. exists c1. split; [done|].
  rewrite <- H2. apply fetch_all_ext. intros k Hk. rewrite value_of_app, (value_of_not_in k k1); [done|].
  intros Hin. eapply (before_not_in _ _ k Hb); apply elem_of_app; auto.
Qed.

(** ** One action at a time *)

Lemma keys_of_app u k1 a1 k2 a2 :
  u ∈ keys_of (k1 ++ k2) (a1 ++ a2) <-> u ∈ keys_of k1 a1 \/ u ∈ keys_of k2 a2.
Proof. unfold keys_of. rewrite !map_app, !elem_of_app. tauto. Qed.

Lemma before_split k1 a1 k2 a2 k3 a3 :
  before (keys_of k1 a1) (keys_of (k2 ++ k3) (a2 ++ a3)) -> before (keys_of k2 a2) (keys_of k3 a3) ->
  before (keys_of k1 a1) (keys_of k2 a2) /\ before (keys_of (k1 ++ k2) (a1 ++ a2)) (keys_of k3 a3).
Proof.
  unfold before. setoid_rewrite keys_of_app. naive_solver.
Qed.

Lemma outcome_fetch_alone k arg o : outcome [] [ACTION_FETCH k arg] o -> o = [].
Proof.
  intros (_ & Hm & _). destruct o as [|[k' v'] o]; [done|].
  assert ((k', v') ∈ (k', v') :: o) as Hx%Hm by apply list_elem_of_here. set_solver.
Qed.

(** An action on a key below everything that follows. *)
Lemma outcome_cons kvs a acts oa o :
  acts_sorted (a :: acts) -> outcome [] [a] oa -> outcome kvs acts o ->
  before [act_key a] (map fst kvs) -> outcome kvs (a :: acts) (oa ++ o).
Proof.
  intros Hs Ha Ho Hb. destruct (decide (is_fetch a)) as [Hf|Hf].
  { destruct a as [k arg| |]; [|done..]. apply outcome_fetch_alone in Ha as ->. by apply outcome_fetch. }
  apply (outcome_app [] [a] oa kvs acts o); [done..|]. unfold before, keys_of. cbn.
  intros u w ->%list_elem_of_singleton [Hw|Hw]%elem_of_app; [apply Hb; [by apply list_elem_of_singleton|done]|].
  apply StronglySorted_inv in Hs as [_ Hall]. apply list_elem_of_fmap in Hw as (b & -> & Hb').
  eapply list.Forall_forall in Hall as [?|[_ ?]]; [done|done|exact Hb'].
Qed.

Lemma fetch_all_cons cb kvs a acts c c2 :
  before [act_key a] (map fst kvs) -> fetch_all cb kvs (a :: acts) c = Some c2 ->
  exists c1, fetch_all cb [] [a] c = Some c1 /\ fetch_all cb kvs acts c1 = Some c2.
Proof.
  intros Hb. destruct a as [k arg|k|k v]; cbn; [|eauto..].
  rewrite (value_of_not_in k) by (eapply before_not_in; [done|by apply list_elem_of_singleton]).
  destruct (match cb with Some f => f k None arg c | None => Some c end) as [c1|]; cbn; [eauto|done].
Qed.

(** The actions after one that is no fetch have greater keys, and those after a
    greater key are greater. *)
Lemma acts_after a acts : acts_sorted (a :: acts) -> ~ is_fetch a -> before [act_key a] (map act_key acts).
Proof.
  intros Hs Hf u w ->%list_elem_of_singleton (b & -> & Hb)%list_elem_of_fmap.
  apply StronglySorted_inv in Hs as [_ Hall]. by eapply list.Forall_forall in Hall as [?|[_ ?]].
Qed.

Lemma acts_above k a acts :
  acts_sorted (a :: acts) -> klt k (act_key a) -> before [k] (map act_key (a :: acts)).
Proof.
  intros Hs Hk u w ->%list_elem_of_singleton (b & -> & Hb)%list_elem_of_fmap.
  apply elem_of_cons in Hb as [->|Hb]; [done|]. apply StronglySorted_inv in Hs as [_ Hall].
  eapply list.Forall_forall in Hall as [?|[<- ?]]; [|done|exact Hb]. by eapply klt_trans.
Qed.

Lemma before_app_r l l1 l2 : before l (l1 ++ l2) <-> before l l1 /\ before l l2.
Proof. unfold before. setoid_rewrite elem_of_app. naive_solver. Qed.

Lemma before_cons_l u l l2 : before (u :: l) l2 <-> before [u] l2 /\ before l l2.
Proof. unfold before. set_solver. Qed.

Lemma before_trans u k l : klt u k -> before [k] l -> before [u] l.
Proof.
  intros Hu Hb x w ->%list_elem_of_singleton Hw. eapply klt_trans; [exact Hu|].
  apply Hb; [by apply list_elem_of_singleton|done].
Qed.

(** A list sorted by key, as a separation of its head from its tail. *)
Lemma ksorted_cons x kvs : ksorted (x :: kvs) <-> ksorted kvs /\ before [x.1] (map fst kvs).
Proof.
  change (x :: kvs) with ([x] ++ kvs). rewrite ksorted_app. unfold before.
  setoid_rewrite list_elem_of_singleton. setoid_rewrite list_elem_of_fmap.
  split; [intros (_ & ? & Hb); split; [done|naive_solver]|].
  intros [? Hb]. split_and!; [by repeat constructor|done|naive_solver].
Qed.

(** An insertion or removal of the first key of a tree uses up that item. *)
Lemma before_replace k v kvs a acts :
  ksorted ((k, v) :: kvs) -> acts_sorted (a :: acts) -> ~ is_fetch a -> act_key a = k ->
  before (keys_of [(k, v)] [a]) (keys_of kvs acts).
Proof.
  intros [_ Hb]%ksorted_cons Hs Hf <-. pose proof (acts_after _ _ Hs Hf).
  unfold keys_of. cbn. apply before_cons_l. rewrite !before_app_r. done.
Qed.

(** Everything in a sorted tree is at most its last key. *)
Lemma ksorted_last kvs k v x :
  ksorted kvs -> list.last kvs = Some (k, v) -> x ∈ kvs -> x.1 = k \/ klt x.1 k.
Proof.
  intros Hs (kvs' & ->)%last_Some [Hx|Hx]%elem_of_app.
  - right. apply ksorted_app in Hs as (_ & _ & Hb). apply (Hb x (k, v)); [done|by apply list_elem_of_singleton].
  - apply list_elem_of_singleton in Hx as ->. by left.
Qed.

Lemma before_le k l l' :
  (forall u, u ∈ l -> u = k \/ klt u k) -> before [k] l' -> before l l'.
Proof.
  intros Hl Hb u w Hu Hw. destruct (Hl u Hu) as [->|Hlt]; [apply Hb; [by apply list_elem_of_singleton|done]|].
  eapply klt_trans; [exact Hlt|]. apply Hb; [by apply list_elem_of_singleton|done].
Qed.

(** ** The finite map a batch computes *)

Lemma ksorted_NoDup kvs : ksorted kvs -> NoDup (map fst kvs).
Proof.
  induction 1 as [|x kvs _ IH Hall]; cbn; constructor; [|done].
  intros Hin. apply list_elem_of_fmap in Hin as (y & E & Hy).
  eapply list.Forall_forall in Hall; [|exact Hy]. rewrite E in Hall. by apply klt_irrefl in Hall.
Qed.

Lemma as_map_lookup kvs k v : ksorted kvs -> (k, v) ∈ kvs <-> as_map kvs !! k = Some v.
Proof. intros Hs%ksorted_NoDup. apply elem_of_list_to_map. exact Hs. Qed.

Lemma apply_actions_lookup acts m k v :
  acts_sorted acts ->
  apply_actions m acts !! k = Some v <->
  ACTION_INSERT k v ∈ acts \/ (m !! k = Some v /\ ~ touched k acts).
Proof.
  intros Hs. revert m. induction Hs as [|a acts _ IH Hall]; intros m.
  { unfold apply_actions, touched. cbn. set_solver. }
  change (apply_actions m (a :: acts)) with (apply_actions (apply_action m a) acts). rewrite IH.
  assert (touched (act_key a) acts -> is_fetch a) as Hlast.
  { intros Ht%touched_key. apply list_elem_of_fmap in Ht as (b & E & Hb).
    eapply list.Forall_forall in Hall as [Hlt|[_ ?]]; [|done|exact Hb]. rewrite <- E in Hlt. by apply klt_irrefl in Hlt. }
  change (a :: acts) with ([a] ++ acts). rewrite touched_app, elem_of_app.
  destruct a as [k' arg|k'|k' v']; cbn [apply_action act_key is_fetch] in *.
  - assert (~ touched k [ACTION_FETCH k' arg]) by (unfold touched; set_solver). set_solver.
  - rewrite lookup_delete_Some. unfold touched in *. set_solver.
  - rewrite lookup_insert_Some. unfold touched in *. set_solver.
Qed.

Lemma outcome_map kvs acts kvs' :
  ksorted kvs -> acts_sorted acts -> outcome kvs acts kvs' ->
  as_map kvs' = apply_actions (as_map kvs) acts.
Proof.
  intros Hk Ha (Hs & Hm & _). apply map_eq. intros k. apply option_eq. intros v.
  rewrite <- as_map_lookup, Hm, apply_actions_lookup, <- as_map_lookup by done. done.
Qed.
End Spec.

(** ** The items of a node *)

Lemma read_kv_items i rest :
  kv_fits (nl_key i) (nl_data i) ->
  read_kv (items_buf (i :: rest)) = Some (nl_key i, nl_data i, length (write_kv (nl_key i) (nl_data i))) /\
  drop (length (write_kv (nl_key i) (nl_data i))) (items_buf (i :: rest)) = items_buf rest /\
  drop (length (write_kv (nl_key i) (nl_data i)) - length (nl_data i)) (items_buf (i :: rest)) =
    nl_data i ++ items_buf rest /\
  (length (items_buf rest) < length (items_buf (i :: rest)))%nat.
Proof.
  intros Hfit. change (items_buf (i :: rest)) with (write_kv (nl_key i) (nl_data i) ++ items_buf rest).
  split_and!; [by apply read_kv_write_kv|by rewrite drop_app_length| |rewrite length_app, write_kv_length; lia].
  rewrite write_kv_length. replace (_ - _)%nat with (5 + length (nl_key i))%nat by lia.
  unfold write_kv. rewrite !app_assoc, <- app_assoc. apply drop_app_length'.
  rewrite length_app, encode_kv_length_length. done.
Qed.

Section Children.
Context {F : Type} `{HF : Faulty F} `{HN : !NodeStore F} `{HL : !NodeWriterLaws F}.
Context {compare : bytes -> bytes -> option Z} `{HK : !KeyOrder compare}.
Variable kvok : bytes -> bytes -> Prop.
Variable rval : list kv -> bytes.
Hypothesis kvok_key : forall k v, kvok k v -> vkey k.
Hypothesis kvok_fits : forall k v, kvok k v -> kv_fits k v.
Hypothesis rval_size : forall kvs, blen (rval kvs) <= REDUCE_BUF_SIZE.

#[local] Abbreviation child_at := (child_at kvok rval).

(** A pointer read back from a node. *)
Definition norm_child (c : child) : child :=
  {| ch_ptr := {| np_key := np_key (ch_ptr c); np_pointer := np_pointer (ch_ptr c);
                  np_reduce_value := np_reduce_value (ch_ptr c);
                  np_subtreesize := np_subtreesize (ch_ptr c) mod 2 ^ 48 |};
     ch_kvs := ch_kvs c; ch_size := ch_size c |}.

Lemma norm_child_at st h c : child_at st h c -> child_at st h (norm_child c).
Proof. intros [(? & ? & Hsz) ?]. split; [|done]. split_and!; [done..|]. cbn. rewrite Z.mod_mod by lia. done. Qed.

Lemma node_at_range st h pos kvs sz : node_at kvok rval st h pos kvs sz -> 0 <= pos < 2 ^ 47.
Proof.
  destruct h; cbn.
  - intros (_ & _ & Hst). by apply ns_stored_range in Hst as [? _].
  - intros (cs & dsz & _ & _ & _ & _ & Hst). by apply ns_stored_range in Hst as [? _].
Qed.

Lemma child_key st h c : child_at st h c -> vkey (np_key (ch_ptr c)) /\ blen (np_key (ch_ptr c)) < 2 ^ 12.
Proof.
  intros [((v & Hv) & _) Hn]. apply node_at_ok in Hn. unfold kvs_ok in Hn. rewrite list.Forall_forall in Hn.
  apply last_Some_elem_of, Hn in Hv. cbn in Hv. split; [by eapply kvok_key|].
  by apply kvok_fits in Hv as [? _].
Qed.

Lemma child_fits st h c : child_at st h c -> kv_fits (nl_key (ch_item c)) (nl_data (ch_item c)).
Proof.
  intros Hc. split; [by apply (child_key st h)|]. destruct Hc as [(_ & Hred & _) _].
  pose proof (rval_size (ch_kvs c)) as Hs. rewrite <- Hred in Hs.
  pose proof (ch_item_size c) as Hi. unfold item_size in Hi.
  change (nl_key (ch_item c)) with (np_key (ch_ptr c)) in Hi. unfold REDUCE_BUF_SIZE in Hs. lia.
Qed.

(** The two reads of read_pointer, given what they find. *)
Lemma read_pointer_eq key buf raw red :
  as_raw_node_pointer buf = Some raw ->
  slice sizeof_raw_node_pointer (Z.to_nat (decode_raw16 (rnp_reduce_value_size raw))) buf = Some red ->
  read_pointer key buf = Some {| np_key := key; np_pointer := decode_raw48 (rnp_pointer raw);
    np_reduce_value := red; np_subtreesize := decode_raw48 (rnp_subtreesize raw) |}.
Proof. intros E1 E2. unfold read_pointer. rewrite E1. cbn [mbind option_bind]. by rewrite E2. Qed.

Lemma read_pointer_child st h c rest :
  child_at st h c ->
  read_pointer (nl_key (ch_item c)) (nl_data (ch_item c) ++ rest) = Some (ch_ptr (norm_child c)).
Proof.
  intros [(_ & Hred & _) Hn]. apply node_at_range in Hn.
  pose proof (rval_size (ch_kvs c)) as Hs. rewrite <- Hred in Hs.
  unfold REDUCE_BUF_SIZE, ch_item, encode_pointer, norm_child in *. cbn [nl_data nl_key ch_ptr].
  set (p := ch_ptr c) in *. pose proof (blen_nonneg (np_reduce_value p)).
  assert (decode_raw16 (encode_raw16 (u16 (blen (np_reduce_value p)))) = blen (np_reduce_value p)) as E16.
  { rewrite decode_encode_raw16. unfold u16. rewrite Z.mod_mod, Z.mod_small by lia. done. }
  erewrite read_pointer_eq.
  2:{ rewrite <- !app_assoc. apply as_raw_node_pointer_app; by autorewrite with len. }
  2:{ cbn [rnp_reduce_value_size]. rewrite E16, !app_assoc, <- app_assoc.
      apply slice_mid; [by autorewrite with len|unfold blen; lia]. }
  cbn [rnp_pointer rnp_subtreesize]. rewrite !decode_encode_raw48, (Z.mod_small (np_pointer p)) by lia. done.
Qed.

Lemma child_keys st h c : child_at st h c -> ksorted (ch_kvs c) ->
  forall u, u ∈ map fst (ch_kvs c) -> u = np_key (ch_ptr c) \/ klt u (np_key (ch_ptr c)).
Proof.
  intros [((v & Hv) & _) _] Hs u (x & -> & Hx)%list_elem_of_fmap. by eapply ksorted_last.
Qed.

(** The key of a child is below the items of the children after it. *)
Lemma child_before st h c cs : child_at st h c -> ksorted (ch_all (c :: cs)) ->
  ksorted (ch_kvs c) /\ ksorted (ch_all cs) /\ before [np_key (ch_ptr c)] (map fst (ch_all cs)).
Proof.
  intros [((v & Hv) & _) _] Hs. change (ch_all (c :: cs)) with (ch_kvs c ++ ch_all cs) in Hs.
  apply ksorted_app in Hs as (H1 & H2 & H3). split_and!; [done..|].
  intros u w ->%list_elem_of_singleton (y & -> & Hy)%list_elem_of_fmap.
  by apply (H3 (np_key (ch_ptr c), v)); [apply last_Some_elem_of|].
Qed.

End Children.
