(* ===== verification/BTreeModify.v ===== *)
(** * BTreeModify: modify_btree computes the outcome of a batch

    The leaf loops merge the actions with the items, the interior loops send
    each child the actions that fall in its range, and together they compute the
    [outcome] of the batch on the items of the tree. *)

From Stdlib Require Import ZArith Lia Sorted.
From S2P Require Import Prelude Bitfield NodeTypes Util NodeStore BTree BTreeInv BTreeFlush TreeSpec.
From stdpp Require Import list numbers gmap.

#[local] Open Scope Z_scope.
#[local] Open Scope couch_scope.
#[local] Existing Instance pure_ctx | 100.

(** Without a change nothing was touched: the flag and the items are as before. *)
Definition kept (b b' : bool) (kvs o : list kv) : Prop := b' = false -> b = false /\ o = kvs.

Lemma kept_app b1 b2 b3 k1 k2 o1 o2 :
  kept b1 b2 k1 o1 -> kept b2 b3 k2 o2 -> kept b1 b3 (k1 ++ k2) (o1 ++ o2).
Proof. unfold kept. intros H1 H2 E. destruct (H2 E) as [E2 ->]. by destruct (H1 E2) as [? ->]. Qed.

Lemma kept_same b k : kept b b k k.
Proof. done. Qed.

Lemma kept_set b k o : kept b true k o.
Proof. done. Qed.

Section Modify.
Context {F C A : Type} `{HF : Faulty F} `{HN : !NodeStore F} `{HL : !NodeStoreLaws F}.
Variable rq : modify_request C A.
Variable kvok : bytes -> bytes -> Prop.
Variable rval : list kv -> bytes.
Context `{HR : !ReduceLaws rq kvok rval} `{HK : !KeyOrder (rq_compare rq)}.
Hypothesis kvok_key : forall k v, kvok k v -> vkey k.

#[local] Abbreviation rep := (rep kvok rval).
#[local] Abbreviation child_at := (child_at kvok rval).
#[local] Abbreviation cb := (rq_fetch_callback rq).

Definition act_ok (a : modify_action A) : Prop :=
  vkey (act_key a) /\ match a with ACTION_INSERT k v => kvok k v | _ => True end.

Lemma wp_fetch st c c' k v arg Q :
  match cb with Some f => f k v arg c | None => Some c end = Some c' ->
  Q tt (st, c') -> wp (fetch (F := F) rq k v arg) Q (st, c).
Proof.
  intros E HQ. unfold fetch, wp. destruct (rq_fetch_callback rq) as [f|]; cbn; [|by simplify_eq].
  by rewrite E.
Qed.

Lemma wp_push_kv st c m lk k v Q :
  ns_ok st -> rep st 0 m lk -> kvok k v -> weight (lk ++ [(k, v)]) + 1 < max_node ->
  (forall st' m', ns_ok st' -> ns_ext st st' -> rep st' 0 m' (lk ++ [(k, v)]) ->
    mr_modified m' = mr_modified m -> Q (m', COUCHSTORE_SUCCESS) (st', c)) ->
  wp (mr_push_item (F := F) rq k v m) Q (st, c).
Proof. intros. eapply (wp_push rq kvok rval); [done|done|by apply leaf_value_at|done|done]. Qed.

(** ** Leaves *)

Lemma wp_action_no_item st c c' m lk a Q :
  ns_ok st -> rep st 0 m lk -> act_ok a -> fetch_all cb [] [a] c = Some c' ->
  weight lk + aweight [a] + 1 < max_node ->
  (forall st' m' o, ns_ok st' -> ns_ext st st' -> outcome [] [a] o -> rep st' 0 m' (lk ++ o) ->
    kept (mr_modified m) (mr_modified m') [] o -> Q m' (st', c')) ->
  wp (action_no_item (F := F) rq a m) Q (st, c).
Proof.
  intros Hst Hrep [_ Hok] Hf Hw HQ. destruct a as [k arg|k|k v]; cbn in Hf.
  - apply bind_Some in Hf as (c1 & Hf & [= ->]). apply wp_bind; [intros; solve_sticky|].
    eapply wp_fetch; [exact Hf|]. apply wp_ret. apply (HQ _ _ []); [done|reflexivity| |by rewrite app_nil_r|apply kept_same].
    apply outcome_fetch, outcome_keep. constructor.
  - injection Hf as <-. apply wp_ret.
    apply (HQ _ _ []); [done|reflexivity|apply outcome_remove_absent|by rewrite app_nil_r|apply kept_set].
  - injection Hf as <-. apply wp_bind; [intros [??]; solve_sticky|]. unfold aweight in Hw. cbn in Hw.
    eapply wp_push_kv; [done|by apply rep_set_modified|done|rewrite weight_app; unfold weight at 2; cbn; lia|].
    intros st' m' Hst' Hext Hrep' Hmod. apply wp_ret. eapply HQ; [done|done|apply outcome_insert_absent|done|].
    rewrite Hmod. apply kept_set.
Qed.

Lemma wp_kv_rest acts st c c' m lk Q :
  ns_ok st -> rep st 0 m lk -> Forall act_ok acts -> acts_sorted acts ->
  fetch_all cb [] acts c = Some c' -> weight lk + aweight acts + 1 < max_node ->
  (forall st' m' o, ns_ok st' -> ns_ext st st' -> outcome [] acts o -> rep st' 0 m' (lk ++ o) ->
    kept (mr_modified m) (mr_modified m') [] o -> Q m' (st', c')) ->
  wp (kv_rest (F := F) rq acts m) Q (st, c).
Proof.
  revert st c m lk. induction acts as [|a acts IH]; intros st c m lk Hst Hrep Hok Hs Hf Hw HQ.
  { cbn in Hf. injection Hf as <-. apply wp_ret.
    apply (HQ _ _ []); [done|reflexivity|apply outcome_keep; constructor|by rewrite app_nil_r|apply kept_same]. }
  inversion_clear Hok as [|? ? Ha Hok']. pose proof (proj1 (StronglySorted_inv Hs)) as Hs'.
  assert (before [act_key a] (map fst ([] : list kv))) as Hb by (intros u w _ Hw'; by apply not_elem_of_nil in Hw').
  apply (fetch_all_cons _ []) in Hf as (c1 & Hf1 & Hf2); [|done].
  change (a :: acts) with ([a] ++ acts) in Hw. rewrite aweight_app in Hw. pose proof (aweight_nonneg acts).
  cbn [kv_rest]. apply wp_bind; [intros; solve_sticky|].
  eapply wp_action_no_item; [done|exact Hrep|done|exact Hf1|lia|].
  intros st1 m1 o1 Hst1 Hext1 Ho1 Hrep1 Hk1.
  eapply IH; [done|exact Hrep1|done|done|exact Hf2| |].
  { rewrite weight_app. pose proof Ho1 as (_ & _ & Hw1 & _). change (weight []) with 0 in Hw1. lia. }
  intros st2 m2 o2 Hst2 Hext2 Ho2 Hrep2 Hk2. rewrite <- app_assoc in Hrep2.
  eapply HQ; [done|by transitivity st1|by eapply outcome_cons|done|].
  by eapply (kept_app _ _ _ [] []).
Qed.

(** What processing the items [k1] of a leaf leaves to do for the items [kvs]. *)
Definition item_post (st : F) (m : modify_result) (lk k1 kvs : list kv)
    (acts : list (modify_action A)) (c2 : C)
    (r : list (modify_action A) * modify_result) (s : F * C) : Prop :=
  exists a1 o, acts = a1 ++ r.1 /\ ns_ok s.1 /\ ns_ext st s.1 /\ outcome k1 a1 o /\
    rep s.1 0 r.2 (lk ++ o) /\ kept (mr_modified m) (mr_modified r.2) k1 o /\
    before (keys_of k1 a1) (keys_of kvs r.1) /\ fetch_all cb kvs r.1 s.2 = Some c2.

(** The item is kept and every action is left. *)
Lemma item_keep st c c2 m lk k v kvs acts :
  ns_ok st -> rep st 0 m lk -> kvok k v -> weight lk + weight [(k, v)] + 1 < max_node ->
  before [k] (keys_of kvs acts) -> fetch_all cb ((k, v) :: kvs) acts c = Some c2 ->
  wp (let* (r, _) := mr_push_item (F := F) rq k v m in ret (acts, r))
     (item_post st m lk [(k, v)] kvs acts c2) (st, c).
Proof.
  intros Hst Hrep Hok Hw Hb Hf. apply wp_bind; [intros [??]; solve_sticky|].
  eapply wp_push_kv; [done|done|done|rewrite weight_app; lia|]. intros st' m' Hst' Hext Hrep' Hmod.
  apply wp_ret. exists [], [(k, v)]. cbn [fst snd]. split_and!; [done..| |done| |done|].
  - apply outcome_keep. by repeat constructor.
  - by rewrite Hmod.
  - apply (fetch_all_split_inv cb [(k, v)] [] kvs acts) in Hf as (c1 & [= <-] & Hf); done.
Qed.

Lemma wp_kv_item acts st c c2 m lk k v kvs :
  ns_ok st -> rep st 0 m lk -> kvok k v -> ksorted ((k, v) :: kvs) ->
  Forall act_ok acts -> acts_sorted acts -> fetch_all cb ((k, v) :: kvs) acts c = Some c2 ->
  weight lk + weight [(k, v)] + aweight acts + 1 < max_node ->
  wp (kv_item (F := F) rq k v acts m) (item_post st m lk [(k, v)] kvs acts c2) (st, c).
Proof.
  intros Hst Hrep Hok Hks. pose proof Hks as [Hks' Hbk]%ksorted_cons. cbn [fst] in Hbk.
  revert st c m lk Hst Hrep. induction acts as [|a acts IH]; intros st c m lk Hst Hrep Hacts Hs Hf Hw.
  { apply item_keep; [done..|change (aweight []) with 0 in Hw; lia| |done]. unfold keys_of. by rewrite app_nil_r. }
  inversion_clear Hacts as [|? ? Ha Hacts']. pose proof (proj1 (StronglySorted_inv Hs)) as Hs'.
  pose proof (aweight_nonneg acts). change (a :: acts) with ([a] ++ acts) in Hw. rewrite aweight_app in Hw.
  pose proof (aweight_nonneg [a]).
  cbn [kv_item]. destruct (Util.compare_spec k (act_key a) (kvok_key _ _ Hok) (proj1 Ha))
    as [(cv & E & Hc & Hlt)|[(cv & E & -> & Heq)|(cv & E & Hc & Hlt)]].
  - (* a later key *)
    apply wp_bind; [intros; solve_sticky|]. rewrite E. apply wp_ret. rewrite decide_True by done.
    apply item_keep; [done..|lia| |done]. apply before_app_r. split; [done|by apply acts_above].
  - (* this key *)
    apply wp_bind; [intros; solve_sticky|]. rewrite E. apply wp_ret. rewrite !decide_False by done.
    destruct a as [k' arg|k'|k' v']; cbn [act_key] in *; subst k'.
    + cbn [fetch_all] in Hf. rewrite value_of_here in Hf.
      apply bind_Some in Hf as (c1 & Hf1 & Hf2).
      apply wp_bind; [intros; solve_sticky|]. eapply wp_fetch; [exact Hf1|].
      eapply wp_mono; [apply IH; [done..|lia]|].
      intros [a2 m'] [st' c'] (a1 & o & -> & ? & ? & Ho & ? & ? & Hb & ?). exists (ACTION_FETCH k arg :: a1), o.
      split_and!; [done..|by apply outcome_fetch|done|done| |done].
      intros u w Hu. apply Hb. unfold keys_of in *. cbn in Hu |- *. set_solver.
    + apply wp_ret. exists [ACTION_REMOVE k], []. cbn [fst snd].
      pose proof (before_replace _ _ _ _ _ Hks Hs (fun x => x) eq_refl) as Hb.
      split_and!; [done|done|reflexivity|apply outcome_remove|by rewrite app_nil_r|apply kept_set|done|].
      apply (fetch_all_split_inv cb [(k, v)] [ACTION_REMOVE k] kvs acts) in Hf as (c1 & [= <-] & Hf); done.
    + pose proof (before_replace _ _ _ _ _ Hks Hs (fun x => x) eq_refl) as Hb.
      apply (fetch_all_split_inv cb [(k, v)] [ACTION_INSERT k v'] kvs acts) in Hf as (c1 & [= <-] & Hf); [|done].
      apply wp_bind; [intros [??]; solve_sticky|].
      eapply wp_push_kv; [done|by apply rep_set_modified|apply Ha| |].
      { rewrite weight_app. rewrite aweight_insert in Hw. pose proof (weight_nonneg [(k, v)]). lia. }
      intros st' m' Hst' Hext Hrep' Hmod. apply wp_ret. exists [ACTION_INSERT k v'], [(k, v')]. cbn [fst snd].
      split_and!; [done..|apply outcome_insert|done|rewrite Hmod; apply kept_set|done|done].
  - (* an earlier key *)
    apply wp_bind; [intros; solve_sticky|]. rewrite E. apply wp_ret.
    rewrite decide_False, decide_True by lia.
    assert (before [act_key a] (map fst ((k, v) :: kvs))) as Hbl.
    { cbn. change (k :: map fst kvs) with ([k] ++ map fst kvs). apply before_app_r.
      split; [by intros ? ? ->%list_elem_of_singleton ->%list_elem_of_singleton|by eapply before_trans]. }
    apply fetch_all_cons in Hf as (c1 & Hf1 & Hf2); [|done].
    apply wp_bind; [intros; solve_sticky|].
    eapply wp_action_no_item; [done|done|done|exact Hf1|pose proof (weight_nonneg [(k, v)]); lia|].
    intros st1 m1 oa Hst1 Hext1 Hoa Hrep1 Hk1. pose proof Hoa as (_ & _ & Hwa & _). change (weight []) with 0 in Hwa.
    eapply wp_mono; [apply (IH st1 c1 m1 (lk ++ oa)); [done..|rewrite weight_app; lia]|].
    intros [a2 m2] [st2 c'] (a1 & o & E1 & Hst2 & Hext2 & Ho & Hrep2 & Hk2 & Hb2 & Hf').
    cbn [fst snd] in *. subst acts. exists (a :: a1), (oa ++ o). cbn [fst snd].
    split_and!; [done|done|by transitivity st1| |by rewrite app_assoc|by eapply (kept_app _ _ _ [] [_])| |done].
    + apply outcome_cons; [by apply (acts_sorted_app (a :: a1) a2)|done|done|].
      cbn. by intros ? ? ->%list_elem_of_singleton ->%list_elem_of_singleton.
    + apply before_cons_l in Hb2 as [Hb2 Hb3]. apply before_cons_l. split; [done|].
      cbn. apply before_cons_l. split; [by eapply before_trans|done].
Qed.

Lemma wp_kv_loop fuel kvs st c c2 m lk acts :
  ns_ok st -> rep st 0 m lk -> kvs_ok kvok kvs -> ksorted kvs ->
  Forall act_ok acts -> acts_sorted acts -> fetch_all cb kvs acts c = Some c2 ->
  weight lk + weight kvs + aweight acts + 1 < max_node ->
  (length (items_buf (map leaf_item kvs)) <= fuel)%nat ->
  wp (kv_loop (F := F) rq fuel (items_buf (map leaf_item kvs)) acts m)
     (item_post st m lk kvs [] acts c2) (st, c).
Proof.
  revert kvs st c m lk acts. induction fuel as [|fuel IH];
    intros [|[k v] kvs] st c m lk acts Hst Hrep Hok Hs Hacts Has Hf Hw Hfuel.
  1, 3: apply wp_ret; exists [], []; cbn [fst snd]; split_and!;
    [done|done|reflexivity|apply outcome_keep; constructor|by rewrite app_nil_r|apply kept_same
    |by intros ? ? ?%not_elem_of_nil|done].
  { change (items_buf _) with (write_kv k v ++ items_buf (map leaf_item kvs)) in Hfuel.
    rewrite length_app, write_kv_length in Hfuel. lia. }
  inversion_clear Hok as [|? ? Hkv Hok']. cbn [fst snd] in Hkv. pose proof Hs as [Hs' _]%ksorted_cons.
  destruct (read_kv_items (leaf_item (k, v)) (map leaf_item kvs)) as (Er & Ed & _ & Hlt);
    [by eapply rl_fits|]. cbn [map] in *.
  destruct (items_buf (leaf_item (k, v) :: map leaf_item kvs)) as [|b0 buf0] eqn:Eb; [cbn in Hlt; lia|].
  cbn [kv_loop]. rewrite Er. apply wp_bind; [intros [[??]?]; solve_sticky|]. apply wp_ret.
  rewrite Ed. apply wp_bind; [intros [??]; solve_sticky|].
  change ((k, v) :: kvs) with ([(k, v)] ++ kvs) in Hw. rewrite weight_app in Hw. pose proof (weight_nonneg kvs).
  eapply wp_mono; [apply (wp_kv_item acts st c c2 m lk k v kvs); [done..|lia]|].
  intros [a2 m1] [st1 c1] (a1 & o & -> & Hst1 & Hext1 & Ho & Hrep1 & Hk1 & Hb1 & Hf1). cbn [fst snd] in *.
  apply list.Forall_app in Hacts as [_ Hacts2]. pose proof (proj2 (acts_sorted_app _ _ Has)) as Has2.
  pose proof Ho as (_ & _ & Hwo & _). rewrite aweight_app in Hw.
  eapply wp_mono; [apply (IH kvs st1 c1 m1 (lk ++ o) a2); [done..|rewrite weight_app; lia|lia]|].
  intros [a3 m2] [st2 c3] (a2' & o2 & -> & Hst2 & Hext2 & Ho2 & Hrep2 & Hk2 & Hb2 & Hf2). cbn [fst snd] in *.
  destruct (before_split [(k, v)] a1 kvs a2' [] a3) as [Hbb Hb3]; [by rewrite app_nil_r|done|].
  exists (a1 ++ a2'), (o ++ o2). cbn [fst snd].
  split_and!; [by rewrite app_assoc|done|by transitivity st1| |by rewrite app_assoc| |done|done].
  - by apply (outcome_app [(k, v)] a1 o kvs a2' o2).
  - by eapply (kept_app _ _ _ [(k, v)] kvs).
Qed.

Lemma wp_kv_node kvs st c c2 acts Q :
  ns_ok st -> kvs_ok kvok kvs -> ksorted kvs -> Forall act_ok acts -> acts_sorted acts ->
  fetch_all cb kvs acts c = Some c2 -> weight kvs + aweight acts + 1 < max_node ->
  (forall st' m' o, ns_ok st' -> ns_ext st st' -> outcome kvs acts o -> rep st' 0 m' o ->
    kept false (mr_modified m') kvs o -> Q (m', COUCHSTORE_SUCCESS) (st', c2)) ->
  wp (kv_node (F := F) rq (items_buf (map leaf_item kvs)) acts) Q (st, c).
Proof.
  intros Hst Hok Hs Hacts Has Hf Hw HQ. unfold kv_node.
  apply wp_bind; [intros [??]; solve_sticky|].
  eapply wp_mono; [apply (wp_kv_loop _ kvs st c c2 _ [] acts); [done|apply (rep_make _ _ st 0)|done..]|].
  intros [a2 m1] [st1 c1] (a1 & o & -> & Hst1 & Hext1 & Ho & Hrep1 & Hk1 & Hb1 & Hf1). cbn [fst snd app] in *.
  apply wp_bind; [intros; solve_sticky|].
  apply list.Forall_app in Hacts as [_ Hacts2]. pose proof (proj2 (acts_sorted_app _ _ Has)) as Has2.
  pose proof Ho as (_ & _ & Hwo & _). rewrite aweight_app in Hw.
  eapply wp_kv_rest; [done|exact Hrep1|done|done|exact Hf1|lia|].
  intros st2 m2 o2 Hst2 Hext2 Ho2 Hrep2 Hk2. apply wp_ret.
  apply HQ with (o ++ o2); [done|by transitivity st1| |done|].
  - rewrite <- (app_nil_r kvs). by apply outcome_app.
  - rewrite <- (app_nil_r kvs). by eapply kept_app.
Qed.

(** ** Interior nodes *)

Lemma action_range_spec k acts :
  vkey k -> Forall act_ok acts -> acts_sorted acts ->
  exists now later, action_range rq k acts = Some (now, later) /\ acts = now ++ later /\
    (forall a, a ∈ now -> act_key a = k \/ klt (act_key a) k) /\ before [k] (map act_key later) /\
    (forall a acts', acts = a :: acts' -> ~ klt k (act_key a) -> now <> []).
Proof.
  intros Hk. induction acts as [|a acts IH]; intros Hok Hs.
  { exists [], []. split_and!; [done|done|by intros ? ?%not_elem_of_nil|by intros ? ? ? ?%not_elem_of_nil|done]. }
  inversion_clear Hok as [|? ? Ha Hok']. pose proof (proj1 (StronglySorted_inv Hs)) as Hs'.
  destruct (IH Hok' Hs') as (now & later & E & -> & Hn & Hl & _). cbn [action_range].
  assert (Hin : act_key a = k \/ klt (act_key a) k ->
    exists now0 later0, Some (a :: now, later) = Some (now0, later0) /\ a :: now ++ later = now0 ++ later0 /\
    (forall b, b ∈ now0 -> act_key b = k \/ klt (act_key b) k) /\ before [k] (map act_key later0) /\
    (forall b acts', a :: now ++ later = b :: acts' -> ~ klt k (act_key b) -> now0 <> [])).
  { intros Hle. exists (a :: now), later. split_and!; [done|done| |done|done].
    intros b [->|Hb]%elem_of_cons; [done|by apply Hn]. }
  destruct (Util.compare_spec (act_key a) k (proj1 Ha) Hk) as [(cv & -> & Hc & Hlt)|[(cv & -> & -> & Heq)|(cv & -> & Hc & Hlt)]];
    cbn [mbind option_bind].
  - rewrite decide_True, E by lia. cbn. auto.
  - rewrite decide_True, E by lia. cbn. auto.
  - rewrite decide_False by lia. exists [], (a :: now ++ later).
    split_and!; [done|done|by intros ? ?%not_elem_of_nil|by apply acts_above|].
    intros b acts' [= <- _] Hnot. done.
Qed.

(** What a recursive call at height [h] does. *)
Definition rec_ok (h : nat) (rec : node_pointer -> list (modify_action A) -> modify_result ->
    M (F * C) (modify_result * couchstore_error_t)) : Prop :=
  forall st c c2 ch acts m lk Q,
    ns_ok st -> child_at st h ch -> ksorted (ch_kvs ch) -> acts <> [] -> Forall act_ok acts ->
    acts_sorted acts -> fetch_all cb (ch_kvs ch) acts c = Some c2 -> rep st (S h) m lk ->
    weight lk + weight (ch_kvs ch) + aweight acts + 1 < max_node ->
    (forall st' m' o, ns_ok st' -> ns_ext st st' -> outcome (ch_kvs ch) acts o -> rep st' (S h) m' (lk ++ o) ->
      kept (mr_modified m) (mr_modified m') (ch_kvs ch) o -> Q (m', COUCHSTORE_SUCCESS) (st', c2)) ->
    wp (rec (ch_ptr ch) acts m) Q (st, c).

(** What the loops over the children [cs] have done: the outcome [o] for some of
    them, the children [cs2] being left as they are. *)
Definition kp_post (h : nat) (st : F) (m : modify_result) (lk : list kv) (cs : list child)
    (acts : list (modify_action A)) (c2 : C)
    (r : bytes * modify_result * couchstore_error_t) (s : F * C) : Prop :=
  exists cs2 o, r.1.1 = items_buf (map ch_item cs2) /\ r.2 = COUCHSTORE_SUCCESS /\
    Forall (child_at s.1 h) cs2 /\ ns_ok s.1 /\ ns_ext st s.1 /\
    outcome (ch_all cs) acts (o ++ ch_all cs2) /\ rep s.1 (S h) r.1.2 (lk ++ o) /\
    kept (mr_modified m) (mr_modified r.1.2) (ch_all cs) (o ++ ch_all cs2) /\ s.2 = c2.

(** One child done, the rest to do. *)
Lemma kp_post_cons h st st1 m m1 lk c cs now later acts o1 c2 r s :
  outcome (ch_kvs c) now o1 -> before (keys_of (ch_kvs c) now) (keys_of (ch_all cs) later) ->
  ns_ext st st1 -> kept (mr_modified m) (mr_modified m1) (ch_kvs c) o1 -> acts = now ++ later ->
  kp_post h st1 m1 (lk ++ o1) cs later c2 r s -> kp_post h st m lk (c :: cs) acts c2 r s.
Proof.
  intros Ho1 Hb He Hk -> (cs2 & o & ? & ? & ? & ? & ? & Ho & Hrep & Hk2 & ?).
  assert (ch_all (c :: cs) = ch_kvs c ++ ch_all cs) as E by done.
  exists cs2, (o1 ++ o). rewrite E, <- (app_assoc o1).
  split_and!; [done..|by transitivity st1|by apply outcome_app|by rewrite app_assoc|by eapply kept_app|done].
Qed.

Lemma wp_push_child st c h m lk ch Q :
  ns_ok st -> child_at st h ch -> rep st (S h) m lk -> weight (lk ++ ch_kvs ch) + 1 < max_node ->
  (forall st' m', ns_ok st' -> ns_ext st st' -> rep st' (S h) m' (lk ++ ch_kvs ch) ->
    mr_modified m' = mr_modified m -> Q (m', COUCHSTORE_SUCCESS) (st', c)) ->
  wp (mr_push_pointerinfo (F := F) rq (ch_ptr ch) m) Q (st, c).
Proof.
  intros ? Hch ? ? ?. eapply (wp_push rq kvok rval); [done|done| |done|done]. by apply (ptrs_at_one kvok rval _ h ch).
Qed.

(** The second loop. *)
Lemma wp_kp_rest fuel cs h st c m lk Q :
  ns_ok st -> Forall (child_at st h) cs -> rep st (S h) m lk ->
  weight lk + weight (ch_all cs) + 1 < max_node -> (length (items_buf (map ch_item cs)) <= fuel)%nat ->
  (forall st' m', ns_ok st' -> ns_ext st st' -> rep st' (S h) m' (lk ++ ch_all cs) ->
    mr_modified m' = mr_modified m -> Q (m', COUCHSTORE_SUCCESS) (st', c)) ->
  wp (kp_rest (F := F) rq fuel (items_buf (map ch_item cs)) m) Q (st, c).
Proof.
  revert fuel st m lk. induction cs as [|ch cs IH]; intros fuel st m lk Hst Hcs Hrep Hw Hfuel HQ.
  { destruct fuel; (apply wp_ret, HQ; [done|reflexivity|by rewrite app_nil_r|done]). }
  inversion_clear Hcs as [|? ? Hch Hcs']. cbn [map] in *.
  destruct (read_kv_items (ch_item ch) (map ch_item cs)) as (Er & Ed & Ev & Hlt); [by eapply (child_fits kvok rval kvok_key rl_fits rl_size)|].
  change (ch_all (ch :: cs)) with (ch_kvs ch ++ ch_all cs) in *. rewrite weight_app in Hw.
  pose proof (weight_nonneg (ch_all cs)).
  destruct (items_buf (ch_item ch :: map ch_item cs)) as [|b0 buf0] eqn:Eb; [cbn in Hlt; lia|].
  destruct fuel as [|fuel]; [cbn in Hfuel; lia|]. cbn [kp_rest]. rewrite Er.
  apply wp_bind; [intros [[??]?]; solve_sticky|]. apply wp_ret. rewrite Ed, Ev.
  apply wp_bind; [intros; solve_sticky|]. rewrite (read_pointer_child kvok rval rl_size st h) by done. apply wp_ret.
  apply wp_bind; [intros [??]; solve_sticky|].
  eapply wp_push_child; [done|by apply norm_child_at|done|cbn [norm_child ch_kvs]; rewrite weight_app; lia|].
  intros st1 m1 Hst1 Hext1 Hrep1 Hmod1. rewrite decide_True by done.
  eapply IH; [done| |exact Hrep1|cbn [norm_child ch_kvs]; rewrite weight_app; lia|lia|].
  { eapply List.Forall_impl; [|exact Hcs']. intros. by eapply child_at_ext. }
  intros st2 m2 Hst2 Hext2 Hrep2 Hmod2. cbn [norm_child ch_kvs] in Hrep2. rewrite <- app_assoc in Hrep2.
  apply HQ; [done|by transitivity st1|done|congruence].
Qed.

(** The first loop, at a child with another one after it. *)
Lemma wp_kp_child rec h st c c2 m lk ch cs a acts buf' (k : list (modify_action A) -> modify_result ->
    M (F * C) (bytes * modify_result * couchstore_error_t)) :
  rec_ok h rec -> (forall p acts m, sticky (rec p acts m)) -> (forall acts m, sticky (k acts m)) ->
  ns_ok st -> Forall (child_at st h) (ch :: cs) -> ksorted (ch_all (ch :: cs)) ->
  Forall act_ok (a :: acts) -> acts_sorted (a :: acts) ->
  fetch_all cb (ch_all (ch :: cs)) (a :: acts) c = Some c2 -> rep st (S h) m lk ->
  weight lk + weight (ch_all (ch :: cs)) + aweight (a :: acts) + 1 < max_node ->
  ~ klt (np_key (ch_ptr ch)) (act_key a) ->
  (forall st1 c1 m1 lk1 later, ns_ok st1 -> Forall (child_at st1 h) cs -> Forall act_ok later ->
    acts_sorted later -> fetch_all cb (ch_all cs) later c1 = Some c2 -> rep st1 (S h) m1 lk1 ->
    weight lk1 + weight (ch_all cs) + aweight later + 1 < max_node ->
    wp (k later m1) (kp_post h st1 m1 lk1 cs later c2) (st1, c1)) ->
  wp (let* (now, later) := need (action_range rq (np_key (ch_ptr ch)) (a :: acts)) in
      let* desc := need (Some (ch_ptr (norm_child ch))) in
      let* (r, e) := rec desc now m in
      if decide (e = COUCHSTORE_SUCCESS) then k later r else ret (buf', r, e))
     (kp_post h st m lk (ch :: cs) (a :: acts) c2) (st, c).
Proof.
  intros Hrec Hrs Hks Hst Hcs Hs Hok Has Hf Hrep Hw Hle Hk.
  inversion_clear Hcs as [|? ? Hch Hcs']. destruct (child_key kvok rval kvok_key rl_fits st h ch Hch) as [Hvk _].
  destruct (child_before kvok rval _ _ _ _ Hch Hs) as (Hs1 & Hs2 & Hb).
  destruct (action_range_spec _ (a :: acts) Hvk Hok Has) as (now & later & -> & E & Hnow & Hlater & Hne).
  specialize (Hne a acts eq_refl Hle). rewrite E in *.
  apply list.Forall_app in Hok as [Hok1 Hok2]. apply acts_sorted_app in Has as [Has1 Has2].
  change (ch_all (ch :: cs)) with (ch_kvs ch ++ ch_all cs) in *. rewrite weight_app, aweight_app in Hw.
  assert (before (keys_of (ch_kvs ch) now) (keys_of (ch_all cs) later)) as Hbb.
  { apply (before_le (np_key (ch_ptr ch))); [|by apply before_app_r].
    intros u [Hu|(b & -> & Hb')%list_elem_of_fmap]%elem_of_app; [by eapply child_keys|by apply Hnow]. }
  apply fetch_all_split_inv in Hf as (c1 & Hf1 & Hf2); [|done].
  pose proof (weight_nonneg (ch_all cs)). pose proof (aweight_nonneg later).
  apply wp_bind; [intros [? ?]; solve_sticky|].
  apply wp_ret. apply wp_bind; [intros; solve_sticky|]. apply wp_ret. apply wp_bind; [intros [??]; solve_sticky|].
  eapply (Hrec _ _ _ (norm_child ch)); [done|by apply norm_child_at|done|done|done|done|exact Hf1|done|cbn [norm_child ch_kvs]; lia|].
  intros st1 m1 o1 Hst1 Hext1 Ho1 Hrep1 Hk1. rewrite decide_True by done. cbn [norm_child ch_kvs] in *.
  pose proof Ho1 as (_ & _ & Hwo & _).
  eapply wp_mono; [apply Hk; [done| |done|done|exact Hf2|exact Hrep1|rewrite weight_app; lia]|].
  { eapply List.Forall_impl; [|exact Hcs']. intros. by eapply child_at_ext. }
  intros r s Hpost. by eapply kp_post_cons.
Qed.

(** The first loop, at a child all of whose keys are below the next action's. *)
Lemma wp_kp_skip h st c c2 m lk ch cs a acts buf' (k : modify_result ->
    M (F * C) (bytes * modify_result * couchstore_error_t)) :
  (forall m, sticky (k m)) -> ns_ok st -> Forall (child_at st h) (ch :: cs) -> ksorted (ch_all (ch :: cs)) ->
  acts_sorted (a :: acts) -> fetch_all cb (ch_all (ch :: cs)) (a :: acts) c = Some c2 -> rep st (S h) m lk ->
  weight lk + weight (ch_all (ch :: cs)) + aweight (a :: acts) + 1 < max_node ->
  klt (np_key (ch_ptr ch)) (act_key a) ->
  (forall st1 m1 lk1, ns_ok st1 -> Forall (child_at st1 h) cs ->
    fetch_all cb (ch_all cs) (a :: acts) c = Some c2 -> rep st1 (S h) m1 lk1 ->
    weight lk1 + weight (ch_all cs) + aweight (a :: acts) + 1 < max_node ->
    wp (k m1) (kp_post h st1 m1 lk1 cs (a :: acts) c2) (st1, c)) ->
  wp (let* add := need (Some (ch_ptr (norm_child ch))) in
      let* (r, e) := mr_push_pointerinfo rq add m in
      if decide (e = COUCHSTORE_SUCCESS) then k r else ret (buf', r, e))
     (kp_post h st m lk (ch :: cs) (a :: acts) c2) (st, c).
Proof.
  intros Hks Hst Hcs Hs Has Hf Hrep Hw Hlt Hk. inversion_clear Hcs as [|? ? Hch Hcs'].
  destruct (child_before kvok rval _ _ _ _ Hch Hs) as (Hs1 & Hs2 & Hb).
  assert (before (keys_of (A := A) (ch_kvs ch) []) (keys_of (ch_all cs) (a :: acts))) as Hbb.
  { apply (before_le (np_key (ch_ptr ch))); [unfold keys_of; rewrite app_nil_r; by eapply child_keys|].
    apply before_app_r. split; [done|by apply acts_above]. }
  change (ch_all (ch :: cs)) with (ch_kvs ch ++ ch_all cs) in Hf, Hw.
  rewrite weight_app in Hw. apply (fetch_all_split_inv _ _ []) in Hf as (c1 & [= <-] & Hf2); [|done].
  pose proof (weight_nonneg (ch_all cs)). pose proof (aweight_nonneg (a :: acts)).
  apply wp_bind; [intros; solve_sticky|]. apply wp_ret. apply wp_bind; [intros [??]; solve_sticky|].
  eapply wp_push_child; [done|by apply norm_child_at|done|cbn [norm_child ch_kvs]; rewrite weight_app; lia|].
  intros st1 m1 Hst1 Hext1 Hrep1 Hmod1. rewrite decide_True by done. cbn [norm_child ch_kvs] in Hrep1.
  eapply wp_mono; [apply Hk; [done| |done|exact Hrep1|rewrite weight_app; lia]|].
  { eapply List.Forall_impl; [|exact Hcs']. intros. by eapply child_at_ext. }
  intros r s Hpost. eapply (kp_post_cons _ _ _ _ m1 _ _ _ [] (a :: acts)); [|done|done| |done|exact Hpost].
  - by apply outcome_keep.
  - by rewrite Hmod1.
Qed.

Lemma wp_kp_loop rec fuel cs h st c c2 m lk acts :
  rec_ok h rec -> (forall p acts m, sticky (rec p acts m)) ->
  ns_ok st -> Forall (child_at st h) cs -> ksorted (ch_all cs) -> Forall act_ok acts -> acts_sorted acts ->
  fetch_all cb (ch_all cs) acts c = Some c2 -> rep st (S h) m lk ->
  (cs = [] -> acts = []) ->
  weight lk + weight (ch_all cs) + aweight acts + 1 < max_node ->
  (length (items_buf (map ch_item cs)) <= fuel)%nat ->
  wp (kp_loop (F := F) rq rec fuel (items_buf (map ch_item cs)) acts m) (kp_post h st m lk cs acts c2) (st, c).
Proof.
  intros Hrec Hrs. pose proof (fun fuel buf acts m => sticky_kp_loop rq rec fuel buf acts m Hrs) as Hkl.
  revert cs st c m lk acts. induction fuel as [|fuel IH];
    intros cs st c m lk [|a acts] Hst Hcs Hs Hok Has Hf Hrep Hne Hw Hfuel.
  1, 3: injection Hf as <-;
    assert (kp_post h st m lk cs [] c (items_buf (map ch_item cs), m, COUCHSTORE_SUCCESS) (st, c)) as Hp
      by (exists cs, []; cbn [fst snd app]; split_and!;
          [done..|reflexivity|by apply outcome_keep|by rewrite app_nil_r|apply kept_same|done]);
    destruct (items_buf (map ch_item cs)); by apply wp_ret.
  all: destruct cs as [|ch cs]; [by specialize (Hne eq_refl)|]; clear Hne.
  all: inversion_clear Hcs as [|? ? Hch Hcs']; inversion_clear Hok as [|? ? Ha Hok']; cbn [map] in *.
  all: destruct (read_kv_items (ch_item ch) (map ch_item cs)) as (Er & Ed & Ev & Hlt); [by eapply (child_fits kvok rval kvok_key rl_fits rl_size)|].
  { lia. }
  destruct (items_buf (ch_item ch :: map ch_item cs)) as [|b0 buf0] eqn:Eb; [cbn in Hlt; lia|].
  cbn [kp_loop]. rewrite Er. apply wp_bind; [intros [[??]?]; solve_sticky|]. apply wp_ret. rewrite Ed, Ev.
  rewrite (read_pointer_child kvok rval rl_size st h) by done.
  destruct (child_key kvok rval kvok_key rl_fits st h ch Hch) as [Hvk _]. destruct (child_before kvok rval _ _ _ _ Hch Hs) as (Hs1 & Hs2 & Hb).
  change (nl_key (ch_item ch)) with (np_key (ch_ptr ch)).
  pose proof (Util.compare_spec _ _ Hvk (proj1 Ha)) as Hcmp.
  apply wp_bind; [intros; solve_sticky|].
  assert (exists cv, rq_compare rq (np_key (ch_ptr ch)) (act_key a) = Some cv) as [cv Ecv] by naive_solver.
  rewrite Ecv in *. apply wp_ret.
  destruct cs as [|ch2 cs].
  { (* the last child *)
    cbn [map]. change (ch_all [ch]) with (ch_kvs ch ++ []) in *. rewrite app_nil_r in *.
    change (items_buf []) with (@nil Byte.byte). cbv iota.
    apply wp_bind; [intros; solve_sticky|]. apply wp_ret. apply wp_bind; [intros [??]; solve_sticky|].
    eapply (Hrec _ _ _ (norm_child ch)); [done|by apply norm_child_at|done|done|by constructor|done|exact Hf|done|done|].
    intros st1 m1 o Hst1 Hext1 Ho Hrep1 Hk1. apply wp_ret. exists [], o. cbn [fst snd].
    change (ch_all [ch]) with (ch_kvs ch ++ []). change (ch_all []) with (@nil kv). rewrite !app_nil_r.
    split_and!; done. }
  assert (exists x y, items_buf (map ch_item (ch2 :: cs)) = x :: y) as (b1 & buf1 & Eb1).
  { inversion Hcs' as [|? ? Hch2 _]; subst.
    destruct (read_kv_items (ch_item ch2) (map ch_item cs)) as (_ & _ & _ & Hlt2); [by eapply (child_fits kvok rval kvok_key rl_fits rl_size)|].
    cbn [map]. destruct (items_buf (ch_item ch2 :: map ch_item cs)); [cbn in Hlt2; lia|eauto]. }
  rewrite Eb1 in *. case_decide as Hneg.
  - (* skip this child *)
    apply (wp_kp_skip h st c c2 m lk ch (ch2 :: cs) a acts (b1 :: buf1)
             (fun r => kp_loop (F := F) rq rec fuel (b1 :: buf1) (a :: acts) r));
      [done|done|by constructor|done|done|done|done|done| |].
    + destruct Hcmp as [(? & [= <-] & ? & ?)|[(? & [= <-] & ? & ?)|(? & [= <-] & ? & ?)]]; [done|lia|lia].
    + intros. rewrite <- Eb1. apply IH; [done|done|done|by constructor|done..|rewrite Eb1; lia].
  - (* descend *)
    apply (wp_kp_child rec h st c c2 m lk ch (ch2 :: cs) a acts (b1 :: buf1)
             (fun later r => kp_loop (F := F) rq rec fuel (b1 :: buf1) later r));
      [done|done|done|done|by constructor|done|by constructor|done|done|done|done| |].
    + intros Hlt'. destruct Hcmp as [(? & [= <-] & ? & ?)|[(? & [= <-] & ? & Heq)|(? & [= <-] & ? & Hgt)]]; [done| |].
      * rewrite Heq in Hlt'. by apply klt_irrefl in Hlt'.
      * by apply klt_asym in Hgt.
    + intros. rewrite <- Eb1. apply IH; [done..|rewrite Eb1; lia].
Qed.

Lemma wp_kp_node rec cs h st c c2 acts Q :
  rec_ok h rec -> (forall p acts m, sticky (rec p acts m)) ->
  ns_ok st -> Forall (child_at st h) cs -> cs <> [] -> ksorted (ch_all cs) -> Forall act_ok acts ->
  acts_sorted acts -> fetch_all cb (ch_all cs) acts c = Some c2 ->
  weight (ch_all cs) + aweight acts + 1 < max_node ->
  (forall st' m' o, ns_ok st' -> ns_ext st st' -> outcome (ch_all cs) acts o -> rep st' (S h) m' o ->
    kept false (mr_modified m') (ch_all cs) o -> Q (m', COUCHSTORE_SUCCESS) (st', c2)) ->
  wp (kp_node (F := F) rq rec (items_buf (map ch_item cs)) acts) Q (st, c).
Proof.
  intros Hrec Hrs Hst Hcs Hne Hs Hok Has Hf Hw HQ. unfold kp_node.
  apply wp_bind; [intros [[??]?]; solve_sticky|].
  eapply wp_mono; [apply (wp_kp_loop rec _ cs h st c c2 _ [] acts);
    [done..|apply (rep_make _ _ st (S h))|done|done|done]|].
  intros [[buf m] e] [st1 c1] (cs2 & o & E & Ee & Hcs2 & Hst1 & Hext1 & Ho & Hrep1 & Hk & Ec).
  cbn [fst snd app] in *. subst buf e c1. rewrite decide_True by done.
  pose proof Ho as (_ & _ & Hwo & _). rewrite weight_app in Hwo.
  eapply wp_kp_rest; [done|exact Hcs2|exact Hrep1|lia|done|].
  intros st2 m2 Hst2 Hext2 Hrep2 Hmod2. eapply HQ; [done|by transitivity st1|done|done|by rewrite Hmod2].
Qed.

(** ** Nodes *)

(** The subtree a call of modify_node starts from. *)
Definition node_tree (st : F) (h : nat) (nptr : option node_pointer) (kvs : list kv) : Prop :=
  match nptr with
  | None => kvs = [] /\ h = O
  | Some p => exists sz, node_at kvok rval st h (np_pointer p) kvs sz
  end.

(** The end of modify_node: what it gives back to [dst]. *)
Definition give_back (nptr : option node_pointer) (m dst : modify_result)
    : M (F * C) (modify_result * couchstore_error_t) :=
  let* (local_result, e) := flush_mr rq m in
  if decide (e <> COUCHSTORE_SUCCESS) then ret (dst, e)
  else match mr_modified local_result, nptr with
       | false, Some p =>
           let* (dst, _) := mr_push_pointerinfo rq p dst in ret (dst, COUCHSTORE_SUCCESS)
       | _, _ => mr_move_pointers rq (mr_pointers local_result) (set_modified dst)
       end.

Lemma sticky_give_back nptr m dst : sticky (give_back nptr m dst).
Proof. unfold give_back. solve_sticky. Qed.
#[local] Hint Resolve sticky_give_back : sticky.

(** A modified result goes up as the pointers of its nodes. *)
Lemma wp_give_back_modified st c h m o nptr dst lk Q :
  ns_ok st -> rep st h m o -> mr_modified m = true -> rep st (S h) dst lk -> weight (lk ++ o) + 1 < max_node ->
  (forall st' dst', ns_ok st' -> ns_ext st st' -> rep st' (S h) dst' (lk ++ o) -> mr_modified dst' = true ->
    Q (dst', COUCHSTORE_SUCCESS) (st', c)) ->
  wp (give_back nptr m dst) Q (st, c).
Proof.
  intros Hst Hrep Em Hdst Hw HQ. unfold give_back. apply wp_bind; [intros [??]; solve_sticky|].
  pose proof (weight_nonneg lk) as Hlk. pose proof Hw as Hw'. rewrite weight_app in Hw'.
  eapply (wp_flush_mr rq kvok rval); [done|exact Hrep|lia|done|]. intros st1 m1 Hst1 Hext1 Hrep1 Hmod1 Hv1 _.
  rewrite decide_False by auto. rewrite Hmod1.
  destruct Hrep1 as (_ & _ & _ & pk & vk & -> & Hps & Hvs). rewrite Hv1 in Hvs.
  apply values_at_nil in Hvs as ->. rewrite app_nil_r in *.
  eapply (wp_mr_move_pointers rq kvok rval st1 c h); [done| |exact Hps|done|].
  { apply rep_set_modified. by eapply rep_ext. }
  intros st2 m2 Hst2 Hext2 Hrep2 Hmod2 _. apply HQ; [done|by transitivity st1|done|done].
Qed.

(** An empty tree goes up as no pointers. *)
Lemma wp_give_back_empty st c m dst lk Q :
  ns_ok st -> rep st 0 m [] -> mr_modified m = false -> rep st 1 dst lk ->
  (rep st 1 (set_modified dst) lk -> Q (set_modified dst, COUCHSTORE_SUCCESS) (st, c)) ->
  wp (give_back None m dst) Q (st, c).
Proof.
  intros Hst Hrep Em Hdst HQ. unfold give_back, bind, wp. rewrite flush_mr_unmodified by done.
  rewrite decide_False by auto. rewrite Em. destruct Hrep as (_ & _ & _ & pk & vk & E & Hps & _).
  symmetry in E. apply app_eq_nil in E as [-> ->]. apply ptrs_at_length in Hps.
  destruct (mr_pointers m); [|cbn in Hps; lia]. intros _. by apply HQ.
Qed.

Lemma wp_give_back st c h m o kvs ch dst lk Q :
  ns_ok st -> rep st h m o -> child_at st h ch -> ch_kvs ch = kvs -> kept false (mr_modified m) kvs o ->
  rep st (S h) dst lk -> weight (lk ++ o) + 1 < max_node ->
  (forall st' dst', ns_ok st' -> ns_ext st st' -> rep st' (S h) dst' (lk ++ o) ->
    kept (mr_modified dst) (mr_modified dst') kvs o -> Q (dst', COUCHSTORE_SUCCESS) (st', c)) ->
  wp (give_back (Some (ch_ptr ch)) m dst) Q (st, c).
Proof.
  intros Hst Hrep Hch Ekvs Hk Hdst Hw HQ. destruct (mr_modified m) eqn:Em.
  { eapply wp_give_back_modified; [done|exact Hrep|done|done|done|]. intros st' dst' ? ? ? E.
    apply HQ; [done..|]. rewrite E. apply kept_set. }
  destruct (Hk eq_refl) as [_ ->]. unfold give_back, bind at 1, wp. rewrite flush_mr_unmodified by done.
  rewrite decide_False by auto. rewrite Em. apply wp_bind; [intros [??]; solve_sticky|]. subst kvs.
  eapply (wp_push_child _ _ _ _ _ _ _ Hst Hch); [done|done|]. intros st1 m1 Hst1 Hext1 Hrep1 Hmod1.
  apply wp_ret. apply HQ; [done|done|done|]. by rewrite Hmod1.
Qed.

(** The body of modify_node around the processing [m] of the node itself. *)
Lemma wp_node_body st c c2 h nptr kvs (acts : list (modify_action A)) dst Q
    (m : M (F * C) (modify_result * couchstore_error_t)) :
  (forall Q', (forall st' m' o, ns_ok st' -> ns_ext st st' -> outcome kvs acts o -> rep st' h m' o ->
      kept false (mr_modified m') kvs o -> Q' (m', COUCHSTORE_SUCCESS) (st', c2)) -> wp m Q' (st, c)) ->
  (forall st' m' o, ns_ok st' -> ns_ext st st' -> outcome kvs acts o -> rep st' h m' o ->
    kept false (mr_modified m') kvs o -> wp (give_back nptr m' dst) Q (st', c2)) ->
  wp (let* (local_result, e) := m in
      if decide (e <> COUCHSTORE_SUCCESS) then ret (dst, e) else give_back nptr local_result dst) Q (st, c).
Proof.
  intros Hm HQ. apply wp_bind; [intros [??]; solve_sticky|]. apply Hm.
  intros st1 m1 o Hst1 Hext1 Ho Hrep1 Hk1. rewrite decide_False by auto. by eapply HQ.
Qed.

(** modify_node computes the outcome of the actions on its subtree and gives it
    back. *)
Lemma wp_modify_node h fuel st c c2 nptr kvs acts dst Q :
  (h < fuel)%nat -> ns_ok st -> node_tree st h nptr kvs -> ksorted kvs -> acts <> [] -> Forall act_ok acts ->
  acts_sorted acts -> fetch_all cb kvs acts c = Some c2 ->
  weight kvs + aweight acts + 1 < max_node ->
  (forall st' m' o, ns_ok st' -> ns_ext st st' -> outcome kvs acts o -> rep st' h m' o ->
    kept false (mr_modified m') kvs o -> wp (give_back nptr m' dst) Q (st', c2)) ->
  wp (modify_node (F := F) rq fuel nptr acts dst) Q (st, c).
Proof.
  revert fuel st c c2 nptr kvs acts dst Q.
  induction h as [|h IH]; intros [|fuel] st c c2 nptr kvs [|a acts] dst Q Hfuel Hst Htree Hs Hne Hok Has Hf Hw HQ;
    try lia; try done; cbn [modify_node].
  all: apply wp_bind; [intros [?|?]; solve_sticky; apply sticky_kp_node; auto with sticky|].
  all: destruct nptr as [p|]; cbn in Htree; [destruct Htree as [sz Hn]|destruct Htree as [-> Eh]; try done].
  - destruct Hn as (_ & Hkvs & Hstored).
    apply wp_on_file. eapply wp_read_node; [done|exact Hstored|]. intros st1 Hst1 Hext1. cbn [snd].
    change (node_buf KV_NODE (map leaf_item kvs)) with (Byte.x01 :: items_buf (map leaf_item kvs)). cbv iota.
    rewrite decide_True by done.
    eapply (wp_node_body st1 c c2 0 (Some p) kvs (a :: acts) dst).
    { intros Q' HQ'. eapply wp_kv_node; [done..|exact Hf|lia|done]. }
    intros st2 m2 o Hst2 Hext2. apply HQ; [done|by transitivity st1].
  - apply wp_ret. eapply (wp_node_body st c c2 0 None [] (a :: acts) dst); [|done].
    intros Q' HQ'. apply (wp_kv_node [] st c c2); [done|constructor|done|done|done|done|lia|done].
  - destruct Hn as (cs & dsz & Hcne & Hcs & -> & _ & Hstored).
    apply wp_on_file. eapply wp_read_node; [done|exact Hstored|]. intros st1 Hst1 Hext1. cbn [snd].
    change (node_buf KP_NODE (map ch_item cs)) with (Byte.x00 :: items_buf (map ch_item cs)). cbv iota.
    rewrite decide_False, decide_True by done.
    eapply (wp_node_body st1 c c2 (S h) (Some p) (ch_all cs) (a :: acts) dst).
    2:{ intros st2 m2 o Hst2 Hext2. apply HQ; [done|by transitivity st1]. }
    intros Q' HQ'. eapply (wp_kp_node _ cs h st1); [|auto with sticky|done| |done|done|done|done|exact Hf|lia|done].
    + intros st2 c3 c4 ch acts2 m lk2 Q2 Hst2 Hch2 Hs2 Hne2 Hok2 Has2 Hf2 Hrep2 Hw2 HQ2.
      pose proof (weight_nonneg lk2).
      eapply (IH fuel st2 c3 c4 (Some (ch_ptr ch))); [lia|done|exists (ch_size ch); apply Hch2|exact Hs2|done|done|done|exact Hf2|lia|].
      intros st3 m3 o Hst3 Hext3 Ho Hrep3 Hk3. pose proof Ho as (_ & _ & Hwo & _).
      eapply (wp_give_back st3 c4 h m3 o (ch_kvs ch)); [done|done|by eapply child_at_ext|done|done|by eapply rep_ext|
        rewrite weight_app; lia|].
      intros st4 dst4 Hst4 Hext4 Hrep4 Hk4. eapply HQ2; [done|by transitivity st3|done|done|done].
    + eapply List.Forall_impl; [|exact Hcs]. intros c0 Hc0. by apply (child_at_ext kvok rval st st1 h c0).
Qed.

(** ** modify_btree *)

(** At the root an unmodified tree goes up as the root pointer itself. *)
Lemma wp_give_back_root st c h m o kvs root Q :
  ns_ok st -> rep st h m o -> kept false (mr_modified m) kvs o -> (root = None -> h = O /\ kvs = []) ->
  weight o + 1 < max_node ->
  (forall st' dst', ns_ok st' -> ns_ext st st' ->
    (mr_modified dst' = true /\ rep st' (S h) dst' o) \/ (mr_modified dst' = false /\ o = kvs) ->
    Q (dst', COUCHSTORE_SUCCESS) (st', c)) ->
  wp (give_back root m (make_modres KP_NODE)) Q (st, c).
Proof.
  intros Hst Hrep Hk Hroot Hw HQ. pose proof (rep_make kvok rval st (S h)) as Hdst.
  destruct (mr_modified m) eqn:Em.
  { eapply (wp_give_back_modified st c h m o root _ []); [done|exact Hrep|done|done|done|]. intros. apply HQ; auto. }
  destruct (Hk eq_refl) as [_ ->]. destruct root as [p|].
  - unfold give_back, bind at 1, wp. rewrite flush_mr_unmodified by done.
    rewrite decide_False by auto. rewrite Em. unfold mr_push_pointerinfo, bind at 1. rewrite maybe_flush_unmodified by done.
    intros _. apply HQ; [done|reflexivity|by right].
  - destruct (Hroot eq_refl) as [-> ->].
    eapply wp_give_back_empty; [done|done|done|done|]. intros Hr. apply HQ; [done|reflexivity|by left].
Qed.

Lemma root_tree st h root kvs : root_at kvok rval st h root kvs -> node_tree st h root kvs.
Proof. destruct root; cbn; [|done]. intros (sz & ? & _). by exists sz. Qed.

(** The whole tree: the new root holds the outcome of the batch. *)
Lemma wp_modify_btree fuel st c c2 h root kvs acts Q :
  ns_ok st -> root_at kvok rval st h root kvs -> ksorted kvs -> Forall act_ok acts -> acts_sorted acts ->
  fetch_all cb kvs acts c = Some c2 -> weight kvs + aweight acts + 1 < max_node ->
  rq_compacting rq = false -> (h + length kvs + length acts < fuel)%nat ->
  (forall st' h' root' o, ns_ok st' -> ns_ext st st' -> outcome kvs acts o -> root_at kvok rval st' h' root' o ->
    Q (root', COUCHSTORE_SUCCESS) (st', c2)) ->
  wp (modify_btree (F := F) rq fuel root acts) Q (st, c).
Proof.
  intros Hst Hroot Hs Hok Has Hf Hw Hcomp Hfuel HQ. unfold modify_btree.
  apply wp_bind; [intros [??]; solve_sticky|].
  destruct acts as [|a acts].
  { injection Hf as <-. destruct fuel; (apply wp_ret; rewrite decide_False by auto; apply wp_ret);
      (eapply HQ; [done|reflexivity|by apply outcome_keep|done]). }
  eapply (wp_modify_node h fuel st c c2 root kvs (a :: acts)); [lia|done|by apply root_tree|done..|exact Hf|done|].
  intros st0 m0 o Hst0 Hext0 Ho Hrep0 Hk0. pose proof Ho as (_ & _ & Hwo & Hlo).
  eapply wp_give_back_root; [done|exact Hrep0|exact Hk0|by intros ->; destruct Hroot|lia|].
  intros st1 m1 Hst1 Hext1 Hcase. rewrite decide_False by auto.
  assert (ns_ext st st1) by (by transitivity st0).
  destruct Hcase as [[Em Hrep1]|[Em ->]]; rewrite Em.
  2:{ apply wp_ret. eapply HQ; [done|done|done|by eapply root_at_ext]. }
  case_decide as Hd.
  - apply wp_bind; [intros [??]; solve_sticky|].
    assert (o <> []) as Hone.
    { intros ->. destruct Hrep1 as (_ & _ & Hc & pk & vk & E & Hp & Hv).
      symmetry in E. apply app_eq_nil in E as [-> ->].
      apply ptrs_at_length in Hp. apply values_at_length in Hv. cbn in Hp, Hv.
      destruct Hd as [?|Hd]; [lia|]. destruct (mr_pointers m1); [done|cbn in Hp; lia]. }
    eapply (wp_finish_root rq kvok rval); [done|exact Hrep1|done|done|lia|by left|cbn in *; lia|].
    intros st2 h2 p Hst2 Hext2 Hr. rewrite decide_False by auto. apply wp_ret.
    eapply HQ; [done|by transitivity st1|done|done].
  - apply wp_ret. destruct (values_end_root kvok rval _ _ _ _ Hrep1 Hd) as [h2 Hr]. by eapply HQ.
Qed.
End Modify.
