(* ===== verification/Reduces.v ===== *)
(** * Reduces: the reductions kept in the B-tree nodes

    Models src/reduces.c.  The by-sequence reduction counts the items of a
    subtree, the by-id reduction counts live and deleted documents and adds up
    their sizes.  Both are computed modulo the width of their fields, at a leaf
    from its items and at an interior node from the reductions of its children;
    the theorems show that the two agree: the value kept for a subtree depends
    only on the items it holds. *)

From Stdlib Require Import ZArith Lia.
From S2P Require Import Prelude Bitfield NodeTypes NodeStore BTree BTreeInv BTreeFlush.
From stdpp Require Import list numbers.

#[local] Open Scope Z_scope.

(** ** By sequence *)

Definition by_seq_reduce (leaflist : list nodelist) (count : nat) : option bytes :=
  Some (encode_raw40 (Z.of_nat count)).

(** The loop: [None] when an item has no pointer or too short a reduction. *)
Fixpoint by_seq_total (i : list nodelist) (count : nat) (total : Z) : option Z :=
  match i, count with
  | x :: next, S count' =>
      p ← nl_pointer x;
      c ← slice 0 5 (np_reduce_value p);
      by_seq_total next count' (u64 (total + decode_raw40 c))
  | _, _ => Some total
  end.

Definition by_seq_rereduce (ptrlist : list nodelist) (count : nat) : option bytes :=
  total ← by_seq_total ptrlist count 0;
  Some (encode_raw40 total).

(** ** By id *)

Definition encode_by_id_reduce (notdeleted deleted size : Z) : bytes :=
  encode_raw40 notdeleted ++ encode_raw40 deleted ++ encode_raw48 size.

Fixpoint by_id_total (i : list nodelist) (count : nat) (notdeleted deleted size : Z)
    : option (Z * Z * Z) :=
  match i, count with
  | x :: next, S count' =>
      raw ← as_raw_id_index_value (nl_data x);
      let '(deleted, notdeleted) :=
        if decide (Z.land (decode_raw48 (riv_bp raw)) BP_DELETED_FLAG <> 0)
        then (u64 (deleted + 1), notdeleted) else (deleted, u64 (notdeleted + 1)) in
      by_id_total next count' notdeleted deleted (u64 (size + decode_raw32 (riv_size raw)))
  | _, _ => Some (notdeleted, deleted, size)
  end.

Definition by_id_reduce (leaflist : list nodelist) (count : nat) : option bytes :=
  '(notdeleted, deleted, size) ← by_id_total leaflist count 0 0 0;
  Some (encode_by_id_reduce notdeleted deleted size).

Fixpoint by_id_retotal (i : list nodelist) (count : nat) (notdeleted deleted size : Z)
    : option (Z * Z * Z) :=
  match i, count with
  | x :: next, S count' =>
      p ← nl_pointer x;
      n ← slice 0 5 (np_reduce_value p);
      d ← slice 5 5 (np_reduce_value p);
      s ← slice 10 6 (np_reduce_value p);
      by_id_retotal next count' (u64 (notdeleted + decode_raw40 n)) (u64 (deleted + decode_raw40 d))
        (u64 (size + decode_raw48 s))
  | _, _ => Some (notdeleted, deleted, size)
  end.

Definition by_id_rereduce (ptrlist : list nodelist) (count : nat) : option bytes :=
  '(notdeleted, deleted, size) ← by_id_retotal ptrlist count 0 0 0;
  Some (encode_by_id_reduce notdeleted deleted size).

(** ** What they compute *)

(** A document's id entry is deleted; the size it records. *)
Definition id_deleted (v : bytes) : bool :=
  match as_raw_id_index_value v with
  | Some raw => negb (Z.land (decode_raw48 (riv_bp raw)) BP_DELETED_FLAG =? 0)
  | None => false
  end.
Definition id_size (v : bytes) : Z :=
  match as_raw_id_index_value v with Some raw => decode_raw32 (riv_size raw) | None => 0 end.

Definition live_count (kvs : list kv) : Z := sumZ (fun x => if id_deleted x.2 then 0 else 1) kvs.
Definition deleted_count (kvs : list kv) : Z := sumZ (fun x => if id_deleted x.2 then 1 else 0) kvs.
Definition total_size (kvs : list kv) : Z := sumZ (fun x => id_size x.2) kvs.

Definition by_seq_rval (kvs : list kv) : bytes := encode_raw40 (Z.of_nat (length kvs)).
Definition by_id_rval (kvs : list kv) : bytes :=
  encode_by_id_reduce (live_count kvs) (deleted_count kvs) (total_size kvs).

(** The codecs are used through their lemmas from here on. *)
#[local] Opaque decode_raw40 encode_raw40 decode_raw48 encode_raw48 decode_raw32.

(** ** Arithmetic modulo the field widths *)

Lemma u64_mod n a : 0 <= n <= 64 -> u64 a mod 2 ^ n = a mod 2 ^ n.
Proof.
  intros Hn. unfold u64. apply Z.mod_mod_divide. exists (2 ^ (64 - n)).
  rewrite <- Z.pow_add_r by lia. f_equal. lia.
Qed.

Lemma u64_add_mod n a b c :
  0 <= n <= 64 -> b mod 2 ^ n = c mod 2 ^ n -> u64 (a + b) mod 2 ^ n = (a + c) mod 2 ^ n.
Proof. intros Hn E. rewrite u64_mod by done. by rewrite <- Zplus_mod_idemp_r, E, Zplus_mod_idemp_r. Qed.

Lemma add_mod_l n a b c : a mod n = b mod n -> (a + c) mod n = (b + c) mod n.
Proof. intros E. by rewrite <- Zplus_mod_idemp_l, E, Zplus_mod_idemp_l. Qed.

Lemma encode_raw40_mod a b : a mod 2 ^ 40 = b mod 2 ^ 40 -> encode_raw40 a = encode_raw40 b.
Proof.
  intros E. rewrite !encode_raw40_be, <- (be_bytes_mod 5 a), <- (be_bytes_mod 5 b).
  by change (256 ^ Z.of_nat 5) with (2 ^ 40); rewrite E.
Qed.

Lemma encode_raw48_mod a b : a mod 2 ^ 48 = b mod 2 ^ 48 -> encode_raw48 a = encode_raw48 b.
Proof.
  intros E. rewrite !encode_raw48_be, <- (be_bytes_mod 6 a), <- (be_bytes_mod 6 b).
  by change (256 ^ Z.of_nat 6) with (2 ^ 48); rewrite E.
Qed.

Lemma encode_by_id_reduce_mod n d s n' d' s' :
  n mod 2 ^ 40 = n' mod 2 ^ 40 -> d mod 2 ^ 40 = d' mod 2 ^ 40 -> s mod 2 ^ 48 = s' mod 2 ^ 48 ->
  encode_by_id_reduce n d s = encode_by_id_reduce n' d' s'.
Proof.
  intros Hn Hd Hs. unfold encode_by_id_reduce.
  by rewrite (encode_raw40_mod _ _ Hn), (encode_raw40_mod _ _ Hd), (encode_raw48_mod _ _ Hs).
Qed.

(** ** By sequence: the value of a subtree is the number of its items *)

Lemma by_seq_total_spec cs rest total :
  Forall (fun c => np_reduce_value (ch_ptr c) = by_seq_rval (ch_kvs c)) cs ->
  exists t, by_seq_total (map ch_item cs ++ rest) (length cs) total = Some t /\
    t mod 2 ^ 40 = (total + Z.of_nat (length (ch_all cs))) mod 2 ^ 40.
Proof.
  intros Hcs. revert total. induction Hcs as [|c cs Hc _ IH]; intros total.
  { exists total. cbn. rewrite Z.add_0_r. by destruct rest. }
  cbn [map app length by_seq_total]. change (nl_pointer (ch_item c)) with (Some (ch_ptr c)).
  cbn [mbind option_bind]. rewrite Hc. unfold by_seq_rval.
  rewrite <- (app_nil_r (encode_raw40 _)), slice_app_head by apply encode_raw40_length.
  cbn [mbind option_bind]. rewrite decode_encode_raw40.
  set (n := Z.of_nat (length (ch_kvs c))). destruct (IH (u64 (total + n mod 2 ^ 40))) as (t & -> & Ht).
  exists t. split; [done|]. rewrite Ht. change (ch_all (c :: cs)) with (ch_kvs c ++ ch_all cs).
  rewrite length_app, Nat2Z.inj_add, Z.add_assoc. apply add_mod_l. fold n.
  apply u64_add_mod; [lia|]. apply Z.mod_mod. lia.
Qed.

(** ** By id: live and deleted documents, and their sizes *)

Definition id_value_ok (v : bytes) : Prop := (sizeof_raw_id_index_value <= length v)%nat.

Lemma id_value_raw v : id_value_ok v -> exists raw, as_raw_id_index_value v = Some raw.
Proof.
  unfold id_value_ok, sizeof_raw_id_index_value, as_raw_id_index_value. intros Hv.
  rewrite !slice_Some by lia. cbn. eauto.
Qed.

Lemma by_id_total_spec kvs rest n d s :
  Forall (fun x => id_value_ok x.2) kvs ->
  exists n' d' s', by_id_total (map leaf_item kvs ++ rest) (length kvs) n d s = Some (n', d', s') /\
    n' mod 2 ^ 40 = (n + live_count kvs) mod 2 ^ 40 /\
    d' mod 2 ^ 40 = (d + deleted_count kvs) mod 2 ^ 40 /\
    s' mod 2 ^ 48 = (s + total_size kvs) mod 2 ^ 48.
Proof.
  intros Hkvs. revert n d s. induction Hkvs as [|x kvs Hx _ IH]; intros n d s.
  { exists n, d, s. unfold live_count, deleted_count, total_size. cbn. rewrite !Z.add_0_r. by destruct rest. }
  destruct (id_value_raw _ Hx) as [raw Hraw]. cbn [map app length by_id_total].
  change (nl_data (leaf_item x)) with x.2. rewrite Hraw. cbn [mbind option_bind].
  change (x :: kvs) with ([x] ++ kvs). unfold live_count, deleted_count, total_size in *.
  rewrite !sumZ_app. cbn [sumZ foldr]. unfold id_deleted at 1 3, id_size at 1. rewrite Hraw.
  destruct (Z.eqb_spec (Z.land (decode_raw48 (riv_bp raw)) BP_DELETED_FLAG) 0) as [Hd|Hd]; cbn [negb];
    [rewrite decide_False by (by intros [])|rewrite decide_True by done].
  - destruct (IH (u64 (n + 1)) d (u64 (s + decode_raw32 (riv_size raw)))) as (n' & d' & s' & -> & En & Ed & Es).
    exists n', d', s'. rewrite En, Ed, Es. split_and!; [done| |by rewrite !Z.add_0_l|];
      rewrite Z.add_0_r, Z.add_assoc; apply add_mod_l, u64_add_mod; lia || done.
  - destruct (IH n (u64 (d + 1)) (u64 (s + decode_raw32 (riv_size raw)))) as (n' & d' & s' & -> & En & Ed & Es).
    exists n', d', s'. rewrite En, Ed, Es. split_and!; [done|by rewrite !Z.add_0_l| |];
      rewrite Z.add_0_r, Z.add_assoc; apply add_mod_l, u64_add_mod; lia || done.
Qed.

Lemma ch_all_sum f c cs : sumZ f (ch_all (c :: cs)) = sumZ f (ch_kvs c) + sumZ f (ch_all cs).
Proof. apply sumZ_app. Qed.

Lemma by_id_reduce_fields n d s :
  slice 0 5 (encode_by_id_reduce n d s) = Some (encode_raw40 n) /\
  slice 5 5 (encode_by_id_reduce n d s) = Some (encode_raw40 d) /\
  slice 10 6 (encode_by_id_reduce n d s) = Some (encode_raw48 s).
Proof.
  unfold encode_by_id_reduce. split_and!.
  - apply slice_app_head, encode_raw40_length.
  - apply slice_mid; by rewrite encode_raw40_length.
  - rewrite app_assoc, <- (app_nil_r (encode_raw48 s)).
    apply slice_mid; by rewrite ?length_app, ?encode_raw40_length, ?encode_raw48_length.
Qed.

Lemma by_id_retotal_spec cs rest n d s :
  Forall (fun c => np_reduce_value (ch_ptr c) = by_id_rval (ch_kvs c)) cs ->
  exists n' d' s', by_id_retotal (map ch_item cs ++ rest) (length cs) n d s = Some (n', d', s') /\
    n' mod 2 ^ 40 = (n + live_count (ch_all cs)) mod 2 ^ 40 /\
    d' mod 2 ^ 40 = (d + deleted_count (ch_all cs)) mod 2 ^ 40 /\
    s' mod 2 ^ 48 = (s + total_size (ch_all cs)) mod 2 ^ 48.
Proof.
  intros Hcs. revert n d s. induction Hcs as [|c cs Hc _ IH]; intros n d s.
  { exists n, d, s. unfold live_count, deleted_count, total_size. cbn. rewrite !Z.add_0_r. by destruct rest. }
  cbn [map app length by_id_retotal]. change (nl_pointer (ch_item c)) with (Some (ch_ptr c)).
  cbn [mbind option_bind]. rewrite Hc. unfold by_id_rval.
  destruct (by_id_reduce_fields (live_count (ch_kvs c)) (deleted_count (ch_kvs c)) (total_size (ch_kvs c)))
    as (-> & -> & ->).
  cbn [mbind option_bind].
  rewrite (decode_encode_raw40 (live_count _)), (decode_encode_raw40 (deleted_count _)),
    (decode_encode_raw48 (total_size _)).
  match goal with |- context [by_id_retotal _ _ ?a ?b ?e] =>
    destruct (IH a b e) as (n' & d' & s' & -> & En & Ed & Es) end.
  exists n', d', s'. rewrite En, Ed, Es. unfold live_count, deleted_count, total_size. rewrite !ch_all_sum.
  split_and!; [done|..]; rewrite Z.add_assoc; apply add_mod_l, u64_add_mod; [lia|by apply Z.mod_mod|lia|by apply Z.mod_mod|lia|by apply Z.mod_mod].
Qed.

(** ** The B-tree's laws *)

(** Keys and values of the sequence index and of the id index. *)
Definition seq_kvok (k v : bytes) : Prop := kv_fits k v /\ length k = 6%nat.
Definition id_kvok (k v : bytes) : Prop := kv_fits k v /\ id_value_ok v.
(** Local documents: no reduction. *)
Definition local_kvok (k v : bytes) : Prop := kv_fits k v.

Lemma by_seq_ReduceLaws {C A} (rq : modify_request C A) :
  rq_reduce rq = Some by_seq_reduce -> rq_rereduce rq = Some by_seq_rereduce ->
  ReduceLaws rq seq_kvok by_seq_rval.
Proof.
  intros E1 E2. split.
  - intros kvs rest _. cbn. rewrite E1. done.
  - intros cs rest Hcs. cbn. rewrite E2. unfold by_seq_rereduce.
    destruct (by_seq_total_spec cs rest 0 Hcs) as (t & -> & Ht).
    rewrite Z.add_0_l in Ht. cbn [mbind option_bind]. unfold by_seq_rval. by rewrite (encode_raw40_mod _ _ Ht).
  - intros kvs. unfold by_seq_rval, blen, REDUCE_BUF_SIZE. rewrite encode_raw40_length. lia.
  - by intros k v [? _].
Qed.

Lemma by_id_ReduceLaws {C A} (rq : modify_request C A) :
  rq_reduce rq = Some by_id_reduce -> rq_rereduce rq = Some by_id_rereduce ->
  ReduceLaws rq id_kvok by_id_rval.
Proof.
  intros E1 E2. split.
  - intros kvs rest Hk. cbn. rewrite E1. unfold by_id_reduce.
    destruct (by_id_total_spec kvs rest 0 0 0) as (n & d & s & -> & Hn & Hd & Hs).
    { eapply List.Forall_impl; [|exact Hk]. by intros x [_ ?]. }
    cbn [mbind option_bind]. rewrite Z.add_0_l in Hn, Hd, Hs. unfold by_id_rval.
    by rewrite (encode_by_id_reduce_mod _ _ _ _ _ _ Hn Hd Hs).
  - intros cs rest Hcs. cbn. rewrite E2. unfold by_id_rereduce.
    destruct (by_id_retotal_spec cs rest 0 0 0 Hcs) as (n & d & s & -> & Hn & Hd & Hs).
    cbn [mbind option_bind]. rewrite Z.add_0_l in Hn, Hd, Hs. unfold by_id_rval.
    by rewrite (encode_by_id_reduce_mod _ _ _ _ _ _ Hn Hd Hs).
  - intros kvs. unfold by_id_rval, encode_by_id_reduce, blen, REDUCE_BUF_SIZE.
    rewrite !length_app, !encode_raw40_length, encode_raw48_length. lia.
  - by intros k v [? _].
Qed.

Lemma no_ReduceLaws {C A} (rq : modify_request C A) :
  rq_reduce rq = None -> rq_rereduce rq = None -> ReduceLaws rq local_kvok (fun _ => []).
Proof.
  intros E1 E2. split; cbn.
  - intros. by rewrite E1.
  - intros. by rewrite E2.
  - intros. unfold REDUCE_BUF_SIZE. done.
  - done.
Qed.
