(* ===== verification/TreeWriter.v ===== *)
(** * TreeWriter: building a tree from unsorted items

    Models src/tree_writer.c, which the compactor and the view indexer use to load a
    B-tree in bulk: items are appended to a file, the file is sorted with merge_sort,
    and the tree is written from left to right.  The callbacks that read, write and
    compare the records of the file implement [RecordIO].  The theorems are that the
    file is sorted and that the tree holds exactly the items that were added. *)

From Stdlib Require Import ZArith Lia.
From stdpp Require Import sorting gmap numbers list.
From S2P Require Import Prelude FileOps Runs LinkedSort Stdio MergeSort MergeSortProofs NodeTypes Util TreeFile NodeStore BTree BTreeInv BTreeFlush TreeSpec.

#[local] Open Scope Z_scope.
#[local] Open Scope couch_scope.
#[local] Existing Instance pure_ctx | 100.

Definition ID_SORT_CHUNK_SIZE : Z := 100 * 1024 * 1024.
Definition ID_SORT_MAX_RECORD_SIZE : Z := 4196.

Record TreeWriter : Type := {
  tw_file : nat;
  tw_key_compare : bytes -> bytes -> option Z;
  tw_reduce : option reduce_fn;
  tw_rereduce : option reduce_fn
}.

(** ** The records of the file *)

(** A buffer for a record: the key and the value, or nothing that can be used.  The
    key and the value follow a header of 32 bytes; the structure takes 40. *)
Definition extsort_record : Type := option (bytes * bytes).
Definition extsort_header : Z := 32.
Definition sizeof_extsort_record : Z := 40.

(** The buffer has ID_SORT_MAX_RECORD_SIZE bytes, which is not checked. *)
Definition read_id_record (f : nat) (buf : extsort_record) : M stdio (Z * extsort_record) :=
  let* (n, kb) := fread f 2 in
  if decide (n <> 1) then ret (0, buf)
  else
    let* (n, vb) := fread f 4 in
    if decide (n <> 1) then ret (0, buf)
    else
      let klen := be_val kb in
      let vlen := be_val vb in
      if decide (ID_SORT_MAX_RECORD_SIZE < extsort_header + klen) then undef
      else
        let* (n, k) := fread f (Z.to_nat klen) in
        if decide (n <> 1) then ret (0, None)
        else if decide (ID_SORT_MAX_RECORD_SIZE < extsort_header + klen + vlen) then undef
        else
          let* (n, v) := fread f (Z.to_nat vlen) in
          if decide (n <> 1) then ret (0, None)
          else ret (sizeof_extsort_record + klen + vlen, Some (k, v)).

Definition write_id_record (f : nat) (rec : extsort_record) : M stdio Z :=
  let* (k, v) := need rec in
  let* n := fwrite f (be_bytes 2 (u16 (blen k))) in
  if decide (n <> 1) then ret 0
  else
    let* n := fwrite f (be_bytes 4 (u32 (blen v))) in
    if decide (n <> 1) then ret 0
    else
      let* n := fwrite f (k ++ v) in
      if decide (n <> 1) then ret 0 else ret 1.

Definition compare_id_record (key_compare : bytes -> bytes -> option Z) (r1 r2 : extsort_record) : option Z :=
  a ← r1; b ← r2; key_compare a.1 b.1.

(** ** The operations *)

(** [fopen] is the call that opens the path, if one was given. *)
Definition TreeWriterOpen (fopen : option (M stdio (option nat))) (key_compare : option (bytes -> bytes -> option Z))
    (reduce rereduce : option reduce_fn) : M stdio (result TreeWriter) :=
  let* file := (match fopen with Some open => open | None => tmpfile end) in
  match file with
  | None => ret (Error COUCHSTORE_ERROR_NO_SUCH_FILE)
  | Some f =>
      (match fopen with Some _ => fseek_end f | None => ret tt end) ;;
      ret (Done {| tw_file := f; tw_key_compare := default ebin_compare key_compare;
                   tw_reduce := reduce; tw_rereduce := rereduce |})
  end.

Definition TreeWriterFree (writer : TreeWriter) : M stdio unit := fclose (tw_file writer).

Definition TreeWriterAddItem (writer : TreeWriter) (key value : bytes) : M stdio couchstore_error_t :=
  let* n := fwrite (tw_file writer) (be_bytes 2 (u16 (blen key))) in
  if decide (n <> 1) then ret COUCHSTORE_ERROR_WRITE
  else
    let* n := fwrite (tw_file writer) (be_bytes 4 (u32 (blen value))) in
    if decide (n <> 1) then ret COUCHSTORE_ERROR_WRITE
    else
      let* n := fwrite (tw_file writer) key in
      if decide (n <> 1) then ret COUCHSTORE_ERROR_WRITE
      else
        let* n := fwrite (tw_file writer) value in
        if decide (n <> 1) then ret COUCHSTORE_ERROR_WRITE else ret COUCHSTORE_SUCCESS.

Definition TreeWriterSort (fuel : nat) (writer : TreeWriter) : M stdio couchstore_error_t :=
  rewind (tw_file writer) ;;
  let* (e, _) := merge_sort read_id_record write_id_record (compare_id_record (tw_key_compare writer)) None
                   fuel (tw_file writer) (tw_file writer) ID_SORT_MAX_RECORD_SIZE ID_SORT_CHUNK_SIZE in
  ret e.

(** The tree file and the streams. *)
Record session (F : Type) : Type := { ss_store : F; ss_stdio : stdio }.
Arguments ss_store {F}.
Arguments ss_stdio {F}.

#[global] Instance session_Faulty {F} `{Faulty F} : Faulty (session F) :=
  fun s => io_failed (ss_store s) || io_failed (ss_stdio s).

Section Write.
Context {F : Type} `{NodeStore F}.

Definition on_stdio {A} (m : M stdio A) : M (session F) A :=
  zoom ss_stdio (fun t s => {| ss_store := ss_store s; ss_stdio := t |}) m.
Definition on_tree {A} (m : M (F * unit) A) : M (session F) A :=
  zoom (fun s => (ss_store s, tt)) (fun t s => {| ss_store := t.1; ss_stdio := ss_stdio s |}) m.

(** The request new_btree_modres builds. *)
Definition writer_request (writer : TreeWriter) : modify_request unit unit :=
  {| rq_compare := tw_key_compare writer; rq_fetch_callback := None;
     rq_reduce := tw_reduce writer; rq_rereduce := tw_rereduce writer; rq_compacting := true |}.

(** Push the items of the file; the error of mr_push_item is not examined. *)
Fixpoint push_items (fuel : nat) (writer : TreeWriter) (target_mr : modify_result)
    : M (session F) (result modify_result) :=
  match fuel with
  | O => nofuel
  | S fuel =>
      let* (n, kb) := on_stdio (fread (tw_file writer) 2) in
      if decide (n <> 1) then ret (Done target_mr)
      else
        let* (n, vb) := on_stdio (fread (tw_file writer) 4) in
        if decide (n <> 1) then ret (Done target_mr)
        else
          let* (n, k) := on_stdio (fread (tw_file writer) (Z.to_nat (be_val kb))) in
          if decide (n <> 1) then ret (Error COUCHSTORE_ERROR_READ)
          else
            let* (n, v) := on_stdio (fread (tw_file writer) (Z.to_nat (be_val vb))) in
            if decide (n <> 1) then ret (Error COUCHSTORE_ERROR_READ)
            else
              let* (target_mr, _) := on_tree (mr_push_item (writer_request writer) k v target_mr) in
              push_items fuel writer target_mr
  end.

(** The error and, on success, [*out_root]. *)
Definition TreeWriterWrite (fuel : nat) (writer : TreeWriter) : M (session F) (couchstore_error_t * option node_pointer) :=
  on_stdio (rewind (tw_file writer)) ;;
  let* r := push_items fuel writer new_btree_modres in
  match r with
  | Error e => ret (e, None)
  | Done target_mr =>
      let* readerr := on_stdio (ferror (tw_file writer)) in
      if readerr : bool then ret (COUCHSTORE_ERROR_READ, None)
      else
        let* (root, e) := on_tree (complete_new_btree (writer_request writer) fuel target_mr) in
        ret (e, root)
  end.
End Write.

(** ** The callbacks handle the records *)

Definition enc (r : extsort_record) : bytes :=
  match r with
  | Some (k, v) => be_bytes 2 (blen k) ++ be_bytes 4 (blen v) ++ k ++ v
  | None => []
  end.

(** The records that fit the buffers; empty keys and values cannot be read. *)
Definition rok (r : extsort_record) : Prop :=
  exists k v, r = Some (k, v) /\ k <> [] /\ v <> [] /\ sizeof_extsort_record + blen k + blen v <= ID_SORT_MAX_RECORD_SIZE.

Lemma stream_set_trans s1 s2 s3 f a b : stream_set s1 f a s2 -> stream_set s2 f b s3 -> stream_set s1 f b s3.
Proof. intros [E1 X1] [E2 X2]. split; [by rewrite E2, E1, insert_insert_eq|congruence]. Qed.

Lemma wp_fread_next s0 f fl pre bs rest n Q s :
  stream_set s0 f (seek (length pre) fl) s -> fl_data fl = pre ++ bs ++ rest -> length bs = n -> n <> O ->
  (forall s', stream_set s0 f (seek (length (pre ++ bs)) fl) s' -> Q (1, bs) s') -> wp (fread f n) Q s.
Proof.
  intros Ht Hd Hl Hn HQ. eapply wp_fread; [by eapply stream_set_at|exact Hd|done|done|done|].
  intros s' Ht'. apply HQ. rewrite length_app, Hl. by eapply stream_set_trans.
Qed.

Lemma wp_fwrite_next s0 f D p e w bs Q s :
  stream_set s0 f {| fl_data := splice D p w; fl_pos := p + length w; fl_error := e |} s -> bs <> [] ->
  (forall s', stream_set s0 f {| fl_data := splice D p (w ++ bs); fl_pos := p + length (w ++ bs); fl_error := e |} s' -> Q 1 s') ->
  wp (fwrite f bs) Q s.
Proof.
  intros Ht Hn HQ. eapply wp_fwrite; [by eapply stream_set_at|done|]. intros s' Ht'. apply HQ. cbn in Ht'.
  rewrite splice_splice in Ht'. rewrite length_app, Nat.add_assoc. by eapply stream_set_trans.
Qed.

Lemma stream_set_start s f fl : io_files s !! f = Some fl -> stream_set s f fl s.
Proof. intros Hf. split; [by rewrite insert_id|done]. Qed.

Lemma seek_pos fl : seek (fl_pos fl) fl = fl.
Proof. by destruct fl. Qed.

Lemma sticky_read_id_record f b : sticky (read_id_record f b).
Proof. unfold read_id_record. solve_sticky. Qed.
Lemma sticky_write_id_record f r : sticky (write_id_record f r).
Proof. unfold write_id_record. solve_sticky. Qed.

#[export] Hint Resolve sticky_read_id_record sticky_write_id_record : sticky.

Lemma key_len_val (k : bytes) n : blen k < 256 ^ Z.of_nat n -> be_val (be_bytes n (blen k)) = blen k.
Proof. intros H. rewrite be_val_be_bytes. apply Z.mod_small. unfold blen in *. lia. Qed.

Lemma wp_read_id_record f buf fl pre r rest Q s :
  io_files s !! f = Some fl -> fl_data fl = pre ++ enc r ++ rest -> fl_pos fl = length pre -> rok r ->
  (forall z s', 0 < z <= ID_SORT_MAX_RECORD_SIZE -> stream_set s f (seek (length (pre ++ enc r)) fl) s' -> Q (z, r) s') ->
  wp (read_id_record f buf) Q s.
Proof.
  intros Hf Hd Hp (k & v & -> & Hk & Hv & Hsz) HQ. unfold read_id_record, extsort_header.
  unfold sizeof_extsort_record, ID_SORT_MAX_RECORD_SIZE in *.
  pose proof (blen_nonneg k) as Bk. pose proof (blen_nonneg v) as Bv. cbn [enc] in *.
  assert (length k <> O /\ length v <> O) as [Lk Lv] by (destruct k, v; done).
  assert (stream_set s f (seek (length pre) fl) s) as Ht by (rewrite <- Hp, seek_pos; by apply stream_set_start).
  set (a := be_bytes 2 (blen k)) in *. set (b := be_bytes 4 (blen v)) in *.
  assert (length a = 2%nat /\ length b = 4%nat) as [La Lb] by (split; apply be_bytes_length).
  assert (fl_data fl = pre ++ a ++ b ++ k ++ v ++ rest) as Hd' by (rewrite Hd, <- !app_assoc; done).
  apply wp_bind; [intros [??]; solve_sticky|].
  apply (wp_fread_next s f fl pre a (b ++ k ++ v ++ rest)); [done|done|done|done|]. intros s1 Ht1.
  rewrite decide_False by auto. apply wp_bind; [intros [??]; solve_sticky|].
  apply (wp_fread_next s f fl (pre ++ a) b (k ++ v ++ rest)); [done|by rewrite Hd', <- !app_assoc|done|done|]. intros s2 Ht2.
  rewrite decide_False by auto. unfold a, b. rewrite !key_len_val by (cbn; lia). fold a b. rewrite decide_False by lia.
  apply wp_bind; [intros [??]; solve_sticky|].
  apply (wp_fread_next s f fl ((pre ++ a) ++ b) k (v ++ rest)); [done|by rewrite Hd', <- !app_assoc|unfold blen; lia|unfold blen; lia|].
  intros s3 Ht3. rewrite decide_False by auto. rewrite decide_False by lia. apply wp_bind; [intros [??]; solve_sticky|].
  apply (wp_fread_next s f fl (((pre ++ a) ++ b) ++ k) v rest); [done|by rewrite Hd', <- !app_assoc|unfold blen; lia|unfold blen; lia|].
  intros s4 Ht4. rewrite decide_False by auto. apply wp_ret, HQ; [lia|]. by rewrite <- !app_assoc in Ht4.
Qed.

Lemma wp_read_id_end f buf fl Q s :
  io_files s !! f = Some fl -> fl_pos fl = length (fl_data fl) ->
  (forall b s', stream_set s f fl s' -> Q (0, b) s') -> wp (read_id_record f buf) Q s.
Proof.
  intros Hf Hp HQ. unfold read_id_record. apply wp_bind; [intros [??]; solve_sticky|].
  eapply wp_fread_short; [exact Hf|lia|lia|]. intros bs s1 Ht. rewrite decide_True by done.
  apply wp_ret, HQ. by rewrite <- Hp, seek_pos in Ht.
Qed.

Lemma wp_write_id_record f r fl Q s :
  io_files s !! f = Some fl -> rok r ->
  (forall z s', z <> 0 ->
     stream_set s f {| fl_data := splice (fl_data fl) (fl_pos fl) (enc r); fl_pos := fl_pos fl + length (enc r);
                    fl_error := fl_error fl |} s' -> Q z s') ->
  wp (write_id_record f r) Q s.
Proof.
  intros Hf (k & v & -> & Hk & Hv & Hsz) HQ. unfold write_id_record.
  unfold sizeof_extsort_record, ID_SORT_MAX_RECORD_SIZE in *.
  pose proof (blen_nonneg k) as Bk. pose proof (blen_nonneg v) as Bv.
  assert (stream_set s f {| fl_data := splice (fl_data fl) (fl_pos fl) []; fl_pos := fl_pos fl + length (@nil byte);
                         fl_error := fl_error fl |} s) as Ht.
  { cbn. rewrite Nat.add_0_r. apply stream_set_start. by rewrite Hf; destruct fl. }
  apply wp_bind; [intros [??]; solve_sticky|]. apply wp_ret. cbv beta iota.
  assert (u16 (blen k) = blen k) as -> by (unfold u16; apply Z.mod_small; lia).
  assert (u32 (blen v) = blen v) as -> by (unfold u32; apply Z.mod_small; lia).
  apply wp_bind; [solve_sticky|]. eapply wp_fwrite_next; [exact Ht|done|]. intros s1 Ht1. rewrite decide_False by auto.
  apply wp_bind; [solve_sticky|]. eapply wp_fwrite_next; [exact Ht1|done|]. intros s2 Ht2. rewrite decide_False by auto.
  apply wp_bind; [solve_sticky|]. eapply wp_fwrite_next; [exact Ht2|by destruct k|]. intros s3 Ht3. rewrite decide_False by auto.
  apply wp_ret, HQ; [done|]. by rewrite <- !app_assoc in Ht3.
Qed.

#[global] Instance id_RecordIO : RecordIO read_id_record write_id_record enc rok ID_SORT_MAX_RECORD_SIZE.
Proof.
  split; [apply sticky_read_id_record|apply sticky_write_id_record| |exact wp_read_id_record|exact wp_read_id_end|exact wp_write_id_record].
  by intros r (k & v & -> & Hk & Hv & _).
Qed.

(** ** Adding, sorting and writing *)

(** Add the items in turn, up to the first error. *)
Fixpoint add_items (writer : TreeWriter) (items : list kv) : M stdio couchstore_error_t :=
  match items with
  | [] => ret COUCHSTORE_SUCCESS
  | (k, v) :: items =>
      let* e := TreeWriterAddItem writer k v in
      if decide (e <> COUCHSTORE_SUCCESS) then ret e else add_items writer items
  end.

Definition records (items : list kv) : list extsort_record := map Some items.

(** An item the writer can take: neither part is empty, and a record fits the buffer
    of the sort. *)
Definition item_ok (x : kv) : Prop := rok (Some x).

Lemma sticky_TreeWriterAddItem w k v : sticky (TreeWriterAddItem w k v).
Proof. unfold TreeWriterAddItem. solve_sticky. Qed.
#[export] Hint Resolve sticky_TreeWriterAddItem : sticky.
Lemma sticky_add_items w items : sticky (add_items w items).
Proof. induction items as [|[k v] items IH]; cbn [add_items]; solve_sticky. Qed.

Lemma wp_TreeWriterAddItem w k v D p l Q s :
  out_at enc s (tw_file w) D p l -> item_ok (k, v) ->
  (forall s', out_at enc s' (tw_file w) D p (l ++ [Some (k, v)]) -> same_but s s' [tw_file w] -> Q COUCHSTORE_SUCCESS s') ->
  wp (TreeWriterAddItem w k v) Q s.
Proof.
  intros [e Hf] (k' & v' & [= <- <-] & Hk & Hv & Hsz) HQ. unfold TreeWriterAddItem.
  unfold sizeof_extsort_record, ID_SORT_MAX_RECORD_SIZE in *.
  pose proof (blen_nonneg k) as Bk. pose proof (blen_nonneg v) as Bv.
  assert (u16 (blen k) = blen k) as -> by (unfold u16; apply Z.mod_small; lia).
  assert (u32 (blen v) = blen v) as -> by (unfold u32; apply Z.mod_small; lia).
  pose proof (stream_set_start _ _ _ Hf) as Ht.
  apply wp_bind; [solve_sticky|]. eapply wp_fwrite_next; [exact Ht|done|]. intros s1 Ht1. rewrite decide_False by auto.
  apply wp_bind; [solve_sticky|]. eapply wp_fwrite_next; [exact Ht1|done|]. intros s2 Ht2. rewrite decide_False by auto.
  apply wp_bind; [solve_sticky|]. eapply wp_fwrite_next; [exact Ht2|done|]. intros s3 Ht3. rewrite decide_False by auto.
  apply wp_bind; [solve_sticky|]. eapply wp_fwrite_next; [exact Ht3|done|]. intros s4 Ht4. rewrite decide_False by auto.
  apply wp_ret, HQ; [|by eapply stream_set_same]. exists e. rewrite (stream_set_at _ _ _ _ Ht4).
  rewrite encs_app. cbn [encs map concat enc]. by rewrite app_nil_r, <- !app_assoc.
Qed.

Lemma wp_add_items w items D p l Q s :
  out_at enc s (tw_file w) D p l -> Forall item_ok items ->
  (forall s', out_at enc s' (tw_file w) D p (l ++ records items) -> same_but s s' [tw_file w] -> Q COUCHSTORE_SUCCESS s') ->
  wp (add_items w items) Q s.
Proof.
  revert l s. induction items as [|[k v] items IH]; intros l s Ho Hok HQ; cbn [add_items].
  - apply wp_ret, HQ; [by rewrite app_nil_r|by split].
  - apply list.Forall_cons in Hok as [Hi Hok]. apply wp_bind; [intros; case_decide; auto using sticky_add_items with sticky|].
    eapply wp_TreeWriterAddItem; [exact Ho|done|]. intros s1 Ho1 Hs1. rewrite decide_False by auto.
    eapply (IH (l ++ [Some (k, v)])); [done|done|]. intros s2 Ho2 Hs2. apply HQ; [by rewrite <- app_assoc in Ho2|by eapply same_but_trans].
Qed.

(** The order of the records, from that of the keys. *)
Definition record_cmp (cmp : bytes -> bytes -> Z) (r1 r2 : extsort_record) : Z :=
  cmp (default ([], []) r1).1 (default ([], []) r2).1.
Definition record_key (P : bytes -> Prop) (r : extsort_record) : Prop := exists x, r = Some x /\ P x.1.

#[global] Instance record_Comparison cmp `{!Comparison cmp} : Comparison (record_cmp cmp).
Proof. split; intros; unfold record_cmp; [apply cmp_flip|by eapply cmp_trans]. Qed.

#[global] Instance compare_id_Compares P compare cmp `{!Compares P compare cmp} :
  Compares (record_key P) (compare_id_record compare) (record_cmp cmp).
Proof.
  pose proof compares_order. split; [apply _|].
  intros a b (x & -> & Hx) (y & -> & Hy). exact (compares_on x.1 y.1 Hx Hy).
Qed.

Lemma ebin_cmp_le a b : ebin_cmp a b <= 0 <-> lex_lt a b \/ a = b.
Proof.
  destruct (ebin_cmp_lex a b) as [[? Hl]|[[? E]|[? Hl]]]; [split; [by left|lia]|split; [by right|lia]|].
  split; [lia|]. intros [Hr| ->]; exfalso; [apply (lex_lt_irrefl a); by eapply lex_lt_trans|by eapply lex_lt_irrefl].
Qed.
Lemma ebin_cmp_ge a b : 0 <= ebin_cmp b a <-> lex_lt a b \/ a = b.
Proof.
  destruct (ebin_cmp_lex b a) as [[? Hl]|[[? E]|[? Hl]]]; [|split; [by right|lia]|split; [by left|lia]].
  split; [lia|]. intros [Hr| ->]; exfalso; [apply (lex_lt_irrefl a); by eapply lex_lt_trans|by eapply lex_lt_irrefl].
Qed.

#[global] Instance ebin_Comparison : Comparison ebin_cmp.
Proof.
  split; [intros a b; by rewrite ebin_cmp_le, ebin_cmp_ge|]. intros a b c. rewrite !ebin_cmp_le.
  intros [H1| ->] [H2| ->]; auto. left. by eapply lex_lt_trans.
Qed.

#[global] Instance ebin_Compares P : Compares P ebin_compare ebin_cmp.
Proof. by split; [apply _|]. Qed.

(** The streams a program has not opened yet are not there. *)
Definition streams_ok (s : stdio) : Prop := forall h, (io_next s <= h)%nat -> io_files s !! h = None.

(** The file of the writer holds the items. *)
Definition holds_items (s : stdio) (f : nat) (items : list kv) : Prop :=
  exists p e, io_files s !! f = Some {| fl_data := encs enc (records items); fl_pos := p; fl_error := e |}.

Definition key_le (cmp : bytes -> bytes -> Z) (x y : kv) : Prop := cmp x.1 y.1 <= 0.

Lemma records_perm items l : l ≡ₚ records items -> exists items', l = records items' /\ items' ≡ₚ items.
Proof. intros (items' & -> & Hp)%Permutation_map_inv. by exists items'. Qed.

Lemma records_sorted cmp items :
  StronglySorted (rec_le (record_cmp cmp)) (records items) -> StronglySorted (key_le cmp) items.
Proof.
  induction items as [|x items IH]; cbn; [constructor|]. intros [Hs Hx]%StronglySorted_inv. constructor; [by apply IH|].
  exact (proj1 (Forall_mapped _ _ _) Hx).
Qed.

Lemma wp_TreeWriterSort fuel w P cmp items s `{!Compares P (tw_key_compare w) cmp} :
  streams_ok s -> holds_items s (tw_file w) items -> Forall item_ok items -> Forall (fun x => P x.1) items ->
  Z.of_nat (length items) < 2 ^ 63 -> (length items < fuel)%nat ->
  wp (TreeWriterSort fuel w)
     (fun e s' => e = COUCHSTORE_SUCCESS /\ exists items', StronglySorted (key_le cmp) items' /\
        items' ≡ₚ items /\ holds_items s' (tw_file w) items' /\
        forall h, h <> tw_file w -> io_files s' !! h = io_files s !! h) s.
Proof.
  intros Hst (p & e & Hf) Hok HP Hsm Hfuel. unfold TreeWriterSort.
  set (rokP := fun r => rok r /\ record_key P r).
  assert (RecordIO read_id_record write_id_record enc rokP ID_SORT_MAX_RECORD_SIZE) as HIO
    by (eapply RecordIO_weaken; [|apply id_RecordIO]; by intros r []).
  assert (Compares rokP (compare_id_record (tw_key_compare w)) (record_cmp cmp)) as HC.
  { pose proof compares_order. split; [apply _|]. intros a b [_ Ha] [_ Hb]. exact (compares_on a b Ha Hb). }
  apply wp_bind; [intros; apply sticky_bind; [apply sticky_merge_sort; auto with sticky|intros [??]; solve_sticky]|].
  eapply wp_rewind; [exact Hf|]. intros s1 [E1 X1].
  apply wp_bind; [intros [??]; solve_sticky|].
  assert (io_files s1 !! tw_file w = Some {| fl_data := encs enc (records items); fl_pos := 0; fl_error := false |}) as Hf1
    by (by rewrite E1, lookup_insert_eq).
  eapply wp_mono; [eapply (wp_merge_sort _ _ _ _ _ enc rokP ID_SORT_MAX_RECORD_SIZE ltac:(done)); [| | | | |unfold ID_SORT_CHUNK_SIZE; lia|]|].
  - intros h Hh. rewrite X1 in Hh. rewrite E1, lookup_insert_ne; [by apply Hst|]. intros <-. rewrite Hst in Hf by done. done.
  - split; [eauto|by left].
  - eauto.
  - apply Forall_mapped. rewrite list.Forall_forall in *. intros x Hx. split; [by apply Hok|]. exists x. split; [done|by apply HP].
  - unfold records. by rewrite length_map.
  - unfold records. by rewrite length_map.
  - intros [r c] s2 ([= -> ->] & l & Hsort & Hp & (p2 & e2 & Hf2) & _ & Hs2). apply wp_ret. split; [done|].
    apply records_perm in Hp as (items' & -> & Hp). exists items'. split_and!; [by apply records_sorted|done|by exists p2, e2|].
    intros h Hh. rewrite Hs2 by set_solver. rewrite E1. by apply lookup_insert_ne.
Qed.

Section Session.
Context {F : Type} `{HF : Faulty F}.

Lemma wp_on_stdio {A} (m : M stdio A) Q (s : session F) :
  wp m (fun a t => Q a {| ss_store := ss_store s; ss_stdio := t |}) (ss_stdio s) -> wp (on_stdio m) Q s.
Proof. unfold on_stdio. zoomed (fun s : session F => io_failed (ss_store s)); apply orb_comm. Qed.
Lemma sticky_on_stdio {A} (m : M stdio A) : sticky m -> sticky (on_stdio (F := F) m).
Proof. unfold on_stdio. zoomed (fun s : session F => io_failed (ss_store s)); apply orb_comm. Qed.

Lemma wp_on_tree {A} (m : M (F * unit) A) Q (s : session F) :
  wp m (fun a t => Q a {| ss_store := t.1; ss_stdio := ss_stdio s |}) (ss_store s, tt) -> wp (on_tree m) Q s.
Proof. unfold on_tree. zoomed (fun s : session F => io_failed (ss_stdio s)); by rewrite failed_pure. Qed.
Lemma sticky_on_tree {A} (m : M (F * unit) A) : sticky m -> sticky (on_tree m).
Proof. unfold on_tree. zoomed (fun s : session F => io_failed (ss_stdio s)); by rewrite failed_pure. Qed.
End Session.
#[export] Hint Resolve sticky_on_stdio sticky_on_tree : sticky.

Lemma sticky_ferror f : sticky (ferror f).
Proof. unfold ferror. solve_sticky. Qed.
#[export] Hint Resolve sticky_ferror : sticky.

Section WriteProofs.
Context {F : Type} `{HF : Faulty F} `{HN : !NodeStore F} `{HL : !NodeWriterLaws F}.
Variable w : TreeWriter.
Variable kvok : bytes -> bytes -> Prop.
Variable rval : list kv -> bytes.
Context `{HR : !ReduceLaws (writer_request w) kvok rval}.
#[local] Abbreviation rep := (rep kvok rval).
#[local] Abbreviation root_at := (root_at kvok rval).

Lemma sticky_push_items fuel m : sticky (push_items (F := F) fuel w m).
Proof. revert m. induction fuel as [|fuel IH]; intros m; cbn [push_items]; solve_sticky. Qed.
#[local] Hint Resolve sticky_push_items : sticky.

Lemma wp_push_items fuel m D pre done items Q (s : session F) :
  ns_ok (ss_store s) -> rep (ss_store s) 0 m done -> mr_modified m = true ->
  io_files (ss_stdio s) !! tw_file w = Some {| fl_data := D; fl_pos := length pre; fl_error := false |} ->
  D = pre ++ encs enc (records items) -> Forall item_ok items -> Forall (fun x => kvok x.1 x.2) items ->
  weight (done ++ items) + 1 < max_node -> (length items < fuel)%nat ->
  (forall m' s', ns_ok (ss_store s') -> ns_ext (ss_store s) (ss_store s') -> rep (ss_store s') 0 m' (done ++ items) ->
     mr_modified m' = true -> io_files (ss_stdio s') !! tw_file w = Some {| fl_data := D; fl_pos := length D; fl_error := false |} ->
     Q (Done m') s') ->
  wp (push_items fuel w m) Q s.
Proof.
  revert m pre done items s. induction fuel as [|fuel IH]; intros m pre done items s Hst Hrep Hmod Hf HD Hok Hkv Hw Hfl HQ; [lia|].
  cbn [push_items]. apply wp_bind; [intros [??]; solve_sticky|]. apply wp_on_stdio. destruct items as [|[k v] items].
  - cbn in HD. rewrite app_nil_r in *. subst D. eapply wp_fread_short; [exact Hf|cbn; lia|cbn; lia|].
    intros bs t Ht. rewrite decide_True by done. apply wp_ret. apply HQ; cbn [ss_store ss_stdio]; try done.
    by rewrite (stream_set_at _ _ _ _ Ht).
  - apply list.Forall_cons in Hok as [Hi Hok]. apply list.Forall_cons in Hkv as [Hk Hkv].
    destruct Hi as (k' & v' & [= <- <-] & Hk0 & Hv0 & Hsz). unfold sizeof_extsort_record, ID_SORT_MAX_RECORD_SIZE in Hsz.
    pose proof (blen_nonneg k) as Bk. pose proof (blen_nonneg v) as Bv.
    assert (length k <> O /\ length v <> O) as [Lk Lv] by (destruct k, v; done).
    set (a := be_bytes 2 (blen k)). set (b := be_bytes 4 (blen v)). set (R := encs enc (records items)) in *.
    assert (D = pre ++ a ++ b ++ k ++ v ++ R) as HD'.
    { rewrite HD. unfold R, a, b, records, encs. cbn [map concat enc]. by rewrite <- !app_assoc. }
    set (fl := {| fl_data := D; fl_pos := length pre; fl_error := false |}) in *.
    assert (length a = 2%nat /\ length b = 4%nat) as [La Lb] by (split; apply be_bytes_length).
    pose proof (stream_set_start _ _ _ Hf) as Ht. rewrite <- (seek_pos fl) in Ht.
    apply (wp_fread_next (ss_stdio s) _ fl pre a (b ++ k ++ v ++ R)); [done|done|done|done|]. intros s1 Ht1.
    rewrite decide_False by auto. apply wp_bind; [intros [??]; solve_sticky|]. apply wp_on_stdio.
    apply (wp_fread_next (ss_stdio s) _ fl (pre ++ a) b (k ++ v ++ R)); [done|by cbn; rewrite HD', <- !app_assoc|done|done|]. intros s2 Ht2.
    rewrite decide_False by auto. unfold a, b. rewrite !key_len_val by (cbn; lia). fold a b.
    apply wp_bind; [intros [??]; solve_sticky|]. apply wp_on_stdio.
    apply (wp_fread_next (ss_stdio s) _ fl ((pre ++ a) ++ b) k (v ++ R)); [done|by cbn; rewrite HD', <- !app_assoc|unfold blen; lia|unfold blen; lia|].
    intros s3 Ht3. rewrite decide_False by auto. apply wp_bind; [intros [??]; solve_sticky|]. apply wp_on_stdio.
    apply (wp_fread_next (ss_stdio s) _ fl (((pre ++ a) ++ b) ++ k) v R); [done|by cbn; rewrite HD', <- !app_assoc|unfold blen; lia|unfold blen; lia|].
    intros s4 Ht4. rewrite decide_False by auto. apply wp_bind; [intros [??]; solve_sticky|]. apply wp_on_tree.
    eapply (wp_push _ kvok rval); [done|exact Hrep|by apply leaf_value_at| |].
    { rewrite cons_middle, app_assoc, weight_app in Hw. pose proof (weight_nonneg items). lia. }
    intros st' m' Hst' Hext Hrep' Hmod'. cbn [fst].
    eapply (IH m' ((((pre ++ a) ++ b) ++ k) ++ v) (done ++ [(k, v)]) items); cbn [ss_store ss_stdio]; try done.
    + congruence.
    + rewrite (stream_set_at _ _ _ _ Ht4). done.
    + rewrite HD', <- !app_assoc. done.
    + by rewrite <- app_assoc.
    + cbn in Hfl. lia.
    + intros m2 s5 ? ? Hr ??. rewrite <- app_assoc in Hr. apply HQ; try done. by transitivity st'.
Qed.

Lemma sticky_TreeWriterWrite fuel : sticky (TreeWriterWrite (F := F) fuel w).
Proof. unfold TreeWriterWrite. solve_sticky. Qed.

Lemma wp_TreeWriterWrite fuel items (s : session F) :
  ns_ok (ss_store s) -> holds_items (ss_stdio s) (tw_file w) items -> Forall item_ok items ->
  Forall (fun x => kvok x.1 x.2) items -> weight items + 1 < max_node ->
  Forall (fun x => forall l, blen x.1 + blen (rval l) + 19 <= CHUNK_SIZE) items -> (length items < fuel)%nat ->
  wp (TreeWriterWrite fuel w)
     (fun r s' => r.1 = COUCHSTORE_SUCCESS /\ ns_ok (ss_store s') /\ ns_ext (ss_store s) (ss_store s') /\
        is_Some (io_files (ss_stdio s') !! tw_file w) /\ exists h, root_at (ss_store s') h r.2 items) s.
Proof.
  intros Hst (p & e & Hf) Hok Hkv Hw Hsm Hfuel. unfold TreeWriterWrite.
  apply wp_bind; [intros; solve_sticky|]. apply wp_on_stdio. eapply wp_rewind; [exact Hf|]. intros t1 Ht1.
  apply wp_bind; [intros [|]; solve_sticky|].
  eapply (wp_push_items fuel _ _ [] [] items); cbn [ss_store ss_stdio]; try done.
  - apply rep_set_modified, (rep_make kvok rval _ 0).
  - by rewrite (stream_set_at _ _ _ _ Ht1).
  - intros m s2 Hst2 Hext2 Hrep Hmod Hf2. cbn [app] in Hrep. apply wp_bind; [intros [|]; solve_sticky|].
    apply wp_on_stdio. unfold ferror. apply wp_bind; [solve_sticky|]. eapply wp_stream; [exact Hf2|]. apply wp_ret.
    cbn [fl_error]. apply wp_bind; [intros [??]; solve_sticky|]. apply wp_on_tree.
    eapply (wp_complete_new_btree _ kvok rval); [done|exact Hrep|done|done|by right|lia|].
    intros st' h root Hst' Hext' Hroot. apply wp_ret. cbn. split_and!; [done|done|by etrans|by eexists|by exists h].
Qed.
End WriteProofs.

(** ** The whole load *)

(** Open a writer on a temporary file, add the items, sort and write the tree. *)
Definition bulk_load {F} `{NodeStore F} (fuel : nat) (cmp : bytes -> bytes -> option Z) (reduce rereduce : option reduce_fn)
    (items : list kv) : M (session F) (couchstore_error_t * option node_pointer) :=
  let* r := on_stdio (TreeWriterOpen None (Some cmp) reduce rereduce) in
  match r with
  | Error e => ret (e, None)
  | Done writer =>
      let* e := on_stdio (add_items writer items) in
      if decide (e <> COUCHSTORE_SUCCESS) then ret (e, None)
      else
        let* e := on_stdio (TreeWriterSort fuel writer) in
        if decide (e <> COUCHSTORE_SUCCESS) then ret (e, None)
        else
          let* r := TreeWriterWrite fuel writer in
          on_stdio (TreeWriterFree writer) ;; ret r
  end.

Lemma sticky_TreeWriterOpen cmp r rr : sticky (TreeWriterOpen None cmp r rr).
Proof. unfold TreeWriterOpen. solve_sticky. Qed.
Lemma sticky_TreeWriterSort fuel w : sticky (TreeWriterSort fuel w).
Proof.
  unfold TreeWriterSort. apply sticky_bind; [auto with sticky|]. intros _.
  apply sticky_bind; [apply sticky_merge_sort; auto with sticky|intros [??]; solve_sticky].
Qed.
Lemma sticky_TreeWriterFree w : sticky (TreeWriterFree w).
Proof. apply sticky_fclose. Qed.
#[export] Hint Resolve sticky_TreeWriterOpen sticky_TreeWriterSort sticky_TreeWriterFree sticky_add_items sticky_TreeWriterWrite : sticky.

Lemma wp_TreeWriterOpen cmp r rr Q s : streams_ok s ->
  (forall w s', tw_key_compare w = cmp -> tw_reduce w = r -> tw_rereduce w = rr -> tw_file w = io_next s -> streams_ok s' ->
     out_at enc s' (tw_file w) [] 0 [] -> Q (Done w) s') ->
  wp (TreeWriterOpen None (Some cmp) r rr) Q s.
Proof.
  intros Hs HQ. unfold TreeWriterOpen. apply wp_bind; [intros [|]; solve_sticky|]. apply wp_tmpfile. intros s1 E1 X1.
  apply wp_bind; [solve_sticky|]. apply wp_ret, wp_ret, HQ; cbn; try done.
  - intros h Hh. rewrite X1 in Hh. rewrite E1, lookup_insert_ne by lia. apply Hs. lia.
  - exists false. by rewrite E1, lookup_insert_eq.
Qed.

(** C13: a tree is built from unsorted items.  The writer takes the items in any order;
    after it has sorted its file and written the tree, the root that is returned is
    that of a tree that holds exactly these items, in ascending order of their keys
    and with correct reductions, and every node that was in the file is still there.
    Items must fit the buffers of the sort, and keys a node. *)
Theorem tree_writer_builds_tree {F} `{HF : Faulty F} `{HN : !NodeStore F} `{HL : !NodeWriterLaws F}
    (w0 : TreeWriter) kvok rval `{!ReduceLaws (writer_request w0) kvok rval}
    P cmp `{!Compares P (tw_key_compare w0) cmp} fuel items (s : session F) :
  ns_ok (ss_store s) -> streams_ok (ss_stdio s) -> Forall item_ok items -> Forall (fun x => P x.1) items ->
  Forall (fun x => kvok x.1 x.2) items ->
  Forall (fun x => forall l, blen x.1 + blen (rval l) + 19 <= CHUNK_SIZE) items ->
  weight items + 1 < max_node -> (length items < fuel)%nat ->
  wp (bulk_load fuel (tw_key_compare w0) (tw_reduce w0) (tw_rereduce w0) items)
     (fun r s' => r.1 = COUCHSTORE_SUCCESS /\ ns_ok (ss_store s') /\ ns_ext (ss_store s) (ss_store s') /\
        exists h items', items' ≡ₚ items /\ StronglySorted (key_le cmp) items' /\
          root_at kvok rval (ss_store s') h r.2 items') s.
Proof.
  intros Hst Hss Hok HP Hkv Hsm Hw Hfuel. unfold bulk_load. apply wp_bind; [intros [|]; solve_sticky|].
  apply wp_on_stdio, wp_TreeWriterOpen; [done|]. intros [f c r rr] s1. cbn [tw_key_compare tw_reduce tw_rereduce tw_file].
  intros -> -> -> Ef Hss1 Ho. set (w := {| tw_file := f; tw_key_compare := _; tw_reduce := _; tw_rereduce := _ |}).
  assert (ReduceLaws (writer_request w) kvok rval) as HR by done. assert (Compares P (tw_key_compare w) cmp) as HC by done.
  apply wp_bind; [intros; solve_sticky|]. apply wp_on_stdio. eapply (wp_add_items w); [exact Ho|done|].
  intros s2 [e Hf2] [Hs2 X2]. rewrite decide_False by auto. apply wp_bind; [intros; solve_sticky|]. apply wp_on_stdio.
  eapply wp_mono; [apply (wp_TreeWriterSort fuel w P cmp items s2)|].
  - intros h Hh. rewrite X2 in Hh. rewrite Hs2; [by apply Hss1|]. intros ->%list_elem_of_singleton.
    destruct Ho as [eo Ho]. cbn in Ho, Hh. by rewrite Hss1 in Ho.
  - exists (length (encs enc (records items))), e. rewrite Hf2. cbn. by rewrite splice_whole by (cbn; lia).
  - done.
  - done.
  - unfold max_node in Hw. pose proof (weight_length items). lia.
  - done.
  - intros e2 s3 (-> & items' & Hsort & Hp & Hh & _). rewrite decide_False by auto.
    apply wp_bind; [intros; solve_sticky|].
    eapply wp_mono; [apply (wp_TreeWriterWrite w kvok rval fuel items'); cbn [ss_store ss_stdio]; try done|].
    + by rewrite Hp.
    + by rewrite Hp.
    + by rewrite (weight_perm _ _ Hp).
    + by rewrite Hp.
    + by rewrite (Permutation_length Hp).
    + intros res s4 (He & Hst4 & Hext & [fl Hfl] & h & Hroot). apply wp_bind; [intros; solve_sticky|].
      apply wp_on_stdio. eapply wp_fclose; [exact Hfl|]. intros s5 _ _. apply wp_ret. cbn [ss_store].
      split_and!; [done|done|done|by exists h, items'].
Qed.
