(* ===== verification/ViewIndex.v ===== *)
(** * ViewIndex: building the file of a view

    Models src/couch_index.c.  An index file holds one tree for each file of
    unsorted keys and values that is added to it, and ends with a header that lists
    the roots.  Keys of a primary index start with a JSON text and are ordered by it;
    the reduction of a subtree is the number of its values, the set of the partitions
    they come from, and what a built-in reducer makes of the values.

    [CurrentReducer] and [CurrentIndexType], which the code keeps in global variables
    while it builds a tree, are arguments of the reduce functions.  The host is
    little-endian: the chunks of a partition map are stored as they are in memory.
    [None] stands for a failed assertion and for reading outside an item. *)

From Stdlib Require Import ZArith Lia.
From S2P Require Import Prelude Bitfield NodeTypes Util FileOps Stdio TreeFile NodeStore Header BTree CNumbers CollateJson JsonReduce TreeWriter.
From stdpp Require Import list numbers gmap.

#[local] Open Scope Z_scope.
#[local] Open Scope couch_scope.

Definition COUCHSTORE_VIEW_PRIMARY_INDEX : Z := 0.
Definition COUCHSTORE_VIEW_BACK_INDEX : Z := 1.
Definition COUCHSTORE_REDUCE_COUNT : Z := 1.
Definition COUCHSTORE_REDUCE_SUM : Z := 2.
Definition COUCHSTORE_REDUCE_STATS : Z := 3.
Definition UINT32_MAX : Z := 2 ^ 32 - 1.

(** ** Keys *)

(** The memory of the JSON key and its size. *)
Definition getJSONKey (buf : bytes) : option (bytes * Z) :=
  if decide (2 <= blen buf) then
    l ← slice 0 2 buf;
    let size := decode_raw16 l in
    if decide (0 < size /\ size < blen buf - 2) then Some (drop 2 buf, size) else None
  else None.

Definition keyCompare `{Collator} (k1 k2 : bytes) : option Z :=
  '(buf1, size1) ← getJSONKey k1;
  '(buf2, size2) ← getJSONKey k2;
  CollateJSON buf1 size1 buf2 size2 kCollateJSON_Unicode.

(** ** Partition maps *)

Definition VBUCKETS_MAX : Z := 1024.

(** The chunks. *)
Definition VBucketMap : Type := list Z.
Definition empty_map : VBucketMap := replicate 16 0.

Definition VBucketMap_SetBit (map : VBucketMap) (bucketID : Z) : option VBucketMap :=
  if decide (bucketID < VBUCKETS_MAX) then
    let i := Z.to_nat ((VBUCKETS_MAX - 1 - bucketID) / 64) in
    chunk ← map !! i;
    Some (<[i := Z.lor chunk (Z.shiftl 1 (bucketID mod 64))]> map)
  else None.

Definition VBucketMap_Union (map src : VBucketMap) : VBucketMap := zip_with Z.lor map src.

Definition map_bytes (map : VBucketMap) : bytes := concat (List.map (le_bytes 8) map).
Definition bytes_map (b : bytes) : VBucketMap :=
  List.map (fun i => le_val (take 8 (drop (8 * i) b))) (seq 0 16).

(** ** The reducer, if there is one *)

Definition red_buf (red : option JSONReducer) : Type := match red with Some r => jr_buf r | None => unit end.
Definition red_init (red : option JSONReducer) : red_buf red := match red with Some r => jr_init r | None => tt end.
Definition red_add (red : option JSONReducer) : red_buf red -> bytes -> bytes -> option (red_buf red) :=
  match red with Some r => jr_add r | None => fun s _ _ => Some s end.
(** [firstReduction] is the memory after the partition map. *)
Definition red_add_reduced (red : option JSONReducer) : red_buf red -> bytes -> option (red_buf red) :=
  match red with
  | Some r => fun s firstReduction => l ← slice 0 2 firstReduction; jr_add_reduced r s (drop 2 firstReduction) (decode_raw16 l)
  | None => fun s _ => Some s
  end.
(** What is stored there. *)
Definition red_finish (red : option JSONReducer) : red_buf red -> option bytes :=
  match red with
  | Some r => fun s => json ← jr_finish r s reduce_size; Some (encode_raw16 (u16 (blen json)) ++ json)
  | None => fun _ => Some []
  end.

(** ** The reduce functions *)

Section Reduce.
Variable CurrentReducer : option JSONReducer.
Variable CurrentIndexType : Z.

Definition reduce_state : Type := Z * VBucketMap * red_buf CurrentReducer.

(** The emitted values, each prefixed with its length; the values must fill the item. *)
Fixpoint reduce_values (fuel : nat) (jsonKey pos : bytes) (subtreeCount : Z) (buf : red_buf CurrentReducer)
    : option (Z * red_buf CurrentReducer) :=
  match pos with
  | [] => Some (subtreeCount, buf)
  | _ =>
      match fuel with
      | O => None
      | S fuel =>
          l ← slice 0 3 pos;
          jsonValue ← slice 3 (Z.to_nat (decode_raw24 l)) pos;
          buf ← red_add CurrentReducer buf jsonKey jsonValue;
          reduce_values fuel jsonKey (drop (3 + length jsonValue) pos) (u64 (subtreeCount + 1)) buf
      end
  end.

Definition reduce_item (i : nodelist) (s : reduce_state) : option reduce_state :=
  let '(subtreeCount, subtreeBitmap, buf) := s in
  if decide (2 <= blen (nl_data i)) then
    bucketID ← slice 0 2 (nl_data i);
    subtreeBitmap ← VBucketMap_SetBit subtreeBitmap (decode_raw16 bucketID);
    if decide (CurrentIndexType = COUCHSTORE_VIEW_PRIMARY_INDEX) then
      if decide (5 <= blen (nl_data i)) then
        '(key, size) ← getJSONKey (nl_key i);
        '(subtreeCount, buf) ← reduce_values (length (nl_data i)) (take (Z.to_nat size) key) (drop 2 (nl_data i)) subtreeCount buf;
        Some (subtreeCount, subtreeBitmap, buf)
      else None
    else Some (u64 (subtreeCount + 1), subtreeBitmap, buf)
  else None.

Definition rereduce_item (i : nodelist) (s : reduce_state) : option reduce_state :=
  let '(subtreeCount, subtreeBitmap, buf) := s in
  p ← nl_pointer i;
  let reduce_value := np_reduce_value p in
  n ← slice 0 5 reduce_value;
  srcMap ← slice 5 128 reduce_value;
  buf ← red_add_reduced CurrentReducer buf (drop 133 reduce_value);
  Some (u64 (subtreeCount + decode_raw40 n), VBucketMap_Union subtreeBitmap (bytes_map srcMap), buf).

Fixpoint reduce_loop (item : nodelist -> reduce_state -> option reduce_state) (i : list nodelist) (count : nat) (s : reduce_state)
    : option reduce_state :=
  match i, count with
  | x :: next, S count => s ← item x s; reduce_loop item next count s
  | _, _ => Some s
  end.

Definition primary_reduce_common (leaflist : list nodelist) (count : nat) (rereduce : bool) : option bytes :=
  '(subtreeCount, subtreeBitmap, buf) ←
    reduce_loop (if rereduce then rereduce_item else reduce_item) leaflist count (0, empty_map, red_init CurrentReducer);
  reductions ← red_finish CurrentReducer buf;
  Some (encode_raw40 subtreeCount ++ map_bytes subtreeBitmap ++ reductions).

Definition view_reduce (leaflist : list nodelist) (count : nat) : option bytes := primary_reduce_common leaflist count false.
Definition view_rereduce (ptrlist : list nodelist) (count : nat) : option bytes := primary_reduce_common ptrlist count true.
End Reduce.

(** ** The index file *)

(** [root_count] is the length of [ci_roots]. *)
Record CouchStoreIndex (H : Type) : Type := {
  ci_file : tree_file H;
  ci_back_root_index : Z;
  ci_roots : list (option node_pointer)
}.
Arguments ci_file {H}.
Arguments ci_back_root_index {H}.
Arguments ci_roots {H}.

(** The index and the streams. *)
Record index_state (H : Type) : Type := { is_index : CouchStoreIndex H; is_stdio : stdio }.
Arguments is_index {H}.
Arguments is_stdio {H}.

(** What tree_file_open gives for the new file is [handle]. *)
Definition couchstore_create_index {H} (handle : result H) : result (CouchStoreIndex H) :=
  match handle with
  | Error e => Error e
  | Done h => Done {| ci_file := {| tf_pos := 0; tf_handle := h |}; ci_back_root_index := UINT32_MAX; ci_roots := [] |}
  end.

(** The roots from the [i]th on: type, size and data of each. *)
Fixpoint index_roots_bytes (i back_root_index : Z) (roots : list (option node_pointer)) : bytes :=
  match roots with
  | [] => []
  | r :: roots =>
      encode_raw08 (if decide (i = back_root_index) then COUCHSTORE_VIEW_BACK_INDEX else COUCHSTORE_VIEW_PRIMARY_INDEX) ++
      encode_raw16 (u16 (blen (encode_root r))) ++ encode_root r ++ index_roots_bytes (i + 1) back_root_index roots
  end.

Definition index_header_bytes {H} (index : CouchStoreIndex H) : bytes :=
  encode_raw32 (u32 (Z.of_nat (length (ci_roots index)))) ++ index_roots_bytes 0 (ci_back_root_index index) (ci_roots index).

Section Index.
Context {H : Type} `{FileOps H} `{Snappy} `{HU : Collator}.

Definition in_index_file {A} (m : M (tree_file H) A) : M (index_state H) A :=
  zoom (fun s => ci_file (is_index s))
       (fun f s => {| is_index := {| ci_file := f; ci_back_root_index := ci_back_root_index (is_index s); ci_roots := ci_roots (is_index s) |};
                      is_stdio := is_stdio s |}) m.
Definition in_streams {A} (m : M stdio A) : M (index_state H) A :=
  zoom is_stdio (fun t s => {| is_index := is_index s; is_stdio := t |}) m.
(** The file of the index with the streams, for TreeWriterWrite. *)
Definition in_session {A} (m : M (session (tree_file H)) A) : M (index_state H) A :=
  zoom (fun s => {| ss_store := ci_file (is_index s); ss_stdio := is_stdio s |})
       (fun t s => {| is_index := {| ci_file := ss_store t; ci_back_root_index := ci_back_root_index (is_index s); ci_roots := ci_roots (is_index s) |};
                      is_stdio := ss_stdio t |}) m.

Definition write_index_header : M (index_state H) couchstore_error_t :=
  let* s := get in
  let* r := in_index_file (db_write_header (index_header_bytes (is_index s))) in
  match r with Error e => ret e | Done _ => ret COUCHSTORE_SUCCESS end.

(** What it frees is not used again. *)
Definition couchstore_close_index : M (index_state H) couchstore_error_t :=
  let* errcode := write_index_header in
  in_index_file tree_file_close ;; ret errcode.

Definition reducer_of (index_type reduce_function : Z) : option JSONReducer :=
  if decide (index_type = COUCHSTORE_VIEW_PRIMARY_INDEX) then
    if decide (reduce_function = COUCHSTORE_REDUCE_COUNT) then Some JSONCountReducer
    else if decide (reduce_function = COUCHSTORE_REDUCE_SUM) then Some JSONSumReducer
    else if decide (reduce_function = COUCHSTORE_REDUCE_STATS) then Some JSONStatsReducer
    else None
  else None.

(** The new root goes to the end of the array. *)
Definition add_root (index_type : Z) (rootNode : option node_pointer) : M (index_state H) unit :=
  modify (fun s =>
    let index := is_index s in
    {| is_index := {| ci_file := ci_file index;
                      ci_back_root_index := if decide (index_type = COUCHSTORE_VIEW_BACK_INDEX) then Z.of_nat (length (ci_roots index))
                                            else ci_back_root_index index;
                      ci_roots := ci_roots index ++ [rootNode] |};
       is_stdio := is_stdio s |}).

(** [fopen] is the call that opens the input. *)
Definition couchstore_index_add (fuel : nat) (fopen : M stdio (option nat)) (index_type reduce_function : Z)
    : M (index_state H) couchstore_error_t :=
  let* s := get in
  if decide (index_type = COUCHSTORE_VIEW_BACK_INDEX /\ ci_back_root_index (is_index s) < UINT32_MAX) then
    ret COUCHSTORE_ERROR_INVALID_ARGUMENTS
  else
    let red := reducer_of index_type reduce_function in
    let compare := if decide (index_type = COUCHSTORE_VIEW_PRIMARY_INDEX) then keyCompare else ebin_compare in
    let* r := in_streams (TreeWriterOpen (Some fopen) (Some compare) (Some (view_reduce red index_type)) (Some (view_rereduce red index_type))) in
    match r with
    | Error e => ret e
    | Done treeWriter =>
        let* e := in_streams (TreeWriterSort fuel treeWriter) in
        let* e :=
          (if decide (e <> COUCHSTORE_SUCCESS) then ret e
           else
             let* (e, rootNode) := in_session (TreeWriterWrite fuel treeWriter) in
             if decide (e <> COUCHSTORE_SUCCESS) then ret e else add_root index_type rootNode ;; ret e) in
        in_streams (TreeWriterFree treeWriter) ;; ret e
    end.
End Index.
