(* ===== verification/ViewReduce.v ===== *)
(** * ViewReduce: the reductions of a view's tree

    What the reductions of couch_index.c are: the number of values below a node
    modulo 2^40, the partitions of its items, and what the reducer makes of the
    values.  A reducer is [Mergeable] when its result depends only on the values, not
    on how they are spread over nodes; then the tree is built under the laws of
    [ReduceLaws].  Counting is mergeable, and so is having no reducer; sums of doubles
    are not, since they are rounded at every node. *)

From Stdlib Require Import ZArith Lia.
From S2P Require Import Prelude Bitfield NodeTypes NodeStore BTree BTreeInv BTreeFlush Reduces CNumbers CollateJson JsonReduce ViewIndex.
From stdpp Require Import list numbers gmap.

#[local] Open Scope Z_scope.

(** ** Partition maps *)

Lemma le_bytes_length n v : length (le_bytes n v) = n.
Proof. unfold le_bytes. by rewrite length_reverse, be_bytes_length. Qed.

Definition indexes : list Z := [0; 1; 2; 3; 4; 5; 6; 7; 8; 9; 10; 11; 12; 13; 14; 15].

(** What partition [b] adds to chunk [i]. *)
Definition partition_bit (b i : Z) : Z :=
  if decide (0 <= b < VBUCKETS_MAX /\ (VBUCKETS_MAX - 1 - b) / 64 = i) then Z.shiftl 1 (b mod 64) else 0.

(** The map of a list of partitions. *)
Definition partition_chunk (bs : list Z) (i : Z) : Z := foldr (fun b z => Z.lor (partition_bit b i) z) 0 bs.
Definition partition_map (bs : list Z) : VBucketMap := map (partition_chunk bs) indexes.

Lemma partition_chunk_app bs bs' i : partition_chunk (bs ++ bs') i = Z.lor (partition_chunk bs i) (partition_chunk bs' i).
Proof. unfold partition_chunk. induction bs as [|b bs IH]; cbn; [done|]. by rewrite IH, Z.lor_assoc. Qed.

Lemma lor_range a b n : 0 <= n -> 0 <= a < 2 ^ n -> 0 <= b < 2 ^ n -> 0 <= Z.lor a b < 2 ^ n.
Proof.
  intros Hn Ha Hb. split; [apply Z.lor_nonneg; lia|].
  assert (Z.lor a b = Z.lor a b mod 2 ^ n) as ->; [|by apply Z.mod_pos_bound, Z.pow_pos_nonneg].
  apply Z.bits_inj'. intros k Hk. destruct (decide (k < n)) as [Hl|Hl]; [by rewrite Z.mod_pow2_bits_low|].
  rewrite Z.mod_pow2_bits_high, Z.lor_spec by lia.
  rewrite <- (Z.mod_small a (2 ^ n)), <- (Z.mod_small b (2 ^ n)) by done. by rewrite !Z.mod_pow2_bits_high by lia.
Qed.

Lemma partition_bit_range b i : 0 <= partition_bit b i < 2 ^ 64.
Proof.
  unfold partition_bit. case_decide; [|lia]. rewrite Z.shiftl_1_l.
  pose proof (Z.mod_pos_bound b 64 eq_refl). split; [apply Z.pow_nonneg; lia|apply Z.pow_lt_mono_r; lia].
Qed.

Lemma partition_chunk_range bs i : 0 <= partition_chunk bs i < 2 ^ 64.
Proof. induction bs as [|b bs IH]; [done|]. cbn. apply lor_range; [lia|apply partition_bit_range|done]. Qed.

Lemma set_bit_map bs b : 0 <= b < VBUCKETS_MAX -> VBucketMap_SetBit (partition_map bs) b = Some (partition_map (bs ++ [b])).
Proof.
  intros Hb. unfold VBucketMap_SetBit. rewrite decide_True by lia.
  assert (forall i, partition_chunk (bs ++ [b]) i =
    if decide ((VBUCKETS_MAX - 1 - b) / 64 = i) then Z.lor (partition_chunk bs i) (Z.shiftl 1 (b mod 64)) else partition_chunk bs i) as E.
  { intros i. rewrite partition_chunk_app. cbn. rewrite Z.lor_0_r. unfold partition_bit.
    do 2 case_decide; try tauto; by rewrite ?Z.lor_0_r. }
  unfold partition_map. cbn [map indexes]. rewrite !E. unfold VBUCKETS_MAX in *.
  set (q := (1024 - 1 - b) / 64) in *.
  assert (0 <= q < 16) as Hq by (unfold q; split; [apply Z.div_pos; lia|apply Z.div_lt_upper_bound; lia]).
  assert (q = 0 \/ q = 1 \/ q = 2 \/ q = 3 \/ q = 4 \/ q = 5 \/ q = 6 \/ q = 7 \/ q = 8 \/ q = 9 \/ q = 10 \/ q = 11 \/ q = 12 \/
    q = 13 \/ q = 14 \/ q = 15) as Hc by lia.
  clearbody q. destruct_or! Hc; subst q; done.
Qed.

Lemma union_maps bs bs' : VBucketMap_Union (partition_map bs) (partition_map bs') = partition_map (bs ++ bs').
Proof.
  unfold VBucketMap_Union, partition_map. cbn [map indexes zip_with]. by rewrite !partition_chunk_app.
Qed.

Lemma map_bytes_length bs : length (map_bytes (partition_map bs)) = 128%nat.
Proof. unfold map_bytes, partition_map. cbn [map indexes concat]. by rewrite !length_app, !le_bytes_length. Qed.

Lemma bytes_map_bytes bs : bytes_map (map_bytes (partition_map bs)) = partition_map bs.
Proof.
  assert (forall n, n ∈ partition_map bs -> le_val (le_bytes 8 n) = n) as Hv.
  { intros n (i & -> & _)%list_elem_of_fmap. rewrite le_val_le_bytes. change (256 ^ Z.of_nat 8) with (2 ^ 64).
    apply Z.mod_small, partition_chunk_range. }
  assert (forall l, (forall n, n ∈ l -> le_val (le_bytes 8 n) = n) ->
    map (fun i => le_val (take 8 (drop (8 * i) (map_bytes l)))) (seq 0 (length l)) = l) as H.
  { clear. induction l as [|n l IH]; intros Hl; [done|]. cbn [length seq map]. f_equal.
    - change (8 * 0)%nat with 0%nat. rewrite drop_0. unfold map_bytes. cbn [map concat]. rewrite take_app_length' by (by rewrite le_bytes_length). apply Hl. set_solver.
    - rewrite <- (IH ltac:(set_solver)) at 2. rewrite <- seq_shift, map_map. apply map_ext. intros i. do 2 f_equal.
      replace (8 * S i)%nat with (8 + 8 * i)%nat by lia. unfold map_bytes. cbn [map concat].
      rewrite <- drop_drop, drop_app_length' by (by rewrite le_bytes_length). done. }
  exact (H _ Hv).
Qed.

(** A bit of the map is set exactly when an item is from that partition. *)
Lemma partition_map_testbit bs b : 0 <= b < VBUCKETS_MAX ->
  Z.testbit (partition_chunk bs ((VBUCKETS_MAX - 1 - b) / 64)) (b mod 64) = true <-> b ∈ bs.
Proof.
  intros Hb. pose proof (Z.mod_pos_bound b 64 eq_refl) as Hm.
  induction bs as [|c bs IH]; [cbn; rewrite Z.bits_0; set_solver|].
  change (partition_chunk (c :: bs) ?i) with (Z.lor (partition_bit c i) (partition_chunk bs i)).
  rewrite Z.lor_spec, orb_true_iff, IH, elem_of_cons. apply or_iff_compat_r. unfold partition_bit, VBUCKETS_MAX in *.
  case_decide as Hc.
  - rewrite Z.shiftl_1_l, Z.pow2_bits_eqb by (apply Z.mod_pos_bound; lia). rewrite Z.eqb_eq. destruct Hc as [Hc E].
    split; [|by intros ->]. intros Em.
    assert (forall x, 0 <= x < 1024 -> (1024 - 1 - x) / 64 = 15 - x / 64) as D.
    { intros x Hx. symmetry. apply (Z.div_unique_pos _ _ _ (63 - x mod 64)); [pose proof (Z.mod_pos_bound x 64 eq_refl); lia|].
      pose proof (Z.div_mod x 64 ltac:(lia)). lia. }
    rewrite !D in E by lia. pose proof (Z.div_mod b 64 ltac:(lia)). pose proof (Z.div_mod c 64 ltac:(lia)). lia.
  - rewrite Z.bits_0. split; [done|]. intros ->. tauto.
Qed.

(** ** Reducers that merge *)

Class Mergeable (red : option JSONReducer) : Type := {
  vm_state : list bytes -> red_buf red;
  vm_suffix : list bytes -> bytes;
  vm_init : red_init red = vm_state [];
  vm_add : forall vs key v, red_add red (vm_state vs) key v = Some (vm_state (vs ++ [v]));
  vm_merge : forall vs ws, red_add_reduced red (vm_state vs) (vm_suffix ws) = Some (vm_state (vs ++ ws));
  vm_finish : forall vs, red_finish red (vm_state vs) = Some (vm_suffix vs);
  vm_size : forall vs, blen (vm_suffix vs) <= 22
}.

#[export] Instance no_reducer_Mergeable : Mergeable None.
Proof. by refine {| vm_state := fun _ => tt : red_buf None; vm_suffix := fun _ => [] |}. Defined.

(** The number of values, modulo 2^64, and its text. *)
Definition count_state (vs : list bytes) : Z := u64 (Z.of_nat (length vs)).
Definition count_suffix (vs : list bytes) : bytes :=
  let json := print_llu (count_state vs) in encode_raw16 (u16 (blen json)) ++ json.

Lemma count_state_range vs : 0 <= count_state vs < 2 ^ 64.
Proof. by apply Z.mod_pos_bound. Qed.

Lemma u64_add_u64 a b : u64 (u64 a + u64 b) = u64 (a + b).
Proof. unfold u64. by rewrite <- Zplus_mod. Qed.

#[export] Instance count_Mergeable : Mergeable (Some JSONCountReducer).
Proof.
  refine {| vm_state := count_state : list bytes -> red_buf (Some JSONCountReducer); vm_suffix := count_suffix |}.
  - done.
  - intros vs key v. cbn. unfold add_count, count_state. f_equal. rewrite length_app, Nat2Z.inj_add. cbn [length].
    symmetry. etransitivity; [symmetry; apply u64_add_u64|done].
  - intros vs ws. pose proof (print_llu_length _ (count_state_range ws)) as Hl. cbn [red_add_reduced]. unfold count_suffix.
    rewrite slice_app_head by apply encode_raw16_length. cbn [mbind option_bind].
    rewrite drop_app_length' by (by rewrite encode_raw16_length).
    rewrite decode_encode_raw16. unfold u16. rewrite Z.mod_mod, Z.mod_small by lia. cbn [jr_add_reduced JSONCountReducer].
    rewrite <- (app_nil_r (print_llu _)) at 1. rewrite add_reduced_count_print by apply count_state_range.
    unfold count_state. by rewrite u64_add_u64, length_app, Nat2Z.inj_add.
  - intros vs. pose proof (print_llu_length _ (count_state_range vs)) as Hl. cbn. unfold finish_count, sprintf, reduce_size.
    by rewrite decide_True by lia.
  - intros vs. pose proof (print_llu_length _ (count_state_range vs)) as Hl. unfold count_suffix.
    rewrite blen_app. unfold blen at 1. rewrite encode_raw16_length. lia.
Defined.

(** ** Items *)

(** The values of an item. *)
Fixpoint parse_values (fuel : nat) (pos : bytes) : option (list bytes) :=
  match pos with
  | [] => Some []
  | _ =>
      match fuel with
      | O => None
      | S fuel =>
          l ← slice 0 3 pos;
          v ← slice 3 (Z.to_nat (decode_raw24 l)) pos;
          vs ← parse_values fuel (drop (3 + length v) pos);
          Some (v :: vs)
      end
  end.

Section View.
Variable red : option JSONReducer.
Context `{HM : !Mergeable red}.
Variable index_type : Z.

Definition item_partition (v : bytes) : Z := decode_raw16 (take 2 v).
Definition item_values (v : bytes) : list bytes :=
  if decide (index_type = COUCHSTORE_VIEW_PRIMARY_INDEX) then default [] (parse_values (length v) (drop 2 v)) else [].
Definition item_count (v : bytes) : Z :=
  if decide (index_type = COUCHSTORE_VIEW_PRIMARY_INDEX) then Z.of_nat (length (item_values v)) else 1.

(** The items that pass the assertions. *)
Definition view_kvok (k v : bytes) : Prop :=
  kv_fits k v /\ 2 <= blen v /\ item_partition v < VBUCKETS_MAX /\
  (index_type = COUCHSTORE_VIEW_PRIMARY_INDEX ->
     5 <= blen v /\ is_Some (getJSONKey k) /\ is_Some (parse_values (length v) (drop 2 v))).

Definition view_count (kvs : list kv) : Z := sumZ (fun x => item_count x.2) kvs.
Definition view_partitions (kvs : list kv) : list Z := map (fun x => item_partition x.2) kvs.
Definition view_values (kvs : list kv) : list bytes := concat (map (fun x => item_values x.2) kvs).

Definition view_rval (kvs : list kv) : bytes :=
  encode_raw40 (view_count kvs) ++ map_bytes (partition_map (view_partitions kvs)) ++ vm_suffix (view_values kvs).

(** What the loop has after the items [kvs]. *)
Definition reduced (s : reduce_state red) (kvs : list kv) : Prop :=
  exists n, s = (n, partition_map (view_partitions kvs), vm_state (view_values kvs)) /\ n mod 2 ^ 40 = view_count kvs mod 2 ^ 40.

Lemma reduce_values_parse fuel key pos n vs ws : parse_values fuel pos = Some ws ->
  exists n', reduce_values red fuel key pos n (vm_state vs) = Some (n', vm_state (vs ++ ws)) /\
    n' mod 2 ^ 40 = (n + Z.of_nat (length ws)) mod 2 ^ 40.
Proof.
  revert pos n vs ws. induction fuel as [|fuel IH]; intros [|c pos] n vs ws; cbn [parse_values reduce_values]; try done.
  1,2: intros [= <-]; exists n; by rewrite app_nil_r, Z.add_0_r.
  destruct (slice 0 3 (c :: pos)) as [l|]; cbn [mbind option_bind]; [|done].
  destruct (slice 3 _ (c :: pos)) as [v|]; cbn [mbind option_bind]; [|done].
  destruct (parse_values fuel _) as [vs'|] eqn:E; cbn [mbind option_bind]; [|done]. intros [= <-].
  rewrite vm_add. cbn [mbind option_bind]. destruct (IH _ (u64 (n + 1)) (vs ++ [v]) vs' E) as (n' & -> & En).
  exists n'. rewrite <- app_assoc. split; [done|]. rewrite En. cbn [length]. rewrite Nat2Z.inj_succ.
  replace (n + Z.succ (Z.of_nat (length vs'))) with (n + 1 + Z.of_nat (length vs')) by lia. apply add_mod_l, u64_mod. lia.
Qed.

Lemma reduced_snoc kvs x : view_count (kvs ++ [x]) = view_count kvs + item_count x.2 /\
  view_partitions (kvs ++ [x]) = view_partitions kvs ++ [item_partition x.2] /\ view_values (kvs ++ [x]) = view_values kvs ++ item_values x.2.
Proof.
  unfold view_count, view_partitions, view_values. rewrite sumZ_app, !map_app, concat_app. cbn. rewrite app_nil_r. split_and!; [lia|done|done].
Qed.

Lemma reduce_item_step s kvs x : reduced s kvs -> view_kvok x.1 x.2 ->
  exists s', reduce_item red index_type (leaf_item x) s = Some s' /\ reduced s' (kvs ++ [x]).
Proof.
  intros (n & -> & En) (_ & H2 & Hp & Hv). unfold reduce_item. destruct x as [k v]. cbn [fst snd leaf_item nl_data nl_key] in *.
  destruct (reduced_snoc kvs (k, v)) as (Ec & Ep & Ev). cbn [snd] in *.
  rewrite decide_True by done. unfold blen in H2. rewrite slice_Some by lia. cbn [mbind option_bind]. rewrite drop_0.
  fold (item_partition v). rewrite set_bit_map, <- Ep.
  2: { split; [|done]. unfold item_partition. rewrite decode_raw16_be by (rewrite length_take; lia). apply be_val_range. }
  cbn [mbind option_bind]. unfold reduced. rewrite Ec, Ev. unfold item_count, item_values.
  case_decide as Ht.
  - destruct (Hv Ht) as (H5 & [[key size] ->] & [ws Hws]). rewrite decide_True by done. cbn [mbind option_bind].
    destruct (reduce_values_parse (length v) (take (Z.to_nat size) key) (drop 2 v) n (view_values kvs) ws Hws) as (n' & -> & En').
    cbn [mbind option_bind]. eexists. split; [done|]. rewrite Hws. cbn [default]. exists n'. split; [done|].
    rewrite En'. by apply add_mod_l.
  - eexists. split; [done|]. exists (u64 (n + 1)). rewrite app_nil_r. split; [done|]. rewrite u64_mod by lia. by apply add_mod_l.
Qed.

Lemma view_rval_fields kvs :
  slice 0 5 (view_rval kvs) = Some (encode_raw40 (view_count kvs)) /\
  slice 5 128 (view_rval kvs) = Some (map_bytes (partition_map (view_partitions kvs))) /\
  drop 133 (view_rval kvs) = vm_suffix (view_values kvs).
Proof.
  unfold view_rval. split_and!.
  - apply slice_app_head, encode_raw40_length.
  - by apply slice_mid; rewrite ?encode_raw40_length, ?map_bytes_length.
  - rewrite app_assoc. apply drop_app_length'. by rewrite length_app, encode_raw40_length, map_bytes_length.
Qed.

Lemma rereduce_item_step s kvs c : reduced s kvs -> np_reduce_value (ch_ptr c) = view_rval (ch_kvs c) ->
  exists s', rereduce_item red (ch_item c) s = Some s' /\ reduced s' (kvs ++ ch_kvs c).
Proof.
  intros (n & -> & En) Hc. unfold rereduce_item. change (nl_pointer (ch_item c)) with (Some (ch_ptr c)). cbn [mbind option_bind].
  rewrite Hc. destruct (view_rval_fields (ch_kvs c)) as (-> & -> & ->). cbn [mbind option_bind].
  rewrite vm_merge. cbn [mbind option_bind]. eexists. split; [done|]. eexists. split.
  - rewrite bytes_map_bytes, union_maps. unfold view_partitions, view_values. by rewrite !map_app, concat_app.
  - rewrite decode_encode_raw40. unfold view_count. rewrite sumZ_app.
    rewrite (u64_add_mod 40 n _ (view_count (ch_kvs c))) by (done || apply Z.mod_mod; done || lia). by apply add_mod_l.
Qed.

Lemma concat_singletons {X} (l : list X) : concat (map (fun x => [x]) l) = l.
Proof. induction l as [|x l IH]; cbn; [done|]. by rewrite IH. Qed.

(** The loop over items that each add some key-value pairs. *)
Lemma reduce_loop_steps {X} item (f : X -> nodelist) (g : X -> list kv) xs rest s kvs :
  Forall (fun x => forall s kvs, reduced s kvs -> exists s', item (f x) s = Some s' /\ reduced s' (kvs ++ g x)) xs -> reduced s kvs ->
  exists s', reduce_loop red item (map f xs ++ rest) (length xs) s = Some s' /\ reduced s' (kvs ++ concat (map g xs)).
Proof.
  intros Hxs. revert s kvs. induction Hxs as [|x xs Hx _ IH]; intros s kvs Hs.
  - exists s. cbn. rewrite app_nil_r. by destruct rest.
  - destruct (Hx s kvs Hs) as (s1 & E1 & Hs1). destruct (IH s1 _ Hs1) as (s2 & E2 & Hs2). exists s2.
    cbn [map app length reduce_loop concat]. rewrite E1. cbn [mbind option_bind]. by rewrite app_assoc.
Qed.

Lemma reduce_common_result i count (rereduce : bool) kvs :
  (exists s, reduce_loop red (if rereduce then rereduce_item red else reduce_item red index_type) i count
     (0, empty_map, red_init red) = Some s /\ reduced s kvs) ->
  primary_reduce_common red index_type i count rereduce = Some (view_rval kvs).
Proof.
  intros (s & E & n & -> & En). unfold primary_reduce_common. rewrite E. cbn [mbind option_bind]. rewrite vm_finish.
  cbn [mbind option_bind]. unfold view_rval. by rewrite (encode_raw40_mod _ _ En).
Qed.

Lemma reduced_nil : reduced (0, empty_map, red_init red) [].
Proof. exists 0. by rewrite vm_init. Qed.

Lemma view_ReduceLaws {C A} (rq : modify_request C A) :
  rq_reduce rq = Some (view_reduce red index_type) -> rq_rereduce rq = Some (view_rereduce red index_type) ->
  ReduceLaws rq view_kvok view_rval.
Proof.
  intros E1 E2. split.
  - intros kvs rest Hk. unfold reduce_items. rewrite E1. apply reduce_common_result.
    destruct (reduce_loop_steps (reduce_item red index_type) leaf_item (fun x => [x]) kvs rest (0, empty_map, red_init red) []) as (s & E & Hs);
      [|apply reduced_nil|].
    + eapply List.Forall_impl; [|exact Hk]. intros x Hx s kvs' Hs. by apply reduce_item_step.
    + exists s. split; [exact E|]. cbn [app] in Hs. by rewrite concat_singletons in Hs.
  - intros cs rest Hcs. unfold reduce_items. rewrite E2. apply reduce_common_result.
    apply (reduce_loop_steps (rereduce_item red) ch_item ch_kvs cs rest _ []); [|apply reduced_nil].
    eapply List.Forall_impl; [|exact Hcs]. intros c Hc s kvs' Hs. by apply rereduce_item_step.
  - intros kvs. unfold view_rval. rewrite !blen_app. pose proof (vm_size (view_values kvs)).
    unfold blen at 1 2. rewrite encode_raw40_length, map_bytes_length. unfold REDUCE_BUF_SIZE. lia.
  - by intros k v [? _].
Qed.

Lemma view_rval_size kvs : blen (view_rval kvs) <= 155.
Proof.
  unfold view_rval. rewrite !blen_app. pose proof (vm_size (view_values kvs)).
  unfold blen at 1 2. rewrite encode_raw40_length, map_bytes_length. lia.
Qed.

(** The reduce functions on their own. *)
Lemma view_reduce_items kvs : Forall (fun x => view_kvok x.1 x.2) kvs ->
  view_reduce red index_type (map leaf_item kvs) (length kvs) = Some (view_rval kvs).
Proof.
  intros Hk. pose proof (view_ReduceLaws {| rq_compare := fun _ _ => None; rq_fetch_callback := None;
    rq_reduce := Some (view_reduce red index_type); rq_rereduce := Some (view_rereduce red index_type); rq_compacting := true |}
    (C := unit) (A := unit) eq_refl eq_refl) as HR.
  pose proof (rl_leaf kvs [] Hk) as E. by rewrite app_nil_r in E.
Qed.

Lemma view_rereduce_items cs : Forall (fun c => np_reduce_value (ch_ptr c) = view_rval (ch_kvs c)) cs ->
  view_rereduce red index_type (map ch_item cs) (length cs) = Some (view_rval (ch_all cs)).
Proof.
  intros Hcs. pose proof (view_ReduceLaws {| rq_compare := fun _ _ => None; rq_fetch_callback := None;
    rq_reduce := Some (view_reduce red index_type); rq_rereduce := Some (view_rereduce red index_type); rq_compacting := true |}
    (C := unit) (A := unit) eq_refl eq_refl) as HR.
  pose proof (rl_ptrs cs [] Hcs) as E. by rewrite app_nil_r in E.
Qed.
End View.

Lemma partition_map_nth bs b : 0 <= b < VBUCKETS_MAX ->
  nth (Z.to_nat ((VBUCKETS_MAX - 1 - b) / 64)) (partition_map bs) 0 = partition_chunk bs ((VBUCKETS_MAX - 1 - b) / 64).
Proof.
  intros Hb. unfold partition_map, VBUCKETS_MAX in *. set (q := (1024 - 1 - b) / 64).
  assert (0 <= q < 16) as Hq by (unfold q; split; [apply Z.div_pos; lia|apply Z.div_lt_upper_bound; lia]).
  assert (q = 0 \/ q = 1 \/ q = 2 \/ q = 3 \/ q = 4 \/ q = 5 \/ q = 6 \/ q = 7 \/ q = 8 \/ q = 9 \/ q = 10 \/ q = 11 \/ q = 12 \/
    q = 13 \/ q = 14 \/ q = 15) as Hc by lia.
  clearbody q. by destruct_or! Hc; subst q.
Qed.
