(* ===== verification/ViewProofs.v ===== *)
(** * ViewProofs: the trees and the header of an index file

    Adding a file of items to an index builds a tree that holds them, in the order of
    their keys and with the reductions of ViewReduce.v; closing the index writes a
    header from which the roots can be read. *)

From Stdlib Require Import ZArith Lia Sorted.
From S2P Require Import Prelude Runs Bitfield NodeTypes Util FileOps Stdio MergeSort TreeFile NodeStore Header BTree BTreeInv BTreeFlush TreeSpec TreeWriter CNumbers JsonText CollateJson CollateSpec JsonReduce ViewIndex ViewReduce.
From stdpp Require Import list numbers gmap sorting.

#[local] Open Scope Z_scope.
#[local] Open Scope couch_scope.

(** ** Keys *)

(** A key of a primary index: the length of a JSON text, the text, a document's id. *)
Definition key_of (k : bytes) (v : json) : Prop :=
  exists docid, docid <> [] /\ json_ok v /\ blen (print v) < 2 ^ 16 /\ k = encode_raw16 (blen (print v)) ++ print v ++ docid.
Definition view_key (k : bytes) : Prop := exists v, key_of k v.

Lemma getJSONKey_key k v : key_of k v -> exists docid, getJSONKey k = Some (print v ++ docid, blen (print v)).
Proof.
  intros (docid & Hd & Hv & Hl & ->). exists docid. unfold getJSONKey.
  destruct (print_type v Hv) as (c & r & E & _).
  assert (0 < blen docid) by (destruct docid; [done|unfold blen; cbn; lia]).
  assert (0 < blen (print v)) by (rewrite E; unfold blen; cbn; lia).
  assert (blen (encode_raw16 (blen (print v)) ++ print v ++ docid) = 2 + blen (print v) + blen docid) as El.
  { rewrite !blen_app. unfold blen at 1. rewrite encode_raw16_length. lia. }
  rewrite El, decide_True by lia. rewrite slice_app_head by apply encode_raw16_length. cbn [mbind option_bind].
  rewrite decode_encode_raw16, Z.mod_small, decide_True by lia.
  by rewrite drop_app_length' by (by rewrite encode_raw16_length).
Qed.

Section Keys.
Context `{HU : Collator}.

Lemma keyCompare_keys k1 k2 v1 v2 : key_of k1 v1 -> key_of k2 v2 -> keyCompare k1 k2 = Some (collate kCollateJSON_Unicode v1 v2).
Proof.
  intros H1 H2. unfold keyCompare. destruct (getJSONKey_key k1 v1 H1) as [d1 ->], (getJSONKey_key k2 v2 H2) as [d2 ->].
  cbn [mbind option_bind]. destruct H1 as (_ & _ & ? & _), H2 as (_ & _ & ? & _). by apply collate_text.
Qed.

(** The values of finitely many keys. *)
Lemma keys_values keys : Forall view_key keys -> exists f, forall k, k ∈ keys -> key_of k (f k).
Proof.
  induction 1 as [|k keys [v Hv] _ [f IH]]; [exists (fun _ => JNull); set_solver|].
  exists (fun k' => if decide (k' = k) then v else f k'). intros k' Hk'. case_decide; [by subst|]. apply IH. set_solver.
Qed.

(** How an index orders its keys. *)
Definition view_compare (index_type : Z) : bytes -> bytes -> option Z :=
  if decide (index_type = COUCHSTORE_VIEW_PRIMARY_INDEX) then keyCompare else ebin_compare.
Definition view_key_ok (index_type : Z) (k : bytes) : Prop := index_type = COUCHSTORE_VIEW_PRIMARY_INDEX -> view_key k.
Definition view_le (index_type : Z) (x y : kv) : Prop := exists z, view_compare index_type x.1 y.1 = Some z /\ z <= 0.

Lemma view_Compares `{!CollatorLaws} index_type keys : Forall (view_key_ok index_type) keys ->
  exists cmp, Compares (fun k => k ∈ keys) (view_compare index_type) cmp.
Proof.
  intros Hk. unfold view_compare, view_key_ok in *. case_decide as Ht; [|exists ebin_cmp; apply _].
  destruct (keys_values keys) as [f Hf]; [eapply List.Forall_impl; [|exact Hk]; auto|].
  exists (fun k1 k2 => collate kCollateJSON_Unicode (f k1) (f k2)). split.
  - apply ordered_Comparison. intros k. apply (on_ordered f), collate_ordered.
  - intros a b Ha Hb. apply keyCompare_keys; by apply Hf.
Qed.
End Keys.

(** ** Opening the input *)

Lemma sticky_TreeWriterOpen_path fopen c r rr : sticky fopen -> sticky (TreeWriterOpen (Some fopen) c r rr).
Proof. intros Hf. unfold TreeWriterOpen. solve_sticky. Qed.

(** The stream that fopen gives holds the items. *)
Definition opens (fopen : M stdio (option nat)) (items : list kv) (s : stdio) : Prop :=
  sticky fopen /\ wp fopen (fun r t => exists f, r = Some f /\ streams_ok t /\ holds_items t f items) s.

Lemma wp_TreeWriterOpen_path fopen items cmp r rr Q s : opens fopen items s ->
  (forall w s', tw_key_compare w = cmp -> tw_reduce w = r -> tw_rereduce w = rr -> streams_ok s' -> holds_items s' (tw_file w) items -> Q (Done w) s') ->
  wp (TreeWriterOpen (Some fopen) (Some cmp) r rr) Q s.
Proof.
  intros [Hst Hop] HQ. unfold TreeWriterOpen. apply wp_bind; [intros [|]; solve_sticky|].
  eapply wp_mono; [exact Hop|]. intros o t (f & -> & Hs & p & e & Hf). apply wp_bind; [solve_sticky|].
  unfold fseek_end. apply wp_bind; [solve_sticky|]. eapply wp_stream; [exact Hf|]. apply wp_set_stream. intros t' [E X].
  apply wp_ret, HQ; cbn [tw_key_compare tw_reduce tw_rereduce tw_file]; try done.
  - intros h Hh. rewrite X in Hh. rewrite E, lookup_insert_ne; [by apply Hs|]. intros <-. by rewrite Hs in Hf.
  - do 2 eexists. by rewrite E, lookup_insert_eq.
Qed.

(** ** Programs on an index *)

#[global] Instance index_state_Faulty {H} `{Faulty H} : Faulty (index_state H) :=
  fun s => io_failed (ci_file (is_index s)) || io_failed (is_stdio s).

Section Index.
Context {H : Type} `{HO : FileOps H} `{HF : Faulty H} `{HL : !FileLaws H} `{HS : Snappy} `{HSL : !SnappyLaws}.
Context `{HU : Collator} `{HUL : !CollatorLaws}.

Definition with_index_file (f : tree_file H) (i : CouchStoreIndex H) : CouchStoreIndex H :=
  {| ci_file := f; ci_back_root_index := ci_back_root_index i; ci_roots := ci_roots i |}.

Lemma wp_in_index_file {A} (m : M (tree_file H) A) Q (s : index_state H) :
  wp m (fun a f => Q a {| is_index := with_index_file f (is_index s); is_stdio := is_stdio s |}) (ci_file (is_index s)) ->
  wp (in_index_file m) Q s.
Proof. unfold in_index_file. by zoomed (fun s : index_state H => io_failed (is_stdio s)). Qed.
Lemma sticky_in_index_file {A} (m : M (tree_file H) A) : sticky m -> sticky (in_index_file m).
Proof. unfold in_index_file. by zoomed (fun s : index_state H => io_failed (is_stdio s)). Qed.

Lemma wp_in_streams {A} (m : M stdio A) Q (s : index_state H) :
  wp m (fun a t => Q a {| is_index := is_index s; is_stdio := t |}) (is_stdio s) -> wp (in_streams m) Q s.
Proof. unfold in_streams. zoomed (fun s : index_state H => io_failed (ci_file (is_index s))); apply orb_comm. Qed.
Lemma sticky_in_streams {A} (m : M stdio A) : sticky m -> sticky (in_streams (H := H) m).
Proof. unfold in_streams. zoomed (fun s : index_state H => io_failed (ci_file (is_index s))); apply orb_comm. Qed.

Lemma wp_in_session {A} (m : M (session (tree_file H)) A) Q (s : index_state H) :
  wp m (fun a t => Q a {| is_index := with_index_file (ss_store t) (is_index s); is_stdio := ss_stdio t |})
     {| ss_store := ci_file (is_index s); ss_stdio := is_stdio s |} -> wp (in_session m) Q s.
Proof. unfold in_session. zoomed (fun _ : index_state H => false); symmetry; apply orb_false_r. Qed.
Lemma sticky_in_session {A} (m : M (session (tree_file H)) A) : sticky m -> sticky (in_session (H := H) m).
Proof. unfold in_session. zoomed (fun _ : index_state H => false); symmetry; apply orb_false_r. Qed.

Definition with_root (index_type : Z) (root : option node_pointer) (i : CouchStoreIndex H) : CouchStoreIndex H :=
  {| ci_file := ci_file i;
     ci_back_root_index := if decide (index_type = COUCHSTORE_VIEW_BACK_INDEX) then Z.of_nat (length (ci_roots i)) else ci_back_root_index i;
     ci_roots := ci_roots i ++ [root] |}.

Lemma wp_add_root t r Q (s : index_state H) :
  Q tt {| is_index := with_root t r (is_index s); is_stdio := is_stdio s |} -> wp (add_root t r) Q s.
Proof. by intros HQ _. Qed.
Lemma sticky_add_root t r : sticky (add_root (H := H) t r).
Proof. by intros s Hs. Qed.
#[local] Hint Resolve sticky_in_index_file sticky_in_streams sticky_in_session sticky_add_root sticky_TreeWriterOpen_path : sticky.

(** ** Adding a tree *)

(** The items an index of this type can take. *)
Definition view_item (index_type : Z) (x : kv) : Prop :=
  item_ok x /\ view_kvok index_type x.1 x.2 /\ view_key_ok index_type x.1 /\ blen x.1 <= 678.

Lemma view_sorted index_type (cmp : bytes -> bytes -> Z) (items items' : list kv) `{!Compares (fun k => k ∈ map fst items) (view_compare index_type) cmp} :
  items' ≡ₚ items -> StronglySorted (key_le cmp) items' -> StronglySorted (view_le index_type) items'.
Proof.
  intros Hp Hs. assert (forall x, x ∈ items' -> x.1 ∈ map fst items) as Hin.
  { intros x Hx. rewrite Hp in Hx. by apply (list_elem_of_fmap_2 fst). }
  clear Hp. induction Hs as [|x l Hs IH Hx]; constructor; [apply IH; intros; apply Hin; by constructor|].
  rewrite list.Forall_forall in *. intros y Hy. exists (cmp x.1 y.1). split; [|by apply Hx].
  exact (compares_on x.1 y.1 (Hin x ltac:(by left)) (Hin y ltac:(by right))).
Qed.

(** The tree of the new root holds the items. *)
Definition holds_tree red `{!Mergeable red} (index_type : Z) (f : tree_file H) (root : option node_pointer) (items : list kv) : Prop :=
  exists h, root_at (view_kvok index_type) (view_rval red index_type) f h root items.

Lemma wp_couchstore_index_add red `{!Mergeable red} fuel fopen index_type reduce_function items (s : index_state H) :
  reducer_of index_type reduce_function = red ->
  (index_type = COUCHSTORE_VIEW_BACK_INDEX -> UINT32_MAX <= ci_back_root_index (is_index s)) ->
  tf_ok (ci_file (is_index s)) -> opens fopen items (is_stdio s) -> Forall (view_item index_type) items ->
  weight items + 1 < max_node -> (length items < fuel)%nat ->
  wp (couchstore_index_add fuel fopen index_type reduce_function)
     (fun e s' => e = COUCHSTORE_SUCCESS /\ tf_ok (ci_file (is_index s')) /\
        tf_ext (ci_file (is_index s)) (ci_file (is_index s')) /\
        ci_back_root_index (is_index s') = (if decide (index_type = COUCHSTORE_VIEW_BACK_INDEX) then Z.of_nat (length (ci_roots (is_index s)))
                                            else ci_back_root_index (is_index s)) /\
        exists root items', ci_roots (is_index s') = ci_roots (is_index s) ++ [root] /\ items' ≡ₚ items /\
          StronglySorted (view_le index_type) items' /\ holds_tree red index_type (ci_file (is_index s')) root items') s.
Proof.
  intros Hred Hback Hok Hop Hitems Hw Hfuel. unfold couchstore_index_add.
  assert (Forall item_ok items /\ Forall (fun x => view_kvok index_type x.1 x.2) items /\ Forall (view_key_ok index_type) (map fst items) /\
    Forall (fun x => forall l, blen x.1 + blen (view_rval red index_type l) + 19 <= CHUNK_SIZE) items) as (Hi & Hkv & Hkeys & Hsz).
  { rewrite Forall_fmap, !list.Forall_forall in *. split_and!; intros x Hx; destruct (Hitems x Hx) as (? & ? & ? & ?); try done.
    intros l. pose proof (view_rval_size red index_type l). change CHUNK_SIZE with 852. lia. }
  destruct (view_Compares index_type (map fst items) Hkeys) as [cmp HC].
  assert (Forall (fun x : kv => x.1 ∈ map fst items) items) as HP
    by (apply list.Forall_forall; intros x Hx; by apply (list_elem_of_fmap_2 fst)).
  assert (sticky fopen) as Hstf by (by destruct Hop).
  apply wp_bind; [intros; solve_sticky|]. apply wp_get. rewrite decide_False by (intros [E ?]; specialize (Hback E); lia).
  rewrite Hred. fold (view_compare index_type). apply wp_bind; [intros [|]; solve_sticky|]. apply wp_in_streams.
  eapply wp_TreeWriterOpen_path; [exact Hop|]. intros w t1 Ec Er Err Hst1 Hh1.
  assert (Compares (fun k => k ∈ map fst items) (tw_key_compare w) cmp) as HCw by (by rewrite Ec).
  assert (ReduceLaws (writer_request w) (view_kvok index_type) (view_rval red index_type)) as HR
    by (apply view_ReduceLaws; [exact Er|exact Err]).
  apply wp_bind; [intros; solve_sticky|]. apply wp_in_streams. cbn [is_stdio is_index].
  eapply wp_mono; [apply (wp_TreeWriterSort fuel w (fun k => k ∈ map fst items) cmp items t1); try done|].
  { unfold max_node in Hw. pose proof (weight_length items). lia. }
  intros e2 t2 (-> & items' & Hsort & Hp & Hh2 & _). apply wp_bind; [intros; solve_sticky|]. rewrite decide_False by auto.
  apply wp_bind; [intros [??]; solve_sticky|]. apply wp_in_session. cbn [is_stdio is_index].
  eapply wp_mono; [apply (wp_TreeWriterWrite w (view_kvok index_type) (view_rval red index_type) fuel items'); cbn [ss_store ss_stdio]; try done|].
  1-4: by rewrite ?Hp, ?(weight_perm _ _ Hp).
  { by rewrite (Permutation_length Hp). }
  intros [e3 root] t3 (He & Hok3 & Hext & [fl Hfl] & h & Hroot). cbn [fst snd] in *. subst e3. rewrite decide_False by auto.
  apply wp_bind; [intros; solve_sticky|]. apply wp_add_root, wp_ret, wp_bind; [intros; solve_sticky|]. apply wp_in_streams.
  cbn [is_stdio is_index]. eapply wp_fclose; [exact Hfl|]. intros t4 _ _. apply wp_ret.
  cbn [is_index with_root with_index_file ci_file ci_back_root_index ci_roots]. split_and!; [done|done|done|done|].
  exists root, items'. split_and!; [done|done|by eapply view_sorted|by exists h].
Qed.

(** ** The header *)

(** What a reader of the file does with the header, as tests/indexer_test.c does it. *)
Fixpoint read_index_roots (nRoots : nat) (buf : bytes) : option (list (Z * node_pointer)) :=
  match nRoots with
  | O => if decide (buf = []) then Some [] else None
  | S nRoots =>
      indexType ← slice 0 1 buf;
      rootSize ← slice 1 2 buf;
      let rootSize := Z.to_nat (decode_raw16 rootSize) in
      root ← read_root (drop 3 buf) rootSize;
      roots ← read_index_roots nRoots (drop (3 + rootSize) buf);
      Some ((decode_raw08 indexType, root) :: roots)
  end.

Definition read_index_header (buf : bytes) : option (list (Z * node_pointer)) :=
  nRoots ← slice 0 4 buf; read_index_roots (Z.to_nat (decode_raw32 nRoots)) (drop 4 buf).

(** The type and the root of each tree, from the [i]th on.  Roots have no key, and sizes
    are stored modulo their field. *)
Fixpoint index_entries (i back_root_index : Z) (roots : list node_pointer) : list (Z * node_pointer) :=
  match roots with
  | [] => []
  | r :: roots =>
      (if decide (i = back_root_index) then COUCHSTORE_VIEW_BACK_INDEX else COUCHSTORE_VIEW_PRIMARY_INDEX,
       {| np_key := []; np_pointer := np_pointer r; np_reduce_value := np_reduce_value r;
          np_subtreesize := np_subtreesize r mod 2 ^ 48 |}) :: index_entries (i + 1) back_root_index roots
  end.

Definition index_root_ok (r : node_pointer) : Prop := 0 <= np_pointer r < 2 ^ 48 /\ root_size (Some r) < 2 ^ 16.

Lemma read_index_roots_bytes i back roots : Forall index_root_ok roots ->
  read_index_roots (length roots) (index_roots_bytes i back (map Some roots)) = Some (index_entries i back roots).
Proof.
  intros Hr. revert i. induction Hr as [|r roots [Hp Hs] _ IH]; intros i; [done|].
  cbn [length map index_roots_bytes read_index_roots index_entries].
  set (ty := if decide (i = back) then COUCHSTORE_VIEW_BACK_INDEX else COUCHSTORE_VIEW_PRIMARY_INDEX).
  set (rest := index_roots_bytes (i + 1) back (map Some roots)) in *.
  pose proof (encode_root_length (Some r)) as El. pose proof (root_size_nonneg (Some r)) as Hn.
  rewrite slice_app_head by apply encode_raw08_length. cbn [mbind option_bind].
  rewrite slice_mid by (by rewrite ?encode_raw08_length, ?encode_raw16_length). cbn [mbind option_bind].
  rewrite decode_encode_raw16, El. unfold u16. rewrite Z.mod_mod, Z.mod_small by lia.
  rewrite (app_assoc (encode_raw08 ty)), (drop_app_length' _ _ 3) by (by rewrite length_app, encode_raw08_length, encode_raw16_length).
  rewrite read_root_norm by done. cbn [mbind option_bind norm_root].
  rewrite (app_assoc (_ ++ _)), drop_app_length'.
  2: { rewrite !length_app, encode_raw08_length, encode_raw16_length. unfold blen in El. lia. }
  unfold rest. rewrite IH. cbn [mbind option_bind].
  rewrite decode_encode_raw08, Z.mod_small; [done|]. unfold ty. case_decide; done.
Qed.

Lemma read_index_header_bytes (i : CouchStoreIndex H) roots : ci_roots i = map Some roots -> Forall index_root_ok roots ->
  Z.of_nat (length roots) < 2 ^ 32 ->
  read_index_header (index_header_bytes i) = Some (index_entries 0 (ci_back_root_index i) roots).
Proof.
  intros Er Hr Hl. unfold read_index_header, index_header_bytes. rewrite Er, length_map.
  rewrite slice_app_head by apply encode_raw32_length. cbn [mbind option_bind].
  rewrite decode_encode_raw32. unfold u32. rewrite Z.mod_mod, Z.mod_small, Nat2Z.id by lia.
  rewrite drop_app_length' by (by rewrite encode_raw32_length). by apply read_index_roots_bytes.
Qed.

Lemma sticky_couchstore_close_index : sticky (couchstore_close_index (H := H)).
Proof. unfold couchstore_close_index, write_index_header. solve_sticky. Qed.

(** The image of a header that fits one block. *)
Lemma header_image_short pos buf : 0 <= pos -> pos mod COUCH_BLOCK_SIZE = 0 -> blen buf <= MAX_HEADER_SIZE ->
  0 < blen (header_image pos buf) < COUCH_BLOCK_SIZE.
Proof.
  intros Hp Hal Hl. unfold header_image. rewrite blen_cons. pose proof (header_chunk_length buf) as Hc.
  pose proof (layout_length_short (pos + 1) (header_chunk buf)) as Hs. pose proof (blen_nonneg (layout (pos + 1) (header_chunk buf))).
  unfold COUCH_BLOCK_SIZE, MAX_HEADER_SIZE in *. lia.
Qed.

Lemma wp_couchstore_close_index Q (s : index_state H) : tf_ok (ci_file (is_index s)) ->
  (forall f', tf_keep (ci_file (is_index s)) f' ->
     let hp := header_pos (tf_pos (ci_file (is_index s))) in
     let img := header_image hp (index_header_bytes (is_index s)) in
     has (tf_contents f') hp img -> blen (tf_contents f') = hp + blen img ->
     Q COUCHSTORE_SUCCESS {| is_index := with_index_file f' (is_index s); is_stdio := is_stdio s |}) ->
  wp couchstore_close_index Q s.
Proof.
  intros Hok HQ. pose proof Hok as (Hf & Hp & Hend). destruct (header_pos_spec (tf_pos (ci_file (is_index s)))) as [Hhp _].
  unfold couchstore_close_index, write_index_header. apply wp_bind; [intros; solve_sticky|].
  apply wp_bind; [intros; solve_sticky|]. apply wp_get. apply wp_bind; [intros [|]; solve_sticky|]. apply wp_in_index_file.
  apply wp_db_write_header; [done|done|eapply unread_mono; [by apply unread_end|done]|].
  intros f1 Hf1 Hpos Hc1 _ _. apply wp_ret. apply wp_bind; [intros; solve_sticky|]. apply wp_in_index_file.
  cbn [is_index with_index_file ci_file is_stdio]. apply wp_tree_file_close; [done|]. intros f' Ep Hf' Hc _ _. apply wp_ret.
  set (hp := header_pos _) in *. set (img := header_image _ _) in *. rewrite Hc1 in Hc.
  pose proof (blen_nonneg img) as Hi. apply HQ; fold hp; fold img.
  - split; [lia|]. intros pos a Ha Hle. rewrite Hc. apply splice_keeps; [done|lia].
  - rewrite Hc. apply splice_has. lia.
  - rewrite Hc. unfold blen in *. rewrite splice_length by done. unfold tf_contents. lia.
Qed.

Lemma holds_tree_keep red `{!Mergeable red} index_type f f' root items :
  tf_keep f f' -> holds_tree red index_type f root items -> holds_tree red index_type f' root items.
Proof. intros Hk [h Hr]. exists h. eapply root_at_keep; [|exact Hr]. intros pos buf dsz. by apply node_stored_keep. Qed.

(** A tree of items has a root that the header can hold. *)
Lemma holds_tree_root red `{!Mergeable red} index_type f root items : holds_tree red index_type f root items -> items <> [] ->
  exists r, root = Some r /\ index_root_ok r /\ root_size (Some r) <= 167 /\ np_reduce_value r = view_rval red index_type items /\
    forall r', np_pointer r' = np_pointer r -> np_reduce_value r' = np_reduce_value r ->
      np_subtreesize r' mod 2 ^ 48 = np_subtreesize r mod 2 ^ 48 -> holds_tree red index_type f (Some r') items.
Proof.
  intros [h Hr] Hne. destruct root as [r|]; [|by destruct Hr]. exists r. destruct Hr as (sz & Hn & Hv & Hs).
  pose proof (view_rval_size red index_type items) as Hz. rewrite <- Hv in Hz.
  assert (root_size (Some r) <= 167) by (unfold root_size, ROOT_BASE_SIZE; lia).
  split_and!; [done|split; [|lia]|done|done|].
  - apply node_at_range in Hn. lia.
  - intros r' Ep Ev Es. exists h. cbn [root_at]. exists sz. rewrite Ep, Ev, Es. exact (conj Hn (conj Hv Hs)).
Qed.

(** Add one tree to an index and close it. *)
Definition index_file (fuel : nat) (fopen : M stdio (option nat)) (index_type reduce_function : Z)
    : M (index_state H) (couchstore_error_t * couchstore_error_t) :=
  let* e1 := couchstore_index_add fuel fopen index_type reduce_function in
  let* e2 := couchstore_close_index in
  ret (e1, e2).

(** A reader of the file finds the header at the last block boundary. *)
Definition read_index_file : M (tree_file H) (option (list (Z * node_pointer))) :=
  let* eof := file_goto_eof in
  let* r := pread_header (eof - eof mod COUCH_BLOCK_SIZE) in
  ret (match r with Done hdr => read_index_header hdr | Error _ => None end).

Lemma sticky_read_index_file : sticky read_index_file.
Proof. unfold read_index_file. solve_sticky. Qed.

Lemma wp_read_index_file hp hdr Q (f : tree_file H) : file_ok (tf_handle f) -> synced (tf_handle f) ->
  0 <= hp -> hp mod COUCH_BLOCK_SIZE = 0 -> blen hdr + 4 <= MAX_HEADER_SIZE ->
  has (tf_contents f) hp (header_image hp hdr) -> blen (tf_contents f) = hp + blen (header_image hp hdr) ->
  (forall f', tf_contents f' = tf_contents f -> Q (read_index_header hdr) f') ->
  wp read_index_file Q f.
Proof.
  intros Hok Hsy Hp Hal Hlen Hhas Hend HQ. unfold read_index_file. apply wp_bind; [intros; solve_sticky|].
  apply wp_file_goto_eof; [done..|]. intros f1 Hp1 Hok1 Hc1. destruct (header_image_short hp hdr) as [H0 H1]; [done|done|lia|].
  replace (_ - _) with hp.
  2: { unfold COUCH_BLOCK_SIZE in *. rewrite Hend. Z.div_mod_to_equations. lia. }
  apply wp_bind; [intros; solve_sticky|]. apply (wp_pread_header hdr); [done|done|done|done|by rewrite Hc1|].
  intros f2 _ _ Hc2. apply wp_ret, HQ. congruence.
Qed.
End Index.
#[export] Hint Resolve sticky_in_index_file sticky_in_streams sticky_in_session sticky_add_root sticky_TreeWriterOpen_path : sticky.
