(* ===== verification/BTreeRead.v ===== *)
(** * BTreeRead: lookups and folds over the B-tree

    Models src/btree_read.c.  [rq->keys[current .. end - 1]] is passed as a list,
    the two flags [fold] and [in_fold] of the request are threaded through, and
    the callbacks are programs on the file and their own state.  The theorems
    give the sequence of calls a lookup makes: one per key for a lookup, one per
    item of the range for a fold. *)

From Stdlib Require Import ZArith Lia Sorted.
From S2P Require Import Prelude Bitfield NodeTypes Util NodeStore BTree BTreeInv BTreeFlush TreeSpec BTreeModify.
From stdpp Require Import list numbers gmap.

#[local] Open Scope Z_scope.
#[local] Open Scope couch_scope.

Record lookup_flags : Type := { lf_fold : bool; lf_in_fold : bool }.

Section Lookup.
Context {F C : Type} `{NodeStore F}.

Record lookup_request : Type := {
  lq_compare : bytes -> bytes -> option Z;
  lq_fetch_callback : bytes -> option bytes -> M (F * C) couchstore_error_t;
  lq_node_callback : option (Z -> option bytes -> M (F * C) couchstore_error_t)
}.

Variable rq : lookup_request.

(** The do-while loop that finds [last_item]: the keys to look up in the child,
    the first of them always, and the keys left. *)
Fixpoint key_range (cmp_key : bytes) (ks : list bytes) : option (list bytes * list bytes) :=
  match ks with
  | [] => Some ([], [])
  | k :: ks' =>
      c ← lq_compare rq cmp_key k;
      if decide (0 <= c) then '(x, y) ← key_range cmp_key ks'; Some (k :: x, y) else Some ([], ks)
  end.

Definition node_callback (subtreeSize : Z) (reduce_value : option bytes) : M (F * C) couchstore_error_t :=
  match lq_node_callback rq with
  | None => ret COUCHSTORE_SUCCESS
  | Some cb => cb subtreeSize reduce_value
  end.

(** Any remaining items are not found. *)
Fixpoint not_found (ks : list bytes) (fl : lookup_flags) : M (F * C) (lookup_flags * couchstore_error_t) :=
  match ks with
  | [] => ret (fl, COUCHSTORE_SUCCESS)
  | k :: ks' =>
      if lf_fold fl then ret (fl, COUCHSTORE_SUCCESS)
      else
        let* e := lq_fetch_callback rq k None in
        if decide (e = COUCHSTORE_SUCCESS) then not_found ks' fl else ret (fl, e)
  end.

(** The loop over the items of a leaf; [buf] is the node from [bufpos] on. *)
Fixpoint kv_lookup (fuel : nat) (buf : bytes) (ks : list bytes) (fl : lookup_flags)
    : M (F * C) (list bytes * lookup_flags * couchstore_error_t) :=
  match buf, ks with
  | [], _ | _, [] => ret (ks, fl, COUCHSTORE_SUCCESS)
  | _ :: _, k :: ks' =>
      match fuel with
      | O => nofuel
      | S fuel' =>
          let* (cmp_key, val_buf, n) := need (read_kv buf) in
          let* cmp_val := need (lq_compare rq cmp_key k) in
          let* (ks, fl) :=
            if decide (0 <= cmp_val /\ lf_fold fl = true /\ lf_in_fold fl = false) then
              ret (ks, {| lf_fold := lf_fold fl; lf_in_fold := true |})
            else match lf_in_fold fl, ks' with
                 | true, k1 :: _ =>
                     let* c1 := need (lq_compare rq cmp_key k1) in
                     if decide (0 < c1) then ret ([], {| lf_fold := false; lf_in_fold := false |})
                     else ret (ks, fl)
                 | _, _ => ret (ks, fl)
                 end in
          if decide (cmp_val = 0 \/ (0 < cmp_val /\ lf_in_fold fl = true)) then
            let* e := lq_fetch_callback rq cmp_key (Some val_buf) in
            if decide (e = COUCHSTORE_SUCCESS) then
              kv_lookup fuel' (drop n buf) (if lf_in_fold fl then ks else tail ks) fl
            else ret (ks, fl, e)
          else kv_lookup fuel' (drop n buf) ks fl
      end
  end.

Section Recursion.
Variable rec : Z -> list bytes -> lookup_flags -> M (F * C) (lookup_flags * couchstore_error_t).

(** The loop over the items of an interior node. *)
Fixpoint kp_lookup (fuel : nat) (buf : bytes) (ks : list bytes) (fl : lookup_flags)
    : M (F * C) (list bytes * lookup_flags * couchstore_error_t) :=
  match buf, ks with
  | [], _ | _, [] => ret (ks, fl, COUCHSTORE_SUCCESS)
  | _ :: _, k :: ks' =>
      match fuel with
      | O => nofuel
      | S fuel' =>
          let* (cmp_key, val_buf, n) := need (read_kv buf) in
          let* cmp_val := need (lq_compare rq cmp_key k) in
          if decide (0 <= cmp_val) then
            let fl := if lf_fold fl then {| lf_fold := true; lf_in_fold := true |} else fl in
            let* (now, later) := need (key_range cmp_key ks') in
            let val := drop (n - length val_buf) buf in
            let* raw := need (as_raw_node_pointer val) in
            let* e :=
              match lq_node_callback rq with
              | None => ret COUCHSTORE_SUCCESS
              | Some cb =>
                  let* red := need (slice sizeof_raw_node_pointer
                    (Z.to_nat (decode_raw16 (rnp_reduce_value_size raw))) val) in
                  cb (decode_raw48 (rnp_subtreesize raw)) (Some red)
              end in
            if decide (e <> COUCHSTORE_SUCCESS) then ret (ks, fl, e)
            else
              let* (fl, e) := rec (decode_raw48 (rnp_pointer raw)) (k :: now) fl in
              if decide (e <> COUCHSTORE_SUCCESS) then ret (ks, fl, e)
              else
                let ks := if lf_in_fold fl then ks else later in
                let* e := node_callback 0 None in
                if decide (e <> COUCHSTORE_SUCCESS) then ret (ks, fl, e)
                else kp_lookup fuel' (drop n buf) ks fl
          else kp_lookup fuel' (drop n buf) ks fl
      end
  end.
End Recursion.

(** [fuel] bounds the depth of the tree. *)
Fixpoint btree_lookup_inner (fuel : nat) (diskpos : Z) (ks : list bytes) (fl : lookup_flags)
    : M (F * C) (lookup_flags * couchstore_error_t) :=
  match ks with
  | [] => ret (fl, COUCHSTORE_SUCCESS)
  | _ :: _ =>
      match fuel with
      | O => nofuel
      | S fuel' =>
          let* nodebuf := on_file (read_node diskpos) in
          match nodebuf with
          | Error e => ret (fl, e)
          | Done [] => undef
          | Done (t :: buf) =>
              let* (ks, fl, e) :=
                if decide (t = Byte.x00) then kp_lookup (btree_lookup_inner fuel') (length buf) buf ks fl
                else if decide (t = Byte.x01) then kv_lookup (length buf) buf ks fl
                else ret (ks, fl, COUCHSTORE_SUCCESS) in
              if decide (e <> COUCHSTORE_SUCCESS) then ret (fl, e) else not_found ks fl
          end
      end
  end.

Definition btree_lookup (fuel : nat) (fold : bool) (keys : list bytes) (root_pointer : Z)
    : M (F * C) couchstore_error_t :=
  let* (_, e) := btree_lookup_inner fuel root_pointer keys {| lf_fold := fold; lf_in_fold := false |} in
  ret e.
End Lookup.
Arguments lookup_request : clear implicits.

(** ** What a lookup must deliver *)

Definition no_fold : lookup_flags := {| lf_fold := false; lf_in_fold := false |}.
Definition folding : lookup_flags := {| lf_fold := true; lf_in_fold := true |}.

(** Every key of the request but possibly the last one is in the tree. *)
Fixpoint present (kvs : list kv) (ks : list bytes) : Prop :=
  match ks with
  | [] => True
  | k :: ks' => (ks' <> [] -> k ∈ map fst kvs) /\ present kvs ks'
  end.

Definition found (kvs : list kv) (ks : list bytes) : list (bytes * option bytes) :=
  map (fun k => (k, value_of k kvs)) ks.

(** The items of the range that starts at [k0], and ends at [ub] if there is one. *)
Definition in_range (compare : bytes -> bytes -> option Z) (k0 : bytes) (ub : option bytes) (x : kv) : bool :=
  (0 <=? default 0 (compare x.1 k0)) &&
  match ub with Some k1 => default 0 (compare x.1 k1) <=? 0 | None => true end.
Definition range compare (k0 : bytes) (ub : option bytes) (kvs : list kv) : list (bytes * option bytes) :=
  map (fun x => (x.1, Some x.2)) (List.filter (in_range compare k0 ub) kvs).

Definition past (compare : bytes -> bytes -> option Z) (ub : option bytes) (kvs : list kv) : bool :=
  match ub with Some k1 => existsb (fun x => 0 <? default 0 (compare x.1 k1)) kvs | None => false end.

Section Specs.
Context {F C : Type} `{HF : Faulty F} `{HC : Faulty C} `{HN : !NodeStore F} `{HL : !NodeStoreLaws F}.
Variable rq : lookup_request F C.
Variable kvok : bytes -> bytes -> Prop.
Variable rval : list kv -> bytes.
Context `{HK : !KeyOrder (lq_compare rq)}.
Hypothesis kvok_key : forall k v, kvok k v -> vkey k.
Hypothesis kvok_fits : forall k v, kvok k v -> kv_fits k v.
Hypothesis rval_size : forall kvs, blen (rval kvs) <= REDUCE_BUF_SIZE.
Hypothesis callback_sticky : forall k v, sticky (lq_fetch_callback rq k v).
Hypothesis no_node_callback : lq_node_callback rq = None.

#[local] Abbreviation cb := (lq_fetch_callback rq).
#[local] Abbreviation cmp := (lq_compare rq).
#[local] Abbreviation child_at := (child_at kvok rval).

(** The calls of the callback for [l] in order, up to the first that returns an
    error; between the calls the file is only read. *)
Fixpoint delivers (l : list (bytes * option bytes)) (Q : couchstore_error_t -> F * C -> Prop)
    (st : F) (c : C) : Prop :=
  match l with
  | [] => forall st', ns_ok st' -> ns_ext st st' -> Q COUCHSTORE_SUCCESS (st', c)
  | (k, v) :: l' =>
      forall st', ns_ok st' -> ns_ext st st' ->
        wp (cb k v) (fun e s => if decide (e = COUCHSTORE_SUCCESS)
                                then ns_ok s.1 /\ ns_ext st' s.1 /\ delivers l' Q s.1 s.2
                                else Q e s) (st', c)
  end.

Lemma delivers_ext l Q st st' c : ns_ext st st' -> delivers l Q st c -> delivers l Q st' c.
Proof.
  intros He. destruct l as [|[k v] l]; cbn; intros Hd st2 Hok He2; apply Hd; (done || by transitivity st').
Qed.

Lemma delivers_mono l (Q Q' : couchstore_error_t -> F * C -> Prop) st c :
  (forall e s, Q e s -> Q' e s) -> delivers l Q st c -> delivers l Q' st c.
Proof.
  intros HQ. revert st c. induction l as [|[k v] l IH]; intros st c; cbn [delivers].
  - intros Hd st' Hok He. by apply HQ, Hd.
  - intros Hd st' Hok He. eapply wp_mono; [by apply Hd|]. intros e s. cbn. case_decide; [|apply HQ].
    intros (? & ? & ?). auto.
Qed.

Lemma delivers_app l1 l2 Q st c :
  delivers (l1 ++ l2) Q st c ->
  delivers l1 (fun e s => if decide (e = COUCHSTORE_SUCCESS)
                          then ns_ok s.1 /\ ns_ext st s.1 /\ delivers l2 Q s.1 s.2 else Q e s) st c.
Proof.
  revert st c. induction l1 as [|[k v] l1 IH]; intros st c; cbn [app delivers].
  - intros Hd st' Hok He. rewrite decide_True by done. split_and!; [done..|]. by eapply delivers_ext.
  - intros Hd st' Hok He. eapply wp_mono; [by apply Hd|]. intros e s. cbn. case_decide; [|done].
    intros (Hok1 & He1 & Hd1). split_and!; [done..|]. eapply delivers_mono; [|by apply IH].
    intros e' s'. cbn. case_decide; [|done]. intros (? & ? & ?). split_and!; [done| |done].
    transitivity st'; [done|]. by transitivity s.1.
Qed.

(** ** Sticky programs *)

Lemma sticky_not_found ks fl : sticky (not_found rq ks fl).
Proof. induction ks as [|k ks IH]; cbn; solve_sticky. Qed.
Lemma sticky_kv_lookup fuel buf ks fl : sticky (kv_lookup rq fuel buf ks fl).
Proof. revert buf ks fl. induction fuel as [|fuel IH]; intros [|b buf] [|k ks] fl; cbn [kv_lookup]; solve_sticky. Qed.
Lemma sticky_kp_lookup rec fuel buf ks fl :
  (forall p ks fl, sticky (rec p ks fl)) -> sticky (kp_lookup rq rec fuel buf ks fl).
Proof.
  intros Hr. unfold node_callback. revert buf ks fl.
  induction fuel as [|fuel IH]; intros [|b buf] [|k ks] fl; cbn [kp_lookup]; unfold node_callback;
    rewrite ?no_node_callback; solve_sticky.
Qed.
#[local] Hint Resolve sticky_not_found sticky_kv_lookup : sticky.
Lemma sticky_btree_lookup_inner fuel pos ks fl : sticky (btree_lookup_inner rq fuel pos ks fl).
Proof.
  revert pos ks fl. induction fuel as [|fuel IH]; intros pos [|k ks] fl; cbn [btree_lookup_inner]; solve_sticky.
  apply sticky_kp_lookup. auto.
Qed.

#[local] Hint Resolve sticky_btree_lookup_inner : sticky.

(** ** Lookups *)

Definition keys_sorted (ks : list bytes) : Prop := StronglySorted klt ks.

(** What the end of btree_lookup_inner does with the result of a loop. *)
Definition finish (r : list bytes * lookup_flags * couchstore_error_t) : M (F * C) (lookup_flags * couchstore_error_t) :=
  let '(ks, fl, e) := r in
  if decide (e <> COUCHSTORE_SUCCESS) then ret (fl, e) else not_found rq ks fl.

Lemma sticky_finish r : sticky (finish r).
Proof. destruct r as [[ks fl] e]. unfold finish. solve_sticky. Qed.
#[local] Hint Resolve sticky_finish : sticky.

Lemma keys_sorted_cons k ks : keys_sorted (k :: ks) -> keys_sorted ks /\ before [k] ks.
Proof.
  intros [Hs Hall]%StronglySorted_inv. split; [done|]. intros u w ->%list_elem_of_singleton Hw.
  by eapply list.Forall_forall in Hall.
Qed.

Lemma keys_sorted_app k1 k2 : keys_sorted (k1 ++ k2) -> keys_sorted k1 /\ keys_sorted k2.
Proof.
  unfold keys_sorted. induction k1 as [|x k1 IH]; cbn; [split; [constructor|done]|].
  intros [Hs Hall]%StronglySorted_inv. apply IH in Hs as [H1 H2].
  apply list.Forall_app in Hall as [Ha _]. split; [by constructor|done].
Qed.

Lemma value_of_skip k x kvs : x.1 <> k -> value_of k (x :: kvs) = value_of k kvs.
Proof. intros Hne. destruct x as [k' v']. cbn in *. by rewrite decide_False. Qed.

Lemma found_skip x kvs ks : (forall k, k ∈ ks -> x.1 <> k) -> found (x :: kvs) ks = found kvs ks.
Proof.
  induction ks as [|k ks IH]; intros Hk; [done|]. unfold found in *. cbn [map].
  rewrite value_of_skip by (apply Hk, list_elem_of_here). f_equal. apply IH. intros. by apply Hk, list_elem_of_further.
Qed.

Lemma present_skip x kvs ks : (forall k, k ∈ ks -> x.1 <> k) -> present (x :: kvs) ks -> present kvs ks.
Proof.
  induction ks as [|k ks IH]; intros Hk; [done|]. cbn. intros [H1 H2]. split.
  - intros Hne. specialize (H1 Hne). apply elem_of_cons in H1 as [->|]; [|done]. exfalso.
    by apply (Hk x.1), eq_refl; apply list_elem_of_here.
  - apply IH; [|done]. intros. by apply Hk, list_elem_of_further.
Qed.

Lemma wp_not_found_one k st c Q :
  ns_ok st -> delivers [(k, None)] (fun e s => Q (no_fold, e) s) st c ->
  wp (not_found rq [k] no_fold) Q (st, c).
Proof.
  intros Hst Hd. cbn. apply wp_bind; [intros; solve_sticky|]. eapply wp_mono; [apply Hd; [done|reflexivity]|].
  intros e [st' c']. cbn. case_decide as He; [|by apply wp_ret].
  subst e. intros (? & _ & Hd'). apply wp_ret. apply Hd'; [done|reflexivity].
Qed.

Lemma wp_kv_lookup fuel kvs ks st c Q :
  ns_ok st -> kvs_ok kvok kvs -> ksorted kvs -> Forall vkey ks -> keys_sorted ks -> present kvs ks ->
  (length (items_buf (map leaf_item kvs)) <= fuel)%nat ->
  delivers (found kvs ks) (fun e s => Q (no_fold, e) s) st c ->
  wp (kv_lookup rq fuel (items_buf (map leaf_item kvs)) ks no_fold) (fun r s => wp (finish r) Q s) (st, c).
Proof.
  revert fuel ks st c. induction kvs as [|[k v] kvs IH]; intros fuel ks st c Hst Hok Hs Hvk Hks Hp Hfuel Hd.
  { destruct ks as [|k [|k2 ks]].
    - destruct fuel; (apply wp_ret; apply wp_ret; apply Hd; [done|reflexivity]).
    - destruct fuel; (apply wp_ret; by apply wp_not_found_one).
    - destruct Hp as [Hp _]. specialize (Hp ltac:(done)). by apply not_elem_of_nil in Hp. }
  inversion_clear Hok as [|? ? Hkv Hok']. cbn [fst snd] in Hkv. pose proof Hs as [Hs' Hb]%ksorted_cons.
  destruct (read_kv_items (leaf_item (k, v)) (map leaf_item kvs)) as (Er & Ed & _ & Hlt); [by eapply kvok_fits|].
  cbn [map fst snd leaf_item nl_key nl_data] in Er, Ed, Hlt, Hb, Hfuel. cbn [map].
  destruct ks as [|k0 ks].
  { destruct fuel, (items_buf _); (apply wp_ret; apply wp_ret; apply Hd; [done|reflexivity]). }
  destruct (items_buf (leaf_item (k, v) :: map leaf_item kvs)) as [|b0 buf0] eqn:Eb; [cbn in Hlt; lia|].
  destruct fuel as [|fuel]; [cbn in Hfuel; lia|]. cbn [kv_lookup lf_in_fold lf_fold no_fold].
  rewrite Er. apply wp_bind; [intros [[??]?]; solve_sticky|]. apply wp_ret. rewrite Ed.
  inversion_clear Hvk as [|? ? Hv0 Hvk']. destruct (keys_sorted_cons _ _ Hks) as [Hks' Hbk].
  destruct (Util.compare_spec k k0 (kvok_key _ _ Hkv) Hv0)
    as [(cv & E & Hc & Hlt0)|[(cv & E & -> & Heq)|(cv & E & Hc & Hgt)]].
  - (* the item is below the key *)
    assert (forall k', k' ∈ k0 :: ks -> (k, v).1 <> k') as Hne.
    { cbn. intros k' [->|Hk']%elem_of_cons <-; [by apply klt_irrefl in Hlt0|].
      assert (klt k0 k) as Hx by (apply Hbk; [by apply list_elem_of_singleton|done]). by apply (klt_asym k k0). }
    rewrite found_skip in Hd by done. apply present_skip in Hp; [|done].
    apply wp_bind; [intros; solve_sticky|]. rewrite E. apply wp_ret. rewrite decide_False by lia.
    apply wp_bind; [intros [??]; solve_sticky|]. apply wp_ret. rewrite decide_False by lia.
    apply IH; [done|done|done|by constructor|done|done|lia|done].
  - (* found *)
    subst k0. assert (forall k', k' ∈ ks -> (k, v).1 <> k') as Hne.
    { cbn. intros k' Hk' <-. apply (klt_irrefl k). apply Hbk; [by apply list_elem_of_singleton|done]. }
    destruct Hp as [_ Hp]. apply present_skip in Hp; [|done].
    unfold found in Hd. cbn [map] in Hd. rewrite value_of_here in Hd. fold (found ((k, v) :: kvs) ks) in Hd.
    rewrite found_skip in Hd by done. cbn [delivers] in Hd. specialize (Hd st Hst ltac:(reflexivity)).
    apply wp_bind; [intros; solve_sticky|]. rewrite E. apply wp_ret. rewrite decide_False by (cbn; naive_solver).
    apply wp_bind; [intros [??]; solve_sticky|]. apply wp_ret. rewrite decide_True by auto.
    apply wp_bind; [intros; solve_sticky|]. eapply wp_mono; [exact Hd|]. intros e [st' c']. cbn [fst snd].
    case_decide as He; [|intros HQ; apply wp_ret; cbn; rewrite decide_True by done; by apply wp_ret].
    intros (Hst' & _ & Hd'). cbn [tail]. apply IH; [done..|lia|done].
  - (* the item is above the key, which is not there *)
    assert (k0 ∉ map fst ((k, v) :: kvs)) as Hnot.
    { cbn. intros [->|Hin]%elem_of_cons; [by apply klt_irrefl in Hgt|].
      apply (klt_asym k0 k); [done|]. apply Hb; [by apply list_elem_of_singleton|done]. }
    assert (ks = []) as ->. { destruct ks; [done|]. destruct Hp as [Hp _]. by specialize (Hp ltac:(done)). }
    rewrite found_skip in Hd by (intros ? ->%list_elem_of_singleton <-; apply Hnot, list_elem_of_here).
    apply wp_bind; [intros; solve_sticky|]. rewrite E. apply wp_ret. rewrite decide_False by (cbn; naive_solver).
    apply wp_bind; [intros [??]; solve_sticky|]. apply wp_ret. rewrite decide_False by (cbn; intros [?|[_ ?]]; [lia|done]).
    apply IH; [done|done|done|by constructor|done|by cbn|lia|done].
Qed.

(** *** Interior nodes *)

Lemma key_range_spec k ks :
  vkey k -> Forall vkey ks -> keys_sorted ks ->
  exists now later, key_range rq k ks = Some (now, later) /\ ks = now ++ later /\
    (forall u, u ∈ now -> u = k \/ klt u k) /\ before [k] later.
Proof.
  intros Hk. induction ks as [|u ks IH]; intros Hv Hs.
  { exists [], []. split_and!; [done|done|by intros ? ?%not_elem_of_nil|by intros ? ? _ ?%not_elem_of_nil]. }
  inversion_clear Hv as [|? ? Hu Hv']. destruct (keys_sorted_cons _ _ Hs) as [Hs' Hb].
  destruct (IH Hv' Hs') as (now & later & E & -> & Hn & Hl). cbn [key_range].
  destruct (Util.compare_spec k u Hk Hu) as [(cv & -> & Hc & Hlt)|[(cv & -> & -> & Heq)|(cv & -> & Hc & Hgt)]];
    cbn [mbind option_bind].
  - rewrite decide_False by lia. exists [], (u :: now ++ later).
    split_and!; [done|done|by intros ? ?%not_elem_of_nil|].
    intros x w ->%list_elem_of_singleton [->|Hw]%elem_of_cons; [done|].
    eapply klt_trans; [exact Hlt|]. apply Hb; [by apply list_elem_of_singleton|done].
  - rewrite decide_True, E by lia. cbn. exists (u :: now), later. split_and!; [done|done| |done].
    intros x [->|Hx]%elem_of_cons; [by left|by apply Hn].
  - rewrite decide_True, E by lia. cbn. exists (u :: now), later. split_and!; [done|done| |done].
    intros x [->|Hx]%elem_of_cons; [by right|by apply Hn].
Qed.

Lemma found_app_l a b ks : (forall k, k ∈ ks -> k ∉ map fst b) -> found (a ++ b) ks = found a ks.
Proof.
  intros Hk. apply map_ext_in. intros k Hin%list_elem_of_In. rewrite value_of_app.
  destruct (value_of k a); [done|]. by rewrite value_of_not_in by auto.
Qed.

Lemma found_app_r a b ks : (forall k, k ∈ ks -> k ∉ map fst a) -> found (a ++ b) ks = found b ks.
Proof.
  intros Hk. apply map_ext_in. intros k Hin%list_elem_of_In. by rewrite value_of_app, (value_of_not_in k a) by auto.
Qed.

Lemma present_app_l a b ks ks' :
  (forall k, k ∈ ks -> k ∉ map fst b) -> present (a ++ b) (ks ++ ks') -> present a ks.
Proof.
  induction ks as [|k ks IH]; intros Hk; cbn; [done|]. rewrite map_app. intros [H1 H2]. split.
  - intros Hne. destruct (proj1 (elem_of_app _ _ _) (H1 ltac:(by destruct ks))) as [|Hb]; [done|].
    exfalso. by apply (Hk k); [apply list_elem_of_here|].
  - apply IH; [|done]. intros. by apply Hk, list_elem_of_further.
Qed.

Lemma present_app_r a b ks ks' :
  (forall k, k ∈ ks' -> k ∉ map fst a) -> present (a ++ b) (ks ++ ks') -> present b ks'.
Proof.
  induction ks as [|k ks IH]; intros Hk; cbn; [|intros [_ ?]; auto].
  induction ks' as [|k ks' IH]; cbn; [done|]. rewrite map_app. intros [H1 H2]. split.
  - intros Hne. destruct (proj1 (elem_of_app _ _ _) (H1 Hne)) as [Ha|]; [|done].
    exfalso. by apply (Hk k); [apply list_elem_of_here|].
  - apply IH; [|done]. intros. by apply Hk, list_elem_of_further.
Qed.

Lemma child_raw st h c rest :
  child_at st h c ->
  exists raw, as_raw_node_pointer (nl_data (ch_item c) ++ rest) = Some raw /\
    decode_raw48 (rnp_pointer raw) = np_pointer (ch_ptr c).
Proof.
  intros [_ Hn]. apply node_at_range in Hn. unfold ch_item, encode_pointer. cbn [nl_data].
  eexists. split; [rewrite <- !app_assoc; apply as_raw_node_pointer_app; by autorewrite with len|].
  cbn [rnp_pointer]. by rewrite decode_encode_raw48, Z.mod_small by lia.
Qed.

Definition lookup_ok (h : nat)
    (rec : Z -> list bytes -> lookup_flags -> M (F * C) (lookup_flags * couchstore_error_t)) : Prop :=
  forall st c pos kvs sz ks Q,
    ns_ok st -> node_at kvok rval st h pos kvs sz -> ksorted kvs -> ks <> [] -> Forall vkey ks ->
    keys_sorted ks -> present kvs ks ->
    delivers (found kvs ks) (fun e s => Q (no_fold, e) s) st c -> wp (rec pos ks no_fold) Q (st, c).

Lemma wp_kp_lookup rec h cs fuel ks st c Q :
  lookup_ok h rec -> (forall p ks fl, sticky (rec p ks fl)) ->
  ns_ok st -> Forall (child_at st h) cs -> ksorted (ch_all cs) -> Forall vkey ks -> keys_sorted ks ->
  present (ch_all cs) ks -> (length (items_buf (map ch_item cs)) <= fuel)%nat ->
  delivers (found (ch_all cs) ks) (fun e s => Q (no_fold, e) s) st c ->
  wp (kp_lookup rq rec fuel (items_buf (map ch_item cs)) ks no_fold) (fun r s => wp (finish r) Q s) (st, c).
Proof.
  intros Hrec Hrs. pose proof (fun fuel buf ks fl => sticky_kp_lookup rec fuel buf ks fl Hrs) as Hkl.
  revert fuel ks st c. induction cs as [|ch cs IH]; intros fuel ks st c Hst Hcs Hs Hvk Hks Hp Hfuel Hd.
  { destruct ks as [|k [|k2 ks]].
    - destruct fuel; (apply wp_ret; apply wp_ret; apply Hd; [done|reflexivity]).
    - destruct fuel; (apply wp_ret; by apply wp_not_found_one).
    - destruct Hp as [Hp _]. specialize (Hp ltac:(done)). by apply not_elem_of_nil in Hp. }
  inversion_clear Hcs as [|? ? Hch Hcs']. cbn [map] in *.
  destruct (read_kv_items (ch_item ch) (map ch_item cs)) as (Er & Ed & Ev & Hlt);
    [by eapply (child_fits kvok rval kvok_key kvok_fits rval_size)|].
  destruct (child_key kvok rval kvok_key kvok_fits _ _ _ Hch) as [Hvc _].
  destruct (child_before kvok rval _ _ _ _ Hch Hs) as (Hs1 & Hs2 & Hbc).
  pose proof (child_keys kvok rval _ _ _ Hch Hs1) as Hle.
  destruct ks as [|k0 ks].
  { destruct fuel, (items_buf _); (apply wp_ret; apply wp_ret; apply Hd; [done|reflexivity]). }
  destruct (items_buf (ch_item ch :: map ch_item cs)) as [|b0 buf0] eqn:Eb; [cbn in Hlt; lia|].
  destruct fuel as [|fuel]; [cbn in Hfuel; lia|]. cbn [kp_lookup lf_in_fold lf_fold no_fold].
  rewrite Er. apply wp_bind; [intros [[??]?]; unfold node_callback; rewrite no_node_callback; solve_sticky|].
  apply wp_ret. rewrite Ed, Ev. inversion_clear Hvk as [|? ? Hv0 Hvk'].
  change (nl_key (ch_item ch)) with (np_key (ch_ptr ch)) in *. set (key := np_key (ch_ptr ch)) in *.
  change (ch_all (ch :: cs)) with (ch_kvs ch ++ ch_all cs) in *.
  apply wp_bind; [intros; unfold node_callback; rewrite no_node_callback; solve_sticky|].
  destruct (keys_sorted_cons _ _ Hks) as [Hks' Hb0].
  assert (forall u, klt key u -> u ∉ map fst (ch_kvs ch)) as Hnotl.
  { intros u Hu [->|Hx]%Hle; [by apply klt_irrefl in Hu|by apply klt_asym in Hu]. }
  assert (forall u, u = key \/ klt u key -> u ∉ map fst (ch_all cs)) as Hnotr.
  { intros u Hu Hin. assert (klt key u) as Hx by (apply Hbc; [by apply list_elem_of_singleton|done]).
    destruct Hu as [->|Hu]; [by apply klt_irrefl in Hx|by apply klt_asym in Hu]. }
  destruct (compare_cases key k0 Hvc Hv0) as (cv & -> & [[Hc Hlt0]|[Hc Hge0]]); apply wp_ret.
  - (* every key of the child is below *)
    rewrite decide_False by lia.
    assert (forall u, u ∈ k0 :: ks -> u ∉ map fst (ch_kvs ch)) as Hn.
    { intros u [->|Hu]%elem_of_cons; apply Hnotl; [done|]. eapply klt_trans; [exact Hlt0|].
      apply Hb0; [by apply list_elem_of_singleton|done]. }
    rewrite found_app_r in Hd by done. apply (present_app_r _ _ []) in Hp; [|done].
    apply IH; [done|done|done|by constructor|done|done|lia|done].
  - rewrite decide_True by lia.
    destruct (key_range_spec key ks Hvc Hvk' Hks') as (now & later & -> & -> & Hnow & Hlater).
    apply wp_bind; [intros [??]; unfold node_callback; rewrite no_node_callback; solve_sticky|]. apply wp_ret.
    destruct (child_raw st h ch (items_buf (map ch_item cs)) Hch) as (raw & -> & Eptr).
    apply wp_bind; [intros; unfold node_callback; rewrite no_node_callback; solve_sticky|]. apply wp_ret.
    rewrite no_node_callback, Eptr.
    apply wp_bind; [intros; unfold node_callback; rewrite no_node_callback; solve_sticky|]. apply wp_ret.
    rewrite decide_False by auto.
    apply wp_bind; [intros [??]; unfold node_callback; rewrite no_node_callback; solve_sticky|].
    assert (forall u, u ∈ k0 :: now -> u = key \/ klt u key) as Hn1.
    { intros u [->|Hu]%elem_of_cons; [done|by apply Hnow]. }
    assert (forall u, u ∈ later -> u ∉ map fst (ch_kvs ch)) as Hn2.
    { intros u Hu. apply Hnotl, Hlater; [by apply list_elem_of_singleton|done]. }
    change (k0 :: now ++ later) with ((k0 :: now) ++ later) in *.
    assert (found (ch_kvs ch ++ ch_all cs) ((k0 :: now) ++ later) =
            found (ch_kvs ch) (k0 :: now) ++ found (ch_all cs) later) as Ef.
    { unfold found at 1. rewrite map_app. f_equal; [apply (found_app_l _ _ (k0 :: now)); auto|by apply (found_app_r _ _ later)]. }
    rewrite Ef in Hd. apply delivers_app in Hd.
    apply list.Forall_app in Hvk' as [Hvn Hvl].
    apply keys_sorted_app in Hks as [Hks1 Hks2].
    pose proof (present_app_l _ _ _ _ (fun u Hu => Hnotr u (Hn1 u Hu)) Hp) as Hp1.
    pose proof (present_app_r _ _ _ _ Hn2 Hp) as Hp2.
    eapply (Hrec st c); [done|apply Hch|done|done|by constructor|done|done|].
    eapply delivers_mono; [|exact Hd]. intros e [st' c']. cbn [fst snd]. case_decide as He.
    + intros (Hst' & Hext & Hd'). rewrite decide_False by auto. cbn [lf_in_fold no_fold]. unfold node_callback.
      rewrite no_node_callback. apply wp_bind; [intros; solve_sticky|]. apply wp_ret. rewrite decide_False by auto.
      apply IH; [done| |done|done|done|done|lia|done].
      eapply List.Forall_impl; [|exact Hcs']. intros. by eapply child_at_ext.
    + intros HQ. rewrite decide_True by done. apply wp_ret. cbn. rewrite decide_True by done. by apply wp_ret.
Qed.

(** A lookup reports every key, with its value in the tree if it is there. *)
Lemma wp_lookup_inner h fuel : (h < fuel)%nat -> lookup_ok h (btree_lookup_inner rq fuel).
Proof.
  revert fuel. induction h as [|h IH]; intros [|fuel] Hfuel st c pos kvs sz [|k ks] Q Hst Hn Hs Hne Hvk Hks Hp Hd;
    try lia; try done; cbn [btree_lookup_inner].
  all: apply wp_bind; [intros [[|??]|?]; solve_sticky; apply sticky_kp_lookup; auto with sticky|]; apply wp_on_file; cbn [snd].
  - destruct Hn as (_ & Hok & Hstored). eapply wp_read_node; [done|exact Hstored|]. intros st1 Hst1 Hext1.
    change (node_buf KV_NODE (map leaf_item kvs)) with (Byte.x01 :: items_buf (map leaf_item kvs)). cbv iota.
    rewrite decide_False, decide_True by done. apply (wp_bind _ finish); [auto with sticky|].
    eapply wp_kv_lookup; [done..|by eapply delivers_ext].
  - destruct Hn as (cs & dsz & _ & Hcs & -> & _ & Hstored). eapply wp_read_node; [done|exact Hstored|].
    intros st1 Hst1 Hext1.
    change (node_buf KP_NODE (map ch_item cs)) with (Byte.x00 :: items_buf (map ch_item cs)). cbv iota.
    rewrite decide_True by done. apply (wp_bind _ finish); [auto with sticky|].
    eapply (wp_kp_lookup _ h); [apply IH; lia|auto with sticky|done| |done..|by eapply delivers_ext].
    eapply List.Forall_impl; [|exact Hcs]. intros c0 Hc0. by apply (child_at_ext kvok rval st st1 h c0).
Qed.

(** ** Folds *)

Section Fold.
Variable k0 : bytes.
Hypothesis k0_ok : vkey k0.

Definition bound_ok (ub : option bytes) : Prop :=
  match ub with Some k1 => vkey k1 /\ ~ klt k1 k0 | None => True end.
Definition fold_keys (ub : option bytes) : list bytes := k0 :: match ub with Some k1 => [k1] | None => [] end.

(** The flags after the items [kvs]: the end of the range was met, or not. *)
Definition fold_flags (b : bool) (ub : option bytes) (kvs : list kv) (fl : lookup_flags) : Prop :=
  if past cmp ub kvs then fl = no_fold else lf_fold fl = true /\ (b = true -> lf_in_fold fl = true).

Lemma range_app ub a b : range cmp k0 ub (a ++ b) = range cmp k0 ub a ++ range cmp k0 ub b.
Proof. unfold range. by rewrite List.filter_app, map_app. Qed.

Lemma past_app ub a b : past cmp ub (a ++ b) = past cmp ub a || past cmp ub b.
Proof. destruct ub; cbn; [apply existsb_app|done]. Qed.

Lemma range_none ub kvs : (forall x, x ∈ kvs -> in_range cmp k0 ub x = false) -> range cmp k0 ub kvs = [].
Proof.
  unfold range. induction kvs as [|x kvs IH]; intros Hx; [done|]. cbn. rewrite (Hx x) by apply list_elem_of_here.
  apply IH. intros. by apply Hx, list_elem_of_further.
Qed.

Lemma cmp_above a b : vkey a -> vkey b -> klt b a -> 0 < default 0 (cmp a b).
Proof.
  intros Ha Hb Hlt. destruct (Util.compare_spec a b Ha Hb) as [(c & -> & ? & Hx)|[(c & -> & ? & Hx)|(c & -> & ? & ?)]]; cbn.
  - by apply klt_asym in Hx.
  - subst b. by apply klt_irrefl in Hlt.
  - done.
Qed.

Lemma cmp_below a b : vkey a -> vkey b -> klt a b -> default 0 (cmp a b) < 0.
Proof.
  intros Ha Hb Hlt. destruct (Util.compare_spec a b Ha Hb) as [(c & -> & ? & ?)|[(c & -> & ? & Hx)|(c & -> & ? & Hx)]]; cbn.
  - done.
  - subst b. by apply klt_irrefl in Hlt.
  - by apply klt_asym in Hx.
Qed.

(** Past the end of the range there is nothing to deliver. *)
Lemma range_past k1 kvs :
  kvs_ok kvok kvs -> vkey k1 -> before [k1] (map fst kvs) -> range cmp k0 (Some k1) kvs = [].
Proof.
  intros Hok Hk1 Hb. apply range_none. intros x Hx. unfold in_range. apply andb_false_intro2, Z.leb_gt.
  apply cmp_above; [|done|].
  - eapply list.Forall_forall in Hok; [|exact Hx]. by eapply kvok_key.
  - apply Hb; [by apply list_elem_of_singleton|]. apply list_elem_of_fmap. by exists x.
Qed.

(** Before its start neither. *)
Lemma range_before ub kvs :
  kvs_ok kvok kvs -> bound_ok ub -> (forall u, u ∈ map fst kvs -> klt u k0) ->
  range cmp k0 ub kvs = [] /\ past cmp ub kvs = false.
Proof.
  intros Hok Hub Hlt.
  assert (Hx : forall x, x ∈ kvs -> vkey x.1 /\ klt x.1 k0).
  { intros x Hx. split; [|apply Hlt, list_elem_of_fmap; by exists x].
    eapply list.Forall_forall in Hok; [|exact Hx]. by eapply kvok_key. }
  split.
  - apply range_none. intros x [Hv Hl]%Hx. unfold in_range. apply andb_false_intro1, Z.leb_gt. by apply cmp_below.
  - destruct ub as [k1|]; [|done]. destruct Hub as [Hk1 Hle]. cbn. apply not_true_is_false. intros Hp.
    apply existsb_exists in Hp as (x & Hin%list_elem_of_In & Hc%Z.ltb_lt). apply Hx in Hin as [Hv Hl].
    destruct (Util.compare_spec k0 k1 k0_ok Hk1) as [(c & _ & _ & Hy)|[(c & _ & _ & <-)|(c & _ & _ & Hy)]]; [| |done].
    + assert (klt x.1 k1) as Hz by (by eapply klt_trans). apply cmp_below in Hz; [lia|done|done].
    + apply cmp_below in Hl; [lia|done|done].
Qed.

(** The post-condition of a fold over [kvs]. *)
Definition fold_post (b : bool) (ub : option bytes) (kvs : list kv) (R : couchstore_error_t -> F * C -> Prop)
    (Q : lookup_flags * couchstore_error_t -> F * C -> Prop) : Prop :=
  forall fl e s, (e = COUCHSTORE_SUCCESS -> fold_flags b ub kvs fl) -> R e s -> Q (fl, e) s.

Lemma not_found_fold ks fl (s : F * C) : lf_fold fl = true -> not_found rq ks fl s = Ret (fl, COUCHSTORE_SUCCESS) s.
Proof. intros E. destruct ks; cbn; [done|]. by rewrite E. Qed.

(** The end of a fold over no items. *)
Lemma wp_fold_nil b ub ks fl R Q st c :
  ns_ok st -> lf_fold fl = true -> lf_in_fold fl = b -> delivers [] R st c -> fold_post b ub [] R Q ->
  wp (finish (ks, fl, COUCHSTORE_SUCCESS)) Q (st, c).
Proof.
  intros Hst Hf Hb Hd HQ. cbn. rewrite decide_False by auto. unfold wp. rewrite not_found_fold by done.
  intros _. apply HQ; [|apply Hd; [done|reflexivity]]. intros _. unfold fold_flags.
  replace (past cmp ub []) with false by (by destruct ub). split; [done|congruence].
Qed.

(** The end of the range is met at the first item of [kvs]. *)
Lemma wp_fold_end b k1 kvs R Q st c :
  ns_ok st -> past cmp (Some k1) kvs = true -> delivers [] R st c -> fold_post b (Some k1) kvs R Q ->
  wp (finish ([], no_fold, COUCHSTORE_SUCCESS)) Q (st, c).
Proof.
  intros Hst Hp Hd HQ. cbn. rewrite decide_False by auto. apply wp_ret.
  apply HQ; [|apply Hd; [done|reflexivity]]. intros _. unfold fold_flags. by rewrite Hp.
Qed.

Lemma wp_fold_error ks fl e b ub kvs (R : couchstore_error_t -> F * C -> Prop) Q s :
  e <> COUCHSTORE_SUCCESS -> R e s -> fold_post b ub kvs R Q -> wp (finish (ks, fl, e)) Q s.
Proof. intros He HR HQ. cbn. rewrite decide_True by done. apply wp_ret. by apply HQ. Qed.

Lemma wp_kv_fold kvs fuel b ub R Q st c :
  ns_ok st -> kvs_ok kvok kvs -> ksorted kvs -> bound_ok ub -> b = true \/ ub = None ->
  (length (items_buf (map leaf_item kvs)) <= fuel)%nat ->
  delivers (range cmp k0 ub kvs) R st c -> fold_post b ub kvs R Q ->
  wp (kv_lookup rq fuel (items_buf (map leaf_item kvs)) (fold_keys ub) {| lf_fold := true; lf_in_fold := b |})
     (fun r s => wp (finish r) Q s) (st, c).
Proof.
  revert fuel b R Q st c. induction kvs as [|[k v] kvs IH]; intros fuel b R Q st c Hst Hok Hs Hub Hb Hfuel Hd HQ.
  { destruct fuel; apply wp_ret; by eapply wp_fold_nil. }
  inversion_clear Hok as [|? ? Hkv Hok']. cbn [fst snd] in Hkv. pose proof Hs as [Hs' Hbk]%ksorted_cons.
  pose proof (kvok_key _ _ Hkv) as Hvk.
  destruct (read_kv_items (leaf_item (k, v)) (map leaf_item kvs)) as (Er & Ed & _ & Hlt); [by eapply kvok_fits|].
  cbn [map fst snd leaf_item nl_key nl_data] in Er, Ed, Hlt, Hbk, Hfuel. cbn [map].
  destruct (items_buf (leaf_item (k, v) :: map leaf_item kvs)) as [|b0 buf0] eqn:Eb; [cbn in Hlt; lia|].
  destruct fuel as [|fuel]; [cbn in Hfuel; lia|]. unfold fold_keys. cbn [kv_lookup lf_in_fold lf_fold].
  rewrite Er. apply wp_bind; [intros [[??]?]; solve_sticky|]. apply wp_ret. rewrite Ed.
  apply wp_bind; [intros; solve_sticky|].
  assert (Hpast : past cmp ub ((k, v) :: kvs) =
    match ub with Some k1 => 0 <? default 0 (cmp k k1) | None => false end || past cmp ub kvs) by (by destruct ub).
  assert (Hrange : range cmp k0 ub ((k, v) :: kvs) =
    (if in_range cmp k0 ub (k, v) then [(k, Some v)] else []) ++ range cmp k0 ub kvs)
    by (unfold range; cbn; by destruct (in_range cmp k0 ub (k, v))).
  unfold in_range in Hrange. cbn [fst] in Hrange.
  destruct (compare_cases k k0 Hvk k0_ok) as (cv & E & Hcv). rewrite E in *. cbn [from_option id] in Hrange. apply wp_ret.
  assert (Hcont : forall b' st' c' R', (b = true -> b' = true) -> (b' = true \/ ub = None) -> ns_ok st' ->
    past cmp ub ((k, v) :: kvs) = past cmp ub kvs -> delivers (range cmp k0 ub kvs) R' st' c' ->
    (forall e s, R' e s -> R e s) ->
    wp (kv_lookup rq fuel (items_buf (map leaf_item kvs)) (fold_keys ub) {| lf_fold := true; lf_in_fold := b' |})
       (fun r s => wp (finish r) Q s) (st', c')).
  { intros b' st' c' R' Hb' Hor Hst' Hpe Hd' HR. apply (IH fuel b' R'); [done|done|done|done|done|lia|done|].
    intros fl e s He HR'. apply HQ; [|by apply HR]. intros ->. specialize (He eq_refl). unfold fold_flags in *.
    rewrite Hpe. destruct (past cmp ub kvs); [done|]. destruct He. auto. }
  destruct (b && match ub with Some k1 => 0 <? default 0 (cmp k k1) | None => false end) eqn:Hend.
  - (* the end of the range *)
    apply andb_true_iff in Hend as [-> Hc1]. destruct ub as [k1|]; [|done]. apply Z.ltb_lt in Hc1. destruct Hub as [Hk1 Hle1]. rewrite decide_False by (cbn; naive_solver).
    destruct (Util.compare_spec k k1 Hvk Hk1) as [(c1 & E1 & ? & ?)|[(c1 & E1 & ? & ?)|(c1 & E1 & ? & Hgt)]];
      rewrite E1 in *; cbn [from_option id] in Hc1; [lia|lia|].
    assert (klt k0 k) as Hgt0.
    { destruct Hcv as [[_ Hl]|[_ [->|Hl]]]; [|done|done]. exfalso. apply Hle1. by eapply klt_trans. }
    apply wp_bind; [intros [??]; solve_sticky|]. apply wp_bind; [intros; solve_sticky|]. apply wp_ret.
    rewrite decide_True by done. apply wp_ret. cbn [lf_in_fold].
    rewrite decide_False.
    2:{ intros [->|[_ ?]]; [|done]. pose proof (cmp_above k k0 Hvk k0_ok Hgt0) as Hx. rewrite E in Hx. by cbn in Hx. }
    rewrite (range_past k1 kvs) in Hrange; [|done|done|by eapply before_trans].
    rewrite Hrange in Hd. cbn [from_option id] in Hd. rewrite (proj2 (Z.leb_gt c1 0)), andb_false_r in Hd by done.
    destruct fuel, (items_buf _); apply wp_ret; (eapply wp_fold_end; [done| |exact Hd|exact HQ]);
      rewrite Hpast; cbn [from_option id]; by rewrite (proj2 (Z.ltb_lt 0 c1)).
  - (* inside the range, or before its start *)
    assert (match ub with Some k1 => 0 <? default 0 (cmp k k1) | None => false end = false) as Hin
      by (destruct Hb as [->| ->]; done).
    rewrite Hin in Hpast. cbn [orb] in Hpast.
    assert (match ub with Some k1 => default 0 (cmp k k1) <=? 0 | None => true end = true) as Hin'
      by (destruct ub; [apply Z.leb_le; by apply Z.ltb_ge in Hin|done]).
    rewrite Hin', andb_true_r in Hrange. rewrite Hrange in Hd.
    set (b' := b || (0 <=? cv)).
    apply wp_bind; [intros [??]; solve_sticky|].
    assert (Hstep : forall Q', Q' (fold_keys ub, {| lf_fold := true; lf_in_fold := b' |}) (st, c) ->
      wp (if decide (0 <= cv /\ true = true /\ b = false)
          then ret (k0 :: match ub with Some k1 => [k1] | None => [] end, {| lf_fold := true; lf_in_fold := true |})
          else if b then match match ub with Some k1 => [k1] | None => [] end with
                         | [] => ret (k0 :: match ub with Some k1 => [k1] | None => [] end, {| lf_fold := true; lf_in_fold := b |})
                         | k1 :: _ => let* c1 := need (cmp k k1) in
                             if decide (0 < c1) then ret ([], {| lf_fold := false; lf_in_fold := false |})
                             else ret (k0 :: match ub with Some k1 => [k1] | None => [] end, {| lf_fold := true; lf_in_fold := b |})
                         end
               else ret (k0 :: match ub with Some k1 => [k1] | None => [] end, {| lf_fold := true; lf_in_fold := b |})) Q' (st, c)).
    { intros Q' HQ'. unfold b' in HQ'. destruct b; cbn [orb] in HQ'.
      - rewrite decide_False by naive_solver. destruct ub as [k1|]; [|by apply wp_ret].
        apply wp_bind; [intros; solve_sticky|]. destruct Hub as [Hk1 _].
        destruct (compare_cases k k1 Hvk Hk1) as (c1 & E1 & _). rewrite E1 in Hin |- *. apply wp_ret.
        apply Z.ltb_ge in Hin. cbn in Hin. rewrite decide_False by lia. by apply wp_ret.
      - case_decide as Hge; apply wp_ret.
        + rewrite (proj2 (Z.leb_le 0 cv)) in HQ' by lia. done.
        + rewrite (proj2 (Z.leb_gt 0 cv)) in HQ' by lia. done. }
    apply Hstep. cbn [lf_in_fold]. clear Hstep.
    destruct (Z.leb_spec 0 cv) as [Hge|Hneg].
    + assert (b' = true) as -> by (unfold b'; apply orb_true_r). rewrite decide_True by lia.
      apply wp_bind; [intros; solve_sticky|]. eapply wp_mono; [apply Hd; [done|reflexivity]|].
      intros e [st' c']. cbn [fst snd]. case_decide as He.
      * intros (Hst' & _ & Hd'). eapply Hcont; [done|by left|done|done|exact Hd'|done].
      * intros HR. apply wp_ret. by eapply wp_fold_error.
    + assert (b' = b) as -> by (unfold b'; apply orb_false_r). rewrite decide_False by lia.
      eapply Hcont; [done|done|done|done|exact Hd|done].
Qed.

Definition fold_ok (h : nat)
    (rec : Z -> list bytes -> lookup_flags -> M (F * C) (lookup_flags * couchstore_error_t)) : Prop :=
  forall st c pos kvs sz ub R Q,
    ns_ok st -> node_at kvok rval st h pos kvs sz -> ksorted kvs -> bound_ok ub ->
    delivers (range cmp k0 ub kvs) R st c -> fold_post true ub kvs R Q ->
    wp (rec pos (fold_keys ub) folding) Q (st, c).

(** The part of the bound a child with last key [key] is given. *)
Lemma child_bound key ub kvs :
  vkey key -> bound_ok ub -> kvs_ok kvok kvs -> (forall u, u ∈ map fst kvs -> u = key \/ klt u key) ->
  exists ub' later, key_range rq key (match ub with Some k1 => [k1] | None => [] end) =
      Some (match ub' with Some k1 => [k1] | None => [] end, later) /\
    bound_ok ub' /\ range cmp k0 ub' kvs = range cmp k0 ub kvs /\ past cmp ub' kvs = past cmp ub kvs /\
    (past cmp ub kvs = true -> later = []).
Proof.
  intros Hkey Hub Hok Hle. destruct ub as [k1|]; [|by exists None, []]. pose proof Hub as [Hk1 _]. cbn.
  destruct (compare_cases key k1 Hkey Hk1) as (cv & -> & [[Hc Hlt]|[Hc Hge]]); cbn.
  - rewrite decide_False by lia. exists None, [k1].
    assert (Hbelow : forall x, x ∈ kvs -> default 0 (cmp x.1 k1) < 0).
    { intros x Hx. apply cmp_below; [|done|].
      - eapply list.Forall_forall in Hok; [|exact Hx]. by eapply kvok_key.
      - destruct (Hle x.1) as [->|?]; [apply list_elem_of_fmap; by exists x|done|by eapply klt_trans]. }
    assert (past cmp (Some k1) kvs = false) as Hp.
    { cbn. apply not_true_is_false. intros (x & Hin%list_elem_of_In & Hx%Z.ltb_lt)%existsb_exists.
      apply Hbelow in Hin. lia. }
    cbn in Hp. rewrite Hp. split_and!; [done|done| |done|done].
    unfold range. f_equal. apply filter_ext_in. intros x Hx%list_elem_of_In%Hbelow. unfold in_range.
    f_equal. symmetry. apply Z.leb_le. lia.
  - rewrite decide_True by lia. by exists (Some k1), [].
Qed.

Lemma range_past_child k1 kvs rest :
  kvs_ok kvok kvs -> kvs_ok kvok rest -> vkey k1 -> ksorted (kvs ++ rest) ->
  past cmp (Some k1) kvs = true -> range cmp k0 (Some k1) rest = [].
Proof.
  intros Hok Hokr Hk1 Hs (x & Hin%list_elem_of_In & Hc%Z.ltb_lt)%existsb_exists.
  apply range_past; [done|done|]. intros u w ->%list_elem_of_singleton (y & -> & Hy)%list_elem_of_fmap.
  apply ksorted_app in Hs as (_ & _ & Hb). specialize (Hb x y Hin Hy).
  assert (vkey x.1) as Hv by (eapply list.Forall_forall in Hok; [|exact Hin]; by eapply kvok_key).
  destruct (Util.compare_spec x.1 k1 Hv Hk1) as [(c & E & ? & ?)|[(c & E & ? & ?)|(c & E & ? & ?)]];
    rewrite E in Hc; cbn in Hc; [lia|lia|by eapply klt_trans].
Qed.

Lemma wp_kp_fold rec h cs fuel b ub R Q st c :
  fold_ok h rec -> (forall p ks fl, sticky (rec p ks fl)) ->
  ns_ok st -> Forall (child_at st h) cs -> ksorted (ch_all cs) -> bound_ok ub ->
  (length (items_buf (map ch_item cs)) <= fuel)%nat ->
  delivers (range cmp k0 ub (ch_all cs)) R st c -> fold_post b ub (ch_all cs) R Q ->
  wp (kp_lookup rq rec fuel (items_buf (map ch_item cs)) (fold_keys ub) {| lf_fold := true; lf_in_fold := b |})
     (fun r s => wp (finish r) Q s) (st, c).
Proof.
  intros Hrec Hrs. pose proof (fun fuel buf ks fl => sticky_kp_lookup rec fuel buf ks fl Hrs) as Hkl.
  revert fuel b R Q st c. induction cs as [|ch cs IH]; intros fuel b R Q st c Hst Hcs Hs Hub Hfuel Hd HQ.
  { destruct fuel; apply wp_ret; by eapply wp_fold_nil. }
  inversion_clear Hcs as [|? ? Hch Hcs']. cbn [map] in *.
  destruct (read_kv_items (ch_item ch) (map ch_item cs)) as (Er & Ed & Ev & Hlt);
    [by eapply (child_fits kvok rval kvok_key kvok_fits rval_size)|].
  destruct (child_key kvok rval kvok_key kvok_fits _ _ _ Hch) as [Hvc _].
  destruct (child_before kvok rval _ _ _ _ Hch Hs) as (Hs1 & Hs2 & Hbc).
  pose proof (child_keys kvok rval _ _ _ Hch Hs1) as Hle.
  assert (kvs_ok kvok (ch_kvs ch)) as Hok1 by (eapply node_at_ok, Hch).
  assert (kvs_ok kvok (ch_all cs)) as Hok2 by (eapply ch_all_ok; [by intros; eapply node_at_ok|done]).
  destruct (items_buf (ch_item ch :: map ch_item cs)) as [|b0 buf0] eqn:Eb; [cbn in Hlt; lia|].
  destruct fuel as [|fuel]; [cbn in Hfuel; lia|]. unfold fold_keys. cbn [kp_lookup lf_in_fold lf_fold].
  rewrite Er. apply wp_bind; [intros [[??]?]; unfold node_callback; rewrite no_node_callback; solve_sticky|].
  apply wp_ret. rewrite Ed, Ev.
  change (nl_key (ch_item ch)) with (np_key (ch_ptr ch)) in *. set (key := np_key (ch_ptr ch)) in *.
  change (ch_all (ch :: cs)) with (ch_kvs ch ++ ch_all cs) in *. rewrite range_app in Hd.
  apply wp_bind; [intros; unfold node_callback; rewrite no_node_callback; solve_sticky|].
  destruct (compare_cases key k0 Hvc k0_ok) as (cv & -> & [[Hc Hlt0]|[Hc Hge0]]); apply wp_ret.
  - (* before the start *)
    rewrite decide_False by lia.
    destruct (range_before ub (ch_kvs ch)) as [Er0 Ep0]; [done|done|by intros u [->|?]%Hle; [|eapply klt_trans]|].
    rewrite Er0 in Hd. apply (IH fuel b R); [done|done|done|done|lia|done|].
    intros fl e s He HR. apply HQ; [|done]. intros E. specialize (He E). unfold fold_flags in *.
    by rewrite past_app, Ep0.
  - rewrite decide_True by lia. 
    destruct (child_bound key ub (ch_kvs ch) Hvc Hub Hok1 Hle) as (ub' & later & -> & Hub' & Er' & Ep' & Hlater).
    apply wp_bind; [intros [??]; unfold node_callback; rewrite no_node_callback; solve_sticky|]. apply wp_ret.
    destruct (child_raw st h ch (items_buf (map ch_item cs)) Hch) as (raw & -> & Eptr).
    apply wp_bind; [intros; unfold node_callback; rewrite no_node_callback; solve_sticky|]. apply wp_ret.
    rewrite no_node_callback, Eptr.
    apply wp_bind; [intros; unfold node_callback; rewrite no_node_callback; solve_sticky|]. apply wp_ret.
    rewrite decide_False by auto.
    apply wp_bind; [intros [??]; unfold node_callback; rewrite no_node_callback; solve_sticky|].
    apply delivers_app in Hd. rewrite <- Er' in Hd.
    eapply (Hrec st c _ (ch_kvs ch) _ ub'); [done|apply Hch|done|done|exact Hd|].
    intros fl e [st' c'] Hfl. cbn [fst snd]. case_decide as He.
    + intros (Hst' & Hext & Hd'). specialize (Hfl He). subst e. rewrite decide_False by auto. unfold node_callback.
      rewrite no_node_callback. apply wp_bind; [intros; solve_sticky|]. apply wp_ret. rewrite decide_False by auto.
      unfold fold_flags in Hfl. rewrite Ep' in Hfl. destruct (past cmp ub (ch_kvs ch)) eqn:Ep.
      * (* the range ended in this child *)
        subst fl. cbn [lf_in_fold no_fold]. rewrite (Hlater eq_refl). destruct ub as [k1|]; [|done].
        rewrite (range_past_child k1 (ch_kvs ch) (ch_all cs)) in Hd' by (done || apply Hub).
        destruct fuel, (items_buf _); apply wp_ret;
          (eapply wp_fold_end; [done| |exact Hd'|exact HQ]); by rewrite past_app, Ep.
      * destruct Hfl as [Hf1 Hf2]. specialize (Hf2 eq_refl). rewrite Hf2.
        destruct fl as [f1 f2]. cbn in Hf1, Hf2. subst f1 f2.
        apply (IH fuel true R); [done| |done|done|lia|done|].
        { eapply List.Forall_impl; [|exact Hcs']. intros. by eapply child_at_ext. }
        intros fl e s He' HR. apply HQ; [|done]. intros E. specialize (He' E). unfold fold_flags in *.
        rewrite past_app, Ep. cbn [orb]. destruct (past cmp ub (ch_all cs)); [done|]. destruct He'. auto.
    + intros HQ'. rewrite decide_True by done. apply wp_ret. by eapply wp_fold_error.
Qed.

Lemma wp_fold_inner h fuel b ub st c pos kvs sz R Q :
  (h < fuel)%nat -> (h <> O \/ b = true \/ ub = None) ->
  ns_ok st -> node_at kvok rval st h pos kvs sz -> ksorted kvs -> bound_ok ub ->
  delivers (range cmp k0 ub kvs) R st c -> fold_post b ub kvs R Q ->
  wp (btree_lookup_inner rq fuel pos (fold_keys ub) {| lf_fold := true; lf_in_fold := b |}) Q (st, c).
Proof.
  revert fuel b ub st c pos kvs sz R Q.
  induction h as [|h IH]; intros [|fuel] b ub st c pos kvs sz R Q Hfuel Hb Hst Hn Hs Hub Hd HQ; try lia;
    unfold fold_keys; cbn [btree_lookup_inner].
  all: apply wp_bind; [intros [[|??]|?]; solve_sticky; apply sticky_kp_lookup; auto with sticky|]; apply wp_on_file; cbn [snd].
  - destruct Hn as (_ & Hok & Hstored). eapply wp_read_node; [done|exact Hstored|]. intros st1 Hst1 Hext1.
    change (node_buf KV_NODE (map leaf_item kvs)) with (Byte.x01 :: items_buf (map leaf_item kvs)). cbv iota.
    rewrite decide_False, decide_True by done. apply (wp_bind _ finish); [auto with sticky|].
    apply (wp_kv_fold kvs _ b ub R); [done|done|done|done|naive_solver|done|by eapply delivers_ext|done].
  - destruct Hn as (cs & dsz & _ & Hcs & -> & _ & Hstored). eapply wp_read_node; [done|exact Hstored|].
    intros st1 Hst1 Hext1.
    change (node_buf KP_NODE (map ch_item cs)) with (Byte.x00 :: items_buf (map ch_item cs)). cbv iota.
    rewrite decide_True by done. apply (wp_bind _ finish); [auto with sticky|].
    apply (wp_kp_fold _ h cs _ b ub R); [|auto with sticky|done| |done|done|done|by eapply delivers_ext|done].
    + intros st2 c2 pos2 kvs2 sz2 ub2 R2 Q2 Hst2 Hn2 Hs2 Hub2 Hd2 HQ2.
      eapply (IH fuel true); [lia|by auto|done|exact Hn2|done|done|exact Hd2|done].
    + eapply List.Forall_impl; [|exact Hcs]. intros c0 Hc0. by apply (child_at_ext kvok rval st st1 h c0).
Qed.
End Fold.

(** ** btree_lookup *)

Lemma sticky_btree_lookup fuel fold ks pos : sticky (btree_lookup rq fuel fold ks pos).
Proof. unfold btree_lookup. solve_sticky. Qed.

Lemma wp_btree_lookup fuel h ks st c pos kvs sz Q :
  (h < fuel)%nat -> ns_ok st -> node_at kvok rval st h pos kvs sz -> ksorted kvs -> Forall vkey ks ->
  keys_sorted ks -> present kvs ks -> delivers (found kvs ks) Q st c ->
  wp (btree_lookup rq fuel false ks pos) Q (st, c).
Proof.
  intros Hfuel Hst Hn Hs Hvk Hks Hp Hd. unfold btree_lookup. apply wp_bind; [intros [??]; solve_sticky|].
  destruct ks as [|k ks].
  { destruct fuel; apply wp_ret, wp_ret, Hd; done || reflexivity. }
  eapply (wp_lookup_inner h fuel Hfuel); [done|exact Hn|done|done|done|done|done|].
  eapply delivers_mono; [|exact Hd]. intros e s HQ. by apply wp_ret.
Qed.

Lemma wp_btree_fold fuel h k0 ub st c pos kvs sz Q :
  (h < fuel)%nat -> (h <> O \/ ub = None) -> ns_ok st -> node_at kvok rval st h pos kvs sz -> ksorted kvs ->
  vkey k0 -> bound_ok k0 ub -> delivers (range cmp k0 ub kvs) Q st c ->
  wp (btree_lookup rq fuel true (fold_keys k0 ub) pos) Q (st, c).
Proof.
  intros Hfuel Hh Hst Hn Hs Hk Hub Hd. unfold btree_lookup. apply wp_bind; [intros [??]; solve_sticky|].
  eapply (wp_fold_inner k0 Hk h fuel false ub); [done|naive_solver|done|exact Hn|done|done|exact Hd|].
  intros fl e s _ HR. by apply wp_ret.
Qed.
End Specs.

#[export] Hint Resolve sticky_btree_lookup : sticky.
