(* ===== verification/Docs.v ===== *)
(** * Docs: reading documents and their metadata

    Models the document half of src/couch_db.c (from couchstore_alloc_docinfo on)
    and the records of libcouchstore/couch_common.h: the values the two indexes
    hold, fetching one document, iterating over many, local documents and the
    statistics of couchstore_db_info.  A NULL buffer and an empty one are not
    told apart.  A user callback is a program on the file of the db and a context
    of its own; it returns a positive number or a code. *)

From Stdlib Require Import ZArith Lia Sorted.
From S2P Require Import Prelude Bitfield NodeTypes Util FileOps TreeFile NodeStore Header BTree Reduces BTreeInv BTreeRead.
From stdpp Require Import list numbers gmap.

#[local] Open Scope Z_scope.
#[local] Open Scope couch_scope.

(** ** Records and flags *)

Record DocInfo : Type := {
  di_id : bytes;
  di_db_seq : Z;
  di_rev_seq : Z;
  di_rev_meta : bytes;
  di_deleted : Z;
  di_content_meta : Z;
  di_bp : Z;
  di_size : Z
}.

Record Doc : Type := { doc_id : bytes; doc_data : bytes }.

Record LocalDoc : Type := { ld_id : bytes; ld_json : bytes; ld_deleted : Z }.

Record DbInfo : Type := {
  dbi_last_sequence : Z;
  dbi_doc_count : Z;
  dbi_deleted_count : Z;
  dbi_space_used : Z;
  dbi_header_position : Z
}.

#[global] Instance DocInfo_eq_dec : EqDecision DocInfo.
Proof. solve_decision. Defined.

Definition COUCH_DOC_IS_COMPRESSED : Z := 128.
Definition COMPRESS_DOC_BODIES : Z := 1.
Definition DECOMPRESS_DOC_BODIES : Z := 1.
Definition RANGES : Z := 1.
Definition COUCHSTORE_DELETES_ONLY : Z := 2.
Definition COUCHSTORE_NO_DELETES : Z := 4.
Definition COUCHSTORE_INCLUDE_CORRUPT_DOCS : Z := 0x40000000.

Definition flag (options bit : Z) : bool := negb (Z.land options bit =? 0).
Definition clear_flag (options bit : Z) : Z := Z.land options (Z.lnot bit).

(** ** qsort

    The C library's sort, for a comparison that may be undefined.  Where two
    elements compare equal their order is left open by C; here it is kept. *)
Section Qsort.
Context {A : Type} (cmp : A -> A -> option Z).

Fixpoint qsort_insert (x : A) (l : list A) : option (list A) :=
  match l with
  | [] => Some [x]
  | y :: l' =>
      c ← cmp x y;
      if decide (0 < c) then r ← qsort_insert x l'; Some (y :: r) else Some (x :: l)
  end.

Fixpoint qsort (l : list A) : option (list A) :=
  match l with
  | [] => Some []
  | x :: l' => r ← qsort l'; qsort_insert x r
  end.
End Qsort.

(** ** DocInfos and the values of the indexes *)

Definition couchstore_alloc_docinfo (id rev_meta : option bytes) : DocInfo :=
  {| di_id := default [] id; di_db_seq := 0; di_rev_seq := 0; di_rev_meta := default [] rev_meta;
     di_deleted := 0; di_content_meta := 0; di_bp := 0; di_size := 0 |}.

(** [None]: the id's size does not fit in the value, so the copies of the id and
    the rev_meta leave it. *)
Definition by_seq_read_docinfo (k v : bytes) : option (result DocInfo) :=
  if decide ((length v < sizeof_raw_seq_index_value)%nat) then Some (Error COUCHSTORE_ERROR_CORRUPT)
  else
    raw ← as_raw_seq_index_value v;
    let extraSize := blen v - Z.of_nat sizeof_raw_seq_index_value in
    let '(idsize, datasize) := decode_kv_length (rsv_sizes raw) in
    let bp := decode_raw48 (rsv_bp raw) in
    let deleted := if decide (Z.land bp BP_DELETED_FLAG <> 0) then 1 else 0 in
    let bp := clear_flag bp BP_DELETED_FLAG in
    let content_meta := decode_raw08 (rsv_content_meta raw) in
    let rev_seq := decode_raw48 (rsv_rev_seq raw) in
    db_seq ← decode_sequence_key k;
    id ← slice sizeof_raw_seq_index_value (Z.to_nat idsize) v;
    rev_meta ← slice (sizeof_raw_seq_index_value + Z.to_nat idsize) (Z.to_nat (extraSize - idsize)) v;
    let docInfo := couchstore_alloc_docinfo (Some id) (Some rev_meta) in
    Some (Done {| di_id := di_id docInfo; di_db_seq := db_seq; di_rev_seq := rev_seq;
                  di_rev_meta := di_rev_meta docInfo; di_deleted := deleted;
                  di_content_meta := content_meta; di_bp := bp; di_size := datasize |}).

Definition by_id_read_docinfo (k v : bytes) : option (result DocInfo) :=
  if decide ((length v < sizeof_raw_id_index_value)%nat) then Some (Error COUCHSTORE_ERROR_CORRUPT)
  else
    raw ← as_raw_id_index_value v;
    let revMetaSize := (length v - sizeof_raw_id_index_value)%nat in
    let seq := decode_raw48 (riv_db_seq raw) in
    let datasize := decode_raw32 (riv_size raw) in
    let bp := decode_raw48 (riv_bp raw) in
    let deleted := if decide (Z.land bp BP_DELETED_FLAG <> 0) then 1 else 0 in
    let bp := clear_flag bp BP_DELETED_FLAG in
    let content_meta := decode_raw08 (riv_content_meta raw) in
    let revnum := decode_raw48 (riv_rev_seq raw) in
    rev_meta ← slice sizeof_raw_id_index_value revMetaSize v;
    let docInfo := couchstore_alloc_docinfo (Some k) (Some rev_meta) in
    Some (Done {| di_id := di_id docInfo; di_db_seq := seq; di_rev_seq := revnum;
                  di_rev_meta := di_rev_meta docInfo; di_deleted := deleted;
                  di_content_meta := content_meta; di_bp := bp; di_size := datasize |}).

(** ** Programs on a db with a context *)

(** What a callback returns: a positive number, or 0 or an error. *)
Inductive callback_int : Type :=
| CB_KEEP
| CB_CODE (e : couchstore_error_t).

(** context of a callback that returns through a pointer *)
Definition set_ctx {F C} (c : C) : M (F * C) unit := fun s => Ret tt (fst s, c).

Section Docs.
Context {H : Type} `{FileOps H} `{Snappy}.

Definition with_ctx {C A} (c : C) (m : M (tree_file H * C) A) : M (Db H) (A * C) :=
  fun d =>
    match m (db_file d, c) with
    | Ret a (f, c') => Ret (a, c') {| db_file := f; db_hdr := db_hdr d |}
    | Undef (f, _) => Undef {| db_file := f; db_hdr := db_hdr d |}
    | NoFuel (f, _) => NoFuel {| db_file := f; db_hdr := db_hdr d |}
    end.

(** ** One document *)

(** The body of the document at [bp]. *)
Definition bp_to_doc (bp options : Z) : M (Db H) (result bytes) :=
  if flag options DECOMPRESS_DOC_BODIES then in_file (pread_compressed bp) else in_file (pread_bin bp).

Definition docinfo_fetch_by_id (k : bytes) (v : option bytes)
    : M (tree_file H * option DocInfo) couchstore_error_t :=
  match v with
  | None => ret COUCHSTORE_ERROR_DOC_NOT_FOUND
  | Some v =>
      let* r := need (by_id_read_docinfo k v) in
      match r with
      | Done info => set_ctx (Some info) ;; ret COUCHSTORE_SUCCESS
      | Error e => ret e
      end
  end.

Definition docinfo_fetch_by_seq (k : bytes) (v : option bytes)
    : M (tree_file H * option DocInfo) couchstore_error_t :=
  match v with
  | None => ret COUCHSTORE_ERROR_DOC_NOT_FOUND
  | Some v =>
      let* r := need (by_seq_read_docinfo k v) in
      match r with
      | Done info => set_ctx (Some info) ;; ret COUCHSTORE_SUCCESS
      | Error e => ret e
      end
  end.

Definition docinfo_request (compare : bytes -> bytes -> option Z)
    (fetch : bytes -> option bytes -> M (tree_file H * option DocInfo) couchstore_error_t)
    : lookup_request (tree_file H) (option DocInfo) :=
  {| lq_compare := compare; lq_fetch_callback := fetch; lq_node_callback := None |}.

(** [pInfo] is what the caller's variable holds before the call. *)
Definition couchstore_docinfo_by_id (fuel : nat) (id : bytes) (pInfo : option DocInfo)
    : M (Db H) (couchstore_error_t * option DocInfo) :=
  let* h := get_header in
  match dh_by_id_root h with
  | None => ret (COUCHSTORE_ERROR_DOC_NOT_FOUND, pInfo)
  | Some root =>
      let* (errcode, pInfo) := with_ctx pInfo
        (btree_lookup (docinfo_request ebin_compare docinfo_fetch_by_id) fuel false [id] (np_pointer root)) in
      if decide (errcode = COUCHSTORE_SUCCESS /\ pInfo = None)
      then ret (COUCHSTORE_ERROR_DOC_NOT_FOUND, pInfo) else ret (errcode, pInfo)
  end.

(** The test is on the by-id root, the root followed is the other one. *)
Definition couchstore_docinfo_by_sequence (fuel : nat) (sequence : Z) (pInfo : option DocInfo)
    : M (Db H) (couchstore_error_t * option DocInfo) :=
  let* h := get_header in
  match dh_by_id_root h with
  | None => ret (COUCHSTORE_ERROR_DOC_NOT_FOUND, pInfo)
  | Some _ =>
      let key := take 6 (drop 2 (le_bytes 8 (htonll sequence))) in
      let* root := need (dh_by_seq_root h) in
      let* (errcode, pInfo) := with_ctx pInfo
        (btree_lookup (docinfo_request seq_cmp docinfo_fetch_by_seq) fuel false [key] (np_pointer root)) in
      if decide (errcode = COUCHSTORE_SUCCESS /\ pInfo = None)
      then ret (COUCHSTORE_ERROR_DOC_NOT_FOUND, pInfo) else ret (errcode, pInfo)
  end.

Definition couchstore_open_doc_with_docinfo (docinfo : DocInfo) (options : Z) : M (Db H) (result Doc) :=
  if decide (di_bp docinfo = 0) then ret (Error COUCHSTORE_ERROR_DOC_NOT_FOUND)
  else
    let options := if flag (di_content_meta docinfo) COUCH_DOC_IS_COMPRESSED then options
                   else clear_flag options DECOMPRESS_DOC_BODIES in
    let* r := bp_to_doc (di_bp docinfo) options in
    match r with
    | Error e => ret (Error e)
    | Done data => ret (Done {| doc_id := di_id docinfo; doc_data := data |})
    end.

(** [info] is not initialised in the code: any value will do. *)
Definition couchstore_open_document (fuel : nat) (id : bytes) (options : Z) (info : option DocInfo)
    : M (Db H) (result Doc) :=
  let* (errcode, info) := couchstore_docinfo_by_id fuel id info in
  if decide (errcode = COUCHSTORE_SUCCESS) then
    let* info := need info in
    let* r := couchstore_open_doc_with_docinfo info options in
    match r with
    | Error e => ret (Error e)
    | Done doc => ret (Done {| doc_id := id; doc_data := doc_data doc |})
    end
  else ret (Error errcode).

(** ** Many documents *)

Section Callbacks.
Context {C : Type}.

Definition changes_callback : Type := DocInfo -> M (tree_file H * C) callback_int.
(** depth, document or [None] for a node, size of the subtree, reduction *)
Definition walk_tree_callback : Type :=
  Z -> option DocInfo -> Z -> option bytes -> M (tree_file H * C) callback_int.

(** [depth] is the mutable field of the context: part of the state. *)
Record lookup_context : Type := {
  lc_options : Z;
  lc_callback : option changes_callback;
  lc_by_id : bool;
  lc_walk_callback : option walk_tree_callback
}.

(** A callback's own state beside the depth. *)
Definition user {A} (m : M (tree_file H * C) A) : M (tree_file H * (Z * C)) A :=
  zoom (fun s => (fst s, snd (snd s))) (fun t s => (fst t, (fst (snd s), snd t))) m.
Definition get_depth : M (tree_file H * (Z * C)) Z := fun s => Ret (fst (snd s)) s.
Definition set_depth (n : Z) : M (tree_file H * (Z * C)) unit :=
  fun s => Ret tt (fst s, (n, snd (snd s))).

Definition lookup_callback (context : lookup_context) (k : bytes) (v : option bytes)
    : M (tree_file H * (Z * C)) couchstore_error_t :=
  match v with
  | None => ret COUCHSTORE_SUCCESS
  | Some v =>
      let* r := need (if lc_by_id context then by_id_read_docinfo k v else by_seq_read_docinfo k v) in
      let r := match r with
               | Error COUCHSTORE_ERROR_CORRUPT =>
                   if flag (lc_options context) COUCHSTORE_INCLUDE_CORRUPT_DOCS
                   then Done (couchstore_alloc_docinfo (Some k) (Some v)) else r
               | _ => r
               end in
      match r with
      | Error e => ret e
      | Done docinfo =>
          if flag (lc_options context) COUCHSTORE_DELETES_ONLY && (di_deleted docinfo =? 0)
          then ret COUCHSTORE_SUCCESS
          else if flag (lc_options context) COUCHSTORE_NO_DELETES && (di_deleted docinfo =? 1)
          then ret COUCHSTORE_SUCCESS
          else
            let* errcode :=
              match lc_walk_callback context with
              | Some walk => let* depth := get_depth in user (walk depth (Some docinfo) 0 None)
              | None => let* cb := need (lc_callback context) in user (cb docinfo)
              end in
            match errcode with
            | CB_CODE e => ret e
            | CB_KEEP => ret COUCHSTORE_SUCCESS
            end
      end
  end.

Definition iterate_request (compare : bytes -> bytes -> option Z) (context : lookup_context)
    : lookup_request (tree_file H) (Z * C) :=
  {| lq_compare := compare; lq_fetch_callback := lookup_callback context; lq_node_callback := None |}.

(** The final depth is dropped with the context. *)
Definition run_lookup (c : C) (depth : Z) (m : M (tree_file H * (Z * C)) couchstore_error_t)
    : M (Db H) (couchstore_error_t * C) :=
  let* (errcode, s) := with_ctx (depth, c) m in ret (errcode, snd s).

Definition couchstore_changes_since (fuel : nat) (since options : Z) (callback : changes_callback) (ctx : C)
    : M (Db H) (couchstore_error_t * C) :=
  let cbctx := {| lc_options := options; lc_callback := Some callback; lc_by_id := false;
                  lc_walk_callback := None |} in
  let* h := get_header in
  match dh_by_seq_root h with
  | None => ret (COUCHSTORE_SUCCESS, ctx)
  | Some root =>
      run_lookup ctx 0
        (btree_lookup (iterate_request seq_cmp cbctx) fuel true [encode_raw48 since] (np_pointer root))
  end.

Definition couchstore_all_docs (fuel : nat) (startKeyPtr : option bytes) (options : Z)
    (callback : changes_callback) (ctx : C) : M (Db H) (couchstore_error_t * C) :=
  let cbctx := {| lc_options := options; lc_callback := Some callback; lc_by_id := true;
                  lc_walk_callback := None |} in
  let* h := get_header in
  match dh_by_id_root h with
  | None => ret (COUCHSTORE_SUCCESS, ctx)
  | Some root =>
      let startKey := default [] startKeyPtr in
      run_lookup ctx 0
        (btree_lookup (iterate_request ebin_compare cbctx) fuel true [startKey] (np_pointer root))
  end.

(** ** Walking a tree *)

Definition walk_node_callback (walk : walk_tree_callback) (subtreeSize : Z) (reduceValue : option bytes)
    : M (tree_file H * (Z * C)) couchstore_error_t :=
  let* depth := get_depth in
  match reduceValue with
  | Some red =>
      let* result := user (walk depth None subtreeSize (Some red)) in
      set_depth (depth + 1) ;;
      match result with
      | CB_CODE e => ret e
      | CB_KEEP => ret COUCHSTORE_SUCCESS
      end
  | None => set_depth (depth - 1) ;; ret COUCHSTORE_SUCCESS
  end.

Definition couchstore_walk_tree (fuel : nat) (by_id : bool) (root : option node_pointer)
    (startKeyPtr : option bytes) (options : Z) (compare : bytes -> bytes -> option Z)
    (callback : walk_tree_callback) (ctx : C) : M (Db H) (couchstore_error_t * C) :=
  match root with
  | None => ret (COUCHSTORE_SUCCESS, ctx)
  | Some root =>
      let* (errcode, ctx) := with_ctx ctx (callback 0 None (np_subtreesize root) (Some (np_reduce_value root))) in
      let errcode := match errcode with CB_CODE e => e | CB_KEEP => COUCHSTORE_SUCCESS end in
      if decide (errcode <> COUCHSTORE_SUCCESS) then ret (errcode, ctx)
      else
        let startKey := default [] startKeyPtr in
        let lookup_ctx := {| lc_options := options; lc_callback := None; lc_by_id := by_id;
                             lc_walk_callback := Some callback |} in
        let rq := {| lq_compare := compare; lq_fetch_callback := lookup_callback lookup_ctx;
                     lq_node_callback := Some (walk_node_callback callback) |} in
        run_lookup ctx 1 (btree_lookup rq fuel true [startKey] (np_pointer root))
  end.

Definition couchstore_walk_id_tree (fuel : nat) (startDocID : option bytes) (options : Z)
    (callback : walk_tree_callback) (ctx : C) : M (Db H) (couchstore_error_t * C) :=
  let* h := get_header in
  couchstore_walk_tree fuel true (dh_by_id_root h) startDocID options ebin_compare callback ctx.

Definition couchstore_walk_seq_tree (fuel : nat) (startSequence options : Z)
    (callback : walk_tree_callback) (ctx : C) : M (Db H) (couchstore_error_t * C) :=
  let* h := get_header in
  couchstore_walk_tree fuel false (dh_by_seq_root h) (Some (encode_raw48 startSequence)) options
    seq_cmp callback ctx.

(** ** A list of documents *)

Definition id_ptr_cmp (a b : bytes) : option Z := Some (ebin_cmp a b).
Definition seq_ptr_cmp (a b : bytes) : option Z := seq_cmp a b.

(** [by_id]: the tree is the one of the by-id root. *)
Definition iterate_docinfos (fuel : nat) (keys : list bytes) (tree : option node_pointer) (by_id : bool)
    (key_ptr_compare key_compare : bytes -> bytes -> option Z) (callback : changes_callback) (fold : bool)
    (ctx : C) : M (Db H) (couchstore_error_t * C) :=
  match tree with
  | None => ret (COUCHSTORE_SUCCESS, ctx)
  | Some tree =>
      let* keyptrs := need (if fold then Some keys else qsort key_ptr_compare keys) in
      let cbctx := {| lc_options := 0; lc_callback := Some callback; lc_by_id := by_id;
                      lc_walk_callback := None |} in
      run_lookup ctx 0
        (btree_lookup (iterate_request key_compare cbctx) fuel fold keyptrs (np_pointer tree))
  end.

Definition couchstore_docinfos_by_id (fuel : nat) (ids : list bytes) (options : Z)
    (callback : changes_callback) (ctx : C) : M (Db H) (couchstore_error_t * C) :=
  let* h := get_header in
  iterate_docinfos fuel ids (dh_by_id_root h) true id_ptr_cmp ebin_compare callback
    (flag options RANGES) ctx.

Definition couchstore_docinfos_by_sequence (fuel : nat) (sequence : list Z) (options : Z)
    (callback : changes_callback) (ctx : C) : M (Db H) (couchstore_error_t * C) :=
  let keylist := map encode_raw48 sequence in
  let* h := get_header in
  iterate_docinfos fuel keylist (dh_by_seq_root h) false seq_ptr_cmp seq_cmp callback
    (flag options RANGES) ctx.
End Callbacks.

(** ** Statistics *)

Definition couchstore_db_info : M (Db H) (couchstore_error_t * DbInfo) :=
  let* h := get_header in
  let* (doc_count, deleted_count, space_used) :=
    match dh_by_id_root h with
    | None => ret (0, 0, 0)
    | Some id_root =>
        let* notdeleted := need (slice 0 5 (np_reduce_value id_root)) in
        let* deleted := need (slice 5 5 (np_reduce_value id_root)) in
        let* size := need (slice 10 6 (np_reduce_value id_root)) in
        ret (decode_raw40 notdeleted, decode_raw40 deleted,
             u64 (decode_raw48 size + np_subtreesize id_root))
    end in
  let space_used := match dh_by_seq_root h with
                    | Some seq_root => u64 (space_used + np_subtreesize seq_root)
                    | None => space_used
                    end in
  let space_used := match dh_local_docs_root h with
                    | Some local_root => u64 (space_used + np_subtreesize local_root)
                    | None => space_used
                    end in
  ret (COUCHSTORE_SUCCESS,
       {| dbi_last_sequence := dh_update_seq h; dbi_doc_count := doc_count;
          dbi_deleted_count := deleted_count; dbi_space_used := space_used;
          dbi_header_position := dh_position h |}).

(** ** Local documents *)

Definition local_doc_fetch (k : bytes) (v : option bytes)
    : M (tree_file H * option LocalDoc) couchstore_error_t :=
  match v with
  | None => set_ctx None ;; ret COUCHSTORE_SUCCESS
  | Some v => set_ctx (Some {| ld_id := k; ld_json := v; ld_deleted := 0 |}) ;; ret COUCHSTORE_SUCCESS
  end.

Definition couchstore_open_local_document (fuel : nat) (id : bytes) (pDoc : option LocalDoc)
    : M (Db H) (couchstore_error_t * option LocalDoc) :=
  let* h := get_header in
  match dh_local_docs_root h with
  | None => ret (COUCHSTORE_ERROR_DOC_NOT_FOUND, pDoc)
  | Some root =>
      let rq := {| lq_compare := ebin_compare; lq_fetch_callback := local_doc_fetch;
                   lq_node_callback := None |} in
      let* (errcode, pDoc) := with_ctx pDoc (btree_lookup rq fuel false [id] (np_pointer root)) in
      match errcode, pDoc with
      | COUCHSTORE_SUCCESS, None => ret (COUCHSTORE_ERROR_DOC_NOT_FOUND, pDoc)
      | _, _ => ret (errcode, pDoc)
      end
  end.

Definition local_request : modify_request unit unit :=
  {| rq_compare := ebin_compare; rq_fetch_callback := None; rq_reduce := None; rq_rereduce := None;
     rq_compacting := false |}.

Definition set_local_root (root : option node_pointer) (h : db_header) : db_header :=
  {| dh_disk_version := dh_disk_version h; dh_update_seq := dh_update_seq h;
     dh_by_id_root := dh_by_id_root h; dh_by_seq_root := dh_by_seq_root h;
     dh_local_docs_root := root; dh_purge_seq := dh_purge_seq h;
     dh_purge_ptr := dh_purge_ptr h; dh_position := dh_position h |}.

Definition couchstore_save_local_document (fuel : nat) (lDoc : LocalDoc) : M (Db H) couchstore_error_t :=
  let* h := get_header in
  let ldupdate := if decide (ld_deleted lDoc <> 0) then ACTION_REMOVE (ld_id lDoc)
                  else ACTION_INSERT (ld_id lDoc) (ld_json lDoc) in
  let* (r, _) := with_ctx tt (modify_btree local_request fuel (dh_local_docs_root h) [ldupdate]) in
  let '(nroot, errcode) := r in
  if decide (errcode = COUCHSTORE_SUCCESS) then
    set_header (set_local_root nroot h) ;; ret errcode
  else ret errcode.
End Docs.
