(* ===== verification/Save.v ===== *)
(** * Save: saving documents

    Models src/couch_save.c: the values of the two indexes, the list of terms
    gathered for a batch, and the two updates of update_indexes, of which the
    first, by id, finds the sequence numbers the second has to remove.  The
    arrays and the fatbufs the code carves them from are modelled by their
    sizes: a write past the end of one is undefined. *)

From Stdlib Require Import ZArith Lia Sorted.
From S2P Require Import Prelude Bitfield NodeTypes Util FileOps TreeFile NodeStore Header BTree Reduces Docs.
From stdpp Require Import list numbers gmap.

#[local] Open Scope Z_scope.
#[local] Open Scope couch_scope.

(** On a 64-bit host. *)
Definition sizeof_modify_action : Z := 24.
Definition sizeof_sized_buf : Z := 16.

(** ** Values of the indexes *)

Definition bp_field (docinfo : DocInfo) : bytes :=
  encode_raw48 (Z.lor (di_bp docinfo) (if decide (di_deleted docinfo <> 0) then Z.shiftl 1 47 else 0)).

Definition assemble_seq_index_value (docinfo : DocInfo) : bytes :=
  raw_seq_index_value_bytes
    {| rsv_sizes := encode_kv_length (blen (di_id docinfo)) (di_size docinfo);
       rsv_bp := bp_field docinfo;
       rsv_rev_seq := encode_raw48 (di_rev_seq docinfo);
       rsv_content_meta := encode_raw08 (di_content_meta docinfo) |} ++
  di_id docinfo ++ di_rev_meta docinfo.

Definition assemble_id_index_value (docinfo : DocInfo) : bytes :=
  raw_id_index_value_bytes
    {| riv_db_seq := encode_raw48 (di_db_seq docinfo);
       riv_size := encode_raw32 (u32 (di_size docinfo));
       riv_bp := bp_field docinfo;
       riv_rev_seq := encode_raw48 (di_rev_seq docinfo);
       riv_content_meta := encode_raw08 (di_content_meta docinfo) |} ++
  di_rev_meta docinfo.

(** ** Comparisons for qsort *)

Definition ebin_ptr_compare (a b : bytes * bytes) : option Z := Some (ebin_cmp a.1 b.1).

Definition action_type {A} (a : modify_action A) : Z :=
  match a with ACTION_FETCH _ _ => 0 | ACTION_REMOVE _ => 1 | ACTION_INSERT _ _ => 2 end.

Definition seq_action_compare {A} (act1 act2 : modify_action A) : option Z :=
  seq1 ← decode_sequence_key (act_key act1);
  seq2 ← decode_sequence_key (act_key act2);
  if decide (seq1 < seq2) then Some (-1)
  else if decide (seq1 = seq2) then
    if decide (action_type act1 < action_type act2) then Some (-1)
    else if decide (action_type act2 < action_type act1) then Some 1
    else Some 0
  else Some 1.

(** ** The context of the by-id update *)

(** [seqacts] up to [actpos]; the array has room for [ctx_cap] actions. *)
Record index_update_ctx : Type := {
  ctx_seqacts : list (modify_action unit);
  ctx_cap : nat;
  ctx_deltermbuf : fatbuf
}.

Definition push_seqact (a : modify_action unit) (ctx : index_update_ctx) : option index_update_ctx :=
  if decide ((length (ctx_seqacts ctx) < ctx_cap ctx)%nat) then
    Some {| ctx_seqacts := ctx_seqacts ctx ++ [a]; ctx_cap := ctx_cap ctx;
            ctx_deltermbuf := ctx_deltermbuf ctx |}
  else None.

Definition idfetch_update_cb (k : bytes) (v : option bytes) (arg : unit) (ctx : index_update_ctx)
    : option index_update_ctx :=
  match v with
  | None => Some ctx
  | Some v =>
      raw ← as_raw_id_index_value v;
      let oldseq := decode_raw48 (riv_db_seq raw) in
      let '(p, fb) := fatbuf_get (ctx_deltermbuf ctx) sizeof_sized_buf in
      _ ← p;
      let '(q, fb) := fatbuf_get fb 6 in
      _ ← q;
      push_seqact (ACTION_REMOVE (encode_raw48 oldseq))
        {| ctx_seqacts := ctx_seqacts ctx; ctx_cap := ctx_cap ctx; ctx_deltermbuf := fb |}
  end.

(** The while loop that adds the insertions. *)
Fixpoint add_seq_inserts (terms : list (bytes * bytes)) (ctx : index_update_ctx) : option index_update_ctx :=
  match terms with
  | [] => Some ctx
  | (seq, seqval) :: terms' => ctx ← push_seqact (ACTION_INSERT seq seqval) ctx; add_seq_inserts terms' ctx
  end.

Definition id_actions (sorted : list (bytes * bytes)) : list (modify_action unit) :=
  concat (map (fun x => [ACTION_FETCH x.1 tt; ACTION_INSERT x.1 x.2]) sorted).

Definition id_request : modify_request index_update_ctx unit :=
  {| rq_compare := ebin_compare; rq_fetch_callback := Some idfetch_update_cb;
     rq_reduce := Some by_id_reduce; rq_rereduce := Some by_id_rereduce; rq_compacting := false |}.

(** The fetch callback is not set: the batch has no fetches. *)
Definition seq_request : modify_request unit unit :=
  {| rq_compare := seq_cmp; rq_fetch_callback := None;
     rq_reduce := Some by_seq_reduce; rq_rereduce := Some by_seq_rereduce; rq_compacting := false |}.

Definition set_roots (id_root seq_root : option node_pointer) (h : db_header) : db_header :=
  {| dh_disk_version := dh_disk_version h; dh_update_seq := dh_update_seq h;
     dh_by_id_root := id_root; dh_by_seq_root := seq_root;
     dh_local_docs_root := dh_local_docs_root h; dh_purge_seq := dh_purge_seq h;
     dh_purge_ptr := dh_purge_ptr h; dh_position := dh_position h |}.

Definition set_update_seq (seq : Z) (h : db_header) : db_header :=
  {| dh_disk_version := dh_disk_version h; dh_update_seq := seq;
     dh_by_id_root := dh_by_id_root h; dh_by_seq_root := dh_by_seq_root h;
     dh_local_docs_root := dh_local_docs_root h; dh_purge_seq := dh_purge_seq h;
     dh_purge_ptr := dh_purge_ptr h; dh_position := dh_position h |}.

Definition set_db_seq (seq : Z) (i : DocInfo) : DocInfo :=
  {| di_id := di_id i; di_db_seq := seq; di_rev_seq := di_rev_seq i; di_rev_meta := di_rev_meta i;
     di_deleted := di_deleted i; di_content_meta := di_content_meta i; di_bp := di_bp i; di_size := di_size i |}.

(** One entry of the four lists of a batch. *)
Record update_term : Type := { ut_seq : bytes; ut_seqval : bytes; ut_id : bytes; ut_idval : bytes }.

Section Save.
Context {H : Type} `{FileOps H} `{Snappy}.

Definition write_doc (doc : Doc) (writeopts : Z) : M (Db H) (result (Z * Z)) :=
  if flag writeopts COMPRESS_DOC_BODIES then in_file (db_write_buf_compressed (doc_data doc))
  else in_file (db_write_buf (doc_data doc)).

(** The two new roots are installed only when both updates succeed. *)
Definition update_indexes (fuel : nat) (terms : list update_term) : M (Db H) couchstore_error_t :=
  let numdocs := Z.of_nat (length terms) in
  let size := 4 * sizeof_modify_action + 2 * sizeof_sized_buf + 10 in
  let actbuf := fatbuf_alloc (u64 (numdocs * size)) in
  let '(idacts, actbuf) := fatbuf_get actbuf (u64 (numdocs * sizeof_modify_action * 2)) in
  let '(seqacts, actbuf) := fatbuf_get actbuf (u64 (numdocs * sizeof_modify_action * 2)) in
  match idacts, seqacts with
  | Some _, Some _ =>
      let fetcharg := {| ctx_seqacts := []; ctx_cap := 2 * length terms; ctx_deltermbuf := actbuf |} in
      let* sorted_ids := need (qsort ebin_ptr_compare (map (fun t => (ut_id t, ut_idval t)) terms)) in
      let* h := get_header in
      let* (r, fetcharg) := with_ctx fetcharg
        (modify_btree id_request fuel (dh_by_id_root h) (id_actions sorted_ids)) in
      let '(new_id_root, errcode) := r in
      if decide (errcode <> COUCHSTORE_SUCCESS) then ret errcode
      else
        let* fetcharg := need (add_seq_inserts (map (fun t => (ut_seq t, ut_seqval t)) terms) fetcharg) in
        let* seqacts := need (qsort seq_action_compare (ctx_seqacts fetcharg)) in
        let* (r, _) := with_ctx tt (modify_btree seq_request fuel (dh_by_seq_root h) seqacts) in
        let '(new_seq_root, errcode) := r in
        if decide (errcode <> COUCHSTORE_SUCCESS) then ret errcode
        else set_header (set_roots new_id_root new_seq_root h) ;; ret errcode
  | _, _ => ret COUCHSTORE_ERROR_ALLOC_FAIL
  end.

Definition add_doc_to_update_list (doc : option Doc) (info : DocInfo) (fb : fatbuf) (seq options : Z)
    : M (Db H) (result (fatbuf * update_term)) :=
  let updated := set_db_seq seq info in
  let '(p, fb) := fatbuf_get fb 6 in
  match p with
  | None => ret (Error COUCHSTORE_ERROR_ALLOC_FAIL)
  | Some _ =>
      let* r :=
        match doc with
        | Some doc =>
            let options := if flag (di_content_meta info) COUCH_DOC_IS_COMPRESSED then options
                           else clear_flag options COMPRESS_DOC_BODIES in
            let* r := write_doc doc options in
            match r with
            | Error e => ret (Error e)
            | Done (bp, disk_size) =>
                ret (Done {| di_id := di_id updated; di_db_seq := di_db_seq updated;
                             di_rev_seq := di_rev_seq updated; di_rev_meta := di_rev_meta updated;
                             di_deleted := di_deleted updated; di_content_meta := di_content_meta updated;
                             di_bp := bp; di_size := disk_size |})
            end
        | None =>
            ret (Done {| di_id := di_id updated; di_db_seq := di_db_seq updated;
                         di_rev_seq := di_rev_seq updated; di_rev_meta := di_rev_meta updated;
                         di_deleted := 1; di_content_meta := di_content_meta updated;
                         di_bp := 0; di_size := 0 |})
        end in
      match r with
      | Error e => ret (Error e)
      | Done updated =>
          let '(p, fb) := fatbuf_get fb (u64 (44 + blen (di_id updated) + blen (di_rev_meta updated))) in
          match p with
          | None => ret (Error COUCHSTORE_ERROR_ALLOC_FAIL)
          | Some _ =>
              let '(p, fb) := fatbuf_get fb (u64 (44 + 10 + blen (di_rev_meta updated))) in
              match p with
              | None => ret (Error COUCHSTORE_ERROR_ALLOC_FAIL)
              | Some _ =>
                  ret (Done (fb, {| ut_seq := encode_raw48 seq; ut_seqval := assemble_seq_index_value updated;
                                    ut_id := di_id updated; ut_idval := assemble_id_index_value updated |}))
              end
          end
      end
  end.

(** The loop over the batch: [docs] is [None] for a NULL array. *)
Fixpoint add_docs (docs : option (list (option Doc))) (infos : list DocInfo) (fb : fatbuf) (seq options : Z)
    : M (Db H) (result (list update_term)) :=
  match infos with
  | [] => ret (Done [])
  | info :: infos' =>
      let seq := u64 (seq + 1) in
      let* (curdoc, docs) :=
        match docs with
        | None => ret (None, None)
        | Some (d :: docs') => ret (d, Some docs')
        | Some [] => undef
        end in
      let* r := add_doc_to_update_list curdoc info fb seq options in
      match r with
      | Error e => ret (Error e)
      | Done (fb, t) =>
          let* r := add_docs docs infos' fb seq options in
          match r with
          | Error e => ret (Error e)
          | Done ts => ret (Done (t :: ts))
          end
      end
  end.

(** What the terms of one document reserve. *)
Definition term_size (info : DocInfo) : Z :=
  6 + 44 + blen (di_id info) + blen (di_rev_meta info) + 44 + 10 + blen (di_rev_meta info).

Fixpoint term_meta_size (infos : list DocInfo) (acc : Z) : Z :=
  match infos with
  | [] => acc
  | info :: infos' => term_meta_size infos' (u64 (acc + term_size info))
  end.

(** The sequence numbers given to the caller. *)
Fixpoint number_infos (infos : list DocInfo) (seq : Z) : list DocInfo * Z :=
  match infos with
  | [] => ([], seq)
  | info :: infos' =>
      let seq := u64 (seq + 1) in
      let '(r, last) := number_infos infos' seq in (set_db_seq seq info :: r, last)
  end.

(** The four lists of a batch, whose pointers are not checked. *)
Fixpoint reserve_lists (n : nat) (size : Z) (fb : fatbuf) : option fatbuf :=
  match n with
  | O => Some fb
  | S n' => let '(p, fb) := fatbuf_get fb size in _ ← p; reserve_lists n' size fb
  end.

Definition couchstore_save_documents (fuel : nat) (docs : option (list (option Doc))) (infos : list DocInfo)
    (options : Z) : M (Db H) (couchstore_error_t * list DocInfo) :=
  let numdocs := Z.of_nat (length infos) in
  let* h := get_header in
  let fb := fatbuf_alloc (u64 (term_meta_size infos 0 + u64 (numdocs * (sizeof_sized_buf * 4)))) in
  let* fb := need (reserve_lists 4 (u64 (numdocs * sizeof_sized_buf)) fb) in
  let* r := add_docs docs infos fb (dh_update_seq h) options in
  let* errcode := match r with Error e => ret e | Done terms => update_indexes fuel terms end in
  if decide (errcode = COUCHSTORE_SUCCESS) then
    let* h := get_header in
    let '(infos, seq) := number_infos infos (dh_update_seq h) in
    set_header (set_update_seq seq h) ;; ret (errcode, infos)
  else ret (errcode, infos).

Definition couchstore_save_document (fuel : nat) (doc : option Doc) (info : DocInfo) (options : Z)
    : M (Db H) (couchstore_error_t * list DocInfo) :=
  couchstore_save_documents fuel (Some [doc]) [info] options.
End Save.
