(* ===== verification/DocCodec.v ===== *)
(** * DocCodec: the values of the two indexes

    assemble_id_index_value and assemble_seq_index_value of couch_save.c against
    by_id_read_docinfo and by_seq_read_docinfo of couch_db.c: a DocInfo whose
    fields fit is read back as it was written, from either index. *)

From Stdlib Require Import ZArith Lia.
From S2P Require Import Prelude Bitfield NodeTypes Util BTree BTreeInv Reduces Docs Save.
From stdpp Require Import list numbers gmap.

#[local] Open Scope Z_scope.

(** The widths of the fields on disk: 48 bits, one of them for the deleted flag,
    28 bits for a size, 12 for the length of an id. *)
Record info_ok (i : DocInfo) : Prop := {
  io_db_seq : 0 <= di_db_seq i < 2 ^ 48;
  io_rev_seq : 0 <= di_rev_seq i < 2 ^ 48;
  io_bp : 0 <= di_bp i < 2 ^ 47;
  io_size : 0 <= di_size i < 2 ^ 28;
  io_content_meta : 0 <= di_content_meta i < 2 ^ 8;
  io_deleted : di_deleted i = 0 \/ di_deleted i = 1;
  io_id : blen (di_id i) < 2 ^ 12;
  io_meta : blen (di_id i) + blen (di_rev_meta i) + 23 < 2 ^ 28
}.

(** ** The field with the deleted flag *)

Lemma bp_flag bp : 0 <= bp < 2 ^ 47 ->
  Z.lor bp (Z.shiftl 1 47) = 2 ^ 47 + bp /\ Z.land bp BP_DELETED_FLAG = 0 /\
  Z.land (2 ^ 47 + bp) BP_DELETED_FLAG = 2 ^ 47.
Proof.
  intros Hbp. change BP_DELETED_FLAG with (2 ^ 47).
  assert (forall x n, 0 <= x < 2 ^ 47 -> 0 <= n -> Z.testbit x n = true -> n < 47) as Hbits.
  { intros x n Hx Hn Ht. destruct (Z.lt_ge_cases n 47) as [|Hge]; [done|].
    rewrite Z.bits_above_log2 in Ht; [done|lia|].
    destruct (Z.eq_dec x 0) as [->|]; [cbn; lia|]. pose proof (proj1 (Z.log2_lt_pow2 x 47 ltac:(lia)) ltac:(lia)). lia. }
  assert (Z.land bp (2 ^ 47) = 0) as H0.
  { apply Z.bits_inj'. intros n Hn. rewrite Z.land_spec, Z.bits_0, Z.pow2_bits_eqb by lia.
    destruct (Z.testbit bp n) eqn:E; [|done]. apply Hbits in E; [|lia..].
    destruct (Z.eqb_spec 47 n); [lia|done]. }
  assert (Z.lor bp (Z.shiftl 1 47) = 2 ^ 47 + bp) as H1.
  { change (Z.shiftl 1 47) with (1 * 2 ^ 47). rewrite Z.lor_comm, lor_high_low by lia. lia. }
  split_and!; [done|done|]. rewrite <- H1. change (Z.shiftl 1 47) with (2 ^ 47).
  rewrite Z.land_lor_distr_l, H0, Z.land_diag. done.
Qed.

Lemma bp_field_length i : length (bp_field i) = 6%nat.
Proof. apply encode_raw48_length. Qed.

Lemma bp_field_deleted i : info_ok i ->
  (if decide (Z.land (decode_raw48 (bp_field i)) BP_DELETED_FLAG <> 0) then 1 else 0) = di_deleted i /\
  clear_flag (decode_raw48 (bp_field i)) BP_DELETED_FLAG = di_bp i.
Proof.
  intros Hi. pose proof (io_bp i Hi) as Hbp. destruct (bp_flag _ Hbp) as (E1 & E2 & E3).
  assert (clear_flag (di_bp i) BP_DELETED_FLAG = di_bp i) as Hclear.
  { unfold clear_flag. rewrite <- Z.ldiff_land. rewrite Z.ldiff_land.
    rewrite <- (Z.lor_0_r (Z.land _ _)), <- E2, <- Z.land_lor_distr_r, Z.lor_comm, Z.lor_lnot_diag.
    apply Z.land_m1_r. }
  unfold bp_field. destruct (io_deleted i Hi) as [Hd|Hd]; rewrite Hd.
  - rewrite (decide_False (P := 0 <> 0)) by (by intros []). rewrite Z.lor_0_r, decode_encode_raw48, Z.mod_small by lia.
    rewrite decide_False by (rewrite E2; by intros []). done.
  - rewrite (decide_True (P := 1 <> 0)) by done. rewrite E1, decode_encode_raw48, Z.mod_small by lia.
    rewrite decide_True by (rewrite E3; done). split; [done|].
    rewrite <- E1. unfold clear_flag in *. rewrite Z.land_lor_distr_l, Hclear.
    change (Z.shiftl 1 47) with BP_DELETED_FLAG. rewrite Z.land_lnot_diag. apply Z.lor_0_r.
Qed.

(** ** By id *)

Lemma assemble_id_length i :
  length (assemble_id_index_value i) = (23 + length (di_rev_meta i))%nat.
Proof.
  unfold assemble_id_index_value, raw_id_index_value_bytes, bp_field. cbn [riv_db_seq riv_size riv_bp riv_rev_seq riv_content_meta].
  autorewrite with len. lia.
Qed.

Lemma assemble_id_raw i :
  as_raw_id_index_value (assemble_id_index_value i) =
  Some {| riv_db_seq := encode_raw48 (di_db_seq i); riv_size := encode_raw32 (u32 (di_size i));
          riv_bp := bp_field i; riv_rev_seq := encode_raw48 (di_rev_seq i);
          riv_content_meta := encode_raw08 (di_content_meta i) |}.
Proof. unfold assemble_id_index_value. apply as_raw_id_index_value_bytes; unfold bp_field; autorewrite with len; done. Qed.

Lemma by_id_read_assemble i : info_ok i ->
  by_id_read_docinfo (di_id i) (assemble_id_index_value i) = Some (Done i).
Proof.
  intros Hi. unfold by_id_read_docinfo.
  rewrite decide_False by (rewrite assemble_id_length; unfold sizeof_raw_id_index_value; lia).
  rewrite assemble_id_raw. cbn [mbind option_bind riv_db_seq riv_size riv_bp riv_rev_seq riv_content_meta].
  destruct (bp_field_deleted i Hi) as [-> ->].
  assert (slice sizeof_raw_id_index_value (length (assemble_id_index_value i) - sizeof_raw_id_index_value)
            (assemble_id_index_value i) = Some (di_rev_meta i)) as ->.
  { rewrite assemble_id_length. unfold sizeof_raw_id_index_value, assemble_id_index_value.
    set (raw := raw_id_index_value_bytes _). rewrite <- (app_nil_r (raw ++ _)), <- app_assoc.
    apply slice_mid; [|lia]. unfold raw, raw_id_index_value_bytes, bp_field.
    cbn [riv_db_seq riv_size riv_bp riv_rev_seq riv_content_meta]. by autorewrite with len. }
  cbn [mbind option_bind]. destruct Hi as [Hq Hr Hb Hz Hc _ _ _].
  rewrite !decode_encode_raw48, decode_encode_raw32, decode_encode_raw08. unfold u32.
  rewrite Z.mod_mod by lia. rewrite !Z.mod_small by lia. by destruct i.
Qed.

Lemma assemble_id_seq i v raw : info_ok i -> v = assemble_id_index_value i ->
  as_raw_id_index_value v = Some raw -> decode_raw48 (riv_db_seq raw) = di_db_seq i.
Proof.
  intros Hi -> E. rewrite assemble_id_raw in E. injection E as <-. cbn [riv_db_seq].
  rewrite decode_encode_raw48. apply Z.mod_small, Hi.
Qed.

Lemma assemble_id_kvok i : info_ok i -> id_kvok (di_id i) (assemble_id_index_value i).
Proof.
  intros Hi. pose proof (io_meta i Hi) as Hm. pose proof (blen_nonneg (di_id i)).
  unfold id_kvok, kv_fits, id_value_ok. unfold blen in *. rewrite assemble_id_length.
  split_and!; [apply Hi|lia|unfold sizeof_raw_id_index_value; lia].
Qed.

(** ** By sequence *)

Lemma assemble_seq_length i :
  length (assemble_seq_index_value i) = (18 + length (di_id i) + length (di_rev_meta i))%nat.
Proof.
  unfold assemble_seq_index_value, raw_seq_index_value_bytes, bp_field. cbn [rsv_sizes rsv_bp rsv_rev_seq rsv_content_meta].
  rewrite !length_app, encode_kv_length_length. autorewrite with len. lia.
Qed.

Lemma assemble_seq_raw i :
  as_raw_seq_index_value (assemble_seq_index_value i) =
  Some {| rsv_sizes := encode_kv_length (blen (di_id i)) (di_size i); rsv_bp := bp_field i;
          rsv_rev_seq := encode_raw48 (di_rev_seq i); rsv_content_meta := encode_raw08 (di_content_meta i) |}.
Proof.
  unfold assemble_seq_index_value. apply as_raw_seq_index_value_bytes; unfold bp_field;
    cbn [rsv_sizes rsv_bp rsv_rev_seq rsv_content_meta]; rewrite ?encode_kv_length_length; autorewrite with len; done.
Qed.

Lemma by_seq_read_assemble i : info_ok i ->
  by_seq_read_docinfo (encode_raw48 (di_db_seq i)) (assemble_seq_index_value i) = Some (Done i).
Proof.
  intros Hi. unfold by_seq_read_docinfo.
  rewrite decide_False by (rewrite assemble_seq_length; unfold sizeof_raw_seq_index_value; lia).
  rewrite assemble_seq_raw. cbn [mbind option_bind rsv_sizes rsv_bp rsv_rev_seq rsv_content_meta].
  destruct (bp_field_deleted i Hi) as [-> ->]. destruct Hi as [Hq Hr Hb Hz Hc _ Hid Hm].
  pose proof (blen_nonneg (di_id i)). rewrite kv_length_roundtrip by lia.
  rewrite decode_sequence_key_encode. cbn [mbind option_bind].
  set (v := assemble_seq_index_value i).
  assert (exists raw, v = raw ++ di_id i ++ di_rev_meta i /\ length raw = 18%nat) as (raw & Ev & Hraw).
  { eexists. split; [reflexivity|]. unfold raw_seq_index_value_bytes, bp_field.
    cbn [rsv_sizes rsv_bp rsv_rev_seq rsv_content_meta]. rewrite !length_app, encode_kv_length_length.
    by autorewrite with len. }
  clearbody v. subst v. unfold sizeof_raw_seq_index_value, blen. rewrite Nat2Z.id.
  rewrite (slice_mid raw (di_id i) (di_rev_meta i) 18 (length (di_id i))) by lia. cbn [mbind option_bind].
  rewrite !length_app, Hraw.
  replace (Z.to_nat _) with (length (di_rev_meta i)) by lia.
  assert (slice (18 + length (di_id i)) (length (di_rev_meta i)) (raw ++ di_id i ++ di_rev_meta i) =
          Some (di_rev_meta i)) as ->.
  { rewrite app_assoc, <- (app_nil_r ((raw ++ _) ++ _)), <- app_assoc.
    apply slice_mid; rewrite ?length_app; lia. }
  cbn [mbind option_bind].
  rewrite !decode_encode_raw48, decode_encode_raw08, !Z.mod_small by lia. by destruct i.
Qed.

Lemma assemble_seq_kvok i : info_ok i -> seq_kvok (encode_raw48 (di_db_seq i)) (assemble_seq_index_value i).
Proof.
  intros Hi. pose proof (io_meta i Hi) as Hm. unfold seq_kvok, kv_fits, blen in *.
  rewrite assemble_seq_length, encode_raw48_length. split_and!; lia.
Qed.

Lemma encode_raw48_inj a b : 0 <= a < 2 ^ 48 -> 0 <= b < 2 ^ 48 -> encode_raw48 a = encode_raw48 b -> a = b.
Proof.
  intros Ha Hb E. apply (f_equal decode_raw48) in E. rewrite !decode_encode_raw48, !Z.mod_small in E by lia. done.
Qed.
