(* ===== verification/DbSpec.v ===== *)
(** * DbSpec: what an open database stands for, and reading it

    [db_rep d t D L]: the file and the header of the db [d] hold the documents
    [D], a finite map from ids to DocInfos, and the local documents [L].  The two
    indexes hold the same documents: by id the value of each id, by sequence one
    entry for each document under its sequence number.  Every read operation of
    Docs answers from [D] and [L]. *)

From Stdlib Require Import ZArith Lia Sorted.
From S2P Require Import Prelude Bitfield NodeTypes Util FileOps TreeFile NodeStore Header BTree BTreeInv BTreeFlush TreeSpec BTreeModify Reduces BTreeRead Docs Save DocCodec.
From stdpp Require Import list numbers gmap.

#[local] Open Scope Z_scope.
#[local] Open Scope couch_scope.
#[local] Existing Instance pure_ctx | 100.

(** ** Lists of items as maps *)

Lemma value_of_map k kvs : value_of k kvs = as_map kvs !! k.
Proof.
  unfold as_map. induction kvs as [|[k' v] kvs IH]; cbn [value_of list_to_map foldr]; [by rewrite lookup_empty|].
  cbn [fst snd uncurry]. case_decide as E.
  - subst. by rewrite lookup_insert_eq.
  - rewrite lookup_insert_ne by done. apply IH.
Qed.

Lemma as_map_empty kvs : as_map kvs = ∅ -> kvs = [].
Proof.
  destruct kvs as [|[k v] kvs]; [done|]. unfold as_map. cbn. intros E.
  apply (f_equal (fun m => m !! k)) in E. by rewrite lookup_insert_eq, lookup_empty in E.
Qed.

(** ** The representation *)

(** The items of the three trees, and a bound on their heights. *)
Record trees : Type := { t_id : list kv; t_seq : list kv; t_local : list kv; t_height : nat }.

Definition docs_ok (D : gmap bytes DocInfo) (update_seq : Z) : Prop :=
  (forall id i, D !! id = Some i -> di_id i = id /\ info_ok i /\ 0 < di_db_seq i <= update_seq) /\
  (forall a b i j, D !! a = Some i -> D !! b = Some j -> di_db_seq i = di_db_seq j -> a = b).

(** The entry of a document in the index by sequence. *)
Definition seq_entry (D : gmap bytes DocInfo) (k v : bytes) : Prop :=
  exists id i, D !! id = Some i /\ k = encode_raw48 (di_db_seq i) /\ v = assemble_seq_index_value i.

Section Rep.
Context {H : Type} `{HO : FileOps H} `{HF : Faulty H} `{HL : !FileLaws H} `{HS : Snappy} `{HSL : !SnappyLaws}.

Definition tree_at {compare} `{!KeyOrder compare} (kvok : bytes -> bytes -> Prop) (rval : list kv -> bytes)
    (f : tree_file H) (hmax : nat) (root : option node_pointer) (kvs : list kv) : Prop :=
  ksorted (compare := compare) kvs /\ exists h, (h <= hmax)%nat /\ root_at kvok rval f h root kvs.

Definition no_rval (kvs : list kv) : bytes := [].

(** What the header leads to. *)
Record db_data (d : Db H) (t : trees) (D : gmap bytes DocInfo) (L : gmap bytes bytes) : Prop := {
  dr_pos : 0 < tf_pos (db_file d);
  dr_seq_range : 0 <= dh_update_seq (db_hdr d) < 2 ^ 48;
  dr_purge_seq : 0 <= dh_purge_seq (db_hdr d) < 2 ^ 48;
  dr_purge_ptr : 0 <= dh_purge_ptr (db_hdr d) <= tf_pos (db_file d);
  dr_docs : docs_ok D (dh_update_seq (db_hdr d));
  dr_id : tree_at (compare := ebin_compare) id_kvok by_id_rval (db_file d) (t_height t)
            (dh_by_id_root (db_hdr d)) (t_id t);
  dr_seq : tree_at (compare := seq_cmp) seq_kvok by_seq_rval (db_file d) (t_height t)
            (dh_by_seq_root (db_hdr d)) (t_seq t);
  dr_local : tree_at (compare := ebin_compare) local_kvok no_rval (db_file d) (t_height t)
            (dh_local_docs_root (db_hdr d)) (t_local t);
  dr_id_map : as_map (t_id t) = assemble_id_index_value <$> D;
  dr_seq_map : forall k v, as_map (t_seq t) !! k = Some v <-> seq_entry D k v;
  dr_local_map : as_map (t_local t) = L
}.

Record db_rep (d : Db H) (t : trees) (D : gmap bytes DocInfo) (L : gmap bytes bytes) : Prop := {
  dr_file : tf_ok (db_file d);
  dr_data :> db_data d t D L
}.

(** What a read leaves: the same header, and a file that still holds it all. *)
Definition after_read (d d' : Db H) : Prop :=
  db_hdr d' = db_hdr d /\ tf_ok (db_file d') /\ tf_ext (db_file d) (db_file d').

Lemma tree_at_keep {compare} `{!KeyOrder compare} kvok rval f f' hmax root kvs :
  keeps_nodes f f' -> tree_at (compare := compare) kvok rval f hmax root kvs ->
  tree_at (compare := compare) kvok rval f' hmax root kvs.
Proof. intros He (? & h & ? & ?). split; [done|]. exists h. split; [done|]. by eapply root_at_keep. Qed.

Lemma db_data_keep d d' t D L :
  db_hdr d' = db_hdr d -> tf_keep (db_file d) (db_file d') -> db_data d t D L -> db_data d' t D L.
Proof.
  intros Eh Hk []. pose proof (proj1 Hk).
  assert (keeps_nodes (db_file d) (db_file d')) by (intros ???; by apply node_stored_keep).
  split; rewrite ?Eh; try done; try lia; by eapply tree_at_keep.
Qed.

Lemma db_rep_keep d d' t D L :
  db_hdr d' = db_hdr d -> tf_ok (db_file d') -> tf_keep (db_file d) (db_file d') ->
  db_rep d t D L -> db_rep d' t D L.
Proof. intros Eh Hok Hk [_ Hd]. split; [done|]. by eapply db_data_keep. Qed.

Lemma db_rep_read d d' t D L : after_read d d' -> db_rep d t D L -> db_rep d' t D L.
Proof. intros (Eh & Hok & He). apply db_rep_keep; [done|done|]. by apply tf_ext_keep. Qed.

Lemma after_read_refl d : tf_ok (db_file d) -> after_read d d.
Proof. intros Hok. split_and!; [done|done|reflexivity]. Qed.

(** A root exists exactly when its tree has items. *)
Lemma node_at_ne kvok rval (f : tree_file H) h pos kvs sz :
  node_at kvok rval f h pos kvs sz -> kvs <> [].
Proof.
  revert pos kvs sz. induction h as [|h IH]; intros pos kvs sz; cbn; [by intros (? & _)|].
  intros (cs & dsz & Hne & Hcs & -> & _). destruct Hcs as [|c cs [_ Hc] _]; [done|].
  unfold ch_all. cbn. intros E. apply app_eq_nil in E as [E _]. by apply IH in Hc.
Qed.

Lemma tree_at_none {compare} `{!KeyOrder compare} kvok rval f hmax root kvs :
  tree_at (compare := compare) kvok rval f hmax root kvs -> root = None <-> kvs = [].
Proof.
  intros (_ & h & _ & Hr). destruct root as [p|]; cbn in Hr.
  - destruct Hr as (sz & Hn & _). apply node_at_ne in Hn. done.
  - by destruct Hr as [-> _].
Qed.

Lemma db_rep_empty d t D L : db_rep d t D L ->
  (dh_by_id_root (db_hdr d) = None <-> D = ∅) /\ (dh_by_seq_root (db_hdr d) = None <-> D = ∅).
Proof.
  intros Hr. rewrite (tree_at_none _ _ _ _ _ _ (dr_id _ _ _ _ Hr)), (tree_at_none _ _ _ _ _ _ (dr_seq _ _ _ _ Hr)).
  assert (t_id t = [] <-> D = ∅) as H1.
  { pose proof (dr_id_map _ _ _ _ Hr) as E. split.
    - intros E0. rewrite E0 in E. change (as_map []) with (∅ : gmap bytes bytes) in E. symmetry in E. by apply fmap_empty_inv in E.
    - intros ->. rewrite fmap_empty in E. by apply as_map_empty. }
  split; [done|]. pose proof (dr_seq_map _ _ _ _ Hr) as E. split.
  - intros E0. apply map_empty. intros id. destruct (D !! id) as [i|] eqn:Ei; [|done].
    pose proof (proj2 (E _ _) (ex_intro _ id (ex_intro _ i (conj Ei (conj eq_refl eq_refl))))) as Hx.
    rewrite E0 in Hx. done.
  - intros ->. apply as_map_empty, map_empty. intros k. destruct (as_map _ !! k) as [v|] eqn:Ev; [|done].
    apply E in Ev as (id & i & Hi & _). by rewrite lookup_empty in Hi.
Qed.

(** ** Programs with a context *)

Lemma wp_with_ctx {C A} (c : C) (m : M (tree_file H * C) A) Q (d : Db H) :
  wp m (fun a s => Q (a, s.2) {| db_file := s.1; db_hdr := db_hdr d |}) (db_file d, c) -> wp (with_ctx c m) Q d.
Proof.
  unfold wp, with_ctx. destruct (m (db_file d, c)) as [a [f c']|[f c']|[f c']]; by rewrite failed_pure.
Qed.

Lemma sticky_with_ctx {C A} (c : C) (m : M (tree_file H * C) A) : sticky m -> sticky (with_ctx c m).
Proof.
  intros Hm d Hd. specialize (Hm (db_file d, c)). rewrite !failed_pure in Hm. specialize (Hm Hd). unfold with_ctx.
  by destruct (m (db_file d, c)) as [a [f c']|[f c']|[f c']].
Qed.

Lemma sticky_set_ctx {C} (c : C) : sticky (set_ctx (F := tree_file H) c).
Proof. by intros s. Qed.
#[local] Hint Resolve sticky_with_ctx sticky_set_ctx sticky_get_header sticky_set_header sticky_in_file : sticky.

Lemma sticky_docinfo_fetch_by_id k v : sticky (docinfo_fetch_by_id (H := H) k v).
Proof. unfold docinfo_fetch_by_id. solve_sticky. Qed.
Lemma sticky_docinfo_fetch_by_seq k v : sticky (docinfo_fetch_by_seq (H := H) k v).
Proof. unfold docinfo_fetch_by_seq. solve_sticky. Qed.
Lemma sticky_local_doc_fetch k v : sticky (local_doc_fetch (H := H) k v).
Proof. unfold local_doc_fetch. solve_sticky. Qed.

#[local] Hint Resolve sticky_docinfo_fetch_by_id sticky_docinfo_fetch_by_seq sticky_local_doc_fetch : sticky.

Lemma sticky_lookup {C} (rq : lookup_request (tree_file H) C) c fuel fold ks pos :
  lq_node_callback rq = None -> (forall k v, sticky (lq_fetch_callback rq k v)) ->
  sticky (with_ctx c (btree_lookup rq fuel fold ks pos)).
Proof. intros. by apply sticky_with_ctx, sticky_btree_lookup. Qed.
Lemma sticky_lookup_id c fuel ks pos :
  sticky (with_ctx c (btree_lookup (docinfo_request (H := H) ebin_compare docinfo_fetch_by_id) fuel false ks pos)).
Proof. apply sticky_lookup; [done|]. apply sticky_docinfo_fetch_by_id. Qed.
Lemma sticky_lookup_seq c fuel ks pos :
  sticky (with_ctx c (btree_lookup (docinfo_request (H := H) seq_cmp docinfo_fetch_by_seq) fuel false ks pos)).
Proof. apply sticky_lookup; [done|]. apply sticky_docinfo_fetch_by_seq. Qed.
#[local] Hint Resolve sticky_lookup_id sticky_lookup_seq : sticky.

(** A lookup of one key, with a callback that does not use the file. *)
Lemma wp_lookup_one {C compare} `{HK : !KeyOrder compare} kvok rval
    (cb : bytes -> option bytes -> M (tree_file H * C) couchstore_error_t)
    fuel hmax (d : Db H) c root kvs k e c' (Q : couchstore_error_t * C -> Db H -> Prop) :
  (forall k v, sticky (cb k v)) ->
  (forall k v, kvok k v -> vkey (compare := compare) k) -> (forall k v, kvok k v -> kv_fits k v) ->
  (forall l, blen (rval l) <= REDUCE_BUF_SIZE) ->
  tf_ok (db_file d) -> tree_at (compare := compare) kvok rval (db_file d) hmax (Some root) kvs ->
  vkey (compare := compare) k -> (hmax < fuel)%nat ->
  (forall f, cb k (value_of k kvs) (f, c) = Ret e (f, c')) ->
  (forall d', after_read d d' -> Q (e, c') d') ->
  wp (with_ctx c (btree_lookup {| lq_compare := compare; lq_fetch_callback := cb; lq_node_callback := None |}
        fuel false [k] (np_pointer root))) Q d.
Proof.
  intros Hst Hkey Hfits Hrv Hok (Hs & h & Hh & sz & Hn & _) Hvk Hfuel Hcb HQ.
  apply wp_with_ctx. set (rq := {| lq_compare := compare |}).
  eapply (wp_btree_lookup rq kvok rval (HK := HK) Hkey Hfits Hrv Hst eq_refl fuel h); [lia|done|exact Hn|done|..].
  - by repeat constructor.
  - by repeat constructor.
  - by repeat constructor.
  - cbn [found map delivers]. intros f' Hok' He. unfold wp. cbn [lq_fetch_callback]. rewrite Hcb. intros _.
    case_decide as Ee.
    + subst e. split_and!; [done|reflexivity|]. intros f2 Hok2 He2. apply HQ. split_and!; [done|done|].
      by transitivity f'.
    + apply HQ. by split_and!.
Qed.

(** ** Fetching one document *)

Lemma id_kvok_key k v : id_kvok k v -> vkey (compare := ebin_compare) k.
Proof. done. Qed.
Lemma seq_kvok_key k v : seq_kvok k v -> vkey (compare := seq_cmp) k.
Proof. by intros [_ ?]. Qed.
Lemma id_kvok_fits k v : id_kvok k v -> kv_fits k v.
Proof. by intros [? _]. Qed.
Lemma seq_kvok_fits k v : seq_kvok k v -> kv_fits k v.
Proof. by intros [? _]. Qed.
Lemma by_id_rval_size kvs : blen (by_id_rval kvs) <= REDUCE_BUF_SIZE.
Proof.
  unfold by_id_rval, encode_by_id_reduce, blen, REDUCE_BUF_SIZE.
  rewrite !length_app, !encode_raw40_length, encode_raw48_length. lia.
Qed.
Lemma by_seq_rval_size kvs : blen (by_seq_rval kvs) <= REDUCE_BUF_SIZE.
Proof. unfold by_seq_rval, blen, REDUCE_BUF_SIZE. rewrite encode_raw40_length. lia. Qed.
Lemma no_rval_size kvs : blen (no_rval kvs) <= REDUCE_BUF_SIZE.
Proof. done. Qed.

Lemma value_of_id d t D L id : db_rep d t D L -> value_of id (t_id t) = assemble_id_index_value <$> D !! id.
Proof. intros Hr. by rewrite value_of_map, (dr_id_map _ _ _ _ Hr), lookup_fmap. Qed.

Lemma fetch_by_id_hit i p (f : tree_file H) : info_ok i ->
  docinfo_fetch_by_id (di_id i) (assemble_id_index_value <$> Some i) (f, p) = Ret COUCHSTORE_SUCCESS (f, Some i).
Proof. intros Hi. unfold docinfo_fetch_by_id. cbn [fmap option_fmap option_map]. by rewrite by_id_read_assemble. Qed.
Lemma fetch_by_seq_hit i p (f : tree_file H) : info_ok i ->
  docinfo_fetch_by_seq (encode_raw48 (di_db_seq i)) (Some (assemble_seq_index_value i)) (f, p) =
  Ret COUCHSTORE_SUCCESS (f, Some i).
Proof. intros Hi. unfold docinfo_fetch_by_seq. by rewrite by_seq_read_assemble. Qed.

Lemma wp_docinfo_by_id d t D L fuel id p (Q : couchstore_error_t * option DocInfo -> Db H -> Prop) :
  db_rep d t D L -> (t_height t < fuel)%nat ->
  (forall d', after_read d d' ->
    Q match D !! id with
      | Some i => (COUCHSTORE_SUCCESS, Some i)
      | None => (COUCHSTORE_ERROR_DOC_NOT_FOUND, p)
      end d') ->
  wp (couchstore_docinfo_by_id fuel id p) Q d.
Proof.
  intros Hr Hfuel HQ. unfold couchstore_docinfo_by_id. apply wp_bind; [intros; solve_sticky|]. intros Hio.
  pose proof (dr_file _ _ _ _ Hr) as Hok.
  destruct (dh_by_id_root (db_hdr d)) as [root|] eqn:Eroot.
  2:{ assert (D = ∅) as ED by exact (proj1 (proj1 (db_rep_empty _ _ _ _ Hr)) Eroot). rewrite ED, lookup_empty in HQ.
      by apply wp_ret, HQ, after_read_refl. }
  pose proof (dr_id _ _ _ _ Hr) as Ht. rewrite Eroot in Ht.
  apply wp_bind; [intros [??]; solve_sticky|].
  destruct (D !! id) as [i|] eqn:Ei.
  - destruct (proj1 (dr_docs _ _ _ _ Hr) _ _ Ei) as (<- & Hi & _).
    eapply (wp_lookup_one id_kvok by_id_rval docinfo_fetch_by_id fuel (t_height t) d p root (t_id t) (di_id i)
              COUCHSTORE_SUCCESS (Some i));
      eauto using sticky_docinfo_fetch_by_id, id_kvok_key, id_kvok_fits, by_id_rval_size; [done| |].
    + intros f. rewrite (value_of_id _ _ _ _ _ Hr), Ei. by apply fetch_by_id_hit.
    + intros d' Hd'. rewrite decide_False by naive_solver. by apply wp_ret, HQ.
  - eapply (wp_lookup_one id_kvok by_id_rval docinfo_fetch_by_id fuel (t_height t) d p root (t_id t) id
              COUCHSTORE_ERROR_DOC_NOT_FOUND p);
      eauto using sticky_docinfo_fetch_by_id, id_kvok_key, id_kvok_fits, by_id_rval_size; [done| |].
    + intros f. by rewrite (value_of_id _ _ _ _ _ Hr), Ei.
    + intros d' Hd'. rewrite decide_False by naive_solver. by apply wp_ret, HQ.
Qed.

(** The key couchstore_docinfo_by_sequence builds. *)
Lemma sequence_key seq : take 6 (drop 2 (le_bytes 8 (htonll seq))) = encode_raw48 seq.
Proof.
  rewrite encode_raw48_be, htonll_spec.
  assert (le_bytes 8 (le_val (be_bytes 8 seq)) = be_bytes 8 seq) as -> by apply (le_bytes_le_val (be_bytes 8 seq)).
  change 8%nat with (2 + 6)%nat. rewrite (be_bytes_drop 6 2 seq).
  rewrite firstn_all2 by (by rewrite be_bytes_length). done.
Qed.

Lemma value_of_seq d t D L id i : db_rep d t D L -> D !! id = Some i ->
  value_of (encode_raw48 (di_db_seq i)) (t_seq t) = Some (assemble_seq_index_value i).
Proof. intros Hr Hi. rewrite value_of_map. apply (dr_seq_map _ _ _ _ Hr). by exists id, i. Qed.

Lemma value_of_no_seq d t D L seq : db_rep d t D L -> 0 <= seq < 2 ^ 48 ->
  (forall id i, D !! id = Some i -> di_db_seq i <> seq) -> value_of (encode_raw48 seq) (t_seq t) = None.
Proof.
  intros Hr Hseq Hno. rewrite value_of_map. destruct (as_map _ !! _) as [v|] eqn:E; [|done].
  apply (dr_seq_map _ _ _ _ Hr) in E as (id & i & Hi & E & _). exfalso.
  destruct (proj1 (dr_docs _ _ _ _ Hr) _ _ Hi) as (_ & Hio & _).
  apply encode_raw48_inj in E; [|done|apply Hio]. by eapply Hno.
Qed.

Lemma wp_docinfo_by_sequence d t D L fuel seq p (Q : couchstore_error_t * option DocInfo -> Db H -> Prop) :
  db_rep d t D L -> (t_height t < fuel)%nat -> 0 <= seq < 2 ^ 48 ->
  (forall d' id i, after_read d d' -> D !! id = Some i -> di_db_seq i = seq ->
     Q (COUCHSTORE_SUCCESS, Some i) d') ->
  ((forall id i, D !! id = Some i -> di_db_seq i <> seq) ->
     forall d', after_read d d' -> Q (COUCHSTORE_ERROR_DOC_NOT_FOUND, p) d') ->
  wp (couchstore_docinfo_by_sequence fuel seq p) Q d.
Proof.
  intros Hr Hfuel Hseq HQ1 HQ2. unfold couchstore_docinfo_by_sequence. apply wp_bind; [intros; solve_sticky|].
  intros _. pose proof (dr_file _ _ _ _ Hr) as Hok. destruct (db_rep_empty _ _ _ _ Hr) as [E1 E2].
  destruct (dh_by_id_root (db_hdr d)) as [root|] eqn:Eroot.
  2:{ apply wp_ret, HQ2; [|by apply after_read_refl]. assert (D = ∅) as -> by (apply E1; done).
      intros id i Hi. by rewrite lookup_empty in Hi. }
  destruct (dh_by_seq_root (db_hdr d)) as [sroot|] eqn:Es.
  2:{ exfalso. rewrite <- E1 in E2. by destruct E2 as [E2 _]; specialize (E2 eq_refl). }
  apply wp_bind; [intros; solve_sticky|]. apply wp_ret. rewrite sequence_key.
  pose proof (dr_seq _ _ _ _ Hr) as Ht. rewrite Es in Ht. apply wp_bind; [intros [??]; solve_sticky|].
  assert (vkey (compare := seq_cmp) (encode_raw48 seq)) as Hvk by apply encode_raw48_length.
  destruct (value_of (encode_raw48 seq) (t_seq t)) as [v|] eqn:Ev.
  - pose proof Ev as Ev'. rewrite value_of_map in Ev'.
    apply (dr_seq_map _ _ _ _ Hr) in Ev' as (id & i & Hi & Ek & ->).
    destruct (proj1 (dr_docs _ _ _ _ Hr) _ _ Hi) as (_ & Hio & _).
    apply encode_raw48_inj in Ek as ->; [|done|apply Hio].
    eapply (wp_lookup_one seq_kvok by_seq_rval docinfo_fetch_by_seq fuel (t_height t) d p sroot (t_seq t) _
              COUCHSTORE_SUCCESS (Some i));
      eauto using sticky_docinfo_fetch_by_seq, seq_kvok_key, seq_kvok_fits, by_seq_rval_size.
    + intros f. rewrite Ev. by apply fetch_by_seq_hit.
    + intros d' Hd'. rewrite decide_False by naive_solver. apply wp_ret. by eapply HQ1.
  - eapply (wp_lookup_one seq_kvok by_seq_rval docinfo_fetch_by_seq fuel (t_height t) d p sroot (t_seq t) _
              COUCHSTORE_ERROR_DOC_NOT_FOUND p);
      eauto using sticky_docinfo_fetch_by_seq, seq_kvok_key, seq_kvok_fits, by_seq_rval_size.
    + intros f. by rewrite Ev.
    + intros d' Hd'. rewrite decide_False by naive_solver. apply wp_ret, HQ2; [|done].
      intros id i Hi <-. by rewrite (value_of_seq _ _ _ _ _ _ Hr Hi) in Ev.
Qed.

(** ** Bodies *)

(** The body of a document stands at [bp], compressed or not. *)
Definition body_at (f : tree_file H) (compressed : bool) (bp : Z) (data : bytes) : Prop :=
  if compressed then exists dsz, node_stored f bp data dsz else chunk_at f bp data.

Lemma body_at_keep f f' b bp data : tf_keep f f' -> body_at f b bp data -> body_at f' b bp data.
Proof.
  intros Hk. destruct b; [|by apply chunk_at_keep]. intros [dsz Hd]. exists dsz. by eapply node_stored_keep.
Qed.

(** Whether the body of a document is compressed when the option bit is given. *)
Definition compressed (content_meta options : Z) : bool :=
  flag content_meta COUCH_DOC_IS_COMPRESSED && flag options DECOMPRESS_DOC_BODIES.

Lemma clear_flag_flag options bit : flag (clear_flag options bit) bit = false.
Proof.
  unfold flag, clear_flag. rewrite <- Z.land_assoc, (Z.land_comm (Z.lnot bit)), Z.land_lnot_diag, Z.land_0_r. done.
Qed.

Lemma option_compressed cm options :
  flag (if flag cm COUCH_DOC_IS_COMPRESSED then options else clear_flag options DECOMPRESS_DOC_BODIES)
       DECOMPRESS_DOC_BODIES = compressed cm options.
Proof. unfold compressed. destruct (flag cm _); [done|]. apply clear_flag_flag. Qed.

Lemma wp_open_doc_with_docinfo d i options data (Q : result Doc -> Db H -> Prop) :
  tf_ok (db_file d) -> di_bp i <> 0 ->
  body_at (db_file d) (compressed (di_content_meta i) options) (di_bp i) data ->
  (forall d', after_read d d' -> Q (Done {| doc_id := di_id i; doc_data := data |}) d') ->
  wp (couchstore_open_doc_with_docinfo i options) Q d.
Proof.
  intros Hok Hbp Hb HQ. unfold couchstore_open_doc_with_docinfo. rewrite decide_False by done.
  apply wp_bind; [intros; solve_sticky|]. unfold bp_to_doc. rewrite option_compressed.
  destruct (compressed _ _); cbn [body_at] in Hb.
  - destruct Hb as [dsz Hb]. apply wp_in_file, (wp_pread_compressed _ data dsz); [done..|].
    intros f' Hok' He _. apply wp_ret, HQ. by split_and!.
  - apply wp_in_file, (wp_chunk_read _ data); [done..|].
    intros f' Hok' He _. apply wp_ret, HQ. by split_and!.
Qed.

Lemma wp_open_document d t D L fuel id i options data info (Q : result Doc -> Db H -> Prop) :
  db_rep d t D L -> (t_height t < fuel)%nat -> D !! id = Some i -> di_bp i <> 0 ->
  body_at (db_file d) (compressed (di_content_meta i) options) (di_bp i) data ->
  (forall d', after_read d d' -> Q (Done {| doc_id := id; doc_data := data |}) d') ->
  wp (couchstore_open_document fuel id options info) Q d.
Proof.
  intros Hr Hfuel Hi Hbp Hb HQ. unfold couchstore_open_document.
  apply wp_bind; [intros [??]; unfold couchstore_open_doc_with_docinfo, bp_to_doc; solve_sticky|].
  apply (wp_docinfo_by_id _ _ _ _ _ _ _ _ Hr Hfuel). rewrite Hi. intros d1 (Eh & Hok1 & He1).
  rewrite decide_True by done.
  apply wp_bind; [intros; unfold couchstore_open_doc_with_docinfo, bp_to_doc; solve_sticky|]. apply wp_ret.
  apply wp_bind; [intros; solve_sticky|]. apply (wp_open_doc_with_docinfo _ _ _ data); [done|done| |].
  { eapply body_at_keep; [|done]. by apply tf_ext_keep. }
  intros d2 (Eh2 & Hok2 & He2). apply wp_ret, HQ. split_and!; [congruence|done|by transitivity (db_file d1)].
Qed.

Lemma sticky_open_document fuel id options info : sticky (couchstore_open_document (H := H) fuel id options info).
Proof.
  unfold couchstore_open_document, couchstore_docinfo_by_id, couchstore_open_doc_with_docinfo, bp_to_doc. solve_sticky.
Qed.

(** A deleted document has no body. *)
Lemma wp_open_no_body d t D L fuel id options info (Q : result Doc -> Db H -> Prop) :
  db_rep d t D L -> (t_height t < fuel)%nat -> (forall i, D !! id = Some i -> di_bp i = 0) ->
  (forall d', after_read d d' -> Q (Error COUCHSTORE_ERROR_DOC_NOT_FOUND) d') ->
  wp (couchstore_open_document fuel id options info) Q d.
Proof.
  intros Hr Hfuel Hi HQ. unfold couchstore_open_document.
  apply wp_bind; [intros [??]; unfold couchstore_open_doc_with_docinfo, bp_to_doc; solve_sticky|].
  apply (wp_docinfo_by_id _ _ _ _ _ _ _ _ Hr Hfuel). destruct (D !! id) as [i|].
  - intros d1 Hd1. rewrite decide_True by done.
    apply wp_bind; [intros; unfold couchstore_open_doc_with_docinfo, bp_to_doc; solve_sticky|]. apply wp_ret.
    unfold couchstore_open_doc_with_docinfo. rewrite decide_True by auto.
    apply wp_bind; [intros; solve_sticky|]. by apply wp_ret, wp_ret, HQ.
  - intros d1 Hd1. rewrite decide_False by done. by apply wp_ret, HQ.
Qed.

(** ** Local documents *)

Lemma sticky_lookup_local c fuel ks pos :
  sticky (with_ctx c (btree_lookup {| lq_compare := ebin_compare; lq_fetch_callback := local_doc_fetch (H := H);
                                      lq_node_callback := None |} fuel false ks pos)).
Proof. apply sticky_lookup; [done|]. apply sticky_local_doc_fetch. Qed.
#[local] Hint Resolve sticky_lookup_local : sticky.

Lemma wp_open_local_document d t D L fuel id p (Q : couchstore_error_t * option LocalDoc -> Db H -> Prop) :
  db_rep d t D L -> (t_height t < fuel)%nat ->
  (forall d', after_read d d' ->
    match L !! id with
    | Some json => Q (COUCHSTORE_SUCCESS, Some {| ld_id := id; ld_json := json; ld_deleted := 0 |}) d'
    | None => forall p', Q (COUCHSTORE_ERROR_DOC_NOT_FOUND, p') d'
    end) ->
  wp (couchstore_open_local_document fuel id p) Q d.
Proof.
  intros Hr Hfuel HQ. unfold couchstore_open_local_document. apply wp_bind; [intros; solve_sticky|]. intros _.
  pose proof (dr_file _ _ _ _ Hr) as Hok. pose proof (dr_local _ _ _ _ Hr) as Ht.
  rewrite <- (dr_local_map _ _ _ _ Hr), <- value_of_map in HQ.
  destruct (dh_local_docs_root (db_hdr d)) as [root|] eqn:Eroot.
  2:{ apply tree_at_none in Ht as [E _]. rewrite (E eq_refl) in HQ.
      apply wp_ret, HQ. by apply after_read_refl. }
  apply wp_bind; [intros [[]?]; solve_sticky|].
  eapply (wp_lookup_one local_kvok no_rval local_doc_fetch fuel (t_height t) d p root (t_local t) id COUCHSTORE_SUCCESS);
    [apply sticky_local_doc_fetch|done|done|done|done|exact Ht|done|done|intros f|intros d' Hd'].
  - instantiate (1 := match value_of id (t_local t) with
                      | Some json => Some {| ld_id := id; ld_json := json; ld_deleted := 0 |} | None => None end).
    by destruct (value_of id (t_local t)).
  - specialize (HQ d' Hd'). destruct (value_of id (t_local t)); apply wp_ret; [done|apply HQ].
Qed.

(** ** Statistics *)

(** The documents of [D] that satisfy [P]. *)
Definition count_docs (P : DocInfo -> bool) (D : gmap bytes DocInfo) : Z :=
  Z.of_nat (length (List.filter P (map_to_list D).*2)).

Definition is_live (i : DocInfo) : bool := di_deleted i =? 0.

Lemma id_deleted_assemble i : info_ok i -> id_deleted (assemble_id_index_value i) = negb (is_live i).
Proof.
  intros Hi. unfold id_deleted, is_live. rewrite assemble_id_raw. cbn [riv_bp].
  destruct (bp_field_deleted i Hi) as [Hd _].
  destruct (Z.eqb_spec (Z.land (decode_raw48 (bp_field i)) BP_DELETED_FLAG) 0) as [E|E]; cbn [negb].
  - rewrite decide_False in Hd by (by intros []). by rewrite <- Hd.
  - rewrite decide_True in Hd by done. by rewrite <- Hd.
Qed.

(** A sum over the items of the by-id tree is one over the documents. *)
Lemma sum_id_items d t D L (g : bytes -> Z) (g' : DocInfo -> Z) : db_rep d t D L ->
  (forall i, info_ok i -> g (assemble_id_index_value i) = g' i) ->
  sumZ (fun x => g x.2) (t_id t) = sumZ g' (map_to_list D).*2.
Proof.
  intros Hr Hg. destruct (dr_id _ _ _ _ Hr) as [Hs%ksorted_NoDup _].
  rewrite <- (sumZ_perm _ _ _ (map_to_list_to_map (M := gmap bytes) (t_id t) Hs)).
  change (list_to_map (t_id t)) with (as_map (t_id t)).
  rewrite (dr_id_map _ _ _ _ Hr), map_to_list_fmap.
  assert (forall id i, (id, i) ∈ map_to_list D -> info_ok i) as Hok.
  { intros id i Hi. apply elem_of_map_to_list in Hi. by apply (dr_docs _ _ _ _ Hr) in Hi as (_ & ? & _). }
  induction (map_to_list D) as [|[id i] l IH]; [done|]. unfold sumZ in *.
  cbn [fmap list_fmap map foldr prod_map snd fst].
  rewrite Hg by (eapply Hok, list_elem_of_here). f_equal. apply IH. intros. eapply Hok. by apply list_elem_of_further.
Qed.

Lemma sum_count (P : DocInfo -> bool) l :
  sumZ (fun i => if P i then 1 else 0) l = Z.of_nat (length (List.filter P l)).
Proof.
  induction l as [|i l IH]; [done|]. unfold sumZ in *. cbn. rewrite IH. destruct (P i); cbn [length]; lia.
Qed.

Lemma live_count_docs d t D L : db_rep d t D L -> live_count (t_id t) = count_docs is_live D.
Proof.
  intros Hr. unfold live_count, count_docs. rewrite <- sum_count.
  apply (sum_id_items d t D L (fun v => if id_deleted v then 0 else 1) _ Hr).
  intros i Hi. rewrite id_deleted_assemble by done. by destruct (is_live i).
Qed.

Lemma deleted_count_docs d t D L : db_rep d t D L ->
  deleted_count (t_id t) = count_docs (fun i => negb (is_live i)) D.
Proof.
  intros Hr. unfold deleted_count, count_docs. rewrite <- sum_count.
  apply (sum_id_items d t D L (fun v => if id_deleted v then 1 else 0) _ Hr).
  intros i Hi. rewrite id_deleted_assemble by done. by destruct (is_live i).
Qed.

Lemma total_size_docs d t D L : db_rep d t D L -> total_size (t_id t) = sumZ di_size (map_to_list D).*2.
Proof.
  intros Hr. unfold total_size. apply (sum_id_items d t D L id_size _ Hr).
  intros i Hi. unfold id_size. rewrite assemble_id_raw. cbn [riv_size].
  pose proof (io_size i Hi). rewrite decode_encode_raw32. unfold u32. by rewrite Z.mod_mod, Z.mod_small by lia.
Qed.

Definition subtree_size (root : option node_pointer) : Z :=
  match root with Some p => np_subtreesize p | None => 0 end.

Lemma u64_u64_add a b : u64 (u64 a + b) = u64 (a + b).
Proof. unfold u64. by rewrite Zplus_mod_idemp_l. Qed.

Lemma u64_u64_add2 a b c : u64 (u64 a + b + c) = u64 (a + b + c).
Proof. rewrite <- Z.add_assoc, u64_u64_add. f_equal. lia. Qed.

Lemma count_docs_nonneg P D : 0 <= count_docs P D.
Proof. apply Nat2Z.is_nonneg. Qed.

Lemma doc_sizes_nonneg d t D L : db_rep d t D L -> 0 <= sumZ di_size (map_to_list D).*2.
Proof.
  intros Hr. rewrite <- (total_size_docs _ _ _ _ Hr). apply sumZ_nonneg. intros x. unfold id_size.
  destruct (as_raw_id_index_value x.2) as [raw|] eqn:E; [|done].
  assert (length (riv_size raw) = 4%nat) as Hl.
  { unfold as_raw_id_index_value in E. repeat (apply bind_Some in E as (? & ? & E)).
    injection E as <-. cbn [riv_size]. by eapply slice_length. }
  rewrite decode_raw32_be by done. apply be_val_range.
Qed.

#[local] Opaque decode_raw40 decode_raw48 encode_raw40 encode_raw48.

Lemma wp_db_info d t D L (Q : couchstore_error_t * DbInfo -> Db H -> Prop) :
  db_rep d t D L -> count_docs is_live D < 2 ^ 40 -> count_docs (fun i => negb (is_live i)) D < 2 ^ 40 ->
  sumZ di_size (map_to_list D).*2 < 2 ^ 48 ->
  Q (COUCHSTORE_SUCCESS,
     {| dbi_last_sequence := dh_update_seq (db_hdr d); dbi_doc_count := count_docs is_live D;
        dbi_deleted_count := count_docs (fun i => negb (is_live i)) D;
        dbi_space_used := u64 (sumZ di_size (map_to_list D).*2 + subtree_size (dh_by_id_root (db_hdr d)) +
                   subtree_size (dh_by_seq_root (db_hdr d)) + subtree_size (dh_local_docs_root (db_hdr d)));
        dbi_header_position := dh_position (db_hdr d) |}) d ->
  wp couchstore_db_info Q d.
Proof.
  intros Hr Hlive Hdel Hsize HQ. unfold couchstore_db_info. apply wp_bind; [intros; solve_sticky|]. intros _.
  apply wp_bind; [intros [[??]?]; solve_sticky|]. destruct (db_rep_empty _ _ _ _ Hr) as [E1 E2].
  assert (0 <= sumZ di_size (map_to_list D).*2) as Hnn by (by eapply doc_sizes_nonneg).
  pose proof (count_docs_nonneg is_live D). pose proof (count_docs_nonneg (fun i => negb (is_live i)) D).
  destruct (dh_by_id_root (db_hdr d)) as [root|] eqn:Eroot.
  - destruct (dr_id _ _ _ _ Hr) as (_ & h & _ & Hroot). rewrite Eroot in Hroot. destruct Hroot as (sz & _ & Ered & _).
    rewrite Ered. unfold by_id_rval.
    destruct (by_id_reduce_fields (live_count (t_id t)) (deleted_count (t_id t)) (total_size (t_id t))) as (-> & -> & ->).
    do 3 (apply wp_bind; [intros; solve_sticky|]; apply wp_ret). apply wp_ret.
    rewrite (live_count_docs _ _ _ _ Hr), (deleted_count_docs _ _ _ _ Hr), (total_size_docs _ _ _ _ Hr).
    rewrite (decode_encode_raw40 (count_docs is_live D)),
      (decode_encode_raw40 (count_docs (fun i => negb (is_live i)) D)),
      (decode_encode_raw48 (sumZ di_size (map_to_list D).*2)).
    rewrite (Z.mod_small (count_docs is_live D)), (Z.mod_small (count_docs (fun i => negb (is_live i)) D)),
      (Z.mod_small (sumZ di_size _)) by lia.
    apply wp_ret. cbn [subtree_size] in HQ.
    destruct (dh_by_seq_root (db_hdr d)), (dh_local_docs_root (db_hdr d)); cbn [subtree_size] in HQ;
      rewrite ?u64_u64_add, ?u64_u64_add2, ?Z.add_0_r in *; exact HQ.
  - assert (D = ∅) as ED by (by apply E1). assert (dh_by_seq_root (db_hdr d) = None) as Es by (by apply E2).
    rewrite Es in *. rewrite ED in HQ. apply wp_ret, wp_ret. revert HQ. cbn [subtree_size].
    change (map_to_list ∅).*2 with (@nil DocInfo).
    change (count_docs is_live ∅) with 0. change (count_docs (fun i => negb (is_live i)) ∅) with 0.
    change (sumZ di_size []) with 0. destruct (dh_local_docs_root (db_hdr d)); cbn [subtree_size]; done.
Qed.
End Rep.

#[export] Hint Resolve sticky_with_ctx sticky_set_ctx sticky_get_header sticky_set_header sticky_in_file
  sticky_docinfo_fetch_by_id sticky_docinfo_fetch_by_seq sticky_local_doc_fetch
  sticky_lookup_id sticky_lookup_seq sticky_lookup_local : sticky.
