(* ===== verification/DbIter.v ===== *)
(** * DbIter: iterating over documents

    couchstore_changes_since and couchstore_all_docs of couch_db.c: the callback
    is called once for each document from the start on that the options ask for,
    in the order of the index, until it returns an error. *)

From Stdlib Require Import ZArith Lia Sorted.
From S2P Require Import Prelude Bitfield NodeTypes Util FileOps TreeFile NodeStore Header BTree BTreeInv BTreeFlush TreeSpec BTreeModify Reduces BTreeRead Docs Save DocCodec DbSpec.
From stdpp Require Import list numbers gmap.

#[local] Open Scope Z_scope.
#[local] Open Scope couch_scope.
#[local] Existing Instance pure_ctx | 100.

(** What the options let through. *)
Definition wanted (options : Z) (i : DocInfo) : bool :=
  negb (flag options COUCHSTORE_DELETES_ONLY && (di_deleted i =? 0)) &&
  negb (flag options COUCHSTORE_NO_DELETES && (di_deleted i =? 1)).

(** The document an entry of an index stands for. *)
Definition read_info (by_id : bool) (x : kv) : option (result DocInfo) :=
  if by_id then by_id_read_docinfo x.1 x.2 else by_seq_read_docinfo x.1 x.2.
Definition info_of (by_id : bool) (x : kv) : DocInfo :=
  match read_info by_id x with Some (Done i) => i | _ => couchstore_alloc_docinfo None None end.
Definition readable (by_id : bool) (x : kv) : Prop := read_info by_id x = Some (Done (info_of by_id x)).

Lemma readable_ok by_id x i : read_info by_id x = Some (Done i) -> readable by_id x /\ info_of by_id x = i.
Proof. intros E. unfold readable, info_of. by rewrite E. Qed.

(** Selecting from a sorted list and mapping it keeps the order. *)
Lemma sorted_select {X Y} (R : X -> X -> Prop) (R' : Y -> Y -> Prop) (p : X -> bool) (g : X -> Y) (q : Y -> bool) l :
  StronglySorted R l -> (forall x y, x ∈ l -> y ∈ l -> R x y -> R' (g x) (g y)) ->
  StronglySorted R' (List.filter q (map g (List.filter p l))).
Proof.
  intros Hs. induction Hs as [|x l Hs IH Hall]; intros HR; [constructor|]. cbn [List.filter].
  assert (StronglySorted R' (List.filter q (map g (List.filter p l)))) as IH'.
  { apply IH. intros u w Hu Hw. apply HR; by apply list_elem_of_further. }
  destruct (p x); [|done]. cbn [map List.filter]. destruct (q (g x)); [|done]. constructor; [done|].
  apply list.Forall_forall. intros y Hy. apply list_elem_of_In, List.filter_In in Hy as [Hy _].
  apply in_map_iff in Hy as (z & <- & Hz). apply List.filter_In in Hz as [Hz _]. apply list_elem_of_In in Hz.
  apply HR; [apply list_elem_of_here|by apply list_elem_of_further|]. by eapply list.Forall_forall in Hall.
Qed.

Lemma in_select {X Y} (p : X -> bool) (g : X -> Y) (q : Y -> bool) l y :
  y ∈ List.filter q (map g (List.filter p l)) <-> q y = true /\ exists x, x ∈ l /\ p x = true /\ g x = y.
Proof.
  rewrite list_elem_of_In, List.filter_In, in_map_iff. split.
  - intros [(x & <- & Hx) Hq]. apply List.filter_In in Hx as [Hx Hp]. split; [done|].
    exists x. by rewrite list_elem_of_In.
  - intros (Hq & x & Hx & Hp & <-). split; [|done]. exists x. split; [done|]. apply List.filter_In.
    by rewrite <- list_elem_of_In.
Qed.

(** The order of the keys of the by-sequence index, and where a range starts. *)
Lemma be_val_raw48 s : 0 <= s < 2 ^ 48 -> be_val (encode_raw48 s) = s.
Proof. intros Hs. rewrite encode_raw48_be, be_val_be_bytes. apply Z.mod_small. done. Qed.

Lemma seq_in_range s since v : 0 <= s < 2 ^ 48 -> 0 <= since < 2 ^ 48 ->
  in_range seq_cmp (encode_raw48 since) None (encode_raw48 s, v) = (since <=? s).
Proof.
  intros Hs Hsince. unfold in_range. rewrite andb_true_r. cbn [fst].
  assert (forall x, vkey (compare := seq_cmp) (encode_raw48 x)) as Hvk by apply encode_raw48_length.
  destruct (Util.compare_spec (compare := seq_cmp) _ _ (Hvk s) (Hvk since)) as [(c & -> & Hc & Hlt)|[(c & -> & Hc & E)|(c & -> & Hc & Hlt)]];
    cbn [from_option id]; unfold klt, seq_KeyOrder in *; rewrite ?be_val_raw48 in * by done.
  - transitivity false; [|symmetry]; apply Z.leb_gt; lia.
  - apply encode_raw48_inj in E as ->; [|done..]. subst c. by rewrite !Z.leb_refl.
  - transitivity true; [|symmetry]; apply Z.leb_le; lia.
Qed.

Lemma id_in_range k start v :
  in_range ebin_compare start None (k, v) = true <-> ~ lex_lt k start.
Proof.
  unfold in_range, ebin_compare. rewrite andb_true_r. cbn [fst from_option id]. rewrite Z.leb_le.
  destruct (ebin_cmp_lex k start) as [[Hc Hlt]|[[Hc ->]|[Hc Hlt]]].
  - split; [lia|done].
  - split; [intros _; apply lex_lt_irrefl|lia].
  - split; [intros _ Hx; by eapply lex_lt_irrefl, lex_lt_trans|lia].
Qed.

Section Iter.
Context {H C : Type} `{HO : FileOps H} `{HF : Faulty H} `{HL : !FileLaws H} `{HS : Snappy} `{HSL : !SnappyLaws}.
Variable cb : changes_callback (H := H) (C := C).
Hypothesis cb_sticky : forall i, sticky (cb i).

(** The calls of the callback for the documents [l], up to the first that returns
    an error; between the calls the file is only read. *)
Fixpoint visits (l : list DocInfo) (Q : couchstore_error_t -> tree_file H * C -> Prop)
    (f : tree_file H) (c : C) : Prop :=
  match l with
  | [] => forall f', tf_ok f' -> tf_ext f f' -> Q COUCHSTORE_SUCCESS (f', c)
  | i :: l' =>
      forall f', tf_ok f' -> tf_ext f f' ->
        wp (cb i) (fun r s =>
          match r with
          | CB_KEEP | CB_CODE COUCHSTORE_SUCCESS => tf_ok s.1 /\ tf_ext f' s.1 /\ visits l' Q s.1 s.2
          | CB_CODE e => Q e s
          end) (f', c)
  end.

Lemma visits_ext l Q f f' c : tf_ext f f' -> visits l Q f c -> visits l Q f' c.
Proof. intros He. destruct l; cbn; intros Hv f2 Hok He2; apply Hv; (done || by transitivity f'). Qed.

Lemma wp_user {A} (m : M (tree_file H * C) A) Q f (depth : Z) (c : C) :
  wp m (fun a s => Q a (s.1, (depth, s.2))) (f, c) -> wp (user m) Q (f, (depth, c)).
Proof. unfold user. zoomed (fun _ : tree_file H * (Z * C) => false); by rewrite orb_false_r, !failed_pure. Qed.

Lemma sticky_user {A} (m : M (tree_file H * C) A) : sticky m -> sticky (user m).
Proof. unfold user. zoomed (fun _ : tree_file H * (Z * C) => false); by rewrite orb_false_r, !failed_pure. Qed.

Definition context (by_id : bool) (options : Z) : lookup_context (H := H) (C := C) :=
  {| lc_options := options; lc_callback := Some cb; lc_by_id := by_id; lc_walk_callback := None |}.

(** The function pointer of the context is known. *)
Lemma sticky_need_bind {S A B} `{Faulty S} (o : option A) (g : A -> M S B) :
  (forall a, o = Some a -> sticky (g a)) -> sticky (let* a := need o in g a).
Proof. intros Hg s Hs. destruct o as [a|]; [|done]. by apply (Hg a eq_refl). Qed.

Lemma wp_need_Some {S A B} `{Faulty S} (a : A) (g : A -> M S B) Q s :
  wp (g a) Q s -> wp (let* a := need (Some a) in g a) Q s.
Proof. done. Qed.

Lemma sticky_lookup_callback by_id options k v : sticky (lookup_callback (context by_id options) k v).
Proof.
  unfold lookup_callback, context. cbn [lc_walk_callback lc_callback lc_options lc_by_id].
  destruct v as [v|]; [|solve_sticky]. apply sticky_need_bind. intros r _.
  destruct (match r with Done _ => _ | _ => _ end); [|solve_sticky]. repeat case_match; try solve [solve_sticky].
  apply sticky_bind; [|intros []; solve_sticky]. apply sticky_need_bind. intros ? [= <-]. by apply sticky_user.
Qed.

(** One entry. *)
Lemma wp_lookup_callback by_id options x Q f depth (c : C) :
  readable by_id x -> tf_ok f ->
  (wanted options (info_of by_id x) = true ->
   wp (cb (info_of by_id x)) (fun r s => match r with
      | CB_KEEP => Q COUCHSTORE_SUCCESS (s.1, (depth, s.2)) | CB_CODE e => Q e (s.1, (depth, s.2)) end) (f, c)) ->
  (wanted options (info_of by_id x) = false -> Q COUCHSTORE_SUCCESS (f, (depth, c))) ->
  wp (lookup_callback (context by_id options) x.1 (Some x.2)) Q (f, (depth, c)).
Proof.
  intros Hx Hok Hw Hn. unfold lookup_callback, context. cbn [lc_walk_callback lc_callback lc_options lc_by_id].
  unfold readable, read_info in Hx. rewrite Hx. apply wp_need_Some. unfold wanted in Hw, Hn. set (i := info_of by_id x) in *.
  destruct (flag options COUCHSTORE_DELETES_ONLY && (di_deleted i =? 0)); cbn [negb andb] in *; [by apply wp_ret, Hn|].
  destruct (flag options COUCHSTORE_NO_DELETES && (di_deleted i =? 1)); cbn [negb] in *; [by apply wp_ret, Hn|].
  apply wp_bind; [intros []; solve_sticky|]. apply wp_need_Some, wp_user. eapply wp_mono; [by apply Hw|]. intros [|e] s; intros HQ; by apply wp_ret.
Qed.

Lemma delivers_visits by_id compare options kvs (Q : couchstore_error_t -> tree_file H * C -> Prop) f depth (c : C) :
  Forall (readable by_id) kvs ->
  visits (List.filter (wanted options) (map (info_of by_id) kvs)) Q f c ->
  delivers (iterate_request compare (context by_id options)) (map (fun x => (x.1, Some x.2)) kvs)
    (fun e s => Q e (s.1, s.2.2)) f (depth, c).
Proof.
  intros Hr. revert f c. induction Hr as [|x kvs Hx _ IH]; intros f c Hv; cbn [map delivers List.filter] in *; [done|].
  intros f' Hok He. eapply (wp_lookup_callback by_id options x); [done|done|intros Hw|intros Hw]; rewrite Hw in Hv.
  - eapply wp_mono; [by apply Hv|]. intros [|e] s; cbn.
    + rewrite decide_True by done. intros (? & ? & ?). split_and!; [done..|]. by apply IH.
    + destruct (decide (e = COUCHSTORE_SUCCESS)) as [->|Hne].
      * intros (? & ? & ?). split_and!; [done..|]. by apply IH.
      * intros HQ. destruct s. by destruct e.
  - rewrite decide_True by done. split_and!; [done|reflexivity|]. apply IH. eapply visits_ext; [exact He|exact Hv].
Qed.

Lemma sticky_run_lookup by_id compare options fuel ks pos (c : C) :
  sticky (run_lookup c 0 (btree_lookup (iterate_request compare (context by_id options)) fuel true ks pos)).
Proof.
  unfold run_lookup. apply sticky_bind; [|intros [??]; solve_sticky].
  apply sticky_lookup; [done|]. intros k v. apply sticky_lookup_callback.
Qed.

(** A fold over one of the trees, from [k0] on. *)
Lemma wp_iterate {compare} `{HK : !KeyOrder compare} kvok rval by_id options fuel hmax (d : Db H) root kvs k0 (c : C)
    (Q : couchstore_error_t -> tree_file H * C -> Prop) :
  (forall k v, kvok k v -> vkey (compare := compare) k) -> (forall k v, kvok k v -> kv_fits k v) ->
  (forall l, blen (rval l) <= REDUCE_BUF_SIZE) ->
  tf_ok (db_file d) -> tree_at (compare := compare) kvok rval (db_file d) hmax (Some root) kvs ->
  vkey (compare := compare) k0 -> (hmax < fuel)%nat -> Forall (readable by_id) kvs ->
  visits (List.filter (wanted options) (map (info_of by_id) (List.filter (in_range compare k0 None) kvs)))
    Q (db_file d) c ->
  wp (run_lookup c 0 (btree_lookup (iterate_request compare (context by_id options)) fuel true [k0] (np_pointer root)))
     (fun r d' => db_hdr d' = db_hdr d /\ Q r.1 (db_file d', r.2)) d.
Proof.
  intros Hkey Hfits Hrv Hok (Hs & h & Hh & sz & Hn & _) Hvk Hfuel Hr Hv.
  unfold run_lookup. apply wp_bind; [intros [??]; solve_sticky|]. apply wp_with_ctx.
  set (rq := iterate_request compare (context by_id options)).
  eapply (wp_btree_fold rq kvok rval (HK := HK) Hkey Hfits Hrv (sticky_lookup_callback by_id options) eq_refl
            fuel h k0 None); [lia|by right|done|exact Hn|done|done|done|].
  eapply delivers_mono; [|apply delivers_visits; [|exact Hv]].
  - intros e [f' [n c']] HQ. by apply wp_ret.
  - apply list.Forall_forall. intros x Hx. rewrite list.Forall_forall in Hr. apply Hr.
    apply list_elem_of_In, List.filter_In in Hx as [Hx _]. by apply list_elem_of_In.
Qed.

Lemma sticky_run_list by_id compare options fuel ks pos (c : C) :
  sticky (run_lookup c 0 (btree_lookup (iterate_request compare (context by_id options)) fuel false ks pos)).
Proof.
  unfold run_lookup. apply sticky_bind; [|intros [??]; solve_sticky].
  apply sticky_lookup; [done|]. intros k v. apply sticky_lookup_callback.
Qed.

(** A lookup of the keys [ks], which the tree holds with the entries [es]. *)
Lemma wp_lookup_list {compare} `{HK : !KeyOrder compare} kvok rval by_id options fuel hmax (d : Db H) root kvs ks es (c : C)
    (Q : couchstore_error_t -> tree_file H * C -> Prop) :
  (forall k v, kvok k v -> vkey (compare := compare) k) -> (forall k v, kvok k v -> kv_fits k v) ->
  (forall l, blen (rval l) <= REDUCE_BUF_SIZE) ->
  tf_ok (db_file d) -> tree_at (compare := compare) kvok rval (db_file d) hmax (Some root) kvs ->
  (hmax < fuel)%nat -> Forall (vkey (compare := compare)) ks -> StronglySorted (klt (compare := compare)) ks ->
  present kvs ks -> found kvs ks = map (fun x => (x.1, Some x.2)) es -> Forall (readable by_id) es ->
  visits (List.filter (wanted options) (map (info_of by_id) es)) Q (db_file d) c ->
  wp (run_lookup c 0 (btree_lookup (iterate_request compare (context by_id options)) fuel false ks (np_pointer root)))
     (fun r d' => db_hdr d' = db_hdr d /\ Q r.1 (db_file d', r.2)) d.
Proof.
  intros Hkey Hfits Hrv Hok (Hs & h & Hh & sz & Hn & _) Hfuel Hvk Hks Hp Hf Hr Hv.
  unfold run_lookup. apply wp_bind; [intros [??]; solve_sticky|]. apply wp_with_ctx.
  set (rq := iterate_request compare (context by_id options)).
  eapply (wp_btree_lookup rq kvok rval (HK := HK) Hkey Hfits Hrv (sticky_lookup_callback by_id options) eq_refl
            fuel h ks); [lia|done|exact Hn|done|done|done|done|].
  rewrite Hf. eapply delivers_mono; [|apply delivers_visits; [done|exact Hv]].
  intros e [f' [n c']] HQ. by apply wp_ret.
Qed.

(** ** The entries of the two indexes are readable *)

Lemma seq_items d t D L x : db_rep d t D L -> x ∈ t_seq t ->
  exists id i, D !! id = Some i /\ x = (encode_raw48 (di_db_seq i), assemble_seq_index_value i) /\
    read_info false x = Some (Done i) /\ 0 <= di_db_seq i < 2 ^ 48.
Proof.
  intros Hr Hx. destruct x as [k v]. destruct (dr_seq _ _ _ _ Hr) as [Hs _].
  apply (as_map_lookup _ _ _ Hs) in Hx. apply (dr_seq_map _ _ _ _ Hr) in Hx as (id & i & Hi & -> & ->).
  destruct (proj1 (dr_docs _ _ _ _ Hr) _ _ Hi) as (_ & Hio & _). exists id, i. split_and!; [done|done| |apply Hio..].
  by apply by_seq_read_assemble.
Qed.

Lemma seq_item_of d t D L id i : db_rep d t D L -> D !! id = Some i ->
  (encode_raw48 (di_db_seq i), assemble_seq_index_value i) ∈ t_seq t.
Proof.
  intros Hr Hi. destruct (dr_seq _ _ _ _ Hr) as [Hs _]. apply (as_map_lookup _ _ _ Hs).
  apply (dr_seq_map _ _ _ _ Hr). by exists id, i.
Qed.

Lemma id_items d t D L x : db_rep d t D L -> x ∈ t_id t ->
  exists i, D !! x.1 = Some i /\ x = (di_id i, assemble_id_index_value i) /\ read_info true x = Some (Done i).
Proof.
  intros Hr Hx. destruct x as [k v]. destruct (dr_id _ _ _ _ Hr) as [Hs _].
  apply (as_map_lookup _ _ _ Hs) in Hx. rewrite (dr_id_map _ _ _ _ Hr), lookup_fmap in Hx.
  apply fmap_Some in Hx as (i & Hi & ->). destruct (proj1 (dr_docs _ _ _ _ Hr) _ _ Hi) as (<- & Hio & _).
  exists i. split_and!; [done|done|]. by apply by_id_read_assemble.
Qed.

Lemma id_item_of d t D L id i : db_rep d t D L -> D !! id = Some i ->
  (di_id i, assemble_id_index_value i) ∈ t_id t.
Proof.
  intros Hr Hi. destruct (dr_id _ _ _ _ Hr) as [Hs _]. apply (as_map_lookup _ _ _ Hs).
  destruct (proj1 (dr_docs _ _ _ _ Hr) _ _ Hi) as (<- & _). by rewrite (dr_id_map _ _ _ _ Hr), lookup_fmap, Hi.
Qed.

(** ** The theorems *)

(** C8: couchstore_changes_since calls the callback for exactly the documents whose
    sequence number is at least [since] and that the options ask for, once each, in
    the order of their sequence numbers, and stops at the first error the callback
    returns; there is such a list of documents, and the call behaves as the calls
    for that list do. *)
Theorem changes_since_in_order d t D L fuel since options :
  db_rep d t D L -> (t_height t < fuel)%nat -> 0 <= since < 2 ^ 48 ->
  exists l, StronglySorted (fun i j => di_db_seq i < di_db_seq j) l /\
    (forall i, i ∈ l <-> wanted options i = true /\ since <= di_db_seq i /\ exists id, D !! id = Some i) /\
    forall (ctx : C) Q, visits l Q (db_file d) ctx ->
      wp (couchstore_changes_since fuel since options cb ctx)
         (fun r d' => db_hdr d' = db_hdr d /\ Q r.1 (db_file d', r.2)) d.
Proof.
  intros Hr Hfuel Hsince. pose proof (dr_seq _ _ _ _ Hr) as Ht. pose proof (dr_file _ _ _ _ Hr) as Hok.
  exists (List.filter (wanted options) (map (info_of false) (List.filter (in_range seq_cmp (encode_raw48 since) None) (t_seq t)))).
  split_and!.
  - eapply sorted_select; [exact (proj1 Ht)|]. intros x y Hx Hy.
    destruct (seq_items _ _ _ _ _ Hr Hx) as (_ & i & _ & -> & Ei & ?).
    destruct (seq_items _ _ _ _ _ Hr Hy) as (_ & j & _ & -> & Ej & ?).
    apply readable_ok in Ei as [_ ->]. apply readable_ok in Ej as [_ ->].
    unfold klt, seq_KeyOrder. cbn [fst]. by rewrite !be_val_raw48.
  - intros i. rewrite in_select. split.
    + intros (Hw & x & Hx & Hp & <-). destruct (seq_items _ _ _ _ _ Hr Hx) as (id & i & Hi & -> & Ei & ?).
      apply readable_ok in Ei as [_ Ei]. rewrite Ei in *. rewrite seq_in_range in Hp by done.
      apply Z.leb_le in Hp. eauto.
    + intros (Hw & Hge & id & Hi). split; [done|]. pose proof (seq_item_of _ _ _ _ _ _ Hr Hi) as Hx.
      eexists. split; [exact Hx|].
      destruct (proj1 (dr_docs _ _ _ _ Hr) _ _ Hi) as (_ & Hio & _).
      rewrite seq_in_range by (done || apply Hio). split; [by apply Z.leb_le|].
      apply (readable_ok false). by apply by_seq_read_assemble.
  - intros ctx Q Hv. unfold couchstore_changes_since.
    apply wp_bind; [intros; case_match; [apply (sticky_run_lookup false)|solve_sticky]|]. intros _.
    destruct (dh_by_seq_root (db_hdr d)) as [root|] eqn:Eroot.
    + eapply (wp_iterate seq_kvok by_seq_rval false); eauto using seq_kvok_key, seq_kvok_fits, by_seq_rval_size.
      * apply encode_raw48_length.
      * apply list.Forall_forall. intros x Hx. destruct (seq_items _ _ _ _ _ Hr Hx) as (_ & i & _ & _ & Ei & _).
        by apply readable_ok in Ei as [? _].
    + apply tree_at_none in Ht as [E _]. rewrite (E eq_refl) in Hv. apply wp_ret. split; [done|]. by apply Hv.
Qed.

(** C9: couchstore_all_docs calls the callback for exactly the documents whose id is
    not below the start key and that the options ask for, once each, in the
    lexicographic order of the ids, and stops at the first error the callback
    returns. *)
Theorem all_docs_in_order d t D L fuel start options :
  db_rep d t D L -> (t_height t < fuel)%nat ->
  exists l, StronglySorted (fun i j => lex_lt (di_id i) (di_id j)) l /\
    (forall i, i ∈ l <-> wanted options i = true /\ ~ lex_lt (di_id i) (default [] start) /\ D !! di_id i = Some i) /\
    forall (ctx : C) Q, visits l Q (db_file d) ctx ->
      wp (couchstore_all_docs fuel start options cb ctx)
         (fun r d' => db_hdr d' = db_hdr d /\ Q r.1 (db_file d', r.2)) d.
Proof.
  intros Hr Hfuel. pose proof (dr_id _ _ _ _ Hr) as Ht. pose proof (dr_file _ _ _ _ Hr) as Hok.
  exists (List.filter (wanted options) (map (info_of true) (List.filter (in_range ebin_compare (default [] start) None) (t_id t)))).
  split_and!.
  - eapply sorted_select; [exact (proj1 Ht)|]. intros x y Hx Hy.
    destruct (id_items _ _ _ _ _ Hr Hx) as (i & _ & -> & Ei). destruct (id_items _ _ _ _ _ Hr Hy) as (j & _ & -> & Ej).
    apply readable_ok in Ei as [_ ->]. by apply readable_ok in Ej as [_ ->].
  - intros i. rewrite in_select. split.
    + intros (Hw & x & Hx & Hp & <-). destruct (id_items _ _ _ _ _ Hr Hx) as (i & Hi & -> & Ei).
      apply readable_ok in Ei as [_ Ei]. rewrite Ei in *. by apply id_in_range in Hp.
    + intros (Hw & Hge & Hi). split; [done|]. pose proof (id_item_of _ _ _ _ _ _ Hr Hi) as Hx.
      eexists. split; [exact Hx|]. destruct (proj1 (dr_docs _ _ _ _ Hr) _ _ Hi) as (_ & Hio & _).
      split; [by apply id_in_range|]. apply (readable_ok true). by apply by_id_read_assemble.
  - intros ctx Q Hv. unfold couchstore_all_docs.
    apply wp_bind; [intros; case_match; [apply (sticky_run_lookup true)|solve_sticky]|]. intros _.
    destruct (dh_by_id_root (db_hdr d)) as [root|] eqn:Eroot.
    + eapply (wp_iterate id_kvok by_id_rval true); eauto using id_kvok_key, id_kvok_fits, by_id_rval_size; [done|].
      apply list.Forall_forall. intros x Hx. destruct (id_items _ _ _ _ _ Hr Hx) as (i & _ & _ & Ei).
      by apply readable_ok in Ei as [? _].
    + apply tree_at_none in Ht as [E _]. rewrite (E eq_refl) in Hv. apply wp_ret. split; [done|]. by apply Hv.
Qed.
End Iter.
