(* ===== verification/SaveSpec.v ===== *)
(** * SaveSpec: saving documents refines the update of a finite map

    couchstore_save_documents on a db that stands for the documents [D]: the new
    db stands for [D] with the documents of the batch inserted, each under the next
    sequence number, and the bodies are on file. *)

From Stdlib Require Import ZArith Lia Sorted.
From S2P Require Import Prelude Bitfield NodeTypes Util FileOps TreeFile NodeStore Header BTree BTreeInv BTreeFlush TreeSpec BTreeModify Reduces BTreeRead Docs Save DocCodec DbSpec.
From stdpp Require Import list numbers gmap.

#[local] Open Scope Z_scope.
#[local] Open Scope couch_scope.

(** ** qsort sorts *)

Section QsortSpec.
Context {X : Type} (cmp : X -> X -> option Z) (P : X -> Prop) (le : X -> X -> Prop).
Hypothesis le_trans : forall x y z, le x y -> le y z -> le x z.
Hypothesis cmp_le : forall x y, P x -> P y -> exists c, cmp x y = Some c /\ (c <= 0 -> le x y) /\ (0 < c -> le y x).

Lemma qsort_insert_spec x l : P x -> Forall P l -> StronglySorted le l ->
  exists r, qsort_insert cmp x l = Some r /\ r ≡ₚ x :: l /\ StronglySorted le r.
Proof.
  intros Hx Hl Hs. induction Hs as [|y l Hs IH Hall]; cbn [qsort_insert].
  { exists [x]. split_and!; [done|done|]. by repeat constructor. }
  apply Forall_cons in Hl as [Hy Hl]. destruct (cmp_le x y Hx Hy) as (c & -> & Hle & Hge). cbn [mbind option_bind].
  case_decide as Hc.
  - destruct (IH Hl) as (r & -> & Hp & Hr). cbn [mbind option_bind]. exists (y :: r). split_and!; [done| |].
    + rewrite Hp. constructor.
    + constructor; [done|]. rewrite Hp. constructor; [by apply Hge|done].
  - exists (x :: y :: l). split_and!; [done|done|]. assert (le x y) by (apply Hle; lia).
    repeat (constructor; try done). eapply List.Forall_impl; [|exact Hall]. intros z. by apply le_trans.
Qed.

Lemma qsort_spec l : Forall P l -> exists r, qsort cmp l = Some r /\ r ≡ₚ l /\ StronglySorted le r.
Proof.
  induction l as [|x l IH]; intros Hl; cbn [qsort].
  { exists []. split_and!; [done|done|constructor]. }
  apply Forall_cons in Hl as [Hx Hl]. destruct (IH Hl) as (r & -> & Hp & Hr). cbn [mbind option_bind].
  destruct (qsort_insert_spec x r Hx) as (r' & -> & Hp' & Hr'); [by rewrite Hp|done|].
  exists r'. split_and!; [done| |done]. by rewrite Hp', Hp.
Qed.
End QsortSpec.

(** A sorted list without repetitions is strictly sorted. *)
Lemma sorted_strict {X Y} (key : X -> Y) (le lt : X -> X -> Prop) l :
  (forall x y, le x y -> key x <> key y -> lt x y) ->
  NoDup (map key l) -> StronglySorted le l -> StronglySorted lt l.
Proof.
  intros Hlt Hnd Hs. induction Hs as [|x l Hs IH Hall]; [constructor|]. cbn in Hnd.
  apply NoDup_cons in Hnd as [Hx Hnd]. constructor; [by apply IH|].
  apply list.Forall_forall. intros y Hy. apply Hlt; [by eapply list.Forall_forall in Hall|].
  intros E. apply Hx. rewrite E. by apply list_elem_of_fmap_2.
Qed.

(** ** The batch by id *)

Lemma ebin_ptr_compare_le (x y : bytes * bytes) : True -> True -> exists c, ebin_ptr_compare x y = Some c /\
  (c <= 0 -> lex_lt x.1 y.1 \/ x.1 = y.1) /\ (0 < c -> lex_lt y.1 x.1 \/ y.1 = x.1).
Proof.
  intros _ _. exists (ebin_cmp x.1 y.1). split; [done|].
  destruct (ebin_cmp_lex x.1 y.1) as [[? ?]|[[? ?]|[? ?]]]; split; intros; auto; lia.
Qed.

Lemma sort_ids (l : list (bytes * bytes)) : NoDup (map fst l) ->
  exists r, qsort ebin_ptr_compare l = Some r /\ r ≡ₚ l /\ StronglySorted (fun x y => lex_lt x.1 y.1) r.
Proof.
  intros Hnd.
  destruct (qsort_spec ebin_ptr_compare (fun _ => True) (fun x y => lex_lt x.1 y.1 \/ x.1 = y.1)) with (l := l)
    as (r & E & Hp & Hs).
  - intros x y z [Hxy|E1] [Hyz|E2]; rewrite ?E1, <- ?E2; auto. left. by eapply lex_lt_trans.
  - apply ebin_ptr_compare_le.
  - by apply list.Forall_true.
  - exists r. split_and!; [done|done|]. eapply (sorted_strict fst); [|by rewrite Hp|exact Hs].
    cbn. intros x y [?|?] ?; done.
Qed.

Lemma id_actions_sorted l : StronglySorted (fun x y : bytes * bytes => lex_lt x.1 y.1) l ->
  acts_sorted (compare := ebin_compare) (id_actions l).
Proof.
  unfold id_actions, acts_sorted. induction 1 as [|x l Hs IH Hall]; cbn [map concat app]; [constructor|].
  assert (forall a, a ∈ concat (map (fun x => [ACTION_FETCH x.1 tt; ACTION_INSERT x.1 x.2]) l) ->
            lex_lt x.1 (act_key a)) as Hlt.
  { intros a Ha. apply list_elem_of_In, in_concat in Ha as (y & Hy & Ha). apply in_map_iff in Hy as (z & <- & Hz).
    apply list_elem_of_In in Hz. rewrite list.Forall_forall in Hall. specialize (Hall z Hz).
    by destruct Ha as [<-|[<-|[]]]. }
  constructor; [constructor; [done|]|constructor].
  - apply list.Forall_forall. intros a Ha. left. cbn. by apply Hlt.
  - right. by split.
  - apply list.Forall_forall. intros a Ha. left. cbn. by apply Hlt.
Qed.

(** The removals the by-id update finds: the old sequence numbers of the batch. *)
Definition old_seqs (D : gmap bytes DocInfo) (l : list (bytes * bytes)) : list (modify_action unit) :=
  omap (fun x => i ← D !! x.1; Some (ACTION_REMOVE (encode_raw48 (di_db_seq i)))) l.

(** [ctx] has room for [n] more removals and [m] more actions. *)
Definition ctx_room (n m : nat) (ctx : index_update_ctx) : Prop :=
  0 <= fb_pos (ctx_deltermbuf ctx) /\
  fb_pos (ctx_deltermbuf ctx) + 22 * Z.of_nat n <= fb_size (ctx_deltermbuf ctx) < 2 ^ 64 /\
  (length (ctx_seqacts ctx) + m <= ctx_cap ctx)%nat.

Lemma push_seqact_room a ctx n m : ctx_room n (S m) ctx ->
  exists ctx', push_seqact a ctx = Some ctx' /\ ctx_seqacts ctx' = ctx_seqacts ctx ++ [a] /\ ctx_room n m ctx'.
Proof.
  intros (H1 & H2 & H3). unfold push_seqact. rewrite decide_True by lia. eexists. split; [reflexivity|].
  cbn [ctx_seqacts]. split; [done|]. split_and!; cbn [ctx_deltermbuf ctx_seqacts ctx_cap]; [lia..|].
  rewrite length_app. cbn. lia.
Qed.

Lemma idfetch_hit i k ctx n m : info_ok i -> ctx_room (S n) (S m) ctx ->
  exists ctx', idfetch_update_cb k (Some (assemble_id_index_value i)) tt ctx = Some ctx' /\
    ctx_seqacts ctx' = ctx_seqacts ctx ++ [ACTION_REMOVE (encode_raw48 (di_db_seq i))] /\ ctx_room n m ctx'.
Proof.
  intros Hi (H1 & H2 & H3). unfold idfetch_update_cb.
  rewrite assemble_id_raw. cbn [mbind option_bind riv_db_seq]. unfold sizeof_sized_buf.
  rewrite fatbuf_get_fits by lia. cbn [mbind option_bind].
  rewrite fatbuf_get_fits by (cbn [fb_pos fb_size]; lia). cbn [mbind option_bind fb_pos fb_size].
  rewrite decode_encode_raw48, Z.mod_small by apply Hi.
  apply (push_seqact_room _ {| ctx_seqacts := _; ctx_cap := _; ctx_deltermbuf := _ |}).
  split_and!; cbn [ctx_deltermbuf ctx_seqacts ctx_cap fb_pos fb_size]; lia.
Qed.

Lemma fetch_id_actions D kvs l ctx n m :
  as_map kvs = assemble_id_index_value <$> D -> (forall id i, D !! id = Some i -> info_ok i) ->
  ctx_room (length l + n) (length l + m) ctx ->
  exists ctx', fetch_all (Some idfetch_update_cb) kvs (id_actions l) ctx = Some ctx' /\
    ctx_seqacts ctx' = ctx_seqacts ctx ++ old_seqs D l /\ ctx_room n m ctx'.
Proof.
  intros Hm Hok. revert ctx. induction l as [|[id v] l IH]; intros ctx Hroom; cbn [old_seqs omap list_omap].
  { exists ctx. by rewrite app_nil_r. }
  unfold id_actions. cbn [map concat app fetch_all]. fold (id_actions l).
  cbn [fst snd]. rewrite value_of_map, Hm, lookup_fmap.
  cbn [length Nat.add] in Hroom. destruct (D !! id) as [i|] eqn:Ei; cbn [fmap option_fmap option_map mbind option_bind].
  - destruct (idfetch_hit i id ctx _ _ (Hok _ _ Ei) Hroom) as (c1 & E1 & Hs1 & Hr1).
    rewrite E1. cbn [mbind option_bind].
    destruct (IH c1 Hr1) as (c2 & E2 & Hs2 & Hr2). exists c2. split_and!; [exact E2| |done].
    rewrite Hs2, Hs1, <- app_assoc. done.
  - cbn [idfetch_update_cb mbind option_bind].
    destruct (IH ctx) as (c2 & E2 & Hs2 & Hr2).
    { destruct Hroom as (? & ? & ?). split_and!; lia. }
    exists c2. done.
Qed.

Lemma add_seq_inserts_room l ctx n m : ctx_room n (length l + m) ctx ->
  exists ctx', add_seq_inserts l ctx = Some ctx' /\
    ctx_seqacts ctx' = ctx_seqacts ctx ++ map (fun x => ACTION_INSERT x.1 x.2) l /\ ctx_room n m ctx'.
Proof.
  revert ctx. induction l as [|[k v] l IH]; intros ctx Hroom; cbn [add_seq_inserts map].
  { exists ctx. by rewrite app_nil_r. }
  cbn [length Nat.add] in Hroom. destruct (push_seqact_room (ACTION_INSERT k v) ctx _ _ Hroom) as (c1 & -> & Hs1 & Hr1).
  cbn [mbind option_bind]. destruct (IH c1 Hr1) as (c2 & -> & Hs2 & Hr2). exists c2. split_and!; [done| |done].
  rewrite Hs2, Hs1, <- app_assoc. done.
Qed.

(** ** The batch by sequence *)

Definition seq_act_le (a b : modify_action unit) : Prop :=
  be_val (act_key a) < be_val (act_key b) \/
  (be_val (act_key a) = be_val (act_key b) /\ action_type a <= action_type b).

Lemma seq_action_compare_le a b : length (act_key a) = 6%nat -> length (act_key b) = 6%nat ->
  exists c, seq_action_compare a b = Some c /\ (c <= 0 -> seq_act_le a b) /\ (0 < c -> seq_act_le b a).
Proof.
  intros Ha Hb. unfold seq_action_compare, seq_act_le. rewrite !decode_sequence_key_be by done. cbn [mbind option_bind].
  repeat case_decide; eexists; (split; [reflexivity|]); split; intros; lia.
Qed.

Lemma sort_seq_actions (l : list (modify_action unit)) : Forall (fun a => length (act_key a) = 6%nat) l -> NoDup (map act_key l) ->
  exists r, qsort seq_action_compare l = Some r /\ r ≡ₚ l /\ acts_sorted (compare := seq_cmp) r.
Proof.
  intros Hl Hnd.
  destruct (qsort_spec seq_action_compare (fun a => length (act_key a) = 6%nat) seq_act_le) with (l := l)
    as (r & E & Hp & Hs); [|apply seq_action_compare_le|done|].
  { unfold seq_act_le. intros x y z. lia. }
  exists r. split_and!; [done|done|]. unfold acts_sorted.
  assert (Forall (fun a => length (act_key a) = 6%nat) r) as Hl' by (by rewrite Hp).
  assert (NoDup (map act_key r)) as Hnd' by (by rewrite Hp). clear - Hs Hl' Hnd'.
  induction Hs as [|x r Hs IH Hall]; [constructor|]. apply Forall_cons in Hl' as [Hx Hl']. cbn in Hnd'.
  apply NoDup_cons in Hnd' as [Hin Hnd']. constructor; [by apply IH|].
  apply list.Forall_forall. intros y Hy. left. unfold klt, seq_KeyOrder.
  rewrite list.Forall_forall in Hall, Hl'. destruct (Hall y Hy) as [?|[E _]]; [done|].
  exfalso. apply Hin. apply be_val_inj in E; [|by rewrite Hx, (Hl' y)]. rewrite E. by apply list_elem_of_fmap_2.
Qed.

(** ** The documents after a batch *)

Definition save_all (saved : list DocInfo) (D : gmap bytes DocInfo) : gmap bytes DocInfo :=
  foldl (fun D i => <[di_id i := i]> D) D saved.

Lemma save_all_lookup saved D id : NoDup (map di_id saved) ->
  (forall i, i ∈ saved -> di_id i = id -> save_all saved D !! id = Some i) /\
  (id ∉ map di_id saved -> save_all saved D !! id = D !! id).
Proof.
  unfold save_all. revert D. induction saved as [|j saved IH]; intros D Hnd; cbn [foldl map].
  { split; [|done]. intros i Hi. by apply not_elem_of_nil in Hi. }
  cbn in Hnd. apply NoDup_cons in Hnd as [Hj Hnd]. destruct (IH (<[di_id j := j]> D) Hnd) as [H1 H2]. split.
  - intros i [->|Hi]%elem_of_cons E; [|by apply H1]. rewrite H2 by (by rewrite <- E).
    rewrite E. apply lookup_insert_eq.
  - intros Hid. rewrite not_elem_of_cons in Hid. destruct Hid as [Hne Hid]. rewrite H2 by done.
    by apply lookup_insert_ne.
Qed.

Lemma save_all_inv saved D id i : NoDup (map di_id saved) -> save_all saved D !! id = Some i ->
  (i ∈ saved /\ di_id i = id) \/ (D !! id = Some i /\ id ∉ map di_id saved).
Proof.
  intros Hnd Hi. destruct (save_all_lookup saved D id Hnd) as [H1 H2].
  destruct (decide (id ∈ map di_id saved)) as [Hin|Hin]; [|right; by rewrite <- H2].
  apply list_elem_of_fmap in Hin as (j & E & Hj). left. rewrite (H1 j Hj) in Hi by done. by injection Hi as <-.
Qed.

Section Batch.
Variables (D : gmap bytes DocInfo) (update_seq : Z) (saved : list DocInfo).
Hypothesis docs : docs_ok D update_seq.
Hypothesis saved_ok : Forall info_ok saved.
Hypothesis saved_ids : NoDup (map di_id saved).
Hypothesis saved_seqs : StronglySorted Z.lt (update_seq :: map di_db_seq saved).
Variable last_seq : Z.
Hypothesis update_seq_range : 0 <= update_seq <= last_seq.
Hypothesis saved_last : Forall (fun i => di_db_seq i <= last_seq) saved.

Definition id_terms : list (bytes * bytes) := map (fun i => (di_id i, assemble_id_index_value i)) saved.
Definition seq_terms : list (bytes * bytes) :=
  map (fun i => (encode_raw48 (di_db_seq i), assemble_seq_index_value i)) saved.

Lemma saved_ok_in i : i ∈ saved -> info_ok i.
Proof. rewrite list.Forall_forall in saved_ok. apply saved_ok. Qed.

Lemma saved_seq_gt i : i ∈ saved -> update_seq < di_db_seq i.
Proof.
  intros Hi. apply StronglySorted_inv in saved_seqs as [_ Hall]. rewrite list.Forall_forall in Hall.
  apply Hall. by apply list_elem_of_fmap_2.
Qed.

Lemma saved_seq_inj i j : i ∈ saved -> j ∈ saved -> di_db_seq i = di_db_seq j -> i = j.
Proof.
  pose proof saved_seqs as Hs. apply StronglySorted_inv in Hs as [Hs _]. revert Hs. clear.
  induction saved as [|x l IH]; intros Hs Hi Hj E; [by apply not_elem_of_nil in Hi|].
  cbn in Hs. apply StronglySorted_inv in Hs as [Hs Hall]. rewrite list.Forall_forall in Hall.
  assert (forall y, y ∈ l -> di_db_seq x < di_db_seq y) as Hlt by (intros y Hy; by apply Hall, list_elem_of_fmap_2).
  apply elem_of_cons in Hi as [->|Hi]; apply elem_of_cons in Hj as [->|Hj]; [done| | |by apply IH].
  - specialize (Hlt j Hj). lia.
  - specialize (Hlt i Hi). lia.
Qed.

Lemma id_terms_nodup : NoDup (map fst id_terms).
Proof. unfold id_terms. rewrite map_map. exact saved_ids. Qed.

Lemma docs_ok_save_all : docs_ok (save_all saved D) last_seq.
Proof.
  destruct docs as [H1 H2].
  assert (forall id i, D !! id = Some i -> 0 < di_db_seq i <= update_seq) as Hold by (intros id i Hi; by apply H1 in Hi as (_ & _ & ?)).
  rewrite list.Forall_forall in saved_last. split.
  - intros id i Hi. apply save_all_inv in Hi as [[Hi <-]|[Hi _]]; [| |done].
    + pose proof (saved_seq_gt i Hi). specialize (saved_last i Hi). split_and!; [done|by apply saved_ok_in|lia..].
    + destruct (H1 _ _ Hi) as (? & ? & ?). split_and!; [done..|lia|lia].
  - intros a b i j Hi Hj E. apply save_all_inv in Hi as [[Hi <-]|[Hi Ha]]; [| |done];
      apply save_all_inv in Hj as [[Hj <-]|[Hj Hb]]; [| |done| | |done].
    + by rewrite (saved_seq_inj i j).
    + pose proof (saved_seq_gt i Hi). pose proof (Hold _ _ Hj). lia.
    + pose proof (saved_seq_gt j Hj). pose proof (Hold _ _ Hi). lia.
    + by eapply H2.
Qed.

(** *** By id *)

Lemma in_id_actions k v l : ACTION_INSERT k v ∈ id_actions l <-> (k, v) ∈ l.
Proof.
  unfold id_actions. rewrite !list_elem_of_In, in_concat. split.
  - intros (y & Hy & Ha). apply in_map_iff in Hy as ([k' v'] & <- & Hz).
    destruct Ha as [Ha|[Ha|[]]]; [done|]. by injection Ha as <- <-.
  - intros Hx. exists [ACTION_FETCH k tt; ACTION_INSERT k v]. split; [|by right; left].
    apply in_map_iff. by exists (k, v).
Qed.

Lemma id_actions_remove k l : ACTION_REMOVE k ∉ id_actions l.
Proof.
  unfold id_actions. rewrite list_elem_of_In, in_concat. intros (y & Hy & Ha).
  apply in_map_iff in Hy as ([k' v'] & <- & Hz). by destruct Ha as [Ha|[Ha|[]]].
Qed.

Lemma id_outcome kvs r o :
  ksorted (compare := ebin_compare) kvs -> as_map kvs = assemble_id_index_value <$> D -> r ≡ₚ id_terms ->
  outcome (compare := ebin_compare) kvs (id_actions r) o ->
  as_map o = assemble_id_index_value <$> save_all saved D.
Proof.
  intros Hs Hm Hp (Hso & Ho & _). apply map_eq. intros k. apply option_eq. intros v.
  rewrite <- (as_map_lookup _ _ _ Hso), Ho, in_id_actions, lookup_fmap, fmap_Some.
  assert (touched k (id_actions r) <-> k ∈ map di_id saved) as ->.
  { unfold touched. split.
    - intros [Hx|[v' Hx]]; [by apply id_actions_remove in Hx|]. apply in_id_actions in Hx. rewrite Hp in Hx.
      apply list_elem_of_fmap in Hx as (i & [= -> ->] & Hi). by apply list_elem_of_fmap_2.
    - intros Hx. apply list_elem_of_fmap in Hx as (i & -> & Hi). right. eexists. apply in_id_actions. rewrite Hp.
      apply list_elem_of_fmap. by exists i. }
  rewrite Hp, (as_map_lookup _ _ _ Hs), Hm, lookup_fmap, fmap_Some.
  destruct (save_all_lookup saved D k saved_ids) as [H1 H2]. split.
  - intros [Hx|[(i & Hi & ->) Hk]].
    + apply list_elem_of_fmap in Hx as (i & [= -> ->] & Hi). exists i. split; [by apply H1|done].
    + exists i. split; [by rewrite H2|done].
  - intros (i & Hi & ->). apply save_all_inv in Hi as [[Hi <-]|[Hi Hk]]; [| |done].
    + left. apply list_elem_of_fmap. by exists i.
    + right. split; [by exists i|done].
Qed.

(** *** By sequence *)

Definition seq_actions (r : list (bytes * bytes)) : list (modify_action unit) :=
  old_seqs D r ++ map (fun x => ACTION_INSERT x.1 x.2) seq_terms.

Lemma in_old_seqs a r : r ≡ₚ id_terms -> a ∈ old_seqs D r <->
  exists id i, id ∈ map di_id saved /\ D !! id = Some i /\ a = ACTION_REMOVE (encode_raw48 (di_db_seq i)).
Proof.
  intros Hp. unfold old_seqs. rewrite list_elem_of_omap. split.
  - intros ([id v] & Hx & E). rewrite Hp in Hx. cbn [fst] in E. apply bind_Some in E as (i & Hi & [= <-]).
    apply list_elem_of_fmap in Hx as (j & [= -> ->] & Hj). exists (di_id j), i. split_and!; [|done|done].
    by apply list_elem_of_fmap_2.
  - intros (id & i & Hid & Hi & ->). apply list_elem_of_fmap in Hid as (j & -> & Hj).
    exists (di_id j, assemble_id_index_value j). split.
    + rewrite Hp. apply list_elem_of_fmap. by exists j.
    + cbn [fst]. by rewrite Hi.
Qed.

Lemma in_seq_inserts a : a ∈ map (fun x => ACTION_INSERT (A := unit) x.1 x.2) seq_terms <->
  exists i, i ∈ saved /\ a = ACTION_INSERT (encode_raw48 (di_db_seq i)) (assemble_seq_index_value i).
Proof.
  unfold seq_terms. rewrite map_map. split.
  - intros Hx. apply list_elem_of_fmap in Hx as (i & -> & Hi). by exists i.
  - intros (i & Hi & ->). apply list_elem_of_fmap. by exists i.
Qed.

Lemma old_range id i : D !! id = Some i -> 0 < di_db_seq i <= update_seq /\ 0 <= di_db_seq i < 2 ^ 48.
Proof. intros Hi. destruct docs as [H1 _]. apply H1 in Hi as (_ & Hio & ?). split; [done|apply Hio]. Qed.

Lemma saved_range i : i ∈ saved -> update_seq < di_db_seq i /\ 0 <= di_db_seq i < 2 ^ 48.
Proof. intros Hi. split; [by apply saved_seq_gt|by apply saved_ok_in]. Qed.

Lemma old_seqs_nodup r : NoDup (map fst r) -> NoDup (map act_key (old_seqs D r)).
Proof.
  unfold old_seqs. induction r as [|[id v] r IH]; intros Hnd; cbn [omap list_omap map]; [constructor|].
  cbn in Hnd. apply NoDup_cons in Hnd as [Hid Hnd]. specialize (IH Hnd). cbn [fst].
  destruct (D !! id) as [i|] eqn:Ei; cbn [mbind option_bind]; [|done].
  cbn [map act_key]. apply NoDup_cons. split; [|done]. intros Hin.
  apply list_elem_of_fmap in Hin as (a & Ea & Ha). apply list_elem_of_omap in Ha as ([id' v'] & Hx & E).
  cbn [fst] in E. apply bind_Some in E as (j & Hj & [= <-]). cbn [act_key] in Ea.
  destruct (old_range _ _ Ei), (old_range _ _ Hj). apply encode_raw48_inj in Ea; [|done..].
  destruct docs as [_ Hinj]. rewrite (Hinj _ _ _ _ Ei Hj Ea) in Hid. apply Hid.
  apply list_elem_of_fmap. by exists (id', v').
Qed.

Lemma seq_actions_nodup r : r ≡ₚ id_terms -> NoDup (map act_key (seq_actions r)).
Proof.
  intros Hp. unfold seq_actions. rewrite map_app. apply NoDup_app. split_and!.
  - apply old_seqs_nodup. rewrite Hp. apply id_terms_nodup.
  - intros k Hk Hk'. apply list_elem_of_fmap in Hk as (a & -> & Ha), Hk' as (b & E & Hb).
    apply (in_old_seqs _ _ Hp) in Ha as (id & i & _ & Hi & ->). apply in_seq_inserts in Hb as (j & Hj & ->).
    cbn [act_key] in E. destruct (old_range _ _ Hi), (saved_range _ Hj). apply encode_raw48_inj in E; [lia|done..].
  - unfold seq_terms. rewrite !map_map. cbn [fst act_key].
    pose proof saved_seqs as Hs. apply StronglySorted_inv in Hs as [Hs _].
    assert (forall i, i ∈ saved -> 0 <= di_db_seq i < 2 ^ 48) as Hr by (intros i Hi; by apply saved_range).
    revert Hs Hr. clear. induction saved as [|x l IH]; intros Hs Hr; cbn [map]; [constructor|].
    cbn in Hs. apply StronglySorted_inv in Hs as [Hs Hall]. rewrite list.Forall_forall in Hall.
    apply NoDup_cons. split; [|apply IH; [done|]; intros; by apply Hr, list_elem_of_further].
    intros Hin. apply list_elem_of_fmap in Hin as (y & E & Hy).
    apply encode_raw48_inj in E; [|apply Hr, list_elem_of_here|by apply Hr, list_elem_of_further].
    assert (di_db_seq x < di_db_seq y) by (by apply Hall, list_elem_of_fmap_2). lia.
Qed.

Lemma seq_actions_keys r : r ≡ₚ id_terms -> Forall (fun a => length (act_key a) = 6%nat) (seq_actions r).
Proof.
  intros Hp. apply list.Forall_forall. intros a Ha. apply elem_of_app in Ha as [Ha|Ha].
  - apply (in_old_seqs _ _ Hp) in Ha as (? & ? & _ & _ & ->). apply encode_raw48_length.
  - apply in_seq_inserts in Ha as (? & _ & ->). apply encode_raw48_length.
Qed.

Lemma seq_outcome kvs r acts o :
  ksorted (compare := seq_cmp) kvs -> (forall k v, as_map kvs !! k = Some v <-> seq_entry D k v) ->
  r ≡ₚ id_terms -> acts ≡ₚ seq_actions r -> outcome (compare := seq_cmp) kvs acts o ->
  forall k v, as_map o !! k = Some v <-> seq_entry (save_all saved D) k v.
Proof.
  intros Hs Hm Hp Ha (Hso & Ho & _) k v.
  assert (Hins : forall v, ACTION_INSERT k v ∈ acts <->
    exists i, i ∈ saved /\ k = encode_raw48 (di_db_seq i) /\ v = assemble_seq_index_value i).
  { intros v'. rewrite Ha. unfold seq_actions. rewrite elem_of_app, (in_old_seqs _ _ Hp), in_seq_inserts. naive_solver. }
  assert (Hrem : ACTION_REMOVE k ∈ acts <->
    exists id i, id ∈ map di_id saved /\ D !! id = Some i /\ k = encode_raw48 (di_db_seq i)).
  { rewrite Ha. unfold seq_actions. rewrite elem_of_app, (in_old_seqs _ _ Hp), in_seq_inserts. naive_solver. }
  rewrite <- (as_map_lookup _ _ _ Hso), Ho, (as_map_lookup _ _ _ Hs), Hm. unfold touched. rewrite Hins. split.
  - intros [(i & Hi & -> & ->)|[(id & i & Hi & -> & ->) Hnt]].
    + exists (di_id i), i. split; [|done]. by apply (save_all_lookup saved D _ saved_ids).
    + exists id, i. split; [|done]. rewrite (proj2 (save_all_lookup saved D id saved_ids)); [done|].
      intros Hin. apply Hnt. left. apply Hrem. by exists id, i.
  - intros (id & i & Hi & -> & ->). apply save_all_inv in Hi as [[Hi <-]|[Hi Hid]]; [| |done].
    + left. by exists i.
    + right. split; [by exists id, i|]. destruct (old_range _ _ Hi) as [? ?]. intros [Hr|[v' Hv]].
      * apply Hrem in Hr as (id' & j & Hin & Hj & E). destruct (old_range _ _ Hj). apply encode_raw48_inj in E; [|done..].
        destruct docs as [_ Hinj]. rewrite (Hinj _ _ _ _ Hi Hj E) in Hid. done.
      * apply Hins in Hv as (j & Hj & E & _). destruct (saved_range _ Hj). apply encode_raw48_inj in E; [|done..]. lia.
Qed.
End Batch.

(** ** Weights of the batches *)

Lemma aweight_id_actions r : aweight (id_actions r) = weight r.
Proof.
  unfold aweight, weight, id_actions, sumZ. induction r as [|x r IH]; [done|].
  cbn [map concat app foldr]. rewrite IH. lia.
Qed.

Lemma aweight_seq_actions D saved r : aweight (seq_actions D saved r) = weight (seq_terms saved).
Proof.
  unfold seq_actions. rewrite aweight_app.
  assert (aweight (old_seqs D r) = 0) as ->.
  { unfold old_seqs. induction r as [|[k v] r IH]; [done|]. cbn [omap list_omap fst].
    destruct (D !! k); cbn [mbind option_bind]; [|done]. unfold aweight, sumZ in *. cbn [foldr]. lia. }
  unfold aweight, weight, sumZ. rewrite Z.add_0_l. induction (seq_terms saved) as [|x l IH]; [done|].
  cbn [map foldr]. rewrite IH. done.
Qed.

Lemma aweight_perm {A : Type} (l l' : list (modify_action A)) : l ≡ₚ l' -> aweight l = aweight l'.
Proof. apply sumZ_perm. Qed.
Lemma old_seqs_length D r : (length (old_seqs D r) <= length r)%nat.
Proof.
  unfold old_seqs. induction r as [|[k v] r IH]; cbn [omap list_omap length fst]; [lia|].
  destruct (D !! k); cbn [mbind option_bind length]; lia.
Qed.

Lemma weight_per_item kvs : 1024 * Z.of_nat (length kvs) <= weight kvs.
Proof.
  unfold weight, sumZ. induction kvs as [|x l IH]; [done|]. cbn [foldr length].
  pose proof (blen_nonneg x.1). pose proof (blen_nonneg x.2). lia.
Qed.

Definition term_of (i : DocInfo) : update_term :=
  {| ut_seq := encode_raw48 (di_db_seq i); ut_seqval := assemble_seq_index_value i;
     ut_id := di_id i; ut_idval := assemble_id_index_value i |}.

(** The four arrays of update_indexes fit in their block, with room for the
    removed keys. *)
Lemma update_indexes_room n : (Z.of_nat n) < 2 ^ 50 ->
  let numdocs := Z.of_nat n in
  exists p q p' fb,
    fatbuf_get (fatbuf_alloc (u64 (numdocs * (4 * sizeof_modify_action + 2 * sizeof_sized_buf + 10))))
      (u64 (numdocs * sizeof_modify_action * 2)) = (Some p, q) /\
    fatbuf_get q (u64 (numdocs * sizeof_modify_action * 2)) = (Some p', fb) /\
    ctx_room n (2 * n) {| ctx_seqacts := []; ctx_cap := 2 * n; ctx_deltermbuf := fb |}.
Proof.
  intros Hn numdocs. unfold sizeof_modify_action, sizeof_sized_buf, fatbuf_alloc, u64.
  rewrite !Z.mod_small by lia. rewrite fatbuf_get_fits by (cbn [fb_pos fb_size]; lia). do 4 eexists.
  split; [reflexivity|]. rewrite fatbuf_get_fits by (cbn [fb_pos fb_size]; lia). cbn [fb_pos fb_size].
  split; [reflexivity|]. unfold ctx_room. cbn [ctx_deltermbuf ctx_seqacts ctx_cap fb_pos fb_size length].
  split_and!; lia.
Qed.
