(* ===== verification/SaveDb.v ===== *)
(** * SaveDb: couchstore_save_documents and couchstore_save_local_document

    The programs of Save and Docs that update a db, against the abstract updates
    of SaveSpec. *)

From Stdlib Require Import ZArith Lia Sorted.
From S2P Require Import Prelude Bitfield NodeTypes Util FileOps TreeFile NodeStore Header BTree BTreeInv BTreeFlush TreeSpec BTreeModify Reduces BTreeRead Docs Save DocCodec DbSpec SaveSpec.
From stdpp Require Import list numbers gmap.

#[local] Open Scope Z_scope.
#[local] Open Scope couch_scope.
#[local] Existing Instance pure_ctx | 100.

Section SaveDb.
Context {H : Type} `{HO : FileOps H} `{HF : Faulty H} `{HL : !FileLaws H} `{HS : Snappy} `{HSL : !SnappyLaws}.

(** ** Updating one tree of a db *)

Lemma wp_modify_tree {C A} (rq : modify_request C A) `{HK : !KeyOrder (rq_compare rq)} kvok rval
    `{HR : !ReduceLaws rq kvok rval} fuel hmax (d : Db H) c c2 root kvs acts
    (Q : option node_pointer * couchstore_error_t * C -> Db H -> Prop) :
  (forall k v, kvok k v -> vkey (compare := rq_compare rq) k) -> rq_compacting rq = false ->
  tf_ok (db_file d) -> tree_at (compare := rq_compare rq) kvok rval (db_file d) hmax root kvs ->
  Forall (act_ok rq kvok) acts -> acts_sorted (compare := rq_compare rq) acts ->
  fetch_all (rq_fetch_callback rq) kvs acts c = Some c2 ->
  weight kvs + aweight acts + 1 < max_node -> (hmax + length kvs + length acts < fuel)%nat ->
  (forall f' hmax' root' o, tf_ok f' -> tf_ext (db_file d) f' -> outcome (compare := rq_compare rq) kvs acts o ->
    tree_at (compare := rq_compare rq) kvok rval f' hmax' root' o ->
    Q (root', COUCHSTORE_SUCCESS, c2) {| db_file := f'; db_hdr := db_hdr d |}) ->
  wp (with_ctx c (modify_btree rq fuel root acts)) Q d.
Proof.
  intros Hkey Hcomp Hok (Hs & h & Hh & Hr) Hacts Hsorted Hf Hw Hfuel HQ. apply wp_with_ctx.
  eapply (wp_modify_btree rq kvok rval Hkey fuel _ _ _ h); [done|exact Hr|done|done|done|exact Hf|done|done|lia|].
  intros f' h' root' o Hok' He Ho Hr'. eapply (HQ f' h'); [done|done|done|].
  split; [by destruct Ho|]. by exists h'.
Qed.

Lemma sticky_with_modify {C A} (rq : modify_request C A) c fuel root acts :
  sticky (with_ctx c (modify_btree (F := tree_file H) rq fuel root acts)).
Proof. apply sticky_with_ctx, sticky_modify_btree. Qed.
#[local] Hint Resolve sticky_with_modify : sticky.

Lemma tree_at_mono {compare} `{!KeyOrder compare} kvok rval (f : tree_file H) hmax hmax' root kvs :
  (hmax <= hmax')%nat -> tree_at (compare := compare) kvok rval f hmax root kvs ->
  tree_at (compare := compare) kvok rval f hmax' root kvs.
Proof. intros Hle (? & h & ? & ?). split; [done|]. exists h. split; [lia|done]. Qed.

Lemma tree_at_ext {compare} `{!KeyOrder compare} kvok rval (f f' : tree_file H) hmax root kvs :
  tf_ext f f' -> tree_at (compare := compare) kvok rval f hmax root kvs ->
  tree_at (compare := compare) kvok rval f' hmax root kvs.
Proof. intros He. apply tree_at_keep, ext_keeps_nodes. exact He. Qed.

(** ** Local documents *)

Lemma local_ReduceLaws : ReduceLaws local_request local_kvok no_rval.
Proof. by apply no_ReduceLaws. Qed.

Definition local_action (lDoc : LocalDoc) : modify_action unit :=
  if decide (ld_deleted lDoc <> 0) then ACTION_REMOVE (ld_id lDoc) else ACTION_INSERT (ld_id lDoc) (ld_json lDoc).

Definition save_local (lDoc : LocalDoc) (L : gmap bytes bytes) : gmap bytes bytes :=
  if decide (ld_deleted lDoc <> 0) then delete (ld_id lDoc) L else <[ld_id lDoc := ld_json lDoc]> L.

Lemma wp_save_local_document d t D L fuel lDoc (Q : couchstore_error_t -> Db H -> Prop) :
  db_rep d t D L -> blen (ld_id lDoc) < 2 ^ 12 -> blen (ld_json lDoc) < 2 ^ 28 ->
  weight (t_local t) + blen (ld_id lDoc) + blen (ld_json lDoc) + 1025 < max_node ->
  (t_height t + length (t_local t) + 1 < fuel)%nat ->
  (forall d' t', db_rep d' t' D (save_local lDoc L) -> tf_ext (db_file d) (db_file d') ->
    t_id t' = t_id t -> t_seq t' = t_seq t -> Q COUCHSTORE_SUCCESS d') ->
  wp (couchstore_save_local_document fuel lDoc) Q d.
Proof.
  intros Hr Hid Hjson Hw Hfuel HQ. unfold couchstore_save_local_document. fold (local_action lDoc).
  pose proof local_ReduceLaws as HR. pose proof (blen_nonneg (ld_id lDoc)). pose proof (blen_nonneg (ld_json lDoc)).
  apply wp_bind; [intros; solve_sticky|]. intros _. apply wp_bind; [intros [[??]?]; solve_sticky|].
  eapply (wp_modify_tree local_request local_kvok no_rval fuel (t_height t) d tt tt);
    [done|done|apply Hr|apply Hr|..].
  - constructor; [|constructor]. split; [done|]. unfold local_action. case_decide; [done|]. by split.
  - by repeat constructor.
  - unfold local_action. by case_decide.
  - unfold local_action, aweight, sumZ. case_decide; cbn [foldr]; lia.
  - cbn. lia.
  - intros f' hmax' root' o Hok' He Ho Ht'. rewrite decide_True by done.
    apply wp_bind; [intros; solve_sticky|]. intros _. apply wp_ret.
    eapply (HQ _ {| t_id := t_id t; t_seq := t_seq t; t_local := o; t_height := t_height t + hmax' |}); [|done|done|done].
    assert (as_map o = save_local lDoc L) as Hm.
    { destruct (dr_local _ _ _ _ Hr) as [Hs _].
      assert (acts_sorted (compare := ebin_compare) [local_action lDoc]) as Ha by (by repeat constructor).
      rewrite (outcome_map (compare := ebin_compare) _ _ _ Hs Ha Ho), (dr_local_map _ _ _ _ Hr).
      unfold local_action, save_local. by case_decide. }
    destruct Hr as [Hfile []]. pose proof (proj1 He).
    split; [|split]; cbn [db_file db_hdr set_local_root dh_update_seq dh_by_id_root dh_by_seq_root dh_local_docs_root
                dh_purge_seq dh_purge_ptr t_id t_seq t_local t_height]; try done; try lia.
    + eapply tree_at_mono, tree_at_ext; [|exact He|done]. lia.
    + eapply tree_at_mono, tree_at_ext; [|exact He|done]. lia.
    + eapply tree_at_mono; [|exact Ht']. lia.
Qed.

(** ** update_indexes *)

Lemma id_ReduceLaws : ReduceLaws id_request id_kvok by_id_rval.
Proof. by apply by_id_ReduceLaws. Qed.
Lemma seq_ReduceLaws : ReduceLaws seq_request seq_kvok by_seq_rval.
Proof. by apply by_seq_ReduceLaws. Qed.

Lemma id_actions_ok saved r : Forall info_ok saved -> r ≡ₚ id_terms saved ->
  Forall (act_ok id_request (HK := ebin_KeyOrder) id_kvok) (id_actions r).
Proof.
  intros Hok Hp. apply list.Forall_forall. intros a Ha. split; [done|]. destruct a as [| |k v]; try done.
  apply in_id_actions in Ha. rewrite Hp in Ha. apply list_elem_of_fmap in Ha as (i & [= -> ->] & Hi).
  rewrite list.Forall_forall in Hok. by apply assemble_id_kvok, Hok.
Qed.

Lemma seq_actions_ok D saved r acts : Forall info_ok saved -> r ≡ₚ id_terms saved -> acts ≡ₚ seq_actions D saved r ->
  Forall (act_ok seq_request (HK := seq_KeyOrder) seq_kvok) acts.
Proof.
  intros Hok Hp Ha. rewrite Ha. apply list.Forall_forall. intros a Hin.
  pose proof (seq_actions_keys D saved r Hp) as Hk. rewrite list.Forall_forall in Hk. rewrite list.Forall_forall in Hok.
  split; [by apply Hk|]. destruct a as [| |k v]; try done. apply elem_of_app in Hin as [Hin|Hin].
  - by apply (in_old_seqs D saved _ _ Hp) in Hin as (? & ? & _ & _ & ?).
  - apply in_seq_inserts in Hin as (i & Hi & [= -> ->]). by apply assemble_seq_kvok, Hok.
Qed.

Lemma seq_no_fetch {C} (cb : option (bytes -> option bytes -> unit -> C -> option C)) D saved r acts kvs c :
  r ≡ₚ id_terms saved -> acts ≡ₚ seq_actions D saved r -> fetch_all cb kvs acts c = Some c.
Proof.
  intros Hp Ha. assert (forall a, a ∈ acts -> ~ is_fetch a) as Hnf.
  { intros a. rewrite Ha. intros [Hin|Hin]%elem_of_app.
    - apply (in_old_seqs D saved _ _ Hp) in Hin as (? & ? & _ & _ & ->). tauto.
    - apply in_seq_inserts in Hin as (i & Hi & ->). tauto. }
  clear Ha. induction acts as [|a acts IH]; [done|].
  assert (fetch_all cb kvs acts c = Some c) as IH' by (apply IH; intros; by apply Hnf, list_elem_of_further).
  specialize (Hnf a (list_elem_of_here _ _)). destruct a; cbn [fetch_all is_fetch] in *; tauto.
Qed.

(** The second half: the index by sequence, once the removals are known. *)
Lemma wp_update_seq d d1 t D L fuel saved r c1 (Q : option node_pointer * couchstore_error_t * unit -> Db H -> Prop) :
  db_rep d t D L -> Forall info_ok saved -> NoDup (map di_id saved) ->
  StronglySorted Z.lt (dh_update_seq (db_hdr d) :: map di_db_seq saved) ->
  r ≡ₚ id_terms saved -> ctx_seqacts c1 = old_seqs D r -> ctx_room 0 (length saved) c1 ->
  tf_ok (db_file d1) -> tf_ext (db_file d) (db_file d1) -> db_hdr d1 = db_hdr d ->
  weight (t_seq t) + weight (seq_terms saved) + 1 < max_node ->
  (t_height t + length (t_seq t) + 2 * length saved < fuel)%nat ->
  exists c2 acts, add_seq_inserts (seq_terms saved) c1 = Some c2 /\
    qsort seq_action_compare (ctx_seqacts c2) = Some acts /\
    ((forall f' hmax' root_seq o, tf_ok f' -> tf_ext (db_file d1) f' ->
        tree_at (compare := seq_cmp) seq_kvok by_seq_rval f' hmax' root_seq o ->
        (forall k v, as_map o !! k = Some v <-> seq_entry (save_all saved D) k v) ->
        Q (root_seq, COUCHSTORE_SUCCESS, tt) {| db_file := f'; db_hdr := db_hdr d |}) ->
     wp (with_ctx tt (modify_btree seq_request fuel (dh_by_seq_root (db_hdr d)) acts)) Q d1).
Proof.
  intros Hr Hok Hnd Hseqs Hp Hc1 Hroom Hok1 He1 Eh1 Hw Hfuel. pose proof seq_ReduceLaws as HRs.
  pose proof (dr_docs _ _ _ _ Hr) as Hdocs.
  destruct (add_seq_inserts_room (seq_terms saved) c1 0 0) as (c2 & E2 & Hc2 & _).
  { unfold seq_terms. by rewrite length_map, Nat.add_0_r. }
  rewrite Hc1 in Hc2. fold (seq_actions D saved r) in Hc2.
  destruct (sort_seq_actions (seq_actions D saved r)) as (acts & E3 & Ha & Hs).
  { by apply seq_actions_keys. } { by eapply seq_actions_nodup. }
  exists c2, acts. split_and!; [done|by rewrite Hc2|]. intros HQ.
  assert (length acts <= 2 * length saved)%nat as Hla.
  { rewrite Ha. unfold seq_actions, seq_terms. rewrite length_app, !length_map.
    pose proof (old_seqs_length D r) as Hl. pose proof (Permutation_length Hp) as Hpl.
    unfold id_terms in Hpl. rewrite length_map in Hpl. lia. }
  eapply (wp_modify_tree seq_request seq_kvok by_seq_rval fuel (t_height t) d1 tt tt _ (t_seq t)); [|done|done|..].
  - apply seq_kvok_key.
  - eapply tree_at_ext; [exact He1|apply Hr].
  - by eapply seq_actions_ok.
  - done.
  - by eapply seq_no_fetch.
  - rewrite (aweight_perm _ _ Ha), aweight_seq_actions. done.
  - lia.
  - intros f' hmax' root_seq o Hok' He' Ho Ht. rewrite Eh1. eapply HQ; [done|done|exact Ht|].
    destruct (dr_seq _ _ _ _ Hr) as [Hss _]. pose proof (dr_seq_range _ _ _ _ Hr).
    by apply (seq_outcome D _ saved Hdocs Hok Hnd Hseqs (dh_update_seq (db_hdr d)) ltac:(lia) (t_seq t) r acts o
                Hss (dr_seq_map _ _ _ _ Hr)).
Qed.

Lemma id_actions_length r : length (id_actions r) = (2 * length r)%nat.
Proof. unfold id_actions. induction r as [|x r IH]; [done|]. cbn [map concat app length] in *. lia. Qed.

Lemma wp_update_indexes d t D L fuel saved last_seq (Q : couchstore_error_t -> Db H -> Prop) :
  db_rep d t D L -> Forall info_ok saved -> NoDup (map di_id saved) ->
  StronglySorted Z.lt (dh_update_seq (db_hdr d) :: map di_db_seq saved) ->
  Forall (fun i => di_db_seq i <= last_seq) saved -> dh_update_seq (db_hdr d) <= last_seq < 2 ^ 48 ->
  weight (t_id t) + weight (id_terms saved) + 1 < max_node ->
  weight (t_seq t) + weight (seq_terms saved) + 1 < max_node ->
  (t_height t + length (t_id t) + length (t_seq t) + 2 * length saved < fuel)%nat ->
  (forall f' root_id root_seq t', tf_ext (db_file d) f' -> t_local t' = t_local t ->
    db_rep {| db_file := f'; db_hdr := set_update_seq last_seq (set_roots root_id root_seq (db_hdr d)) |} t'
      (save_all saved D) L ->
    Q COUCHSTORE_SUCCESS {| db_file := f'; db_hdr := set_roots root_id root_seq (db_hdr d) |}) ->
  wp (update_indexes fuel (map term_of saved)) Q d.
Proof.
  intros Hr Hok Hnd Hseqs Hlast Hrange Hw1 Hw2 Hfuel HQ. unfold update_indexes. rewrite length_map.
  destruct (update_indexes_room (length saved)) as (p & q & p' & fb & E1 & E2 & Hroom).
  { pose proof (weight_per_item (id_terms saved)) as Hwl. unfold id_terms in Hwl at 1. rewrite length_map in Hwl.
    pose proof (weight_nonneg (t_id t)). unfold max_node in *. lia. }
  rewrite E1, E2, !map_map. change (map (fun x => (ut_id (term_of x), ut_idval (term_of x))) saved) with (id_terms saved).
  change (map (fun x => (ut_seq (term_of x), ut_seqval (term_of x))) saved) with (seq_terms saved).
  destruct (sort_ids (id_terms saved)) as (r & E3 & Hp & Hs); [by apply id_terms_nodup|].
  rewrite E3. apply wp_bind; [intros; solve_sticky|]. apply wp_ret.
  apply wp_bind; [intros; solve_sticky|]. intros _. apply wp_bind; [intros [[??]?]; solve_sticky|].
  pose proof id_ReduceLaws as HRi. pose proof (dr_docs _ _ _ _ Hr) as Hdocs.
  assert (length r = length saved) as Hlr by (rewrite Hp; unfold id_terms; by rewrite length_map).
  destruct (fetch_id_actions D (t_id t) r {| ctx_seqacts := []; ctx_cap := 2 * length saved; ctx_deltermbuf := fb |}
              0 (length saved)) as (c1 & Ef & Hc1 & Hroom1).
  { apply Hr. } { intros id i Hi. by apply Hdocs in Hi as (_ & ? & _). }
  { rewrite Hlr. destruct Hroom as (? & ? & ?). split_and!; cbn in *; lia. }
  eapply (wp_modify_tree id_request id_kvok by_id_rval fuel (t_height t) d); [done|done|apply Hr|apply Hr|..].
  - by eapply id_actions_ok.
  - by apply id_actions_sorted.
  - exact Ef.
  - rewrite aweight_id_actions, (weight_perm _ _ Hp). done.
  - rewrite id_actions_length, Hlr. lia.
  - intros f1 h1 root_id o1 Hok1 He1 Ho1 Ht1. rewrite decide_False by auto.
    destruct (wp_update_seq d {| db_file := f1; db_hdr := db_hdr d |} t D L fuel saved r c1
      (fun x d2 => wp (let '(r, _) := x in let '(new_seq_root, errcode) := r in
        if decide (errcode <> COUCHSTORE_SUCCESS) then ret errcode
        else set_header (set_roots root_id new_seq_root (db_hdr d)) ;; ret errcode) Q d2))
      as (c2 & acts & E4 & E5 & Hwp); [done..|lia|]. rewrite E4.
    apply wp_bind; [intros; solve_sticky|]. apply wp_ret. rewrite E5.
    apply wp_bind; [intros; solve_sticky|]. apply wp_ret. apply wp_bind; [intros [[??]?]; solve_sticky|].
    apply Hwp. intros f2 h2 root_seq o2 Hok2 He2 Ht2 Hm2. cbn [db_file] in He2. rewrite decide_False by auto.
    apply wp_bind; [intros; solve_sticky|]. intros _. apply wp_ret. cbn [db_file db_hdr].
    assert (tf_ext (db_file d) f2) as He by (by transitivity f1).
    apply (HQ _ _ _ {| t_id := o1; t_seq := o2; t_local := t_local t; t_height := t_height t + h1 + h2 |}); [done|done|].
    assert (as_map o1 = assemble_id_index_value <$> save_all saved D) as Hm1.
    { destruct (dr_id _ _ _ _ Hr) as [Hss _]. by eapply (id_outcome D saved); try done; apply Hr. }
    destruct Hr as [Hfile []]. pose proof (proj1 He).
    split; [|split]; cbn [db_file db_hdr set_update_seq set_roots dh_update_seq dh_by_id_root dh_by_seq_root dh_local_docs_root
                dh_purge_seq dh_purge_ptr t_id t_seq t_local t_height]; try done; try lia.
    + eapply docs_ok_save_all; try done. lia.
    + eapply tree_at_mono, tree_at_ext; [|exact He2|exact Ht1]. lia.
    + eapply tree_at_mono; [|exact Ht2]. lia.
    + eapply tree_at_mono, tree_at_ext; [|exact He|done]. lia.
Qed.

(** ** Writing the bodies *)

(** What a caller may pass: the fields fit, and a body of at most 64 MB. *)
Record input_ok (doc : option Doc) (info : DocInfo) : Prop := {
  in_rev_seq : 0 <= di_rev_seq info < 2 ^ 48;
  in_content_meta : 0 <= di_content_meta info < 2 ^ 8;
  in_deleted : di_deleted info = 0 \/ di_deleted info = 1;
  in_id : blen (di_id info) < 2 ^ 12;
  in_meta : blen (di_id info) + blen (di_rev_meta info) + 23 < 2 ^ 28;
  in_body : match doc with Some doc => blen (doc_data doc) < 2 ^ 26 | None => True end
}.

(** The document [i] that is stored for [doc] and [info]. *)
Definition stored_as (f : tree_file H) (options : Z) (doc : option Doc) (info : DocInfo) (seq : Z) (i : DocInfo) : Prop :=
  di_id i = di_id info /\ di_db_seq i = seq /\ di_rev_seq i = di_rev_seq info /\
  di_rev_meta i = di_rev_meta info /\ di_content_meta i = di_content_meta info /\
  match doc with
  | Some doc => di_deleted i = di_deleted info /\ di_bp i <> 0 /\
      body_at f (compressed (di_content_meta info) options) (di_bp i) (doc_data doc)
  | None => di_deleted i = 1 /\ di_bp i = 0 /\ di_size i = 0
  end.

Lemma stored_as_ext f f' options doc info seq i :
  tf_ext f f' -> stored_as f options doc info seq i -> stored_as f' options doc info seq i.
Proof.
  intros He (? & ? & ? & ? & ? & Hd). split_and!; [done..|]. destruct doc; [|done].
  destruct Hd as (? & ? & ?). split_and!; [done..|]. eapply body_at_keep; [|done]. by apply tf_ext_keep.
Qed.

Lemma wp_write_doc d doc options (Q : result (Z * Z) -> Db H -> Prop) :
  tf_ok (db_file d) -> 0 < tf_pos (db_file d) -> blen (doc_data doc) < 2 ^ 26 ->
  (forall f' bp size, tf_ok f' -> tf_ext (db_file d) f' ->
    body_at f' (flag options COMPRESS_DOC_BODIES) bp (doc_data doc) ->
    0 < bp < 2 ^ 47 -> 0 <= size < 2 ^ 28 -> Q (Done (bp, size)) {| db_file := f'; db_hdr := db_hdr d |}) ->
  wp (write_doc doc options) Q d.
Proof.
  intros Hok Hpos Hl HQ. unfold write_doc. pose proof (blen_nonneg (doc_data doc)).
  destruct (flag options COMPRESS_DOC_BODIES) eqn:Ef; apply wp_in_file.
  - apply wp_db_write_buf_compressed; [by apply tf_ok_appending|unfold max_node; lia|].
    intros f' pos dsz _ Hok' He Hst -> Hsz. destruct (node_stored_range _ _ _ _ Hst) as [? ?].
    assert (blen (doc_data doc) / 6 <= blen (doc_data doc)) by (apply Z.div_le_upper_bound; lia).
    assert (6 * (blen (doc_data doc) / 6) <= blen (doc_data doc)) by (apply Z.mul_div_le; lia).
    apply HQ; [auto|done|by exists dsz|lia|lia].
  - apply wp_append; [by apply tf_ok_appending|lia|]. intros f' _ Hok' He Hat Hlt _.
    pose proof (layout_length_le (tf_pos (db_file d)) (chunk (doc_data doc))) as Hle. rewrite chunk_length in Hle.
    pose proof (blen_nonneg (layout (tf_pos (db_file d)) (chunk (doc_data doc)))).
    apply HQ; [auto|done..|lia|lia].
Qed.

(** ** The terms of a batch *)

Definition fb_room (fb : fatbuf) (n : Z) : Prop := 0 <= fb_pos fb /\ fb_pos fb + n <= fb_size fb < 2 ^ 64.

Lemma fb_room_get fb n m : fb_room fb (n + m) -> 0 <= n -> 0 <= m ->
  exists p fb', fatbuf_get fb n = (Some p, fb') /\ fb_room fb' m.
Proof.
  intros (? & ? & ?) Hn Hm. rewrite fatbuf_get_fits by lia. do 2 eexists. split; [reflexivity|].
  split; cbn [fb_pos fb_size]; lia.
Qed.

Lemma sticky_write_doc doc options : sticky (write_doc (H := H) doc options).
Proof. unfold write_doc. solve_sticky. Qed.
#[local] Hint Resolve sticky_write_doc : sticky.

(** The tail of add_doc_to_update_list, once the document is known. *)
Lemma term_room fb i m : fb_room fb (44 + blen (di_id i) + blen (di_rev_meta i) + (44 + 10 + blen (di_rev_meta i) + m)) ->
  0 <= m ->
  exists p fb1 q fb2,
    fatbuf_get fb (u64 (44 + blen (di_id i) + blen (di_rev_meta i))) = (Some p, fb1) /\
    fatbuf_get fb1 (u64 (44 + 10 + blen (di_rev_meta i))) = (Some q, fb2) /\ fb_room fb2 m.
Proof.
  intros Hroom Hm. pose proof (blen_nonneg (di_id i)). pose proof (blen_nonneg (di_rev_meta i)).
  pose proof Hroom as (? & ? & ?). unfold u64. rewrite !Z.mod_small by lia.
  destruct (fb_room_get _ _ _ Hroom) as (p & fb1 & -> & Hr1); [lia..|].
  destruct (fb_room_get _ _ _ Hr1) as (q & fb2 & E & Hr2); [lia..|]. by exists p, fb1, q, fb2.
Qed.

Lemma wp_add_doc d doc info fb seq options m (Q : result (fatbuf * update_term) -> Db H -> Prop) :
  tf_ok (db_file d) -> 0 < tf_pos (db_file d) -> input_ok doc info -> 0 <= seq < 2 ^ 48 ->
  fb_room fb (term_size info + m) -> 0 <= m ->
  (forall f' fb' i, tf_ok f' -> tf_ext (db_file d) f' -> info_ok i -> stored_as f' options doc info seq i ->
    fb_room fb' m -> Q (Done (fb', term_of i)) {| db_file := f'; db_hdr := db_hdr d |}) ->
  wp (add_doc_to_update_list doc info fb seq options) Q d.
Proof.
  intros Hok Hpos Hin Hseq Hroom Hm HQ. unfold add_doc_to_update_list.
  pose proof (blen_nonneg (di_id info)). pose proof (blen_nonneg (di_rev_meta info)).
  destruct (fb_room_get fb 6 (44 + blen (di_id info) + blen (di_rev_meta info) + (44 + 10 + blen (di_rev_meta info) + m)))
    as (p0 & fb0 & -> & Hr0); [|lia|lia|].
  { unfold term_size in Hroom. eapply eq_ind; [exact Hroom|]. lia. }
  destruct (term_room fb0 info m Hr0 Hm) as (p & fb1 & q & fb2 & E1 & E2 & Hr2).
  apply wp_bind; [intros; solve_sticky|]. destruct Hin as [Hrs Hcm Hdel Hid Hmeta Hbody].
  destruct doc as [doc|].
  - apply wp_bind; [intros; solve_sticky|]. apply wp_write_doc; [done..|].
    intros f' bp size Hok' He Hb Hbp Hsz. apply wp_ret.
    cbn [set_db_seq di_id di_rev_meta di_db_seq di_rev_seq di_deleted di_content_meta di_bp di_size]. rewrite E1, E2.
    apply wp_ret. change COMPRESS_DOC_BODIES with DECOMPRESS_DOC_BODIES in Hb. rewrite option_compressed in Hb.
    apply (HQ f' fb2 {| di_id := di_id info; di_db_seq := seq; di_rev_seq := di_rev_seq info;
                        di_rev_meta := di_rev_meta info; di_deleted := di_deleted info;
                        di_content_meta := di_content_meta info; di_bp := bp; di_size := size |}); [done|done| | |done].
    + split; cbn [di_id di_rev_meta di_db_seq di_rev_seq di_deleted di_content_meta di_bp di_size]; lia || done.
    + split_and!; cbn; try done. lia.
  - apply wp_ret.
    cbn [set_db_seq di_id di_rev_meta di_db_seq di_rev_seq di_deleted di_content_meta di_bp di_size]. rewrite E1, E2.
    apply wp_ret. destruct d as [f hdr].
    apply (HQ f fb2 {| di_id := di_id info; di_db_seq := seq; di_rev_seq := di_rev_seq info;
                        di_rev_meta := di_rev_meta info; di_deleted := 1;
                        di_content_meta := di_content_meta info; di_bp := 0; di_size := 0 |}); [done|reflexivity| | |done].
    + split; cbn [di_id di_rev_meta di_db_seq di_rev_seq di_deleted di_content_meta di_bp di_size]; lia || tauto.
    + by split_and!.
Qed.

(** The documents stored for a batch, numbered from [seq + 1] on. *)
Fixpoint stored_all (f : tree_file H) (options : Z) (docs : list (option Doc)) (infos : list DocInfo) (seq : Z)
    (saved : list DocInfo) : Prop :=
  match docs, infos, saved with
  | [], [], [] => True
  | doc :: docs', info :: infos', i :: saved' =>
      stored_as f options doc info (seq + 1) i /\ stored_all f options docs' infos' (seq + 1) saved'
  | _, _, _ => False
  end.

Lemma stored_all_ext f f' options docs infos seq saved :
  tf_ext f f' -> stored_all f options docs infos seq saved -> stored_all f' options docs infos seq saved.
Proof.
  intros He. revert docs infos seq. induction saved as [|i saved IH]; intros [|doc docs] [|info infos] seq; cbn; try done.
  intros [? ?]. split; [by eapply stored_as_ext|by apply IH].
Qed.

(** A NULL array stands for documents without bodies. *)
Definition doc_list (docs : option (list (option Doc))) (infos : list DocInfo) : list (option Doc) :=
  match docs with Some l => l | None => map (fun _ => None) infos end.

Lemma sticky_add_doc doc info fb seq options : sticky (add_doc_to_update_list (H := H) doc info fb seq options).
Proof. unfold add_doc_to_update_list. destruct doc; solve_sticky. Qed.
#[local] Hint Resolve sticky_add_doc : sticky.
Lemma sticky_add_docs docs infos fb seq options : sticky (add_docs (H := H) docs infos fb seq options).
Proof. revert docs fb seq. induction infos as [|info infos IH]; intros docs fb seq; cbn [add_docs]; solve_sticky. Qed.
#[local] Hint Resolve sticky_add_docs : sticky.

Lemma wp_add_docs d docs infos fb seq options m (Q : result (list update_term) -> Db H -> Prop) :
  tf_ok (db_file d) -> 0 < tf_pos (db_file d) -> Forall2 input_ok (doc_list docs infos) infos ->
  0 <= seq -> seq + Z.of_nat (length infos) < 2 ^ 48 -> fb_room fb (sumZ term_size infos + m) -> 0 <= m ->
  (forall f' saved, tf_ok f' -> tf_ext (db_file d) f' -> Forall info_ok saved ->
    stored_all f' options (doc_list docs infos) infos seq saved ->
    Q (Done (map term_of saved)) {| db_file := f'; db_hdr := db_hdr d |}) ->
  wp (add_docs docs infos fb seq options) Q d.
Proof.
  revert d docs fb seq Q. induction infos as [|info infos IH];
    intros d docs fb seq Q Hok Hpos Hin Hseq Hmax Hroom Hm HQ; cbn [add_docs].
  { apply Forall2_nil_inv_r in Hin. destruct d as [f hdr]. apply wp_ret, (HQ f []); [done|reflexivity|constructor|].
    by rewrite Hin. }
  cbn [length] in Hmax. unfold u64. rewrite Z.mod_small by lia.
  unfold sumZ in Hroom. cbn [foldr] in Hroom. fold (sumZ term_size infos) in Hroom.
  assert (0 <= sumZ term_size infos) as Hnn.
  { apply sumZ_nonneg. intros x. unfold term_size. pose proof (blen_nonneg (di_id x)). pose proof (blen_nonneg (di_rev_meta x)). lia. }
  assert (exists doc docs', doc_list docs (info :: infos) = doc :: doc_list docs' infos /\
    match docs with None => ret (None, None) | Some (d :: docs') => ret (d, Some docs') | Some [] => undef end
    = ret (S := Db H) (doc, docs')) as (doc & docs' & Ed & Em).
  { destruct docs as [[|doc docs]|]; [|by exists doc, (Some docs)|by exists None, None].
    cbn [doc_list] in Hin. by apply Forall2_nil_inv_l in Hin. }
  rewrite Ed in *. rewrite Em. apply Forall2_cons in Hin as [Hin1 Hin].
  apply wp_bind; [intros [??]; solve_sticky|]. apply wp_ret. apply wp_bind; [intros; solve_sticky|].
  eapply (wp_add_doc d doc info fb (seq + 1) options (sumZ term_size infos + m)); [done|done|done|lia| |lia|].
  { by rewrite Z.add_assoc. }
  intros f1 fb1 i Hok1 He1 Hi Hst1 Hr1. pose proof (proj1 He1). apply wp_bind; [intros; solve_sticky|].
  eapply (IH {| db_file := f1; db_hdr := db_hdr d |}); cbn [db_file db_hdr]; [done|lia|done|lia|lia|done|done|].
  intros f2 saved Hok2 He2 Hall Hst2. apply wp_ret.
  apply (HQ f2 (i :: saved)); [done|by transitivity f1|by constructor|]. split; [by eapply stored_as_ext|done].
Qed.

(** ** couchstore_save_documents *)

(** What a document adds to the weight of either index. *)
Definition info_weight (i : DocInfo) : Z := blen (di_id i) + blen (di_rev_meta i) + 1048.

Lemma stored_all_ids f options docs infos seq saved :
  stored_all f options docs infos seq saved -> map di_id saved = map di_id infos.
Proof.
  revert docs infos seq. induction saved as [|i saved IH]; intros [|doc docs] [|info infos] seq; cbn; try done.
  intros [(-> & _) Hs]. f_equal. by eapply IH.
Qed.

Lemma stored_all_lookup f options docs infos seq saved n doc info :
  stored_all f options docs infos seq saved -> docs !! n = Some (Some doc) -> infos !! n = Some info ->
  exists i seq', saved !! n = Some i /\ stored_as f options (Some doc) info seq' i.
Proof.
  revert docs infos seq n. induction saved as [|i saved IH]; intros [|d docs] [|j infos] seq n; cbn [stored_all]; try done.
  intros [Hi Hs] Hd Hj. destruct n as [|n]; [|by eapply IH]. cbn in Hd, Hj. simplify_eq. by exists i, (seq + 1).
Qed.

Lemma stored_all_seqs f options docs infos seq saved :
  stored_all f options docs infos seq saved ->
  map di_db_seq saved = map (fun n => seq + 1 + Z.of_nat n) (List.seq 0 (length infos)).
Proof.
  revert docs infos seq. induction saved as [|i saved IH]; intros [|doc docs] [|info infos] seq; cbn [stored_all]; try done.
  intros [(_ & E & _) Hs]. cbn [map length List.seq]. rewrite E. f_equal; [lia|].
  rewrite (IH _ _ _ Hs), <- seq_shift, map_map. apply map_ext. intros n. lia.
Qed.

Lemma stored_all_weight f options docs infos seq saved :
  stored_all f options docs infos seq saved ->
  weight (id_terms saved) <= sumZ info_weight infos /\ weight (seq_terms saved) <= sumZ info_weight infos.
Proof.
  revert docs infos seq. induction saved as [|i saved IH]; intros [|doc docs] [|info infos] seq; cbn [stored_all]; try done.
  intros [(Eid & _ & _ & Erm & _) Hs]. destruct (IH _ _ _ Hs) as [H1 H2].
  unfold weight, id_terms, seq_terms, sumZ, info_weight, blen in *. cbn [map foldr fst snd].
  rewrite assemble_id_length, assemble_seq_length, encode_raw48_length, Eid, Erm. lia.
Qed.

Lemma consecutive_sorted a n : StronglySorted Z.lt (a :: map (fun k => a + 1 + Z.of_nat k) (List.seq 0 n)).
Proof.
  revert a. induction n as [|n IH]; intros a; [by repeat constructor|]. cbn [List.seq map].
  rewrite <- seq_shift, map_map.
  assert (map (fun x => a + 1 + Z.of_nat (S x)) (List.seq 0 n) = map (fun k => (a + 1) + 1 + Z.of_nat k) (List.seq 0 n))
    as -> by (apply map_ext; lia).
  specialize (IH (a + 1)). replace (a + 1 + Z.of_nat 0) with (a + 1) by lia. constructor; [done|].
  constructor; [lia|]. apply StronglySorted_inv in IH as [_ Hall]. eapply List.Forall_impl; [|exact Hall]. cbv beta. lia.
Qed.

Lemma term_meta_size_sum infos acc : 0 <= acc -> acc + sumZ term_size infos < 2 ^ 64 ->
  term_meta_size infos acc = acc + sumZ term_size infos.
Proof.
  revert acc. induction infos as [|i infos IH]; intros acc Ha Hm; cbn [term_meta_size]; [unfold sumZ; cbn; lia|].
  unfold sumZ in *. cbn [foldr] in *. fold (sumZ term_size infos) in *.
  assert (0 <= sumZ term_size infos).
  { apply sumZ_nonneg. intros x. unfold term_size. pose proof (blen_nonneg (di_id x)). pose proof (blen_nonneg (di_rev_meta x)). lia. }
  assert (0 <= term_size i) by (unfold term_size; pose proof (blen_nonneg (di_id i)); pose proof (blen_nonneg (di_rev_meta i)); lia).
  unfold u64. rewrite Z.mod_small by lia. rewrite IH by lia. lia.
Qed.

Lemma term_size_weight infos : 0 <= sumZ term_size infos <= 2 * sumZ info_weight infos /\
  1048 * Z.of_nat (length infos) <= sumZ info_weight infos.
Proof.
  unfold sumZ, term_size, info_weight. induction infos as [|i infos IH]; [done|]. cbn [foldr length].
  pose proof (blen_nonneg (di_id i)). pose proof (blen_nonneg (di_rev_meta i)). lia.
Qed.

Lemma reserve_lists_room n size fb m : 0 <= size -> 0 <= m -> fb_room fb (Z.of_nat n * size + m) ->
  exists fb', reserve_lists n size fb = Some fb' /\ fb_room fb' m.
Proof.
  intros Hs Hm. revert fb. induction n as [|n IH]; intros fb Hr; cbn [reserve_lists]; [by exists fb|].
  destruct (fb_room_get fb size (Z.of_nat n * size + m)) as (p & fb1 & -> & Hr1); [|lia|lia|].
  { eapply eq_ind; [exact Hr|]. lia. }
  cbn [mbind option_bind]. by apply IH.
Qed.

Lemma number_infos_spec infos seq : 0 <= seq -> seq + Z.of_nat (length infos) < 2 ^ 64 ->
  (number_infos infos seq).2 = seq + Z.of_nat (length infos) /\
  map di_db_seq (number_infos infos seq).1 = map (fun n => seq + 1 + Z.of_nat n) (List.seq 0 (length infos)).
Proof.
  revert seq. induction infos as [|i infos IH]; intros seq Hs Hm; cbn [number_infos length] in *; [cbn; split; [lia|done]|].
  unfold u64. rewrite Z.mod_small by lia. destruct (IH (seq + 1)) as [H1 H2]; [lia..|].
  destruct (number_infos infos (seq + 1)) as [l last]. cbn [fst snd] in *. split; [lia|].
  cbn [map List.seq]. rewrite H2, <- seq_shift, map_map. cbn [set_db_seq di_db_seq]. f_equal; [lia|].
  apply map_ext. intros n. lia.
Qed.

Lemma sticky_update_indexes fuel terms : sticky (update_indexes (H := H) fuel terms).
Proof. unfold update_indexes. solve_sticky. Qed.
#[local] Hint Resolve sticky_update_indexes : sticky.

Lemma wp_save_documents d t D L fuel docs infos options
    (Q : couchstore_error_t * list DocInfo -> Db H -> Prop) :
  db_rep d t D L -> Forall2 input_ok (doc_list docs infos) infos -> NoDup (map di_id infos) ->
  dh_update_seq (db_hdr d) + Z.of_nat (length infos) < 2 ^ 48 ->
  weight (t_id t) + weight (t_seq t) + sumZ info_weight infos + 1 < max_node ->
  (t_height t + length (t_id t) + length (t_seq t) + 2 * length infos < fuel)%nat ->
  (forall d' t' saved infos', tf_ext (db_file d) (db_file d') -> db_rep d' t' (save_all saved D) L ->
    stored_all (db_file d') options (doc_list docs infos) infos (dh_update_seq (db_hdr d)) saved ->
    map di_db_seq infos' = map di_db_seq saved ->
    dh_update_seq (db_hdr d') = dh_update_seq (db_hdr d) + Z.of_nat (length infos) ->
    Q (COUCHSTORE_SUCCESS, infos') d') ->
  wp (couchstore_save_documents fuel docs infos options) Q d.
Proof.
  intros Hr Hin Hnd Hseq Hw Hfuel HQ. unfold couchstore_save_documents.
  apply wp_bind; [intros; solve_sticky|]. intros _. destruct (term_size_weight infos) as [Hts Hiw].
  pose proof (weight_nonneg (t_id t)). pose proof (weight_nonneg (t_seq t)). unfold max_node in Hw.
  rewrite term_meta_size_sum, Z.add_0_l by lia. unfold sizeof_sized_buf, u64. rewrite !Z.mod_small by (rewrite ?Z.mod_small; lia).
  destruct (reserve_lists_room 4 (Z.of_nat (length infos) * 16) (fatbuf_alloc (sumZ term_size infos + Z.of_nat (length infos) * (16 * 4)))
              (sumZ term_size infos)) as (fb & -> & Hroom); [lia|lia| |].
  { unfold fb_room, fatbuf_alloc. cbn [fb_pos fb_size]. lia. }
  apply wp_bind; [intros; solve_sticky|]. apply wp_ret. apply wp_bind; [intros; solve_sticky|].
  pose proof (dr_seq_range _ _ _ _ Hr) as Hsr.
  eapply (wp_add_docs d docs infos fb _ options 0); [apply Hr|apply Hr|done|lia|done|by rewrite Z.add_0_r|lia|].
  intros f1 saved Hok1 He1 Hall Hst. set (last := dh_update_seq (db_hdr d) + Z.of_nat (length infos)) in *.
  pose proof (stored_all_ids _ _ _ _ _ _ Hst) as Hids. pose proof (stored_all_seqs _ _ _ _ _ _ Hst) as Hsq.
  destruct (stored_all_weight _ _ _ _ _ _ Hst) as [Hw1 Hw2].
  assert (length saved = length infos) as Hlen by (rewrite <- (length_map di_id saved), Hids; apply length_map).
  apply wp_bind; [intros; solve_sticky|].
  eapply (wp_update_indexes {| db_file := f1; db_hdr := db_hdr d |} t D L fuel saved last); cbn [db_file db_hdr].
  - eapply (db_rep_read d); [by split_and!|done].
  - done.
  - by rewrite Hids.
  - rewrite Hsq. apply consecutive_sorted.
  - assert (Forall (fun x => x <= last) (map di_db_seq saved)) as Hle.
    { rewrite Hsq. apply list.Forall_forall. intros x Hx. apply list_elem_of_fmap in Hx as (n & -> & Hn).
      apply list_elem_of_In, in_seq in Hn. unfold last. lia. }
    exact (proj1 (Forall_mapped _ _ _) Hle).
  - lia.
  - unfold max_node. lia.
  - unfold max_node. lia.
  - lia.
  - intros f2 root_id root_seq t' He2 _ Hr2. rewrite decide_True by done.
    apply wp_bind; [intros; solve_sticky|]. intros _. cbn [db_hdr set_roots dh_update_seq].
    destruct (number_infos_spec infos (dh_update_seq (db_hdr d))) as [E1 E2]; [lia..|].
    destruct (number_infos infos (dh_update_seq (db_hdr d))) as [infos' lst]. cbn [fst snd] in E1, E2. subst lst.
    apply wp_bind; [intros; solve_sticky|]. intros _. apply wp_ret.
    eapply (HQ _ t' saved); [by transitivity f1|exact Hr2|by eapply stored_all_ext|by rewrite Hsq|done].
Qed.

Lemma sticky_save_documents fuel docs infos options : sticky (couchstore_save_documents (H := H) fuel docs infos options).
Proof. unfold couchstore_save_documents. solve_sticky. Qed.
End SaveDb.
