(* ===== verification/Recovery.v ===== *)
(** * Recovery: new databases, commit and crash recovery

    What a database stands for ([db_rep] of DbSpec) through the header operations
    of Header: a new file holds no documents, a commit makes the current state
    durable, and opening a file finds the last committed state whatever was
    appended to the file later, even when the later writes reached it only in
    part. *)

From Stdlib Require Import ZArith Lia Sorted.
From S2P Require Import Prelude Bitfield NodeTypes Util FileOps TreeFile NodeStore Header BTree BTreeInv BTreeFlush TreeSpec BTreeModify Reduces BTreeRead Docs Save DocCodec DbSpec.
From stdpp Require Import list numbers gmap.

#[local] Open Scope Z_scope.
#[local] Open Scope couch_scope.

Definition empty_trees : trees := {| t_id := []; t_seq := []; t_local := []; t_height := 0 |}.

(** [c'] is what a crash may leave of a file that held [c] and whose first [n]
    bytes were synced: those bytes are there, and each byte behind them is the
    one that was written, or zero, or past the end of the file. *)
Definition crash_image (n : nat) (c c' : bytes) : Prop :=
  (n <= length c')%nat /\ take n c' = take n c /\
  forall i b, (n <= i)%nat -> c' !! i = Some b -> c !! i = Some b \/ b = Byte.x00.

Lemma crash_image_lookup n c c' i : crash_image n c c' -> (i < n)%nat -> c' !! i = c !! i.
Proof.
  intros (_ & E & _) Hi. rewrite <- (lookup_take_lt c' n), E by done. by rewrite lookup_take_lt.
Qed.

Lemma crash_image_has n c c' pos a :
  crash_image n c c' -> has c pos a -> pos + blen a <= Z.of_nat n -> has c' pos a.
Proof.
  intros Hc [Hp Ha] Hle. split; [done|]. intros i x Hi. pose proof (lookup_lt_Some _ _ _ Hi).
  rewrite (crash_image_lookup n c) by (done || (unfold blen in Hle; lia)). by apply Ha.
Qed.

Lemma crash_image_no_header n c c' pos :
  crash_image n c c' -> no_header_after c pos -> no_header_after c' pos.
Proof.
  intros Hc Hn i b Hi Hm Hb. destruct (decide (i < n)%nat).
  - apply (Hn i); [done|done|]. by rewrite <- (crash_image_lookup n c c').
  - destruct Hc as (_ & _ & Hc). destruct (Hc i b) as [?| ->]; [lia|done|by apply (Hn i)|done].
Qed.

Section Recovery.
Context {H : Type} `{HO : FileOps H} `{HF : Faulty H} `{HL : !FileLaws H} `{HS : Snappy} `{HSL : !SnappyLaws}.

#[local] Hint Resolve sticky_in_file sticky_get_header sticky_set_header : sticky.

(** ** Headers that stand for the same state *)

Definition same_state (h h' : db_header) : Prop :=
  dh_update_seq h' = dh_update_seq h /\ dh_purge_seq h' = dh_purge_seq h /\ dh_purge_ptr h' = dh_purge_ptr h /\
  norm_root (dh_by_id_root h') = norm_root (dh_by_id_root h) /\
  norm_root (dh_by_seq_root h') = norm_root (dh_by_seq_root h) /\
  norm_root (dh_local_docs_root h') = norm_root (dh_local_docs_root h).

Lemma norm_root_idem root : norm_root (norm_root root) = norm_root root.
Proof. destruct root as [r|]; [|done]. cbn. by rewrite Zmod_mod. Qed.

Lemma norm_header_same hp h : same_state h (norm_header hp h).
Proof. unfold same_state. cbn. by rewrite !norm_root_idem. Qed.

Lemma tree_at_norm {compare} `{!KeyOrder compare} kvok rval (f : tree_file H) hmax root root' kvs :
  norm_root root' = norm_root root -> tree_at (compare := compare) kvok rval f hmax root kvs ->
  tree_at (compare := compare) kvok rval f hmax root' kvs.
Proof.
  intros E (Hs & h & Hh & Hr). split; [done|]. exists h. split; [done|].
  destruct root as [r|], root' as [r'|]; cbn in E; try done.
  injection E as Ep Er Es. destruct Hr as (sz & Hn & Hv & Hz). exists sz.
  rewrite Ep, Er, Es. done.
Qed.

Lemma db_data_same_state d h' t D L :
  same_state (db_hdr d) h' -> db_data d t D L -> db_data {| db_file := db_file d; db_hdr := h' |} t D L.
Proof.
  intros (E1 & E2 & E3 & E4 & E5 & E6) [].
  split; cbn [db_file db_hdr]; rewrite ?E1, ?E2, ?E3; try done; by eapply tree_at_norm.
Qed.

(** ** The header of a represented database can be written *)

Lemma node_at_below kvok rval (f : tree_file H) h pos kvs sz :
  node_at kvok rval f h pos kvs sz -> 0 <= pos < tf_pos f.
Proof.
  assert (forall buf dsz, node_stored f pos buf dsz -> 0 <= pos < tf_pos f) as Hst.
  { intros buf dsz (c & (Hp & Hle & _) & _). pose proof (layout_length_ge pos (chunk c)).
    rewrite chunk_length in *. pose proof (blen_nonneg c). lia. }
  destruct h as [|h]; cbn; [intros (_ & _ & Hn)|intros (cs & dsz & _ & _ & _ & _ & Hn)]; by eapply Hst.
Qed.

Lemma tree_at_root {compare} `{!KeyOrder compare} kvok rval (f : tree_file H) hmax root kvs hp :
  tree_at (compare := compare) kvok rval f hmax root kvs -> tf_pos f <= hp ->
  root_wf hp root /\ root_size root <= ROOT_BASE_SIZE + blen (rval kvs).
Proof.
  intros (_ & h & _ & Hr) Hle. destruct root as [r|]; cbn.
  - destruct Hr as (sz & Hn & Hv & _). apply node_at_below in Hn. rewrite Hv. split; lia.
  - split; [done|]. pose proof (blen_nonneg (rval kvs)). unfold ROOT_BASE_SIZE. lia.
Qed.

Lemma db_data_header_wf d t D L :
  db_data d t D L -> header_pos (tf_pos (db_file d)) < 2 ^ 48 ->
  header_wf (header_pos (tf_pos (db_file d))) (db_hdr d).
Proof.
  intros [Hpos Hseq Hps Hpp _ Hi Hs Hl _ _ _] Hmax.
  destruct (header_pos_spec (tf_pos (db_file d))) as [Hge _].
  destruct (tree_at_root _ _ _ _ _ _ (header_pos (tf_pos (db_file d))) Hi) as [Hi1 Hi2]; [lia|].
  destruct (tree_at_root _ _ _ _ _ _ (header_pos (tf_pos (db_file d))) Hs) as [Hs1 Hs2]; [lia|].
  destruct (tree_at_root _ _ _ _ _ _ (header_pos (tf_pos (db_file d))) Hl) as [Hl1 Hl2]; [lia|].
  split; try done; try lia. rewrite header_bytes_length. revert Hi2 Hs2 Hl2.
  unfold by_id_rval, encode_by_id_reduce, by_seq_rval, no_rval, HEADER_BASE_SIZE, ROOT_BASE_SIZE, MAX_HEADER_SIZE.
  rewrite !blen_app. unfold blen at 1 2 3 4 5. rewrite !encode_raw40_length, encode_raw48_length. cbn [length]. lia.
Qed.

(** ** Commit *)

Lemma wp_commit_rep d t D L (Q : couchstore_error_t -> Db H -> Prop) :
  tf_appending (db_file d) -> db_data d t D L ->
  let hp := header_pos (tf_pos (db_file d)) in
  (forall f', tf_ok f' -> synced (tf_handle f') -> tf_keep (db_file d) f' ->
    header_at (tf_contents f') hp (db_hdr d) -> no_header_after (tf_contents f') hp ->
    tf_pos f' = hp + blen (header_image hp (header_bytes (db_hdr d))) ->
    db_rep {| db_file := f'; db_hdr := set_position hp (db_hdr d) |} t D L ->
    Q COUCHSTORE_SUCCESS {| db_file := f'; db_hdr := set_position hp (db_hdr d) |}) ->
  wp couchstore_commit Q d.
Proof.
  intros Ha Hr hp HQ. destruct (header_pos_spec (tf_pos (db_file d))) as [Hge _]. fold hp in Hge.
  apply wp_couchstore_commit; [done|by apply (db_data_header_wf _ t D L)|].
  fold hp. intros f' Hok' Hsy Hle Hat Hno Hp Hhas.
  assert (tf_keep (db_file d) f') as Hk by (split; [lia|done]).
  apply HQ; try done. split; [done|]. apply (db_data_same_state {| db_file := f'; db_hdr := db_hdr d |}); [done|].
  by eapply db_data_keep; [..|exact Hr].
Qed.

(** ** Opening *)

Definition closed (h : H) : Db H := {| db_file := {| tf_pos := 0; tf_handle := h |}; db_hdr := zero_header |}.

(** Opening a file that kept what stood below the end of [f] and has no other
    header behind the one at [hp]. *)
Lemma wp_open_rep d t D L hp rdonly create (h : H) (Q : couchstore_error_t -> Db H -> Prop) :
  db_rep d t D L -> open_flags_ok rdonly create = true -> file_ok h -> synced h ->
  header_at (contents h) hp (db_hdr d) -> no_header_after (contents h) hp ->
  tf_pos (db_file d) <= blen (contents h) ->
  (forall pos a, has (tf_contents (db_file d)) pos a -> pos + blen a <= tf_pos (db_file d) -> has (contents h) pos a) ->
  (forall d', tf_keep (db_file d) (db_file d') -> db_rep d' t D L ->
    tf_contents (db_file d') = contents h -> db_hdr d' = norm_header hp (db_hdr d) -> Q COUCHSTORE_SUCCESS d') ->
  wp (couchstore_open_db_ex rdonly create) Q (closed h).
Proof.
  intros Hr Hfl Hok Hsy Hat Hno Hlen Hhas HQ. apply (wp_couchstore_open hp (db_hdr d)); [done..|].
  intros f' Hok' Hc Hp. cbn [closed db_file tf_handle] in *. unfold tf_contents in Hc, Hp. cbn [tf_handle] in Hc, Hp.
  assert (tf_keep (db_file d) f') as Hk. { split; [lia|]. unfold tf_contents. rewrite Hc. exact Hhas. }
  apply HQ; cbn [db_file db_hdr]; [done| |done|done].
  split; [done|]. apply (db_data_same_state {| db_file := f'; db_hdr := db_hdr d |}); [apply norm_header_same|].
  by eapply db_data_keep; [..|exact Hr].
Qed.

(** Closing changes nothing of what the file holds. *)
Lemma wp_close_rep d t D L (Q : couchstore_error_t -> Db H -> Prop) :
  db_rep d t D L ->
  (forall f', tf_keep (db_file d) f' -> tf_contents f' = tf_contents (db_file d) -> tf_pos f' = tf_pos (db_file d) ->
     db_rep {| db_file := f'; db_hdr := db_hdr d |} t D L -> Q COUCHSTORE_SUCCESS {| db_file := f'; db_hdr := db_hdr d |}) ->
  wp couchstore_close_db Q d.
Proof.
  intros Hr HQ. pose proof Hr as [(Hf & Hp & Hl) _]. unfold couchstore_close_db.
  apply wp_bind; [intros; solve_sticky|]. apply wp_in_file, wp_tree_file_close; [done|]. intros f' Ep Hok Ec _ _.
  assert (tf_keep (db_file d) f') as Hk by (split; [lia|by rewrite Ec]).
  apply wp_ret, HQ; [done..|]. apply (db_rep_keep d); [done| |done|done].
  split_and!; [done|cbn; lia|]. change (blen (tf_contents f') <= tf_pos f'). by rewrite Ec, Ep.
Qed.

(** A new file: nothing behind its header, which no read has touched. *)
Definition new_file (d : Db H) : Prop :=
  unread (tf_handle (db_file d)) 0 /\ blen (tf_contents (db_file d)) <= COUCH_BLOCK_SIZE.

Lemma wp_open_new h (Q : couchstore_error_t -> Db H -> Prop) create :
  file_ok h -> synced h -> contents h = [] ->
  (forall d', db_rep d' empty_trees ∅ ∅ -> dh_update_seq (db_hdr d') = 0 -> new_file d' -> Q COUCHSTORE_SUCCESS d') ->
  wp (couchstore_open_db_ex false create) Q (closed h).
Proof.
  intros Hok Hsy Hc HQ. apply wp_open_success; [done|]. unfold open_header.
  apply wp_bind; [intros; solve_sticky; apply sticky_create_header || apply sticky_find_header|]. intros _.
  apply wp_bind; [intros; solve_sticky; apply sticky_create_header || apply sticky_find_header|].
  apply wp_in_file, wp_file_goto_eof; [done..|].
  cbn [db_file db_hdr closed]. intros f1 Hp1 Hok1 Hc1. unfold tf_contents in *. cbn [tf_handle tf_pos] in *.
  apply wp_bind; [intros; solve_sticky; apply sticky_create_header || apply sticky_find_header|].
  apply wp_in_file. intros _. cbn [db_file db_hdr]. rewrite Hc. rewrite decide_True by done.
  unfold create_header. apply wp_bind; [intros; apply sticky_write_header|]. intros _. cbn [db_file db_hdr].
  assert (unread (tf_handle f1) 0) as Hu0.
  { replace 0 with (blen (contents (tf_handle f1))) by (by rewrite Hc1, Hc). by apply unread_end. }
  apply wp_write_header; cbn [db_file db_hdr tf_handle tf_pos]; [done|done|done|].
  change (header_pos (blen [])) with 0. intros f' Hok' Hp' Hc' Hmax Hu.
  set (hdr := {| dh_disk_version := _ |}) in *. unfold tf_contents in Hc'. cbn [tf_handle] in Hc'.
  destruct (header_image_two 0 hdr) as (b & rest & E). pose proof (blen_nonneg rest).
  assert (0 < tf_pos f') by (rewrite Hp', E, !blen_cons; lia).
  split; [done|]. apply HQ; [|done|].
  2:{ split; [by apply Hu|]. unfold tf_contents. cbn [db_file]. rewrite Hc', Hc1, Hc.
      rewrite splice_whole by apply Nat.le_0_l. by vm_compute. }
  split; [|split]; cbn [db_file db_hdr hdr set_position dh_update_seq dh_purge_seq dh_purge_ptr dh_by_id_root
    dh_by_seq_root dh_local_docs_root t_id t_seq t_local t_height empty_trees].
  - split_and!; [done|lia|]. rewrite Hc', Hc1, Hc, Hp'. unfold blen. etransitivity; [apply inj_le, splice_length_le|].
    change (length []) with 0%nat. lia.
  - lia.
  - lia.
  - lia.
  - lia.
  - split; intros *; by rewrite lookup_empty.
  - split; [by constructor|]. by exists 0%nat.
  - split; [by constructor|]. by exists 0%nat.
  - split; [by constructor|]. by exists 0%nat.
  - by rewrite fmap_empty.
  - intros k v. split; [done|]. intros (id & i & Hi & _). by rewrite lookup_empty in Hi.
  - done.
Qed.
End Recovery.
