(* ===== verification/Compact.v ===== *)
(** * Compact: compaction of a database

    Models src/db_compact.c and the hook of src/compactor.c.  The documents of the
    source are copied in the order of their sequence numbers into a new file: the
    index by sequence is built on the way, the entries of the index by id go
    through the external sort, and the local documents are copied last.  The state
    is the file of the source with everything the [compact_ctx] of the code leads
    to: the db of the target, the streams of the C library and the caller's own
    context.  The two arenas of the code are not modelled. *)

From Stdlib Require Import ZArith Lia Sorted.
From S2P Require Import Prelude Bitfield NodeTypes Util FileOps Stdio TreeFile NodeStore Header BTree BTreeInv Reduces TreeWriter BTreeRead Docs.
From stdpp Require Import list numbers gmap.

#[local] Open Scope Z_scope.
#[local] Open Scope couch_scope.

Definition COUCHSTORE_COMPACT_FLAG_DROP_DELETES : Z := 1.

(** What a hook returns: 0 or an error code, 1, or another positive number.
    COUCHSTORE_COMPACT_KEEP_ITEM is 0 and COUCHSTORE_COMPACT_DROP_ITEM is 1. *)
Inductive hook_int : Type :=
| HOOK_CODE (e : couchstore_error_t)
| HOOK_DROP_ITEM
| HOOK_OTHER.

(** The request new_btree_modres makes. *)
Definition tree_request (compare : bytes -> bytes -> option Z) (reduce rereduce : option reduce_fn)
    : modify_request unit unit :=
  {| rq_compare := compare; rq_fetch_callback := None; rq_reduce := reduce; rq_rereduce := rereduce;
     rq_compacting := true |}.
Definition seq_tree_request : modify_request unit unit :=
  tree_request seq_cmp (Some by_seq_reduce) (Some by_seq_rereduce).
Definition local_tree_request : modify_request unit unit := tree_request ebin_compare None None.

Definition set_purge_seq (n : Z) (h : db_header) : db_header :=
  {| dh_disk_version := dh_disk_version h; dh_update_seq := dh_update_seq h;
     dh_by_id_root := dh_by_id_root h; dh_by_seq_root := dh_by_seq_root h;
     dh_local_docs_root := dh_local_docs_root h; dh_purge_seq := n;
     dh_purge_ptr := dh_purge_ptr h; dh_position := dh_position h |}.
Definition set_id_root (r : option node_pointer) (h : db_header) : db_header :=
  {| dh_disk_version := dh_disk_version h; dh_update_seq := dh_update_seq h;
     dh_by_id_root := r; dh_by_seq_root := dh_by_seq_root h;
     dh_local_docs_root := dh_local_docs_root h; dh_purge_seq := dh_purge_seq h;
     dh_purge_ptr := dh_purge_ptr h; dh_position := dh_position h |}.
Definition set_seq_root (r : option node_pointer) (h : db_header) : db_header :=
  {| dh_disk_version := dh_disk_version h; dh_update_seq := dh_update_seq h;
     dh_by_id_root := dh_by_id_root h; dh_by_seq_root := r;
     dh_local_docs_root := dh_local_docs_root h; dh_purge_seq := dh_purge_seq h;
     dh_purge_ptr := dh_purge_ptr h; dh_position := dh_position h |}.

(** The fields of the target's header that are set before the copy. *)
Definition target_header (source : db_header) (flags : Z) (h : db_header) : db_header :=
  {| dh_disk_version := dh_disk_version h; dh_update_seq := dh_update_seq source;
     dh_by_id_root := dh_by_id_root h; dh_by_seq_root := dh_by_seq_root h;
     dh_local_docs_root := dh_local_docs_root h;
     dh_purge_seq := if flag flags COUCHSTORE_COMPACT_FLAG_DROP_DELETES then u64 (dh_purge_seq source + 1)
                     else dh_purge_seq source;
     dh_purge_ptr := dh_purge_ptr source; dh_position := dh_position h |}.

Section Compact.
Context {H U : Type} `{FileOps H} `{Snappy}.

(** A hook is given the target, which it may change, and its own context. *)
Definition compact_hook : Type := option DocInfo -> M (Db H * U) hook_int.

(** The mutable state behind the [compact_ctx] of the code. *)
Record compact_ctx : Type := {
  cc_target_mr : modify_result;
  cc_target : Db H;
  cc_stdio : stdio;
  cc_hook_ctx : U
}.

Definition set_mr (m : modify_result) : M compact_ctx unit :=
  modify (fun c => {| cc_target_mr := m; cc_target := cc_target c; cc_stdio := cc_stdio c; cc_hook_ctx := cc_hook_ctx c |}).
Definition on_target {A} (m : M (Db H) A) : M compact_ctx A :=
  zoom cc_target (fun d c => {| cc_target_mr := cc_target_mr c; cc_target := d; cc_stdio := cc_stdio c;
                                cc_hook_ctx := cc_hook_ctx c |}) m.
Definition on_streams {A} (m : M stdio A) : M compact_ctx A :=
  zoom cc_stdio (fun t c => {| cc_target_mr := cc_target_mr c; cc_target := cc_target c; cc_stdio := t;
                               cc_hook_ctx := cc_hook_ctx c |}) m.
Definition on_hook {A} (m : M (Db H * U) A) : M compact_ctx A :=
  zoom (fun c => (cc_target c, cc_hook_ctx c))
       (fun t c => {| cc_target_mr := cc_target_mr c; cc_target := t.1; cc_stdio := cc_stdio c;
                      cc_hook_ctx := t.2 |}) m.
(** The file of the target, for the functions of btree_modify.c. *)
Definition on_target_tree {A} (m : M (tree_file H * unit) A) : M compact_ctx A :=
  zoom (fun c => (db_file (cc_target c), tt))
       (fun t c => {| cc_target_mr := cc_target_mr c;
                      cc_target := {| db_file := t.1; db_hdr := db_hdr (cc_target c) |};
                      cc_stdio := cc_stdio c; cc_hook_ctx := cc_hook_ctx c |}) m.
(** The file of the target with the streams, for TreeWriterWrite. *)
Definition on_writer {A} (m : M (session (tree_file H)) A) : M compact_ctx A :=
  zoom (fun c => {| ss_store := db_file (cc_target c); ss_stdio := cc_stdio c |})
       (fun t c => {| cc_target_mr := cc_target_mr c;
                      cc_target := {| db_file := ss_store t; db_hdr := db_hdr (cc_target c) |};
                      cc_stdio := ss_stdio t; cc_hook_ctx := cc_hook_ctx c |}) m.
Definition on_ctx {A} (m : M compact_ctx A) : M (tree_file H * compact_ctx) A :=
  zoom snd (fun c s => (fst s, c)) m.
Definition change_target (g : db_header -> db_header) : M compact_ctx unit :=
  on_target (let* h := get_header in set_header (g h)).

(** ** The documents *)

Definition push_target (rq : modify_request unit unit) (k v : bytes) : M compact_ctx couchstore_error_t :=
  let* c := get in
  let* (mr, e) := on_target_tree (mr_push_item rq k v (cc_target_mr c)) in
  set_mr mr ;; ret e.

(** The difference is taken in [size_t] and cut to 32 bits. *)
Definition output_seqtree_item (writer : TreeWriter) (k v : bytes) : M compact_ctx couchstore_error_t :=
  let* e := push_target seq_tree_request k v in
  if decide (e <> COUCHSTORE_SUCCESS) then ret e
  else
    let* rawSeq := need (as_raw_seq_index_value v) in
    let '(idsize, datasize) := decode_kv_length (rsv_sizes rawSeq) in
    let revMetaSize := u32 (u64 (u32 (blen v) - (Z.of_nat sizeof_raw_seq_index_value + idsize))) in
    let* id_k := need (slice sizeof_raw_seq_index_value (Z.to_nat idsize) v) in
    let* db_seq := need (slice 0 6 k) in
    let* rev_meta := need (slice (sizeof_raw_seq_index_value + Z.to_nat idsize) (Z.to_nat revMetaSize) v) in
    let raw := {| riv_db_seq := db_seq; riv_size := encode_raw32 datasize; riv_bp := rsv_bp rawSeq;
                  riv_rev_seq := rsv_rev_seq rawSeq; riv_content_meta := rsv_content_meta rawSeq |} in
    on_streams (TreeWriterAddItem writer id_k (raw_id_index_value_bytes raw ++ rev_meta)).

(** The call of the hook: [Some e] when the callback returns [e] at once. *)
Definition ask_hook (hook : option compact_hook) (k v : bytes)
    : M (tree_file H * compact_ctx) (option couchstore_error_t) :=
  match hook with
  | None => ret None
  | Some hook =>
      let* r := need (by_seq_read_docinfo k v) in
      match r with
      | Error e => ret (Some e)
      | Done info =>
          let* hook_action := on_ctx (on_hook (hook (Some info))) in
          match hook_action with
          | HOOK_CODE COUCHSTORE_SUCCESS | HOOK_OTHER => ret None
          | HOOK_DROP_ITEM => ret (Some COUCHSTORE_SUCCESS)
          | HOOK_CODE e => ret (Some e)
          end
      end
  end.

(** The body at [bp] is copied and the value points to the copy.  The result of
    db_write_buf is not examined: [new_bp] keeps its initial 0 when it fails. *)
Definition copy_body (rawSeq : raw_seq_index_value) (v : bytes) : M (tree_file H * compact_ctx) (result bytes) :=
  let bpWithDeleted := decode_raw48 (rsv_bp rawSeq) in
  let bp := clear_flag bpWithDeleted BP_DELETED_FLAG in
  if decide (bp <> 0) then
    let* item := on_file (pread_bin bp) in
    match item with
    | Error e => ret (Error e)
    | Done item =>
        let* w := on_ctx (on_target (in_file (db_write_buf item))) in
        let new_bp := match w with Done (pos, _) => pos | Error _ => 0 end in
        let bpWithDeleted := Z.lor (Z.land bpWithDeleted BP_DELETED_FLAG) new_bp in
        let rawSeq := {| rsv_sizes := rsv_sizes rawSeq; rsv_bp := encode_raw48 bpWithDeleted;
                         rsv_rev_seq := rsv_rev_seq rawSeq; rsv_content_meta := rsv_content_meta rawSeq |} in
        ret (Done (raw_seq_index_value_bytes rawSeq ++ drop sizeof_raw_seq_index_value v))
    end
  else ret (Done v).

Definition compact_seq_fetchcb (hook : option compact_hook) (flags : Z) (writer : TreeWriter) (k : bytes) (v : option bytes)
    : M (tree_file H * compact_ctx) couchstore_error_t :=
  let* v := need v in
  let* rawSeq := need (as_raw_seq_index_value v) in
  if decide (flag (decode_raw48 (rsv_bp rawSeq)) BP_DELETED_FLAG = true /\ ~ is_Some hook /\
             flag flags COUCHSTORE_COMPACT_FLAG_DROP_DELETES = true)
  then ret COUCHSTORE_SUCCESS
  else
    let* stop := ask_hook hook k v in
    match stop with
    | Some e => ret e
    | None =>
        let* r := copy_body rawSeq v in
        match r with
        | Error e => ret e
        | Done v => on_ctx (output_seqtree_item writer k v)
        end
    end.

Definition seq_fold (hook : option compact_hook) (flags : Z) (writer : TreeWriter)
    : lookup_request (tree_file H) compact_ctx :=
  {| lq_compare := seq_cmp; lq_fetch_callback := compact_seq_fetchcb hook flags writer; lq_node_callback := None |}.

(** The root that complete_new_btree returns, NULL with an error. *)
Definition finish_tree (fuel : nat) (rq : modify_request unit unit) (set_root : option node_pointer -> db_header -> db_header)
    : M compact_ctx couchstore_error_t :=
  let* c := get in
  let* (root, e) := on_target_tree (complete_new_btree rq fuel (cc_target_mr c)) in
  change_target (set_root root) ;; ret e.

Definition compact_seq_tree (fuel : nat) (hook : option compact_hook) (flags : Z) (writer : TreeWriter)
    (by_seq_root : node_pointer) : M (tree_file H * compact_ctx) couchstore_error_t :=
  on_ctx (set_mr new_btree_modres) ;;
  let* e := btree_lookup (seq_fold hook flags writer) fuel true [repeat Byte.x00 6] (np_pointer by_seq_root) in
  if decide (e = COUCHSTORE_SUCCESS) then on_ctx (finish_tree fuel seq_tree_request set_seq_root) else ret e.

(** ** The local documents *)

Definition compact_localdocs_fetchcb (k : bytes) (v : option bytes) : M (tree_file H * compact_ctx) couchstore_error_t :=
  let* v := need v in on_ctx (push_target local_tree_request k v).

Definition local_fold : lookup_request (tree_file H) compact_ctx :=
  {| lq_compare := ebin_compare; lq_fetch_callback := compact_localdocs_fetchcb; lq_node_callback := None |}.

Definition compact_localdocs_tree (fuel : nat) (local_docs_root : node_pointer)
    : M (tree_file H * compact_ctx) couchstore_error_t :=
  on_ctx (set_mr new_btree_modres) ;;
  let* e := btree_lookup local_fold fuel true [[]] (np_pointer local_docs_root) in
  if decide (e = COUCHSTORE_SUCCESS) then on_ctx (finish_tree fuel local_tree_request set_local_root) else ret e.

(** ** The whole compaction *)

(** The tree by id, from the entries the copy of the other tree has written. *)
Definition write_id_tree (fuel : nat) (writer : TreeWriter) : M compact_ctx couchstore_error_t :=
  let* e := on_streams (TreeWriterSort fuel writer) in
  if decide (e <> COUCHSTORE_SUCCESS) then ret e
  else
    let* (e, root) := on_writer (TreeWriterWrite fuel writer) in
    if decide (e <> COUCHSTORE_SUCCESS) then ret e else change_target (set_id_root root) ;; ret e.

Definition compact_documents (fuel : nat) (hook : option compact_hook) (flags : Z) (by_seq_root : option node_pointer)
    : M (tree_file H * compact_ctx) couchstore_error_t :=
  match by_seq_root with
  | None => ret COUCHSTORE_SUCCESS
  | Some by_seq_root =>
      let* r := on_ctx (on_streams (TreeWriterOpen None (Some ebin_compare) (Some by_id_reduce) (Some by_id_rereduce))) in
      match r with
      | Error e => ret e
      | Done writer =>
          let* e := compact_seq_tree fuel hook flags writer by_seq_root in
          let* e := if decide (e <> COUCHSTORE_SUCCESS) then ret e else on_ctx (write_id_tree fuel writer) in
          on_ctx (on_streams (TreeWriterFree writer)) ;; ret e
      end
  end.

(** The last call of the hook: only a negative result stops the compaction. *)
Definition finish_hook (hook : option compact_hook) : M compact_ctx couchstore_error_t :=
  match hook with
  | None => ret COUCHSTORE_SUCCESS
  | Some hook =>
      let* r := on_hook (hook None) in
      match r with HOOK_CODE e => ret e | _ => ret COUCHSTORE_SUCCESS end
  end.

(** What is done between opening the target and closing it. *)
Definition compact_into_target (fuel : nat) (source : db_header) (flags : Z) (hook : option compact_hook)
    : M (tree_file H * compact_ctx) couchstore_error_t :=
  let* e := compact_documents fuel hook flags (dh_by_seq_root source) in
  if decide (e <> COUCHSTORE_SUCCESS) then ret e
  else
    let* e := match dh_local_docs_root source with
              | Some root => compact_localdocs_tree fuel root
              | None => ret COUCHSTORE_SUCCESS
              end in
    if decide (e <> COUCHSTORE_SUCCESS) then ret e
    else
      let* e := on_ctx (finish_hook hook) in
      if decide (e <> COUCHSTORE_SUCCESS) then ret e
      else on_ctx (on_target couchstore_commit).

(** The error and whether the target file is removed.  When the target cannot be
    opened the cleanup closes a null db. *)
Definition couchstore_compact_db_ex (fuel : nat) (source : db_header) (flags : Z) (hook : option compact_hook)
    : M (tree_file H * compact_ctx) (couchstore_error_t * bool) :=
  let* e := on_ctx (on_target (couchstore_open_db_ex false true)) in
  if decide (e <> COUCHSTORE_SUCCESS) then undef
  else
    on_ctx (on_target (in_file (tf_set_pos 1))) ;;
    on_ctx (change_target (target_header source flags)) ;;
    let* e := compact_into_target fuel source flags hook in
    on_ctx (on_target couchstore_close_db) ;;
    ret (e, bool_decide (e <> COUCHSTORE_SUCCESS)).

Definition couchstore_compact_db (fuel : nat) (source : db_header)
    : M (tree_file H * compact_ctx) (couchstore_error_t * bool) :=
  couchstore_compact_db_ex fuel source 0 None.
End Compact.
Arguments compact_ctx : clear implicits.
Arguments compact_hook : clear implicits.

(** ** The hook of the compactor

    [expiry] is the second field of the metadata the server keeps with a document. *)
Record time_purge_ctx : Type := { purge_before : Z; max_purged_seq : Z }.

Definition expiry (rev_meta : bytes) : option Z := e ← slice 8 4 rev_meta; Some (decode_raw32 e).

Definition time_purge_hook {H} (info : option DocInfo) : M (Db H * time_purge_ctx) hook_int :=
  let* (target, ctx) := get in
  match info with
  | None =>
      modify (fun s => ({| db_file := db_file s.1; db_hdr := set_purge_seq (max_purged_seq s.2) (db_hdr s.1) |}, s.2)) ;;
      ret (HOOK_CODE COUCHSTORE_SUCCESS)
  | Some info =>
      if decide (di_deleted info <> 0 /\ 16 <= blen (di_rev_meta info)) then
        let* exptime := need (expiry (di_rev_meta info)) in
        if decide (exptime < purge_before ctx) then
          (if decide (max_purged_seq ctx < di_db_seq info) then
             modify (fun s => (s.1, {| purge_before := purge_before s.2; max_purged_seq := di_db_seq info |}))
           else ret tt) ;;
          ret HOOK_DROP_ITEM
        else ret (HOOK_CODE COUCHSTORE_SUCCESS)
      else ret (HOOK_CODE COUCHSTORE_SUCCESS)
  end.
