(* ===== verification/CompactProofs.v ===== *)
(** * CompactProofs: a compaction keeps what the database stands for

    The copy of a document ([moved]), the loop over the index by sequence, the
    three trees of the target, and the whole of couchstore_compact_db_ex for a hook
    that decides by the document alone. *)

From Stdlib Require Import ZArith Lia Sorted.
From S2P Require Import Prelude Bitfield NodeTypes Util Runs FileOps Stdio MergeSortProofs TreeFile NodeStore Header BTree BTreeInv BTreeFlush TreeSpec Reduces TreeWriter BTreeRead Docs Save DocCodec DbSpec DbIter Recovery Compact.
From stdpp Require Import list numbers gmap.

#[local] Open Scope Z_scope.
#[local] Open Scope couch_scope.
#[local] Existing Instance pure_ctx | 100.

(** ** The values of a moved document *)

Definition set_bp (bp : Z) (i : DocInfo) : DocInfo :=
  {| di_id := di_id i; di_db_seq := di_db_seq i; di_rev_seq := di_rev_seq i; di_rev_meta := di_rev_meta i;
     di_deleted := di_deleted i; di_content_meta := di_content_meta i; di_bp := bp; di_size := di_size i |}.

Definition seq_kv (i : DocInfo) : kv := (encode_raw48 (di_db_seq i), assemble_seq_index_value i).
Definition id_kv (i : DocInfo) : kv := (di_id i, assemble_id_index_value i).

Lemma set_bp_same i : set_bp (di_bp i) i = i.
Proof. by destruct i. Qed.

Lemma set_bp_ok bp i : info_ok i -> 0 <= bp < 2 ^ 47 -> info_ok (set_bp bp i).
Proof. intros [] ?. by split. Qed.

Lemma bp_field_split i : info_ok i ->
  decode_raw48 (bp_field i) = Z.lor (if decide (di_deleted i <> 0) then BP_DELETED_FLAG else 0) (di_bp i).
Proof.
  intros Hi. pose proof (io_bp i Hi) as Hbp. destruct (bp_flag _ Hbp) as (E1 & _).
  unfold bp_field. rewrite decode_encode_raw48. case_decide.
  - rewrite (Z.lor_comm BP_DELETED_FLAG). change BP_DELETED_FLAG with (Z.shiftl 1 47). rewrite E1. apply Z.mod_small. lia.
  - rewrite Z.lor_0_r, Z.lor_0_l. apply Z.mod_small. lia.
Qed.

Lemma deleted_flag i : info_ok i -> flag (decode_raw48 (bp_field i)) BP_DELETED_FLAG = bool_decide (di_deleted i <> 0).
Proof.
  intros Hi. destruct (bp_field_deleted i Hi) as [Hd _]. unfold flag. rewrite <- Hd.
  destruct (decide (Z.land _ _ <> 0)) as [Hn|Hn]; destruct (Z.eqb_spec (Z.land (decode_raw48 (bp_field i)) BP_DELETED_FLAG) 0); try done.
Qed.

(** The field the copy writes: the flag of the old one with the new position. *)
Lemma bp_field_moved bp i : info_ok i -> 0 <= bp < 2 ^ 47 ->
  encode_raw48 (Z.lor (Z.land (decode_raw48 (bp_field i)) BP_DELETED_FLAG) bp) = bp_field (set_bp bp i).
Proof.
  intros Hi Hbp. destruct (bp_flag _ (io_bp i Hi)) as (_ & E2 & _).
  rewrite bp_field_split, Z.land_lor_distr_l, E2, Z.lor_0_r by done. unfold bp_field. cbn [set_bp di_deleted di_bp].
  f_equal. case_decide; [|by rewrite Z.land_0_l, Z.lor_comm].
  rewrite Z.land_diag, Z.lor_comm. done.
Qed.

Lemma assemble_seq_split i :
  assemble_seq_index_value i =
  raw_seq_index_value_bytes {| rsv_sizes := encode_kv_length (blen (di_id i)) (di_size i); rsv_bp := bp_field i;
    rsv_rev_seq := encode_raw48 (di_rev_seq i); rsv_content_meta := encode_raw08 (di_content_meta i) |} ++
  di_id i ++ di_rev_meta i.
Proof. done. Qed.

Lemma raw_seq_length i :
  length (raw_seq_index_value_bytes {| rsv_sizes := encode_kv_length (blen (di_id i)) (di_size i); rsv_bp := bp_field i;
    rsv_rev_seq := encode_raw48 (di_rev_seq i); rsv_content_meta := encode_raw08 (di_content_meta i) |}) = 18%nat.
Proof.
  unfold raw_seq_index_value_bytes, bp_field. cbn [rsv_sizes rsv_bp rsv_rev_seq rsv_content_meta].
  rewrite !length_app, encode_kv_length_length. by autorewrite with len.
Qed.

(** Replacing the field of the position. *)
Lemma assemble_seq_moved bp i : info_ok i -> 0 <= bp < 2 ^ 47 ->
  raw_seq_index_value_bytes {| rsv_sizes := encode_kv_length (blen (di_id i)) (di_size i);
    rsv_bp := encode_raw48 (Z.lor (Z.land (decode_raw48 (bp_field i)) BP_DELETED_FLAG) bp);
    rsv_rev_seq := encode_raw48 (di_rev_seq i); rsv_content_meta := encode_raw08 (di_content_meta i) |} ++
  drop sizeof_raw_seq_index_value (assemble_seq_index_value i) = assemble_seq_index_value (set_bp bp i).
Proof.
  intros Hi Hbp. rewrite bp_field_moved by done. by rewrite (assemble_seq_split (set_bp bp i)).
Qed.

(** The entry of the index by id, made from the one by sequence. *)
Lemma seq_value_parts i : info_ok i ->
  slice sizeof_raw_seq_index_value (length (di_id i)) (assemble_seq_index_value i) = Some (di_id i) /\
  slice (sizeof_raw_seq_index_value + length (di_id i)) (length (di_rev_meta i)) (assemble_seq_index_value i) =
    Some (di_rev_meta i).
Proof.
  intros Hi. rewrite assemble_seq_split. set (raw := raw_seq_index_value_bytes _).
  assert (length raw = 18%nat) as Hraw by apply raw_seq_length. split.
  - by apply slice_mid.
  - rewrite app_assoc, <- (app_nil_r ((raw ++ _) ++ _)), <- app_assoc. apply slice_mid; rewrite ?length_app; unfold sizeof_raw_seq_index_value; lia.
Qed.

(** ** Rules for the parts of the state *)

#[global] Instance compact_ctx_Faulty {H U} `{Faulty H} : Faulty (compact_ctx H U) :=
  fun c => io_failed (cc_target c) || io_failed (cc_stdio c).

Section Rules.
Context {H U : Type} `{HF : Faulty H}.
#[local] Abbreviation ctx := (compact_ctx H U).

Definition with_target (d : Db H) (c : ctx) : ctx :=
  {| cc_target_mr := cc_target_mr c; cc_target := d; cc_stdio := cc_stdio c; cc_hook_ctx := cc_hook_ctx c |}.
Definition with_file (f : tree_file H) (c : ctx) : ctx :=
  with_target {| db_file := f; db_hdr := db_hdr (cc_target c) |} c.
Definition with_streams (t : stdio) (c : ctx) : ctx :=
  {| cc_target_mr := cc_target_mr c; cc_target := cc_target c; cc_stdio := t; cc_hook_ctx := cc_hook_ctx c |}.
Definition with_mr (m : modify_result) (c : ctx) : ctx :=
  {| cc_target_mr := m; cc_target := cc_target c; cc_stdio := cc_stdio c; cc_hook_ctx := cc_hook_ctx c |}.
Definition with_hook_ctx (u : U) (c : ctx) : ctx :=
  {| cc_target_mr := cc_target_mr c; cc_target := cc_target c; cc_stdio := cc_stdio c; cc_hook_ctx := u |}.

Lemma wp_on_target {A} (m : M (Db H) A) Q (c : ctx) :
  wp m (fun a d => Q a (with_target d c)) (cc_target c) -> wp (on_target m) Q c.
Proof. unfold on_target. by zoomed (fun c : ctx => io_failed (cc_stdio c)). Qed.
Lemma sticky_on_target {A} (m : M (Db H) A) : sticky m -> sticky (on_target (U := U) m).
Proof. unfold on_target. by zoomed (fun c : ctx => io_failed (cc_stdio c)). Qed.

Lemma wp_on_streams {A} (m : M stdio A) Q (c : ctx) :
  wp m (fun a t => Q a (with_streams t c)) (cc_stdio c) -> wp (on_streams m) Q c.
Proof. unfold on_streams. zoomed (fun c : ctx => io_failed (cc_target c)); apply orb_comm. Qed.
Lemma sticky_on_streams {A} (m : M stdio A) : sticky m -> sticky (on_streams (H := H) (U := U) m).
Proof. unfold on_streams. zoomed (fun c : ctx => io_failed (cc_target c)); apply orb_comm. Qed.

Lemma wp_on_hook {A} (m : M (Db H * U) A) Q (c : ctx) :
  wp m (fun a s => Q a (with_hook_ctx s.2 (with_target s.1 c))) (cc_target c, cc_hook_ctx c) -> wp (on_hook m) Q c.
Proof. unfold on_hook. zoomed (fun c : ctx => io_failed (cc_stdio c)); by rewrite failed_pure. Qed.
Lemma sticky_on_hook {A} (m : M (Db H * U) A) : sticky m -> sticky (on_hook m).
Proof. unfold on_hook. zoomed (fun c : ctx => io_failed (cc_stdio c)); by rewrite failed_pure. Qed.

Lemma wp_on_target_tree {A} (m : M (tree_file H * unit) A) Q (c : ctx) :
  wp m (fun a s => Q a (with_file s.1 c)) (db_file (cc_target c), tt) -> wp (on_target_tree m) Q c.
Proof. unfold on_target_tree. zoomed (fun c : ctx => io_failed (cc_stdio c)); by rewrite failed_pure. Qed.
Lemma sticky_on_target_tree {A} (m : M (tree_file H * unit) A) : sticky m -> sticky (on_target_tree (U := U) m).
Proof. unfold on_target_tree. zoomed (fun c : ctx => io_failed (cc_stdio c)); by rewrite failed_pure. Qed.

Lemma wp_on_writer {A} (m : M (session (tree_file H)) A) Q (c : ctx) :
  wp m (fun a s => Q a (with_streams (ss_stdio s) (with_file (ss_store s) c)))
     {| ss_store := db_file (cc_target c); ss_stdio := cc_stdio c |} -> wp (on_writer m) Q c.
Proof. unfold on_writer. zoomed (fun _ : ctx => false); symmetry; apply orb_false_r. Qed.
Lemma sticky_on_writer {A} (m : M (session (tree_file H)) A) : sticky m -> sticky (on_writer (U := U) m).
Proof. unfold on_writer. zoomed (fun _ : ctx => false); symmetry; apply orb_false_r. Qed.

Lemma wp_on_ctx {A} (m : M ctx A) Q (s : tree_file H * ctx) :
  wp m (fun a c => Q a (s.1, c)) s.2 -> wp (on_ctx m) Q s.
Proof. unfold on_ctx. zoomed (fun s : tree_file H * ctx => io_failed s.1); apply orb_comm. Qed.
Lemma sticky_on_ctx {A} (m : M ctx A) : sticky m -> sticky (on_ctx m).
Proof. unfold on_ctx. zoomed (fun s : tree_file H * ctx => io_failed s.1); apply orb_comm. Qed.

Lemma wp_set_mr m Q (c : ctx) : Q tt (with_mr m c) -> wp (set_mr m) Q c.
Proof. by intros HQ _. Qed.
Lemma sticky_set_mr m : sticky (set_mr (H := H) (U := U) m).
Proof. by intros c. Qed.
Lemma wp_change_target g Q (c : ctx) :
  Q tt (with_target {| db_file := db_file (cc_target c); db_hdr := g (db_hdr (cc_target c)) |} c) -> wp (change_target g) Q c.
Proof. by intros HQ _. Qed.
Lemma sticky_change_target g : sticky (change_target (H := H) (U := U) g).
Proof. by intros c. Qed.
End Rules.
#[export] Hint Resolve sticky_on_target sticky_on_streams sticky_on_hook sticky_on_target_tree sticky_on_writer
  sticky_on_ctx sticky_set_mr sticky_change_target sticky_in_file sticky_get_header sticky_set_header
  sticky_couchstore_open_db_ex sticky_couchstore_close_db sticky_couchstore_commit : sticky.

(** ** Failures are recorded *)

Section Sticky.
Context {H U : Type} `{HO : FileOps H} `{HF : Faulty H} `{HL : !FileLaws H} `{HS : Snappy} `{HSL : !SnappyLaws}.
Variable hook : option (compact_hook H U).
Definition hook_sticky : Prop := match hook with Some h => forall i, sticky (h i) | None => True end.
Hypothesis Hhook : hook_sticky.

Lemma sticky_push_target rq k v : sticky (push_target (H := H) (U := U) rq k v).
Proof. unfold push_target. solve_sticky. Qed.
#[local] Hint Resolve sticky_push_target : sticky.
Lemma sticky_output_seqtree_item w k v : sticky (output_seqtree_item (H := H) (U := U) w k v).
Proof. unfold output_seqtree_item. solve_sticky. Qed.
#[local] Hint Resolve sticky_output_seqtree_item : sticky.
Lemma sticky_ask_hook k v : sticky (ask_hook hook k v).
Proof.
  unfold ask_hook. unfold hook_sticky in Hhook. destruct hook as [h|]; [|solve_sticky].
  apply sticky_bind; [solve_sticky|]. intros [info|e]; [|solve_sticky]. apply sticky_bind; [|solve_sticky].
  by apply sticky_on_ctx, sticky_on_hook.
Qed.
Lemma sticky_pread_bin pos : sticky (pread_bin (H := H) pos).
Proof. unfold pread_bin. solve_sticky. Qed.
#[local] Hint Resolve sticky_on_file sticky_pread_bin : sticky.
Lemma sticky_copy_body raw v : sticky (copy_body (H := H) (U := U) raw v).
Proof. unfold copy_body. solve_sticky. Qed.
#[local] Hint Resolve sticky_ask_hook sticky_copy_body : sticky.
Lemma sticky_compact_seq_fetchcb flags w k v : sticky (compact_seq_fetchcb hook flags w k v).
Proof. unfold compact_seq_fetchcb. solve_sticky. Qed.
Lemma sticky_finish_tree fuel rq g : sticky (finish_tree (H := H) (U := U) fuel rq g).
Proof. unfold finish_tree. solve_sticky. Qed.
#[local] Hint Resolve sticky_finish_tree : sticky.
Lemma sticky_compact_seq_tree fuel flags w root : sticky (compact_seq_tree fuel hook flags w root).
Proof.
  unfold compact_seq_tree. apply sticky_bind; [solve_sticky|]. intros _. apply sticky_bind; [|solve_sticky].
  apply sticky_btree_lookup; [apply sticky_compact_seq_fetchcb|done].
Qed.
Lemma sticky_compact_localdocs_fetchcb k v : sticky (compact_localdocs_fetchcb (H := H) (U := U) k v).
Proof. unfold compact_localdocs_fetchcb. solve_sticky. Qed.
Lemma sticky_compact_localdocs_tree fuel root : sticky (compact_localdocs_tree (H := H) (U := U) fuel root).
Proof.
  unfold compact_localdocs_tree. apply sticky_bind; [solve_sticky|]. intros _. apply sticky_bind; [|solve_sticky].
  apply sticky_btree_lookup; [apply sticky_compact_localdocs_fetchcb|done].
Qed.
Lemma sticky_write_id_tree fuel w : sticky (write_id_tree (H := H) (U := U) fuel w).
Proof. unfold write_id_tree. solve_sticky. Qed.
#[local] Hint Resolve sticky_compact_seq_tree sticky_compact_localdocs_tree sticky_write_id_tree : sticky.
Lemma sticky_compact_documents fuel flags root : sticky (compact_documents fuel hook flags root).
Proof. unfold compact_documents. solve_sticky. Qed.
Lemma sticky_finish_hook : sticky (finish_hook hook).
Proof.
  unfold finish_hook. unfold hook_sticky in Hhook. destruct hook as [h|]; [|solve_sticky].
  apply sticky_bind; [by apply sticky_on_hook|solve_sticky].
Qed.
#[local] Hint Resolve sticky_compact_documents sticky_finish_hook : sticky.
Lemma sticky_compact_into_target fuel source flags : sticky (compact_into_target fuel source flags hook).
Proof. unfold compact_into_target. solve_sticky. Qed.
#[local] Hint Resolve sticky_compact_into_target : sticky.
Lemma sticky_couchstore_compact_db_ex fuel source flags : sticky (couchstore_compact_db_ex fuel source flags hook).
Proof. unfold couchstore_compact_db_ex. solve_sticky. Qed.
End Sticky.
#[export] Hint Resolve sticky_push_target sticky_output_seqtree_item sticky_copy_body sticky_finish_tree
  sticky_write_id_tree sticky_compact_localdocs_fetchcb sticky_compact_localdocs_tree : sticky.

(** ** Copying a document *)

Section Copy.
Context {H U : Type} `{HO : FileOps H} `{HF : Faulty H} `{HL : !FileLaws H} `{HS : Snappy} `{HSL : !SnappyLaws}.
#[local] Abbreviation ctx := (compact_ctx H U).
#[local] Abbreviation target_rep := (rep (HL := appending_NodeWriterLaws)).

(** [i'] of [f'] is the copy of [i] of [f]: the same document with its body. *)
Definition moved (f f' : tree_file H) (i i' : DocInfo) : Prop :=
  exists bp, i' = set_bp bp i /\ 0 <= bp < 2 ^ 47 /\ (bp = 0 <-> di_bp i = 0) /\
    (di_bp i <> 0 -> forall data, chunk_at f (di_bp i) data -> chunk_at f' bp data).

Lemma moved_keep f f1 f2 i i' : tf_keep f1 f2 -> moved f f1 i i' -> moved f f2 i i'.
Proof. intros Hk (bp & ? & ? & ? & Hb). exists bp. split_and!; try done; try lia; eauto using chunk_at_keep. Qed.

Lemma moved_ok f f' i i' : info_ok i -> moved f f' i i' -> info_ok i'.
Proof. intros Hi (bp & -> & ? & _). by apply set_bp_ok. Qed.

(** Where a body is, compressed or not, there its copy is. *)
Lemma moved_body f f' i i' b data :
  moved f f' i i' -> di_bp i <> 0 -> body_at f b (di_bp i) data -> body_at f' b (di_bp i') data.
Proof.
  intros (bp & -> & Hbp & _ & Hb) Hne. cbn [set_bp di_bp]. specialize (Hb Hne). destruct b; cbn; [|apply Hb].
  intros (dsz & c & Hc & _ & _ & Hs). exists (blen (layout bp (chunk c))), c. split_and!; [by apply Hb|done|lia|apply Hs..].
Qed.

(** A document the copy can handle: its body is in the file, and its entry fits the
    buffers of the sort. *)
Record copyable (f : tree_file H) (i : DocInfo) : Prop := {
  co_info : info_ok i;
  co_body : di_bp i <> 0 -> exists data, chunk_at f (di_bp i) data;
  co_item : item_ok (id_kv i)
}.

Lemma moved_item f f' i j : moved f f' i j -> item_ok (id_kv i) -> item_ok (id_kv j).
Proof.
  intros (bp & -> & _) (k & v & [= <- <-] & Hk & _ & Hsz).
  exists (di_id i), (assemble_id_index_value (set_bp bp i)). unfold blen in *. rewrite assemble_id_length in *.
  split_and!; [done|done| |done]. intros E. apply (f_equal length) in E. by rewrite assemble_id_length in E.
Qed.

Variable hook : option (compact_hook H U).
Variable flags : Z.
Variable keep : DocInfo -> bool.
Variable next : U -> DocInfo -> U.
Variable inv : U -> Prop.

(** The hook decides by the document and changes only its own context, where [inv]
    is kept; without a hook deleted documents go when the flag says so. *)
Definition decides : Prop :=
  match hook with
  | None => (forall i, keep i = negb (bool_decide (di_deleted i <> 0) && flag flags COUCHSTORE_COMPACT_FLAG_DROP_DELETES)) /\
            forall u i, next u i = u
  | Some h => forall i d u, info_ok i -> inv u -> inv (next u i) /\ exists a, h (Some i) (d, u) = Ret a (d, next u i) /\
      if keep i then a = HOOK_CODE COUCHSTORE_SUCCESS \/ a = HOOK_OTHER else a = HOOK_DROP_ITEM
  end.
Hypothesis Hdecides : decides.

Lemma next_same u i : hook = None -> next u i = u.
Proof. intros E. pose proof Hdecides as Hd. unfold decides in Hd. rewrite E in Hd. apply Hd. Qed.

Lemma inv_next (d : Db H) u i : info_ok i -> inv u -> inv (next u i).
Proof.
  intros Hi Hu. pose proof Hdecides as Hd. unfold decides in Hd. destruct hook as [h|].
  - by apply (Hd i d u).
  - destruct Hd as [_ ->]. done.
Qed.

Lemma inv_fold (d : Db H) l u : Forall info_ok l -> inv u -> inv (foldl next u l).
Proof. intros Hl. revert u. induction Hl as [|i l Hi _ IH]; intros u Hu; [done|]. apply IH. by apply inv_next. Qed.

(** The source, and the target before the copy. *)
Variables source base : tree_file H.
Variable w : TreeWriter.

(** The copies [out] of the documents [kept] are on their way into the trees. *)
Record filling (kept out : list DocInfo) (c : ctx) : Prop := {
  fi_file : tf_appending (db_file (cc_target c));
  fi_pos : 0 < tf_pos (db_file (cc_target c));
  fi_rep : target_rep seq_kvok by_seq_rval (db_file (cc_target c)) 0 (cc_target_mr c) (map seq_kv out);
  fi_modified : mr_modified (cc_target_mr c) = true;
  fi_writer : out_at enc (cc_stdio c) (tw_file w) [] 0 (records (map id_kv out));
  fi_base : tf_keep base (db_file (cc_target c));
  fi_moved : Forall2 (moved source (db_file (cc_target c))) kept out;
  fi_hook : inv (cc_hook_ctx c)
}.

Lemma wp_push_target rq kvok rval `{HR : !ReduceLaws rq kvok rval} k v kvs (c : ctx) Q :
  tf_appending (db_file (cc_target c)) -> target_rep kvok rval (db_file (cc_target c)) 0 (cc_target_mr c) kvs ->
  kvok k v -> weight (kvs ++ [(k, v)]) + 1 < max_node ->
  (forall f m, tf_appending f -> tf_ext (db_file (cc_target c)) f -> target_rep kvok rval f 0 m (kvs ++ [(k, v)]) ->
     mr_modified m = mr_modified (cc_target_mr c) -> Q COUCHSTORE_SUCCESS (with_mr m (with_file f c))) ->
  wp (push_target rq k v) Q c.
Proof.
  intros Hf Hrep Hkv Hw HQ. unfold push_target. apply wp_bind; [solve_sticky|]. apply wp_get.
  apply wp_bind; [intros [??]; solve_sticky|]. apply wp_on_target_tree. unfold mr_push_item.
  eapply (wp_push (HL := appending_NodeWriterLaws) rq kvok rval); [exact Hf|exact Hrep|by apply leaf_value_at|done|].
  intros f m Hf' He Hrep' Hmod. apply wp_bind; [solve_sticky|]. apply wp_set_mr, wp_ret. by apply HQ.
Qed.

Lemma seq_tree_ReduceLaws : ReduceLaws seq_tree_request seq_kvok by_seq_rval.
Proof. by apply by_seq_ReduceLaws. Qed.

(** The entry of a copy goes to the tree by sequence and to the sort. *)
Lemma wp_output_seqtree_item kept out i j (c : ctx) Q :
  filling kept out c -> copyable source i -> moved source (db_file (cc_target c)) i j ->
  weight (map seq_kv (out ++ [j])) + 1 < max_node ->
  (forall c', filling (kept ++ [i]) (out ++ [j]) c' -> tf_keep (db_file (cc_target c)) (db_file (cc_target c')) ->
     db_hdr (cc_target c') = db_hdr (cc_target c) -> cc_hook_ctx c' = cc_hook_ctx c ->
     same_but (cc_stdio c) (cc_stdio c') [tw_file w] -> Q COUCHSTORE_SUCCESS c') ->
  wp (output_seqtree_item w (seq_kv j).1 (seq_kv j).2) Q c.
Proof.
  intros [Hf Hp Hrep Hmod Hout Hbase Hall Hinv] [Hi Hbody Hitem] Hm Hw HQ. pose proof seq_tree_ReduceLaws as HR.
  pose proof (moved_ok _ _ _ _ Hi Hm) as Hj.
  pose proof (moved_item _ _ _ _ Hm Hitem) as Hitem'.
  unfold output_seqtree_item. apply wp_bind; [solve_sticky|]. cbn [seq_kv fst snd].
  eapply (wp_push_target seq_tree_request seq_kvok by_seq_rval); [done|exact Hrep|by apply assemble_seq_kvok| |].
  { by rewrite map_app in Hw. }
  intros f m Hf' He Hrep' Hmod'. rewrite decide_False by auto. rewrite assemble_seq_raw.
  apply wp_bind; [solve_sticky|]. apply wp_ret. cbn [rsv_sizes rsv_bp rsv_rev_seq rsv_content_meta].
  pose proof (io_size j Hj). pose proof (io_id j Hj). pose proof (io_meta j Hj).
  pose proof (blen_nonneg (di_id j)). pose proof (blen_nonneg (di_rev_meta j)).
  rewrite kv_length_roundtrip by lia. destruct (seq_value_parts j Hj) as [E1 E2].
  assert (u32 (u64 (u32 (blen (assemble_seq_index_value j)) - (Z.of_nat sizeof_raw_seq_index_value + blen (di_id j)))) =
          blen (di_rev_meta j)) as ->.
  { unfold blen in *. rewrite assemble_seq_length. unfold u32, u64, sizeof_raw_seq_index_value.
    rewrite (Z.mod_small (Z.of_nat _) (2 ^ 32)) by lia. rewrite (Z.mod_small _ (2 ^ 64)) by lia.
    rewrite Z.mod_small by lia. lia. }
  unfold blen. rewrite !Nat2Z.id, E1. apply wp_bind; [solve_sticky|]. apply wp_ret.
  assert (slice 0 6 (encode_raw48 (di_db_seq j)) = Some (encode_raw48 (di_db_seq j))) as ->.
  { rewrite <- (app_nil_r (encode_raw48 (di_db_seq j))) at 1. apply slice_app_head. apply encode_raw48_length. }
  apply wp_bind; [solve_sticky|]. apply wp_ret. rewrite E2. apply wp_bind; [solve_sticky|]. apply wp_ret.
  apply wp_on_streams. cbn [with_mr with_file with_target cc_stdio].
  assert (raw_id_index_value_bytes {| riv_db_seq := encode_raw48 (di_db_seq j); riv_size := encode_raw32 (di_size j);
            riv_bp := bp_field j; riv_rev_seq := encode_raw48 (di_rev_seq j);
            riv_content_meta := encode_raw08 (di_content_meta j) |} ++ di_rev_meta j = assemble_id_index_value j) as ->.
  { unfold assemble_id_index_value, u32. by rewrite (Z.mod_small (di_size j)) by lia. }
  eapply wp_TreeWriterAddItem; [exact Hout|exact Hitem'|]. intros t Ht Hsame.
  pose proof (tf_ext_keep _ _ He) as Hk. pose proof (proj1 Hk).
  apply HQ; cbn [with_streams with_mr with_file with_target cc_target db_file db_hdr cc_target_mr cc_stdio cc_hook_ctx]; try done.
  split; cbn [with_streams with_mr with_file with_target cc_target db_file db_hdr cc_target_mr cc_stdio]; try done.
  - lia.
  - by rewrite map_app.
  - congruence.
  - rewrite map_app. unfold records in *. by rewrite map_app.
  - by etransitivity.
  - apply Forall2_app; [|by repeat constructor; eapply moved_keep]. eapply Forall2_impl; [exact Hall|].
    intros x y. by apply moved_keep.
Qed.

(** The body goes first, and the value points to it. *)
Lemma wp_copy_body f i (c : ctx) (Q : result bytes -> tree_file H * ctx -> Prop) :
  tf_ok f -> tf_ext source f -> copyable source i ->
  tf_appending (db_file (cc_target c)) -> 0 < tf_pos (db_file (cc_target c)) ->
  (forall f' g j, tf_ok f' -> tf_ext f f' -> tf_appending g -> tf_ext (db_file (cc_target c)) g -> moved source g i j ->
     Q (Done (seq_kv j).2) (f', with_file g c)) ->
  wp (copy_body {| rsv_sizes := encode_kv_length (blen (di_id i)) (di_size i); rsv_bp := bp_field i;
        rsv_rev_seq := encode_raw48 (di_rev_seq i); rsv_content_meta := encode_raw08 (di_content_meta i) |}
        (seq_kv i).2) Q (f, c).
Proof.
  intros Hok He [Hi Hbody _] Ha Hpos HQ. unfold copy_body. cbn [rsv_bp rsv_sizes rsv_rev_seq rsv_content_meta].
  destruct (bp_field_deleted i Hi) as [_ ->]. pose proof (io_bp i Hi) as Hbp. case_decide as Hne.
  - destruct (Hbody Hne) as [data Hdata].
    apply wp_bind; [intros [|]; solve_sticky|]. apply wp_on_file.
    apply (wp_chunk_read _ data); [done|by eapply chunk_at_ext|]. intros f' Hok' He' _.
    apply wp_bind; [intros [[??]|]; solve_sticky|]. apply wp_on_ctx, wp_on_target, wp_in_file. cbn [snd].
    apply wp_append; [done|apply Hdata|]. intros g Hg _ Heg Hat Hlt _.
    rewrite assemble_seq_moved by (done || lia). apply wp_ret.
    apply (HQ f' g (set_bp (tf_pos (db_file (cc_target c))) i)); try done.
    exists (tf_pos (db_file (cc_target c))). split_and!; [done|lia|lia|split; lia|]. intros _ data' Hdata'.
    by rewrite (chunk_at_unique _ _ _ _ Hdata' Hdata).
  - apply wp_ret. specialize (HQ f (db_file (cc_target c)) i). destruct c as [m [tf th] t u]. cbn in *. apply HQ; try done.
    exists (di_bp i). rewrite set_bp_same. split_and!; [done|lia|lia|done|done].
Qed.

Lemma wp_ask_hook f i (c : ctx) Q :
  info_ok i -> inv (cc_hook_ctx c) ->
  (hook = None -> Q None (f, c)) ->
  (hook <> None -> Q (if keep i then None else Some COUCHSTORE_SUCCESS) (f, with_hook_ctx (next (cc_hook_ctx c) i) c)) ->
  wp (ask_hook hook (seq_kv i).1 (seq_kv i).2) Q (f, c).
Proof.
  intros Hi Hu H0 H1. unfold ask_hook. unfold decides in Hdecides. destruct hook as [h|]; [|by apply wp_ret, H0].
  cbn [seq_kv fst snd]. rewrite by_seq_read_assemble by done. apply wp_need_Some.
  destruct (Hdecides i (cc_target c) (cc_hook_ctx c) Hi Hu) as (_ & a & Eh & Ha). specialize (H1 ltac:(done)).
  apply wp_bind; [intros [[]| |]; solve_sticky|]. apply wp_on_ctx, wp_on_hook. eapply wp_run; [exact Eh|]. cbn [fst snd].
  destruct c as [m [tf th] t u]. unfold with_hook_ctx in H1. cbn in *.
  destruct (keep i); [destruct Ha as [-> | ->]|subst a]; by apply wp_ret.
Qed.

Lemma weight_moved f f' i j : moved f f' i j -> weight (map seq_kv [j]) = weight (map seq_kv [i]).
Proof.
  intros (bp & -> & _). unfold weight, sumZ, seq_kv, blen. cbn [map foldr fst snd]. by rewrite !assemble_seq_length.
Qed.

(** Without a hook the flag of the entry decides. *)
Lemma drops_deleted i : info_ok i -> hook = None ->
  (flag (decode_raw48 (bp_field i)) BP_DELETED_FLAG = true /\ ~ is_Some hook /\
   flag flags COUCHSTORE_COMPACT_FLAG_DROP_DELETES = true) <-> keep i = false.
Proof.
  intros Hi E. pose proof Hdecides as Hd. unfold decides in Hd. rewrite E in *. destruct Hd as [-> _]. rewrite deleted_flag by done.
  rewrite negb_false_iff, andb_true_iff. split; [by intros (? & _ & ?)|]. intros [? ?]. split_and!; [done| |done]. by intros [].
Qed.

Lemma filling_file g kept out (c : ctx) :
  tf_appending g -> tf_ext (db_file (cc_target c)) g -> filling kept out c -> filling kept out (with_file g c).
Proof.
  intros Hg He []. pose proof (proj1 He). split; cbn; try done; try lia.
  - by eapply (rep_ext (HL := appending_NodeWriterLaws)).
  - etransitivity; [done|]. by apply tf_ext_keep.
  - eapply Forall2_impl; [done|]. intros x y. apply moved_keep. by apply tf_ext_keep.
Qed.

(** What the callback does with a document. *)
Definition stepped (f : tree_file H) (i : DocInfo) (kept out : list DocInfo) (c : ctx)
    (Q : couchstore_error_t -> tree_file H * ctx -> Prop) : Prop :=
  forall f' out' c', tf_ok f' -> tf_ext f f' ->
    filling (kept ++ List.filter keep [i]) (out ++ out') c' ->
    weight (map seq_kv out') <= weight (map seq_kv [i]) ->
    db_hdr (cc_target c') = db_hdr (cc_target c) -> cc_hook_ctx c' = next (cc_hook_ctx c) i ->
    same_but (cc_stdio c) (cc_stdio c') [tw_file w] -> Q COUCHSTORE_SUCCESS (f', c').

Lemma wp_keep_item f i kept out (c : ctx) u Q :
  tf_ok f -> tf_ext source f -> copyable source i -> filling kept out c ->
  weight (map seq_kv (out ++ [i])) + 1 < max_node -> keep i = true -> u = next (cc_hook_ctx c) i ->
  stepped f i kept out c Q ->
  wp (let* r := copy_body {| rsv_sizes := encode_kv_length (blen (di_id i)) (di_size i); rsv_bp := bp_field i;
        rsv_rev_seq := encode_raw48 (di_rev_seq i); rsv_content_meta := encode_raw08 (di_content_meta i) |} (seq_kv i).2 in
      match r with Error e => ret e | Done v => on_ctx (output_seqtree_item w (seq_kv i).1 v) end) Q (f, with_hook_ctx u c).
Proof.
  intros Hok He Hco Hfill Hw Hk -> HQ. apply wp_bind; [intros [|]; solve_sticky|].
  apply (wp_copy_body f i); [done|done|done|apply Hfill|apply Hfill|]. intros f' g j Hok' He' Hg Heg Hm.
  assert ((seq_kv i).1 = (seq_kv j).1) as -> by (by destruct Hm as (bp & -> & _)).
  pose proof (weight_moved _ _ _ _ Hm) as Ewt.
  apply wp_on_ctx. eapply (wp_output_seqtree_item kept out i j); [|done|exact Hm| |].
  - apply (filling_file g); [done|done|].
    pose proof (inv_next (cc_target c) _ _ (co_info _ _ Hco) (fi_hook _ _ _ Hfill)). by destruct Hfill.
  - rewrite map_app, weight_app in *. rewrite Ewt. done.
  - intros c' Hfill' _ Eh Eu Hs. apply (HQ f' [j]); try done; [|by rewrite Ewt]. cbn [List.filter]. by rewrite Hk.
Qed.

(** What one call of the callback does. *)
Lemma wp_compact_seq_fetchcb f i kept out (c : ctx) Q :
  tf_ok f -> tf_ext source f -> copyable source i -> filling kept out c ->
  weight (map seq_kv (out ++ [i])) + 1 < max_node -> stepped f i kept out c Q ->
  wp (compact_seq_fetchcb hook flags w (seq_kv i).1 (Some (seq_kv i).2)) Q (f, c).
Proof.
  intros Hok He Hco Hfill Hw HQ. pose proof (co_info _ _ Hco) as Hi. unfold compact_seq_fetchcb. apply wp_need_Some.
  assert (as_raw_seq_index_value (seq_kv i).2 = _) as -> by apply assemble_seq_raw. apply wp_need_Some. cbn [rsv_bp].
  assert (forall u, keep i = false -> u = next (cc_hook_ctx c) i -> Q COUCHSTORE_SUCCESS (f, with_hook_ctx u c)) as Hdrop.
  { intros u Hk ->. apply (HQ f []); cbn [List.filter with_hook_ctx cc_target cc_hook_ctx cc_stdio]; try done.
    rewrite Hk, !app_nil_r. pose proof (inv_next (cc_target c) _ _ Hi (fi_hook _ _ _ Hfill)). by destruct Hfill. }
  assert (c = with_hook_ctx (cc_hook_ctx c) c) as Ec by (by destruct c as [? [] ? ?]).
  case_decide as Hd.
  - assert (hook = None) as Eh by (destruct Hd as (_ & Hn & _); destruct hook; [by destruct Hn|done]).
    apply wp_ret. rewrite Ec. apply Hdrop; [by apply drops_deleted|by rewrite next_same].
  - apply wp_bind; [intros [|]; solve_sticky|].
    apply wp_ask_hook; [done|apply Hfill|intros Eh|intros Eh].
    + assert (keep i = true) as Hk by (destruct (keep i) eqn:Ek; [done|]; by apply drops_deleted in Ek).
      rewrite Ec. apply (wp_keep_item f i kept out c); try done. by rewrite next_same.
    + destruct (keep i) eqn:Ek; [by apply (wp_keep_item f i kept out c)|]. apply wp_ret. by apply Hdrop.
Qed.

(** The calls for all documents. *)
Lemma delivers_seq l f kept out (c : ctx) Q :
  tf_ok f -> tf_ext source f -> Forall (copyable source) l -> filling kept out c ->
  weight (map seq_kv out) + weight (map seq_kv l) + 1 < max_node ->
  (forall f' out' c', tf_ok f' -> tf_ext source f' ->
     filling (kept ++ List.filter keep l) (out ++ out') c' -> weight (map seq_kv out') <= weight (map seq_kv l) ->
     db_hdr (cc_target c') = db_hdr (cc_target c) -> cc_hook_ctx c' = foldl next (cc_hook_ctx c) l ->
     same_but (cc_stdio c) (cc_stdio c') [tw_file w] -> Q COUCHSTORE_SUCCESS (f', c')) ->
  delivers (seq_fold hook flags w) (map (fun x => (x.1, Some x.2)) (map seq_kv l)) Q f c.
Proof.
  intros Hok He Hl. revert f kept out c Hok He.
  induction Hl as [|i l Hi Hl IH]; intros f kept out c Hok He Hfill Hw HQ; cbn [map delivers].
  - intros f' Hok' He'. apply (HQ f' []); try done; [by transitivity f|by rewrite !app_nil_r].
  - intros f1 Hok1 He1. cbn [map] in Hw. change (seq_kv i :: map seq_kv l) with (map seq_kv [i] ++ map seq_kv l) in Hw.
    rewrite weight_app in Hw. pose proof (weight_nonneg (map seq_kv l)).
    eapply (wp_compact_seq_fetchcb f1 i kept out c); [done|by transitivity f|done|done|rewrite map_app, weight_app; lia|].
    intros f2 out' c' Hok2 He2 Hfill' Hw' Eh Eu Hs. rewrite decide_True by done. split_and!; [done..|].
    apply (IH f2 (kept ++ List.filter keep [i]) (out ++ out') c'); cbn [fst snd]; [done|by transitivity f1; [transitivity f|]|done| |].
    + rewrite map_app, weight_app. lia.
    + intros f3 out2 c2 Hok3 He3 Hfill2 Hw2 Eh2 Eu2 Hs2. rewrite <- !app_assoc in Hfill2.
      apply (HQ f3 (out' ++ out2) c2); try done.
      * change (i :: l) with ([i] ++ l). by rewrite List.filter_app.
      * change (i :: l) with ([i] ++ l). rewrite !map_app, !weight_app. lia.
      * congruence.
      * rewrite Eu2, Eu. done.
      * by eapply same_but_trans.
Qed.

(** The tree by sequence of the target. *)
Lemma wp_compact_seq_tree fuel h root l f (c : ctx) sz Q :
  hook_sticky hook -> tf_ok f -> tf_ext source f ->
  node_at seq_kvok by_seq_rval f h (np_pointer root) (map seq_kv l) sz -> ksorted (compare := seq_cmp) (map seq_kv l) ->
  (h < fuel)%nat -> (length l <= fuel)%nat -> Forall (copyable source) l -> weight (map seq_kv l) + 1 < max_node ->
  tf_appending (db_file (cc_target c)) -> 0 < tf_pos (db_file (cc_target c)) -> base = db_file (cc_target c) ->
  out_at enc (cc_stdio c) (tw_file w) [] 0 [] -> inv (cc_hook_ctx c) ->
  (forall f' out g m t h' r, tf_ok f' -> tf_ext source f' -> tf_appending g -> tf_keep base g ->
     Forall2 (moved source g) (List.filter keep l) out -> weight (map seq_kv out) <= weight (map seq_kv l) ->
     root_at seq_kvok by_seq_rval g h' r (map seq_kv out) ->
     out_at enc t (tw_file w) [] 0 (records (map id_kv out)) -> same_but (cc_stdio c) t [tw_file w] ->
     Q COUCHSTORE_SUCCESS (f', {| cc_target_mr := m;
       cc_target := {| db_file := g; db_hdr := set_seq_root r (db_hdr (cc_target c)) |};
       cc_stdio := t; cc_hook_ctx := foldl next (cc_hook_ctx c) l |})) ->
  wp (compact_seq_tree fuel hook flags w root) Q (f, c).
Proof.
  intros Hst Hok He Hn Hs Hh Hfuel Hl Hw Ha Hpos Eb Hout Hinv HQ. unfold compact_seq_tree.
  pose proof seq_tree_ReduceLaws as HR.
  apply wp_bind; [intros; apply sticky_bind; [|solve_sticky]; by apply sticky_btree_lookup; [apply sticky_compact_seq_fetchcb|]|].
  apply wp_on_ctx, wp_set_mr. cbn [fst snd]. apply wp_bind; [solve_sticky|].
  assert (filling [] [] (with_mr new_btree_modres c)) as Hfill.
  { split; cbn; try done; [|by rewrite Eb]. by apply rep_set_modified, (rep_make (HL := appending_NodeWriterLaws) seq_kvok by_seq_rval _ 0). }
  assert (List.filter (in_range seq_cmp (repeat Byte.x00 6) None) (map seq_kv l) = map seq_kv l) as Hall.
  { apply forallb_filter_id, forallb_forall. intros x Hx. apply in_map_iff in Hx as (i & <- & Hx).
    rewrite list.Forall_forall in Hl. apply list_elem_of_In, Hl in Hx as [Hi _ _].
    change (repeat Byte.x00 6) with (encode_raw48 0). unfold seq_kv. rewrite seq_in_range by (apply Hi || done).
    apply Z.leb_le, Hi. }
  eapply (wp_btree_fold (seq_fold hook flags w) seq_kvok by_seq_rval (HK := seq_KeyOrder) seq_kvok_key seq_kvok_fits
            by_seq_rval_size (sticky_compact_seq_fetchcb hook Hst flags w) eq_refl fuel h (repeat Byte.x00 6) None);
    [done|by right|done|exact Hn|done|done|done|].
  unfold range. cbn [seq_fold lq_compare]. rewrite Hall. apply (delivers_seq l f [] []); [done|done|done|done|cbn; lia|].
  intros f' out c' Hok' He' Hfill' Hw' Eh Eu Hsame. cbn [app] in *. rewrite decide_True by done.
  apply wp_on_ctx. unfold finish_tree. apply wp_bind; [solve_sticky|]. apply wp_get. cbn [snd].
  apply wp_bind; [intros [??]; solve_sticky|]. apply wp_on_target_tree.
  destruct Hfill' as [Ha' Hp' Hrep' Hmod' Hout' Hbase' Hall'].
  assert (length (map seq_kv out) <= fuel)%nat as Hlen.
  { rewrite length_map. pose proof (Forall2_length _ _ _ Hall'). pose proof (List.filter_length_le keep l). lia. }
  eapply (wp_complete_new_btree (HL := appending_NodeWriterLaws) seq_tree_request seq_kvok by_seq_rval);
    [exact Ha'|exact Hrep'|done|lia| |lia|].
  { right. apply list.Forall_forall. intros x Hx r. apply list_elem_of_In, in_map_iff in Hx as (i & <- & _).
    unfold by_seq_rval, seq_kv, blen, CHUNK_SIZE. cbn [fst]. rewrite encode_raw48_length, encode_raw40_length. done. }
  intros g h' r Hg Heg Hroot. apply wp_bind; [solve_sticky|]. apply wp_change_target, wp_ret.
  destruct c' as [m [tf th] t u]. cbn in *. subst u. rewrite Eh.
  apply (HQ f' out g m t h' r); try done.
  - etransitivity; [exact Hbase'|]. by apply tf_ext_keep.
  - eapply Forall2_impl; [exact Hall'|]. intros x y. apply moved_keep. by apply tf_ext_keep.
Qed.
End Copy.

(** ** Copying the local documents *)

Section Local.
Context {H U : Type} `{HO : FileOps H} `{HF : Faulty H} `{HL : !FileLaws H} `{HS : Snappy} `{HSL : !SnappyLaws}.
#[local] Abbreviation ctx := (compact_ctx H U).
#[local] Abbreviation target_rep := (rep (HL := appending_NodeWriterLaws)).

Lemma local_tree_ReduceLaws : ReduceLaws local_tree_request local_kvok no_rval.
Proof. by apply no_ReduceLaws. Qed.

Lemma delivers_local kvs f copied (c : ctx) Q :
  tf_appending (db_file (cc_target c)) -> mr_modified (cc_target_mr c) = true ->
  target_rep local_kvok no_rval (db_file (cc_target c)) 0 (cc_target_mr c) copied ->
  Forall (fun x => local_kvok x.1 x.2) kvs -> weight (copied ++ kvs) + 1 < max_node ->
  (forall f' g m, tf_ok f' -> tf_ext f f' -> tf_appending g -> tf_ext (db_file (cc_target c)) g ->
     mr_modified m = true -> target_rep local_kvok no_rval g 0 m (copied ++ kvs) ->
     Q COUCHSTORE_SUCCESS (f', with_mr m (with_file g c))) ->
  delivers local_fold (map (fun x => (x.1, Some x.2)) kvs) Q f c.
Proof.
  intros Ha Hmod Hrep Hkv. pose proof local_tree_ReduceLaws as HR. revert f copied c Ha Hmod Hrep.
  induction Hkv as [|[k v] kvs Hk Hkv IH]; intros f copied c Ha Hmod Hrep Hw HQ; cbn [map delivers].
  - intros f' Hok' He'. rewrite app_nil_r in *. destruct c as [m [tf th] t u]. by apply (HQ f' tf m).
  - intros f1 Hok1 He1. cbn [fst snd lq_fetch_callback local_fold compact_localdocs_fetchcb]. apply wp_need_Some, wp_on_ctx.
    rewrite cons_middle, app_assoc, weight_app in Hw. pose proof (weight_nonneg kvs).
    eapply (wp_push_target local_tree_request local_kvok no_rval); [done|exact Hrep|done|lia|].
    intros g m Hg Heg Hrep' Hmod'. rewrite decide_True by done. split_and!; [done|done|]. cbn [fst snd].
    apply (IH f1 (copied ++ [(k, v)])); cbn [with_mr with_file with_target cc_target cc_target_mr db_file]; try done; [by rewrite Hmod'|by rewrite weight_app|].
    intros f2 g2 m2 Hok2 He2 Hg2 Heg2 Hm2 Hrep2. rewrite <- app_assoc in Hrep2.
    apply (HQ f2 g2 m2); try done; [by transitivity f1|by transitivity g].
Qed.

Lemma all_from_empty kvs : List.filter (in_range ebin_compare [] None) kvs = kvs.
Proof.
  apply forallb_filter_id, forallb_forall. intros [k v] _. apply id_in_range. intros Hl. by destruct k.
Qed.

Lemma wp_compact_localdocs_tree fuel h root kvs f (c : ctx) sz Q :
  tf_ok f -> node_at local_kvok no_rval f h (np_pointer root) kvs sz -> ksorted (compare := ebin_compare) kvs ->
  (h < fuel)%nat -> (length kvs <= fuel)%nat -> weight kvs + 1 < max_node ->
  Forall (fun x => blen x.1 + 19 <= CHUNK_SIZE) kvs -> tf_appending (db_file (cc_target c)) ->
  (forall f' g m h' r, tf_ok f' -> tf_ext f f' -> tf_appending g -> tf_keep (db_file (cc_target c)) g ->
     root_at local_kvok no_rval g h' r kvs ->
     Q COUCHSTORE_SUCCESS (f', with_mr m (with_target
       {| db_file := g; db_hdr := set_local_root r (db_hdr (cc_target c)) |} c))) ->
  wp (compact_localdocs_tree fuel root) Q (f, c).
Proof.
  intros Hok Hn Hs Hh Hfuel Hw Hsm Ha HQ. unfold compact_localdocs_tree. pose proof local_tree_ReduceLaws as HR.
  apply wp_bind; [intros; apply sticky_bind; [|solve_sticky]; by apply sticky_btree_lookup; [apply sticky_compact_localdocs_fetchcb|]|].
  apply wp_on_ctx, wp_set_mr. cbn [fst snd]. apply wp_bind; [solve_sticky|].
  assert (Forall (fun x => local_kvok x.1 x.2) kvs) as Hkv by (by eapply node_at_ok).
  eapply (wp_btree_fold local_fold local_kvok no_rval (HK := ebin_KeyOrder) (fun _ _ _ => I) (fun _ _ Hk => Hk)
            no_rval_size sticky_compact_localdocs_fetchcb eq_refl fuel h [] None);
    [done|by right|done|exact Hn|done|done|done|].
  unfold range. cbn [local_fold lq_compare]. rewrite all_from_empty.
  apply (delivers_local kvs f []); cbn; try done.
  { by apply rep_set_modified, (rep_make (HL := appending_NodeWriterLaws) local_kvok no_rval _ 0). }
  intros f' g m Hok' He' Hg Heg Hm Hrep. rewrite decide_True by done.
  apply wp_on_ctx. unfold finish_tree. apply wp_bind; [solve_sticky|]. apply wp_get. cbn [snd].
  apply wp_bind; [intros [??]; solve_sticky|]. apply wp_on_target_tree.
  eapply (wp_complete_new_btree (HL := appending_NodeWriterLaws) local_tree_request local_kvok no_rval);
    [exact Hg|exact Hrep|done|done| |lia|].
  { right. eapply List.Forall_impl; [|exact Hsm]. intros x Hx l. unfold no_rval. change (blen []) with 0. cbn beta in Hx. lia. }
  intros g2 h' r Hg2 Heg2 Hroot. apply wp_bind; [solve_sticky|]. apply wp_change_target, wp_ret.
  apply (HQ f' g2 m h' r); try done. apply tf_ext_keep. by transitivity g.
Qed.
End Local.

(** ** The tree by id and the whole of the documents *)

Lemma streams_ok_same s s' f :
  streams_ok s -> is_Some (io_files s !! f) -> same_but s s' [f] -> streams_ok s'.
Proof.
  intros Hs [fl Hf] [Hsame Hn] h Hh. rewrite Hn in Hh. rewrite Hsame; [by apply Hs|].
  intros ->%list_elem_of_singleton. by rewrite Hs in Hf.
Qed.

Section Documents.
Context {H U : Type} `{HO : FileOps H} `{HF : Faulty H} `{HL : !FileLaws H} `{HS : Snappy} `{HSL : !SnappyLaws}.
#[local] Abbreviation ctx := (compact_ctx H U).

Definition id_writer (w : TreeWriter) : Prop :=
  tw_key_compare w = ebin_compare /\ tw_reduce w = Some by_id_reduce /\ tw_rereduce w = Some by_id_rereduce.

Lemma wp_write_id_tree fuel w items (c : ctx) Q :
  id_writer w -> tf_appending (db_file (cc_target c)) -> streams_ok (cc_stdio c) ->
  out_at enc (cc_stdio c) (tw_file w) [] 0 (records items) -> Forall item_ok items ->
  Forall (fun x => id_kvok x.1 x.2) items -> Forall (fun x => blen x.1 + 35 <= CHUNK_SIZE) items ->
  weight items + 1 < max_node -> (length items < fuel)%nat ->
  (forall g t h r items', tf_appending g -> tf_keep (db_file (cc_target c)) g -> items' ≡ₚ items ->
     StronglySorted (key_le ebin_cmp) items' -> root_at id_kvok by_id_rval g h r items' ->
     is_Some (io_files t !! tw_file w) ->
     Q COUCHSTORE_SUCCESS {| cc_target_mr := cc_target_mr c;
       cc_target := {| db_file := g; db_hdr := set_id_root r (db_hdr (cc_target c)) |};
       cc_stdio := t; cc_hook_ctx := cc_hook_ctx c |}) ->
  wp (write_id_tree fuel w) Q c.
Proof.
  intros (Ec & Er & Err) Ha Hss [e Hf] Hok Hkv Hsm Hw Hfuel HQ. unfold write_id_tree.
  assert (ReduceLaws (writer_request w) id_kvok by_id_rval) as HR by (by apply by_id_ReduceLaws).
  assert (Compares (fun _ => True) (tw_key_compare w) ebin_cmp) as HC by (rewrite Ec; apply _).
  apply wp_bind; [intros; solve_sticky|]. apply wp_on_streams.
  eapply wp_mono; [apply (wp_TreeWriterSort fuel w (fun _ => True) ebin_cmp items (cc_stdio c)); [done| |done| | |done]|].
  - exists (length (encs enc (records items))), e. rewrite Hf. cbn. by rewrite splice_whole by (cbn; lia).
  - by apply list.Forall_forall.
  - unfold max_node in Hw. pose proof (weight_length items). lia.
  - intros e2 t (-> & items' & Hsort & Hp & Hh & _). rewrite decide_False by auto.
    apply wp_bind; [intros [??]; solve_sticky|]. apply wp_on_writer.
    eapply wp_mono; [apply (wp_TreeWriterWrite (HL := appending_NodeWriterLaws) w id_kvok by_id_rval fuel items');
                     cbn [ss_store ss_stdio with_streams cc_target cc_stdio]; try done|].
    + by rewrite Hp.
    + by rewrite Hp.
    + by rewrite (weight_perm _ _ Hp).
    + rewrite Hp. eapply List.Forall_impl; [|exact Hsm]. intros x Hx l. cbn beta in Hx.
      assert (blen (by_id_rval l) = 16) as ->; [|lia].
      unfold by_id_rval, encode_by_id_reduce, blen. by rewrite !length_app, !encode_raw40_length, encode_raw48_length.
    + by rewrite (Permutation_length Hp).
    + intros [e3 r] s4 (He & Hg & Hext & Hfl & h & Hroot). cbn [fst snd] in *. subst e3. rewrite decide_False by auto.
      apply wp_bind; [solve_sticky|]. apply wp_change_target, wp_ret.
      apply (HQ (ss_store s4) (ss_stdio s4) h r items'); try done. by apply tf_ext_keep.
Qed.

Lemma weight_filter {X} (g : X -> kv) (p : X -> bool) l : weight (map g (List.filter p l)) <= weight (map g l).
Proof.
  induction l as [|x l IH]; [done|]. change (x :: l) with ([x] ++ l). rewrite List.filter_app, !map_app, !weight_app.
  cbn [List.filter]. destruct (p x); cbn [map]; [lia|]. pose proof (weight_nonneg [g x]). change (weight []) with 0. lia.
Qed.

Lemma weight_id_moved (f f' : tree_file H) l out :
  Forall2 (moved f f') l out -> weight (map id_kv out) = weight (map id_kv l).
Proof.
  induction 1 as [|i j l out (bp & -> & _) _ IH]; [done|]. cbn [map]. unfold weight, sumZ in *. cbn [foldr].
  rewrite IH. unfold id_kv, blen. cbn [fst snd]. by rewrite !assemble_id_length.
Qed.

(** What the copies take over from the documents that are kept. *)
Lemma moved_all (f f' : tree_file H) (p : DocInfo -> bool) (P : DocInfo -> Prop) (R : kv -> Prop) l out :
  Forall2 (moved f f') (List.filter p l) out -> Forall P l ->
  (forall i j, P i -> moved f f' i j -> R (id_kv j)) -> Forall R (map id_kv out).
Proof.
  intros Hm Hl HR. apply list.Forall_forall. intros x Hx. apply list_elem_of_In, in_map_iff in Hx as (j & <- & Hj).
  apply list_elem_of_In, list_elem_of_lookup_1 in Hj as [n Hj].
  destruct (Forall2_lookup_r _ _ _ _ _ Hm Hj) as (i & Hi & Hij). apply list_elem_of_lookup_2, list_elem_of_In, List.filter_In in Hi as [Hi _].
  eapply HR; [|exact Hij]. by eapply List.Forall_forall in Hi.
Qed.

Variable hook : option (compact_hook H U).
Variable flags : Z.
Variable keep : DocInfo -> bool.
Variable next : U -> DocInfo -> U.
Variable inv : U -> Prop.
Hypothesis Hdecides : decides hook flags keep next inv.
Hypothesis Hsticky : hook_sticky hook.

(** The two indexes of a target whose file is [g]. *)
Definition indexes_at (g : tree_file H) (out : list DocInfo) (id_root seq_root : option node_pointer) : Prop :=
  exists h1 h2 items, root_at seq_kvok by_seq_rval g h1 seq_root (map seq_kv out) /\
    root_at id_kvok by_id_rval g h2 id_root items /\ items ≡ₚ map id_kv out /\ StronglySorted (key_le ebin_cmp) items.

Lemma indexes_at_keep g g' out r1 r2 : tf_keep g g' -> indexes_at g out r1 r2 -> indexes_at g' out r1 r2.
Proof.
  intros Hk (h1 & h2 & items & H1 & H2 & Hp & Hs).
  assert (keeps_nodes g g') by (intros ???; by apply node_stored_keep).
  exists h1, h2, items. split_and!; [by eapply root_at_keep..|done|done].
Qed.

Lemma wp_compact_documents fuel h root l f (c : ctx) Q :
  tf_ok f -> root_at seq_kvok by_seq_rval f h root (map seq_kv l) -> ksorted (compare := seq_cmp) (map seq_kv l) ->
  (h < fuel)%nat -> (length l < fuel)%nat -> Forall (copyable f) l ->
  Forall (fun i => blen (di_id i) + 35 <= CHUNK_SIZE) l ->
  weight (map seq_kv l) + 1 < max_node -> weight (map id_kv l) + 1 < max_node ->
  tf_appending (db_file (cc_target c)) -> 0 < tf_pos (db_file (cc_target c)) -> streams_ok (cc_stdio c) -> inv (cc_hook_ctx c) ->
  dh_by_seq_root (db_hdr (cc_target c)) = None -> dh_by_id_root (db_hdr (cc_target c)) = None ->
  (forall f' c' out r1 r2, tf_ok f' -> tf_ext f f' -> tf_appending (db_file (cc_target c')) ->
     tf_keep (db_file (cc_target c)) (db_file (cc_target c')) ->
     Forall2 (moved f (db_file (cc_target c'))) (List.filter keep l) out ->
     indexes_at (db_file (cc_target c')) out r1 r2 ->
     db_hdr (cc_target c') = set_id_root r1 (set_seq_root r2 (db_hdr (cc_target c))) ->
     cc_hook_ctx c' = foldl next (cc_hook_ctx c) l -> Q COUCHSTORE_SUCCESS (f', c')) ->
  wp (compact_documents fuel hook flags root) Q (f, c).
Proof.
  intros Hok Hroot Hs Hh Hfuel Hl Hsm Hw1 Hw2 Ha Hpos Hss Hinv E1 E2 HQ. unfold compact_documents.
  destruct root as [root|].
  2:{ destruct Hroot as [El _]. apply map_eq_nil in El. subst l. apply wp_ret. apply (HQ f c [] None None); try done.
      - exists 0%nat, 0%nat, []. split_and!; by constructor.
      - destruct c as [m [tf [? ? ? ? ? ? ? ?]] t u]. cbn in *. by subst. }
  destruct Hroot as (sz & Hn & _).
  apply wp_bind; [intros [|]; solve_sticky; by apply sticky_compact_seq_tree|].
  apply wp_on_ctx, wp_on_streams, wp_TreeWriterOpen; [done|]. intros w t1 Ec Er Err _ Hss1 Ho. cbn [fst snd].
  assert (is_Some (io_files t1 !! tw_file w)) as Hf1 by (destruct Ho as [e Ho]; eauto).
  apply wp_bind; [intros; solve_sticky|].
  eapply (wp_compact_seq_tree hook flags keep next inv Hdecides f (db_file (cc_target c)) w fuel h root l);
    [done|done|done|exact Hn|done|done|lia|done|done|done|done|done|done|done|].
  intros f' out g m t h1 r1 Hok' He' Hg Hkg Hmv Hwo Hr1 Ho2 Hsame. cbn [with_streams cc_stdio cc_target cc_hook_ctx] in *.
  rewrite decide_False by auto. apply wp_bind; [intros; solve_sticky|]. apply wp_on_ctx. cbn [fst snd].
  pose proof (weight_id_moved _ _ _ _ Hmv) as Ew. pose proof (weight_filter id_kv keep l).
  pose proof (List.filter_length_le keep l). pose proof (Forall2_length _ _ _ Hmv).
  eapply (wp_write_id_tree fuel w (map id_kv out)); cbn [cc_target db_file cc_stdio]; [done|done| |exact Ho2| | | |lia| |].
  - by eapply streams_ok_same.
  - eapply moved_all; [exact Hmv|exact Hl|]. intros i j [_ _ Hi] Hm. by eapply moved_item.
  - eapply moved_all; [exact Hmv|exact Hl|]. intros i j [Hi _ _] Hm. by eapply assemble_id_kvok, moved_ok.
  - eapply moved_all; [exact Hmv|exact Hsm|]. by intros i j Hi (bp & -> & _).
  - rewrite length_map. lia.
  - intros g2 t2 h2 r2 items Hg2 Hk2 Hp Hsort Hr2 [fl Hfl]. apply wp_bind; [solve_sticky|]. apply wp_on_ctx, wp_on_streams.
    eapply wp_fclose; [exact Hfl|]. intros t3 _ _. apply wp_ret. cbn [fst snd cc_target db_file db_hdr cc_hook_ctx] in *.
    apply (HQ f' _ out r2 r1); cbn [with_streams cc_target db_file db_hdr cc_hook_ctx]; try done.
    + by etransitivity.
    + eapply Forall2_impl; [exact Hmv|]. intros x y. by apply moved_keep.
    + exists h1, h2, items. split_and!; [|done..]. eapply root_at_keep; [|exact Hr1]. intros ???. by apply node_stored_keep.
Qed.
End Documents.
