(* ===== verification/CompactDb.v ===== *)
(** * CompactDb: what the compacted database stands for

    The documents of the source in the order of their sequence numbers, the map of
    the copies, and the rule for couchstore_compact_db_ex as a whole. *)

From Stdlib Require Import ZArith Lia Sorted.
From S2P Require Import Prelude Bitfield NodeTypes Util Runs FileOps Stdio MergeSortProofs TreeFile NodeStore Header BTree BTreeInv BTreeFlush TreeSpec Reduces TreeWriter BTreeRead Docs Save DocCodec DbSpec DbIter SaveSpec Recovery Compact CompactProofs.
From stdpp Require Import list numbers gmap.

#[local] Open Scope Z_scope.
#[local] Open Scope couch_scope.
#[local] Existing Instance pure_ctx | 100.

Lemma NoDup_map_by {A B C} (f : A -> B) (g : A -> C) l :
  NoDup (map g l) -> (forall x y, x ∈ l -> y ∈ l -> f x = f y -> g x = g y) -> NoDup (map f l).
Proof.
  induction l as [|x l IH]; cbn [map]; [constructor|]. intros [Hx Hl]%list.NoDup_cons Hfg. apply list.NoDup_cons. split.
  - intros Hin. apply Hx. apply list_elem_of_In, in_map_iff in Hin as (y & E & Hy). apply list_elem_of_In in Hy.
    apply list_elem_of_In, in_map_iff. exists y. split; [|by apply list_elem_of_In].
    apply Hfg; [by apply list_elem_of_further|apply list_elem_of_here|done].
  - apply IH; [done|]. intros y z Hy Hz. apply Hfg; by apply list_elem_of_further.
Qed.

Lemma NoDup_map_filter {A B} (f : A -> B) (p : A -> bool) l : NoDup (map f l) -> NoDup (map f (List.filter p l)).
Proof.
  induction l as [|x l IH]; cbn [map List.filter]; [done|]. intros [Hx Hl]%list.NoDup_cons.
  destruct (p x); [|by apply IH]. cbn [map]. apply list.NoDup_cons. split; [|by apply IH].
  intros Hin. apply Hx. apply list_elem_of_In, in_map_iff in Hin as (y & E & Hy). apply List.filter_In in Hy as [Hy _].
  apply list_elem_of_In, in_map_iff. by exists y.
Qed.

Lemma sorted_same_keys (R : bytes -> bytes -> Prop) (a b : list kv) :
  map fst a = map fst b -> StronglySorted (fun x y => R x.1 y.1) b -> StronglySorted (fun x y => R x.1 y.1) a.
Proof.
  revert b. induction a as [|x a IH]; intros [|y b] E Hs; try done. cbn [map] in E. injection E as Ek E.
  apply StronglySorted_inv in Hs as [Hs Hall]. constructor; [by eapply IH|].
  apply (Forall_mapped fst (fun k => R x.1 k)). rewrite E. apply Forall_mapped. by rewrite Ek.
Qed.

(** The documents [l] as a map. *)
Definition docs_map (l : list DocInfo) : gmap bytes DocInfo := list_to_map (map (fun i => (di_id i, i)) l).

Lemma docs_map_lookup l id i : NoDup (map di_id l) -> docs_map l !! id = Some i <-> i ∈ l /\ di_id i = id.
Proof.
  intros Hnd. unfold docs_map. rewrite <- elem_of_list_to_map by (by rewrite <- list_fmap_compose).
  rewrite list_elem_of_In, in_map_iff, list_elem_of_In. split.
  - by intros (j & [= <- <-] & Hj).
  - intros [Hi <-]. by exists i.
Qed.

Section Assemble.
Context {H U : Type} `{HO : FileOps H} `{HF : Faulty H} `{HL : !FileLaws H} `{HS : Snappy} `{HSL : !SnappyLaws}.

(** The documents of the source, in the order of the fold. *)
Lemma docs_in_order (d : Db H) t D L : db_rep d t D L ->
  exists l, t_seq t = map seq_kv l /\ NoDup (map di_id l) /\ (forall i, i ∈ l <-> D !! di_id i = Some i) /\
    Permutation (t_id t) (map id_kv l).
Proof.
  intros Hr. exists (map (info_of false) (t_seq t)).
  assert (map seq_kv (map (info_of false) (t_seq t)) = t_seq t) as E.
  { rewrite map_map. rewrite <- (map_id (t_seq t)) at 2. apply map_ext_in. intros x Hx. apply list_elem_of_In in Hx.
    destruct (seq_items _ _ _ _ _ Hr Hx) as (id & i & Hi & -> & Ei & _). by apply readable_ok in Ei as [_ ->]. }
  assert (forall i, i ∈ map (info_of false) (t_seq t) <-> D !! di_id i = Some i) as Hin.
  { intros i. rewrite list_elem_of_In, in_map_iff. split.
    - intros (x & <- & Hx). apply list_elem_of_In in Hx. destruct (seq_items _ _ _ _ _ Hr Hx) as (id & i & Hi & -> & Ei & _).
      apply readable_ok in Ei as [_ ->]. by destruct (proj1 (dr_docs _ _ _ _ Hr) _ _ Hi) as (<- & _).
    - intros Hi. pose proof (seq_item_of _ _ _ _ _ _ Hr Hi) as Hx. eexists. split; [|by apply list_elem_of_In].
      apply (readable_ok false). destruct (proj1 (dr_docs _ _ _ _ Hr) _ _ Hi) as (_ & Hio & _). by apply by_seq_read_assemble. }
  assert (NoDup (map di_id (map (info_of false) (t_seq t)))) as Hnd.
  { apply (NoDup_map_by _ (fun i => (seq_kv i).1)).
    - rewrite <- (map_map seq_kv fst), E. exact (ksorted_NoDup _ (proj1 (dr_seq _ _ _ _ Hr))).
    - intros i j Hi Hj Eid. apply Hin in Hi, Hj. rewrite Eid, Hj in Hi. by injection Hi as ->. }
  split_and!; [done|done|done|].
  apply NoDup_Permutation; [exact (NoDup_fmap_1 fst _ (ksorted_NoDup _ (proj1 (dr_id _ _ _ _ Hr))))| |].
  - eapply (NoDup_fmap_1 fst). change (NoDup (map fst (map id_kv (map (info_of false) (t_seq t))))). by rewrite map_map.
  - intros x. rewrite (list_elem_of_In (map id_kv _)), in_map_iff. split.
    + intros Hx. destruct (id_items _ _ _ _ _ Hr Hx) as (i & Hi & Ex & _). exists i. split; [done|].
      apply list_elem_of_In, Hin. rewrite Ex in Hi. done.
    + intros (i & <- & Hi). apply list_elem_of_In, Hin in Hi. by apply (id_item_of _ _ _ _ _ _ Hr Hi).
Qed.

(** Copies: the ids and the sequence numbers stay. *)
Lemma moved_ids (f g : tree_file H) l out : Forall2 (moved f g) l out -> map di_id out = map di_id l.
Proof. by induction 1 as [|i j l out (bp & -> & _) _ IH]; cbn; [|rewrite IH]. Qed.

Lemma moved_from (f g : tree_file H) l out j : Forall2 (moved f g) l out -> j ∈ out -> exists i, i ∈ l /\ moved f g i j.
Proof.
  intros Hm [n Hj]%list_elem_of_lookup_1. destruct (Forall2_lookup_r _ _ _ _ _ Hm Hj) as (i & Hi & Hij).
  exists i. split; [by eapply list_elem_of_lookup_2|done].
Qed.

Lemma sorted_moved (f g : tree_file H) (R : bytes -> bytes -> Prop) l out :
  Forall2 (moved f g) l out -> StronglySorted (fun x y => R x.1 y.1) (map seq_kv l) ->
  StronglySorted (fun x y => R x.1 y.1) (map seq_kv out).
Proof.
  intros Hm. apply sorted_same_keys. rewrite !map_map.
  induction Hm as [|i j l out (bp & -> & _) _ IH]; cbn [map]; [done|]. by f_equal.
Qed.

Lemma sorted_filtered {X Y} (R : Y -> Y -> Prop) (g : X -> Y) (p : X -> bool) l :
  StronglySorted R (map g l) -> StronglySorted R (map g (List.filter p l)).
Proof.
  induction l as [|x l IH]; cbn [map List.filter]; [done|]. intros [Hs Hx]%StronglySorted_inv.
  destruct (p x); [|by apply IH]. constructor; [by apply IH|]. apply Forall_mapped, List.Forall_forall. intros y Hy.
  apply List.filter_In in Hy as [Hy _]. apply (Forall_mapped g) in Hx. by eapply List.Forall_forall in Hx.
Qed.

(** ** The copies as a database *)

Section Target.
Variables (d : Db H) (t : trees) (D : gmap bytes DocInfo) (L : gmap bytes bytes).
Variables (l out : list DocInfo) (keep : DocInfo -> bool) (g : tree_file H).
Hypothesis Hr : db_rep d t D L.
Hypothesis El : t_seq t = map seq_kv l.
Hypothesis Hnd : NoDup (map di_id l).
Hypothesis Hin : forall i, i ∈ l <-> D !! di_id i = Some i.
Hypothesis Hm : Forall2 (moved (db_file d) g) (List.filter keep l) out.

Lemma out_ids : NoDup (map di_id out).
Proof. rewrite (moved_ids _ _ _ _ Hm). by apply NoDup_map_filter. Qed.

Lemma out_from j : j ∈ out -> exists i, D !! di_id i = Some i /\ keep i = true /\ moved (db_file d) g i j.
Proof.
  intros Hj. destruct (moved_from _ _ _ _ _ Hm Hj) as (i & Hi & Hij).
  apply list_elem_of_In, List.filter_In in Hi as [Hi Hk]. apply list_elem_of_In, Hin in Hi. by exists i.
Qed.

Lemma out_of i : D !! di_id i = Some i -> keep i = true -> exists j, j ∈ out /\ moved (db_file d) g i j.
Proof.
  intros Hi Hk. assert (i ∈ List.filter keep l) as Hx.
  { apply list_elem_of_In, List.filter_In. split; [|done]. by apply list_elem_of_In, Hin. }
  apply list_elem_of_lookup_1 in Hx as [n Hn]. destruct (Forall2_lookup_l _ _ _ _ _ Hm Hn) as (j & Hj & Hij).
  exists j. split; [by eapply list_elem_of_lookup_2|done].
Qed.

Lemma out_ok j : j ∈ out -> info_ok j /\ 0 < di_db_seq j <= dh_update_seq (db_hdr d).
Proof.
  intros (i & Hi & _ & Hij)%out_from. destruct (proj1 (dr_docs _ _ _ _ Hr) _ _ Hi) as (_ & Hio & Hs).
  split; [by eapply moved_ok|]. by destruct Hij as (bp & -> & _).
Qed.

Lemma out_docs_ok : docs_ok (docs_map out) (dh_update_seq (db_hdr d)).
Proof.
  pose proof out_ids as Hids. split.
  - intros id i [Hi <-]%docs_map_lookup; [|done]. destruct (out_ok _ Hi). done.
  - intros a b i j [Hi <-]%docs_map_lookup [Hj <-]%docs_map_lookup Es; [|done..].
    apply out_from in Hi as (i0 & Hi & _ & bi & -> & _), Hj as (j0 & Hj & _ & bj & -> & _).
    cbn in *. by eapply (proj2 (dr_docs _ _ _ _ Hr)).
Qed.

Lemma out_seq_sorted : ksorted (compare := seq_cmp) (map seq_kv out).
Proof.
  unfold ksorted. eapply (sorted_moved _ _ klt); [exact Hm|]. apply sorted_filtered. rewrite <- El.
  apply (dr_seq _ _ _ _ Hr).
Qed.

Lemma out_seq_map k v : as_map (map seq_kv out) !! k = Some v <-> seq_entry (docs_map out) k v.
Proof.
  pose proof out_ids as Hids. rewrite <- (as_map_lookup _ _ _ out_seq_sorted), list_elem_of_In, in_map_iff.
  unfold seq_entry. split.
  - intros (i & [= <- <-] & Hi). exists (di_id i), i. split; [|done]. apply docs_map_lookup; [done|].
    split; [by apply list_elem_of_In|done].
  - intros (id & i & [Hi <-]%docs_map_lookup & -> & ->); [|done]. exists i. split; [done|by apply list_elem_of_In].
Qed.

Lemma out_id_sorted items : items ≡ₚ map id_kv out -> StronglySorted (key_le ebin_cmp) items ->
  ksorted (compare := ebin_compare) items.
Proof.
  intros Hp. unfold ksorted. apply (sorted_strict fst).
  - intros x y Hle Hne. unfold key_le in Hle. apply ebin_cmp_le in Hle as [?|?]; done.
  - rewrite Hp, map_map. exact out_ids.
Qed.

Lemma out_id_map items : items ≡ₚ map id_kv out -> as_map items = assemble_id_index_value <$> docs_map out.
Proof.
  intros Hp. unfold as_map. transitivity (list_to_map (M := gmap bytes bytes) (map id_kv out)).
  - apply list_to_map_proper; [|done]. change (NoDup (map fst items)). rewrite Hp, map_map. exact out_ids.
  - unfold docs_map. rewrite <- list_to_map_fmap. f_equal. unfold prod_map. rewrite <- list_fmap_compose. done.
Qed.

Lemma target_data hdr r1 r2 h3 :
  indexes_at g out r1 r2 -> root_at local_kvok no_rval g h3 (dh_local_docs_root hdr) (t_local t) -> 0 < tf_pos g ->
  dh_by_id_root hdr = r1 -> dh_by_seq_root hdr = r2 -> dh_update_seq hdr = dh_update_seq (db_hdr d) ->
  0 <= dh_purge_seq hdr < 2 ^ 48 -> dh_purge_ptr hdr = 0 ->
  exists t', db_data {| db_file := g; db_hdr := hdr |} t' (docs_map out) L.
Proof.
  intros (h1 & h2 & items & Hr2 & Hr1 & Hp & Hsort) Hr3 Hpos E1 E2 Eu Hps Epp.
  exists {| t_id := items; t_seq := map seq_kv out; t_local := t_local t; t_height := h1 + h2 + h3 |}.
  split; cbn [db_file db_hdr t_id t_seq t_local t_height]; rewrite ?E1, ?E2, ?Eu; try done; try lia.
  - apply Hr.
  - apply out_docs_ok.
  - split; [by apply out_id_sorted|]. exists h2. split; [lia|done].
  - split; [apply out_seq_sorted|]. exists h1. split; [lia|done].
  - split; [apply (dr_local _ _ _ _ Hr)|]. exists h3. split; [lia|done].
  - by apply out_id_map.
  - intros k v. apply out_seq_map.
  - apply Hr.
Qed.
End Target.
End Assemble.

(** ** The whole compaction *)

Section Whole.
Context {H U : Type} `{HO : FileOps H} `{HF : Faulty H} `{HL : !FileLaws H} `{HS : Snappy} `{HSL : !SnappyLaws}.
#[local] Abbreviation ctx := (compact_ctx H U).

(** What the compaction needs of the source: bodies where the documents say, ids
    and local ids that leave room for two in a node, entries that fit the buffers
    of the sort, and trees whose total size stays below the limit of a node buffer. *)
Record compactable (d : Db H) (t : trees) (D : gmap bytes DocInfo) : Prop := {
  cb_bodies : forall id i, D !! id = Some i -> di_bp i <> 0 -> exists data, chunk_at (db_file d) (di_bp i) data;
  cb_items : forall id i, D !! id = Some i -> id <> [] /\ blen id + 35 <= CHUNK_SIZE /\ blen id + blen (di_rev_meta i) + 63 <= ID_SORT_MAX_RECORD_SIZE;
  cb_local : Forall (fun x => blen x.1 + 19 <= CHUNK_SIZE) (t_local t);
  cb_room : weight (t_id t) + 1 < max_node /\ weight (t_seq t) + 1 < max_node /\ weight (t_local t) + 1 < max_node;
  cb_purge_ptr : dh_purge_ptr (db_hdr d) = 0
}.

Definition compact_fuel (t : trees) : nat := S (t_height t + length (t_seq t) + length (t_local t)).

(** [D'] on [f'] holds the copies of the documents of [D] on [f] that [keep] lets pass. *)
Definition copies (f f' : tree_file H) (keep : DocInfo -> bool) (D D' : gmap bytes DocInfo) : Prop :=
  forall id, match D !! id with
             | Some i => if keep i then exists j, D' !! id = Some j /\ moved f f' i j else D' !! id = None
             | None => D' !! id = None
             end.

Lemma copies_docs_map (d : Db H) D l keep out g :
  NoDup (map di_id l) -> (forall i, i ∈ l <-> D !! di_id i = Some i) -> (forall id i, D !! id = Some i -> di_id i = id) ->
  Forall2 (moved (db_file d) g) (List.filter keep l) out -> copies (db_file d) g keep D (docs_map out).
Proof.
  intros Hnd Hin Hids Hm id. pose proof (out_ids d l out keep g Hnd Hm) as Ho.
  assert (forall j, docs_map out !! id = Some j -> exists i, D !! id = Some i /\ keep i = true) as Hback.
  { intros j [Hj <-]%docs_map_lookup; [|done]. destruct (out_from d D l out keep g Hin Hm j Hj) as (i & Hi & Hk & bp & -> & _).
    by exists i. }
  destruct (D !! id) as [i|] eqn:Ei.
  - destruct (keep i) eqn:Ek.
    + pose proof (Hids _ _ Ei) as <-. destruct (out_of d D l out keep g Hin Hm i Ei Ek) as (j & Hj & Hij).
      exists j. split; [|done]. apply docs_map_lookup; [done|]. split; [done|]. by destruct Hij as (bp & -> & _).
    + destruct (docs_map out !! id) as [j|]; [|done]. destruct (Hback j eq_refl) as (i' & [= <-] & ?). congruence.
  - destruct (docs_map out !! id) as [j|]; [|done]. by destruct (Hback j eq_refl) as (i' & ? & _).
Qed.

Lemma compactable_docs (d : Db H) t D L l : db_rep d t D L -> compactable d t D ->
  (forall i, i ∈ l <-> D !! di_id i = Some i) ->
  Forall (copyable (db_file d)) l /\ Forall (fun i => blen (di_id i) + 35 <= CHUNK_SIZE) l.
Proof.
  intros Hr Hc Hin. split; apply list.Forall_forall; intros i Hi%Hin.
  - destruct (cb_items _ _ _ Hc _ _ Hi) as (Hne & _ & Hsz). destruct (proj1 (dr_docs _ _ _ _ Hr) _ _ Hi) as (_ & Hio & _).
    split; [done|by eapply (cb_bodies _ _ _ Hc)|]. exists (di_id i), (assemble_id_index_value i).
    unfold sizeof_extsort_record, blen in *. rewrite assemble_id_length. split_and!; [done|done| |lia].
    intros E. apply (f_equal length) in E. by rewrite assemble_id_length in E.
  - by apply (cb_items _ _ _ Hc _ _ Hi).
Qed.

Variable hook : option (compact_hook H U).
Variable flags : Z.
Variable keep : DocInfo -> bool.
Variable next : U -> DocInfo -> U.
Variable inv : U -> Prop.
Variable last_purge : U -> Z -> Z.

(** The last call of the hook may set the purge counter. *)
Definition finishes : Prop :=
  match hook with
  | None => forall u p, last_purge u p = p
  | Some h => forall d u, exists a,
      h None (d, u) = Ret a ({| db_file := db_file d; db_hdr := set_purge_seq (last_purge u (dh_purge_seq (db_hdr d))) (db_hdr d) |}, u) /\
      forall e, a = HOOK_CODE e -> e = COUCHSTORE_SUCCESS
  end.
Hypothesis Hdecides : decides hook flags keep next inv.
Hypothesis Hfinishes : finishes.
Hypothesis Hsticky : hook_sticky hook.

Lemma wp_finish_hook (c : ctx) Q :
  (Q COUCHSTORE_SUCCESS (with_target {| db_file := db_file (cc_target c);
     db_hdr := set_purge_seq (last_purge (cc_hook_ctx c) (dh_purge_seq (db_hdr (cc_target c)))) (db_hdr (cc_target c)) |} c)) ->
  wp (finish_hook hook) Q c.
Proof.
  intros HQ. unfold finish_hook. unfold finishes in Hfinishes. destruct c as [m [tf [h1 h2 h3 h4 h5 h6 h7 h8]] t u]. cbn in HQ.
  destruct hook as [h|].
  - destruct (Hfinishes {| db_file := tf; db_hdr := {| dh_disk_version := h1; dh_update_seq := h2; dh_by_id_root := h3;
      dh_by_seq_root := h4; dh_local_docs_root := h5; dh_purge_seq := h6; dh_purge_ptr := h7; dh_position := h8 |} |} u) as (a & Ea & Hna).
    apply wp_bind; [intros []; solve_sticky|]. apply wp_on_hook. eapply wp_run; [exact Ea|].
    destruct a as [e| |]; try by apply wp_ret. rewrite (Hna e eq_refl). by apply wp_ret.
  - rewrite Hfinishes in HQ. by apply wp_ret.
Qed.

(** The target file before the copy: only the header of an empty database. *)
Lemma fresh_appending (d : Db H) : db_rep d empty_trees ∅ ∅ -> new_file d ->
  tf_appending {| tf_pos := 1; tf_handle := tf_handle (db_file d) |}.
Proof.
  intros Hr [Hu Hl]. split_and!; cbn [tf_handle tf_pos]; [apply Hr|done| |done]. eapply unread_mono; [exact Hu|done].
Qed.

(** The local documents, if there are any. *)
Lemma wp_compact_local fuel (d : Db H) t D L f (c : ctx) Q :
  db_rep d t D L -> compactable d t D -> tf_ok f -> tf_ext (db_file d) f -> (compact_fuel t <= fuel)%nat ->
  tf_appending (db_file (cc_target c)) -> dh_local_docs_root (db_hdr (cc_target c)) = None ->
  (forall f' g m h r, tf_ok f' -> tf_ext (db_file d) f' -> tf_appending g -> tf_keep (db_file (cc_target c)) g ->
     root_at local_kvok no_rval g h r (t_local t) ->
     Q COUCHSTORE_SUCCESS (f', with_mr m (with_target
       {| db_file := g; db_hdr := set_local_root r (db_hdr (cc_target c)) |} c))) ->
  wp (match dh_local_docs_root (db_hdr d) with
      | Some root => compact_localdocs_tree fuel root
      | None => ret COUCHSTORE_SUCCESS
      end) Q (f, c).
Proof.
  intros Hr Hc Hok He Hfuel Ha El HQ. pose proof (dr_local _ _ _ _ Hr) as [Hs (h & Hh & Hroot)]. unfold compact_fuel in Hfuel.
  assert (keeps_nodes (db_file d) f) as Hk by (intros ???; by apply node_stored_ext).
  destruct (dh_local_docs_root (db_hdr d)) as [root|].
  - destruct Hroot as (sz & Hn & _). eapply node_at_keep in Hn; [|exact Hk].
    eapply (wp_compact_localdocs_tree fuel h root (t_local t) f c sz); [done|exact Hn|done|lia|lia|apply Hc|apply Hc|done|].
    intros f' g m h' r Hok' He' Hg Hkg Hr'. eapply HQ; try done. by transitivity f.
  - destruct Hroot as [El' ->]. apply wp_ret. destruct c as [m [tf [h1 h2 h3 h4 h5 h6 h7 h8]] t0 u]. cbn in *. subst h5.
    by apply (HQ f tf m 0%nat None); rewrite ?El'.
Qed.

(** Where the target is ready to be committed. *)
Definition ready (d : Db H) (t : trees) (D : gmap bytes DocInfo) (L : gmap bytes bytes) (u : U)
    (Q : couchstore_error_t * bool -> tree_file H * ctx -> Prop) : Prop :=
  forall f' m g hdr st l out t', tf_ok f' -> tf_ext (db_file d) f' -> tf_appending g ->
    t_seq t = map seq_kv l -> (forall i, i ∈ l <-> D !! di_id i = Some i) ->
    copies (db_file d) g keep D (docs_map out) -> db_data {| db_file := g; db_hdr := hdr |} t' (docs_map out) L ->
    dh_update_seq hdr = dh_update_seq (db_hdr d) ->
    dh_purge_seq hdr = last_purge (foldl next u l) (dh_purge_seq (target_header (db_hdr d) flags zero_header)) ->
    wp (on_ctx (on_target couchstore_commit))
       (fun e s => wp (on_ctx (on_target couchstore_close_db) ;; ret (e, bool_decide (e <> COUCHSTORE_SUCCESS))) Q s)
       (f', {| cc_target_mr := m; cc_target := {| db_file := g; db_hdr := hdr |}; cc_stdio := st;
               cc_hook_ctx := foldl next u l |}).

#[local] Hint Resolve sticky_compact_documents sticky_finish_hook sticky_compact_into_target : sticky.

(** Everything before the commit. *)
Lemma wp_compact_prepare fuel (d : Db H) t D L h (c : ctx) Q :
  db_rep d t D L -> compactable d t D -> (compact_fuel t <= fuel)%nat ->
  (forall u, inv u -> 0 <= last_purge u (dh_purge_seq (target_header (db_hdr d) flags zero_header)) < 2 ^ 48) ->
  inv (cc_hook_ctx c) ->
  cc_target c = closed h -> file_ok h -> synced h -> contents h = [] -> streams_ok (cc_stdio c) ->
  ready d t D L (cc_hook_ctx c) Q ->
  wp (couchstore_compact_db_ex fuel (db_hdr d) flags hook) Q (db_file d, c).
Proof.
  intros Hr Hc Hfuel Hpurge Hinv Ec Hok Hsy Hch Hss HQ.
  destruct (docs_in_order d t D L Hr) as (l & El & Hnd & Hin & Hp).
  destruct (compactable_docs d t D L l Hr Hc Hin) as [Hco Hsm].
  unfold couchstore_compact_db_ex.
  apply wp_bind; [intros; solve_sticky|].
  apply wp_on_ctx, wp_on_target. cbn [snd]. rewrite Ec. apply wp_open_new; [done..|]. intros d1 Hr1 _ Hnew.
  rewrite decide_False by auto.
  apply wp_bind; [intros; solve_sticky|].
  apply wp_on_ctx, wp_on_target, wp_in_file. intros _.
  apply wp_bind; [intros; solve_sticky|].
  apply wp_on_ctx, wp_change_target. cbn [fst snd with_target cc_target db_file db_hdr].
  apply wp_bind; [intros; solve_sticky|]. unfold compact_into_target.
  apply wp_bind; [intros; solve_sticky|].
  pose proof (dr_seq _ _ _ _ Hr) as [Hs (hh & Hh & Hroot)]. rewrite El in Hs, Hroot. unfold compact_fuel in Hfuel.
  destruct (cb_room _ _ _ Hc) as (Hw1 & Hw2 & Hw3). rewrite El in Hw2, Hfuel. rewrite length_map in Hfuel.
  destruct (db_rep_empty _ _ _ _ Hr1) as [[_ E1] [_ E2]].
  assert (dh_local_docs_root (db_hdr d1) = None) as E3 by (by apply (tree_at_none _ _ _ _ _ _ (dr_local _ _ _ _ Hr1))).
  eapply (wp_compact_documents hook flags keep next inv Hdecides Hsticky fuel hh _ l); cbn [cc_target db_file db_hdr cc_stdio cc_hook_ctx];
    [apply Hr|exact Hroot|done|lia|lia|done|done|done|by rewrite <- (weight_perm _ _ Hp)|by apply (fresh_appending d1)|done|done|done
    |by apply E2|by apply E1|].
  intros f1 [m1 d2 st1 u1] out r1 r2 Hok1 He1 Ha1 Hk1 Hm1 Hix1 Eh1 Eu1. rewrite decide_False by auto.
  cbn [cc_target cc_hook_ctx] in *. subst u1.
  apply wp_bind; [intros; solve_sticky|].
  apply (wp_compact_local fuel d t D L); [done|done|done|done|unfold compact_fuel; rewrite El, length_map; lia|done|by cbn; rewrite Eh1|].
  intros f2 g m2 h3 r3 Hok2 He2 Hg Hkg Hr3. rewrite decide_False by auto. apply wp_bind; [intros; solve_sticky|].
  apply wp_on_ctx, wp_finish_hook. rewrite decide_False by auto. unfold with_mr, with_target. cbn [fst snd cc_target cc_target_mr db_file db_hdr cc_hook_ctx cc_stdio].
  rewrite Eh1.
  assert (Forall2 (moved (db_file d) g) (List.filter keep l) out) as Hm2.
  { eapply Forall2_impl; [exact Hm1|]. intros x y. by apply moved_keep. }
  set (hdr := set_purge_seq _ _).
  destruct (target_data d t D L l out keep g Hr El Hnd Hin Hm2 hdr r1 r2 h3) as (t' & Ht').
  - by eapply indexes_at_keep.
  - done.
  - pose proof (proj1 Hk1). pose proof (proj1 Hkg). cbn in *. lia.
  - done.
  - done.
  - done.
  - apply Hpurge, (inv_fold hook flags keep next inv Hdecides d); [|done].
    eapply List.Forall_impl; [|exact Hco]. by intros i [].
  - apply Hc.
  - eapply (HQ f2 m2 g hdr _ l out t'); try done.
    eapply copies_docs_map; [done|done| |done]. intros id i Hi. by apply (dr_docs _ _ _ _ Hr).
Qed.

Lemma copies_keep f f1 f2 D D' : tf_keep f1 f2 -> copies f f1 keep D D' -> copies f f2 keep D D'.
Proof.
  intros Hk Hc id. specialize (Hc id). destruct (D !! id) as [i|]; [|done]. destruct (keep i); [|done].
  destruct Hc as (j & Hj & Hm). exists j. split; [done|by eapply moved_keep].
Qed.

(** The file of the target can be opened, and then holds [D'] and [L]. *)
Definition reopens (d : Db H) (D D' : gmap bytes DocInfo) (L : gmap bytes bytes) (t' : trees) (g : tree_file H) : Prop :=
  forall h rdonly create, open_flags_ok rdonly create = true -> file_ok h -> synced h -> contents h = tf_contents g ->
    wp (couchstore_open_db_ex rdonly create)
       (fun e d' => e = COUCHSTORE_SUCCESS /\ db_rep d' t' D' L /\ copies (db_file d) (db_file d') keep D D') (closed h).

(** What the compaction leaves. *)
Definition compacted (d : Db H) (t : trees) (D : gmap bytes DocInfo) (L : gmap bytes bytes) (u : U)
    (s : tree_file H * ctx) : Prop :=
  exists t' D' l, db_rep (cc_target s.2) t' D' L /\ copies (db_file d) (db_file (cc_target s.2)) keep D D' /\
    dh_update_seq (db_hdr (cc_target s.2)) = dh_update_seq (db_hdr d) /\
    t_seq t = map seq_kv l /\ (forall i, i ∈ l <-> D !! di_id i = Some i) /\ cc_hook_ctx s.2 = foldl next u l /\
    dh_purge_seq (db_hdr (cc_target s.2)) =
      last_purge (foldl next u l) (dh_purge_seq (target_header (db_hdr d) flags zero_header)) /\
    db_rep {| db_file := s.1; db_hdr := db_hdr d |} t D L /\ reopens d D D' L t' (db_file (cc_target s.2)).

Lemma wp_compact_db_ex fuel (d : Db H) t D L h (c : ctx) :
  db_rep d t D L -> compactable d t D -> (compact_fuel t <= fuel)%nat ->
  (forall u, inv u -> 0 <= last_purge u (dh_purge_seq (target_header (db_hdr d) flags zero_header)) < 2 ^ 48) ->
  inv (cc_hook_ctx c) ->
  cc_target c = closed h -> file_ok h -> synced h -> contents h = [] -> streams_ok (cc_stdio c) ->
  wp (couchstore_compact_db_ex fuel (db_hdr d) flags hook)
     (fun r s => r = (COUCHSTORE_SUCCESS, false) /\ compacted d t D L (cc_hook_ctx c) s) (db_file d, c).
Proof.
  intros Hr Hc Hfuel Hpurge Hinv Ec Hok Hsy Hch Hss. apply (wp_compact_prepare fuel d t D L h); [done..|].
  intros f m g hdr st l out t' Hf He Hg El Hin Hco Hdata Eu Ep.
  apply wp_on_ctx, wp_on_target. cbn [snd cc_target].
  apply (wp_commit_rep _ t' (docs_map out) L); [done|done|]. cbn [db_file db_hdr]. set (hp := header_pos (tf_pos g)).
  intros g1 Hg1 Hs1 Hk1 Hat Hno Hp1 Hr1.
  apply wp_bind; [intros; solve_sticky|]. apply wp_on_ctx, wp_on_target. cbn [snd with_target cc_target].
  apply (wp_close_rep _ t' (docs_map out) L); [done|]. cbn [db_file db_hdr]. intros g' Hk' Ec' Ep' Hr'.
  assert (tf_keep g g') as Hk by (by transitivity g1). apply wp_ret. split; [done|].
  exists t', (docs_map out), l. cbn [fst snd with_target cc_target db_file db_hdr cc_hook_ctx].
  pose proof (copies_keep _ _ _ _ _ Hk Hco) as Hco'. split_and!; try done.
  - by apply (db_rep_keep d); [..|apply tf_ext_keep|].
  - intros h' rd cr Hfl Hok' Hsy' Hcont. cbn [fst snd with_target cc_target db_file] in Hcont. rewrite Ec' in Hcont.
    apply (wp_open_rep {| db_file := g'; db_hdr := set_position hp hdr |} t' (docs_map out) L hp); try done; cbn [db_file db_hdr].
    + rewrite Hcont. destruct Hat as (Hal & Hwf & Himg). split_and!; [done|by destruct Hwf; split|done].
    + by rewrite Hcont.
    + rewrite Hcont. destruct Hat as (_ & _ & Himg). destruct (header_image_two hp hdr) as (b & rest & E2).
      apply has_end in Himg; [lia|by rewrite E2].
    + by rewrite Hcont, Ec'.
    + intros d' Hkd Hrd Hcd Ehd. split_and!; [done|done|]. by eapply copies_keep.
Qed.
End Whole.
