(* ===== verification/Sample.v ===== *)
(** * Sample: a concrete database

    A database on the in-memory file of FileOps, made by running the library: a
    new file, then one batch of three documents (a plain one, a compressed one
    and a deletion).  Snappy is instantiated by the stored form, which satisfies
    its laws.  The witnesses of the database theorems run here. *)

From Stdlib Require Import ZArith Lia Sorted.
From S2P Require Import Prelude Bitfield NodeTypes Util FileOps TreeFile NodeStore Header BTree BTreeInv BTreeFlush TreeSpec BTreeModify Reduces BTreeRead Docs Save DocCodec DbSpec SaveSpec SaveDb Recovery.
From stdpp Require Import list numbers gmap.

#[local] Open Scope Z_scope.
#[local] Open Scope couch_scope.

#[global] Instance stored_Snappy : Snappy :=
  {| snappy_max_compressed_length n := 32 + n + n / 6; snappy_compress b _ := Some b;
     snappy_uncompressed_length b := Some (blen b); snappy_uncompress b _ := Some b |}.

#[global] Instance stored_SnappyLaws : SnappyLaws.
Proof.
  split. intros b _. exists b. split_and!; [done..|].
  pose proof (blen_nonneg b). pose proof (Z.div_pos (blen b) 6). lia.
Qed.

Definition sample_info (id : bytes) (content_meta : Z) : DocInfo :=
  {| di_id := id; di_db_seq := 0; di_rev_seq := 1; di_rev_meta := [Byte.x11; Byte.x22]; di_deleted := 0;
     di_content_meta := content_meta; di_bp := 0; di_size := 0 |}.
Definition sample_body : bytes := [Byte.x68; Byte.x65; Byte.x6c; Byte.x6c; Byte.x6f].
Definition sample_infos : list DocInfo :=
  [sample_info [Byte.x61] 0; sample_info [Byte.x62] 128; sample_info [Byte.x63] 0].
Definition sample_docs : list (option Doc) :=
  [Some {| doc_id := [Byte.x61]; doc_data := sample_body |};
   Some {| doc_id := [Byte.x62]; doc_data := sample_body ++ sample_body |}; None].

(** A new database, then the batch, with compression allowed. *)
Definition sample_program : M (Db memfile) (couchstore_error_t * list DocInfo) :=
  let* _ := couchstore_open_db_ex false true in
  couchstore_save_documents 10 (Some sample_docs) sample_infos 1.

Lemma sample_inputs : Forall2 input_ok sample_docs sample_infos.
Proof. repeat constructor; cbn; lia. Qed.

Lemma sample_ids : NoDup (map di_id sample_infos).
Proof. apply (bool_decide_unpack _). by vm_compute. Qed.

Lemma sample_runs : io_failed (final (sample_program (closed mf_empty))) = false.
Proof. by vm_compute. Qed.

Lemma sample_new : exists d : Db memfile, db_rep d empty_trees ∅ ∅ /\ dh_update_seq (db_hdr d) = 0.
Proof.
  destruct (wp_elim (couchstore_open_db_ex false true)
    (fun _ d => db_rep d empty_trees ∅ ∅ /\ dh_update_seq (db_hdr d) = 0) (closed mf_empty)) as (e & d & _ & Hd).
  - by apply wp_open_new.
  - by vm_compute.
  - by exists d.
Qed.

(** The state the program leaves. *)
Definition sample_rep (d : Db memfile) (t : trees) (D : gmap bytes DocInfo) (saved : list DocInfo) : Prop :=
  db_rep d t D ∅ /\ D = save_all saved ∅ /\ dh_update_seq (db_hdr d) = 3 /\
  stored_all (db_file d) 1 sample_docs sample_infos 0 saved.

(** Nothing was ever purged from it. *)
Lemma sample_db_purge : exists d t D saved, sample_rep d t D saved /\
  dh_purge_seq (db_hdr d) = 0 /\ dh_purge_ptr (db_hdr d) = 0.
Proof.
  destruct (wp_elim sample_program (fun r d => exists t D saved, db_rep d t D ∅ /\ D = save_all saved ∅ /\
      dh_update_seq (db_hdr d) = 3 /\ stored_all (db_file d) 1 sample_docs sample_infos 0 saved) (closed mf_empty))
    as (r & d & E & t & D & saved & Hr & ED & Hu & Hst); [|apply sample_runs|].
  - unfold sample_program. apply wp_bind; [intros; apply sticky_save_documents|].
    apply wp_open_new; [done..|]. intros d Hr Hu _.
    eapply (wp_save_documents d empty_trees); [exact Hr|exact sample_inputs|exact sample_ids|rewrite Hu; cbn; lia| | |].
    + by vm_compute.
    + cbn. lia.
    + intros d' t' saved infos' _ Hr' Hst _ Hu'. rewrite Hu in *. by exists t', (save_all saved ∅), saved.
  - exists d, t, D, saved. split; [exact (conj Hr (conj ED (conj Hu Hst)))|].
    change d with (final (Ret r d)). rewrite <- E. split; by vm_compute.
Qed.

Lemma sample_db : exists d t D saved, sample_rep d t D saved.
Proof. destruct sample_db_purge as (d & t & D & saved & Hs & _). by exists d, t, D, saved. Qed.

Lemma sample_saved d t D saved n doc info : sample_rep d t D saved ->
  sample_docs !! n = Some doc -> sample_infos !! n = Some info ->
  exists i, D !! di_id info = Some i /\ stored_as (db_file d) 1 doc info (1 + Z.of_nat n) i.
Proof.
  intros (_ & -> & _ & Hst) Hd Hi. pose proof (stored_all_ids _ _ _ _ _ _ Hst) as Hids.
  assert (exists i, saved !! n = Some i /\ stored_as (db_file d) 1 doc info (1 + Z.of_nat n) i) as (i & Hn & Hs).
  { destruct saved as [|i0 [|i1 [|i2 [|]]]]; cbn [stored_all sample_docs sample_infos] in Hst; try tauto.
    destruct Hst as (H0 & H1 & H2 & _). destruct n as [|[|[|n]]]; cbn in Hd, Hi; simplify_eq; eauto. }
  exists i. split; [|done].
  apply (save_all_lookup saved); [rewrite Hids; apply sample_ids|by eapply list_elem_of_lookup_2|apply Hs].
Qed.

Lemma sample_second d t D saved : sample_rep d t D saved ->
  exists i, D !! [Byte.x62] = Some i /\ di_db_seq i = 2.
Proof.
  intros Hr. destruct (sample_saved d t D saved 1 _ _ Hr eq_refl eq_refl) as (i & Hi & _ & Hseq & _). by exists i.
Qed.

Lemma sample_deleted d t D saved i : sample_rep d t D saved -> D !! [Byte.x63] = Some i -> di_bp i = 0.
Proof.
  intros Hr Hi. destruct (sample_saved d t D saved 2 _ _ Hr eq_refl eq_refl) as (j & Hj & Hs).
  cbn in Hj. rewrite Hi in Hj. injection Hj as <-. by destruct Hs as (_ & _ & _ & _ & _ & _ & ? & _).
Qed.

Lemma save_all_size saved D : (size (save_all saved D) <= size D + length saved)%nat.
Proof.
  unfold save_all. revert D. induction saved as [|i saved IH]; intros D; cbn [foldl length]; [lia|].
  specialize (IH (<[di_id i := i]> D)). rewrite map_size_insert in IH. destruct (D !! di_id i); cbn in IH; lia.
Qed.

Lemma sumZ_bound {X} (g : X -> Z) l m : Forall (fun x => g x <= m) l -> sumZ g l <= Z.of_nat (length l) * m.
Proof. unfold sumZ. induction 1 as [|x l Hx _ IH]; cbn [foldr length]; lia. Qed.

Lemma count_docs_size P D : count_docs P D <= Z.of_nat (size D).
Proof.
  unfold count_docs. pose proof (List.filter_length_le P (map_to_list D).*2) as Hl.
  rewrite length_fmap, length_map_to_list in Hl. lia.
Qed.

(** The counts are far below the limits of their fields. *)
Lemma sample_small d t D saved : sample_rep d t D saved ->
  count_docs is_live D < 2 ^ 40 /\ count_docs (fun i => negb (is_live i)) D < 2 ^ 40 /\
  sumZ di_size (map_to_list D).*2 < 2 ^ 48.
Proof.
  intros (Hr & ED & _ & Hst).
  assert (size D <= 3)%nat as Hsize.
  { rewrite ED. etransitivity; [apply save_all_size|]. rewrite map_size_empty.
    pose proof (f_equal length (stored_all_ids _ _ _ _ _ _ Hst)) as Hl. rewrite !length_map in Hl. by rewrite Hl. }
  pose proof (count_docs_size is_live D). pose proof (count_docs_size (fun i => negb (is_live i)) D).
  assert (sumZ di_size (map_to_list D).*2 <= Z.of_nat (length (map_to_list D).*2) * 2 ^ 28) as Hs.
  { apply sumZ_bound, list.Forall_forall. intros i Hi. apply list_elem_of_fmap in Hi as ([id j] & -> & Hi).
    apply elem_of_map_to_list in Hi. destruct (proj1 (dr_docs _ _ _ _ Hr) _ _ Hi) as (_ & Hok & _).
    cbn. pose proof (io_size _ Hok). lia. }
  rewrite length_fmap, length_map_to_list in Hs. lia.
Qed.
