(* ===== verification/StoreTheorems.v ===== *)
(** * StoreTheorems: what the storage layers promise

    The B-tree, the chunks and the header against their specifications, and the
    places where the code does something else than its comments say. *)

From Stdlib Require Import ZArith Lia Sorted.
From S2P Require Import Prelude Bitfield NodeTypes Crc32 Util FileOps TreeFile NodeStore Header BTree BTreeInv BTreeFlush TreeSpec BTreeModify Reduces BTreeRead Docs Save DocCodec DbSpec SaveSpec SaveDb Sample.
From stdpp Require Import list numbers gmap.

#[local] Open Scope Z_scope.
#[local] Open Scope couch_scope.
#[local] Existing Instance pure_ctx | 100.

(** ** The tree *)

Section Tree.
Context {F C A : Type} `{HF : Faulty F} `{HN : !NodeStore F} `{HL : !NodeStoreLaws F}.

(** C3: modify_btree applies a batch to a finite map.  On a tree that holds the
    sorted items [kvs] it returns a root of a tree that holds the map after the
    actions, in key order and with correct reductions in every node; every fetch
    has reported the value its key had before the batch, and everything stored
    before is still there. *)
Theorem modify_btree_refines (rq : modify_request C A) kvok rval `{!ReduceLaws rq kvok rval} `{!KeyOrder (rq_compare rq)}
    fuel st c c2 h root kvs (acts : list (modify_action A)) :
  (forall k v, kvok k v -> vkey (compare := rq_compare rq) k) ->
  ns_ok st -> root_at kvok rval st h root kvs -> ksorted (compare := rq_compare rq) kvs ->
  Forall (act_ok rq kvok) acts -> acts_sorted (compare := rq_compare rq) acts ->
  fetch_all (rq_fetch_callback rq) kvs acts c = Some c2 -> weight kvs + aweight acts + 1 < max_node ->
  rq_compacting rq = false -> (h + length kvs + length acts < fuel)%nat ->
  wp (modify_btree (F := F) rq fuel root acts)
     (fun r s => r.2 = COUCHSTORE_SUCCESS /\ s.2 = c2 /\ ns_ok s.1 /\ ns_ext st s.1 /\
        exists h' kvs', root_at kvok rval s.1 h' r.1 kvs' /\ ksorted (compare := rq_compare rq) kvs' /\
          as_map kvs' = apply_actions (as_map kvs) acts) (st, c).
Proof.
  intros Hkey Hst Hroot Hs Hok Hsa Hf Hw Hc Hfuel. eapply (wp_modify_btree rq kvok rval); try done.
  intros st' h' root' o Hst' He Ho Hr. split_and!; try done. exists h', o. split_and!; [done|apply Ho|].
  by apply (outcome_map (compare := rq_compare rq)).
Qed.

(** A callback that records its calls. *)
Definition record_call (k : bytes) (v : option bytes) : M (F * list (bytes * option bytes)) couchstore_error_t :=
  fun s => Ret COUCHSTORE_SUCCESS (s.1, s.2 ++ [(k, v)]).
Definition recording (compare : bytes -> bytes -> option Z) : lookup_request F (list (bytes * option bytes)) :=
  {| lq_compare := compare; lq_fetch_callback := record_call; lq_node_callback := None |}.

Lemma record_sticky k v : sticky (record_call k v).
Proof. intros [f c] Hf. exact Hf. Qed.

Lemma recording_delivers compare l st c :
  delivers (recording compare) l (fun e s => e = COUCHSTORE_SUCCESS /\ s.2 = c ++ l /\ ns_ok s.1 /\ ns_ext st s.1) st c.
Proof.
  enough (forall st0, ns_ext st st0 -> delivers (recording compare) l
    (fun e s => e = COUCHSTORE_SUCCESS /\ s.2 = c ++ l /\ ns_ok s.1 /\ ns_ext st s.1) st0 c) as Hgen by (by apply Hgen).
  revert c. induction l as [|[k v] l IH]; intros c st0 He0; cbn [delivers].
  - intros st' Hok He. rewrite app_nil_r. split_and!; [done|done|done|]. by transitivity st0.
  - intros st' Hok He _. rewrite decide_True by done. cbn [fst snd]. split_and!; [done|reflexivity|].
    replace (c ++ (k, v) :: l) with ((c ++ [(k, v)]) ++ l) by (by rewrite <- app_assoc).
    apply IH. by transitivity st0.
Qed.

Variable compare : bytes -> bytes -> option Z.
Context `{HK : !KeyOrder compare}.
Variable kvok : bytes -> bytes -> Prop.
Variable rval : list kv -> bytes.
Hypothesis kvok_key : forall k v, kvok k v -> vkey k.
Hypothesis kvok_fits : forall k v, kvok k v -> kv_fits k v.
Hypothesis rval_size : forall kvs, blen (rval kvs) <= REDUCE_BUF_SIZE.

(** C31: btree_lookup finds every key.  Given sorted keys of which all but the last
    are in the tree, it calls the callback once for each key, in order, with the
    value stored for it, or with none if the last key is absent. *)
Theorem btree_lookup_finds fuel h ks st c pos kvs sz :
  (h < fuel)%nat -> ns_ok st -> node_at kvok rval st h pos kvs sz -> ksorted kvs ->
  Forall vkey ks -> StronglySorted klt ks -> present kvs ks ->
  wp (btree_lookup (recording compare) fuel false ks pos)
     (fun e s => e = COUCHSTORE_SUCCESS /\ s.2 = c ++ found kvs ks /\ ns_ok s.1 /\ ns_ext st s.1) (st, c).
Proof.
  intros Hfuel Hst Hn Hs Hv Hks Hp.
  eapply (wp_btree_lookup (recording compare) kvok rval (HK := HK)); try done; [apply record_sticky|apply recording_delivers].
Qed.

End Tree.

(** ** Chunks and headers *)

Section Chunks.
Context {H : Type} `{HO : FileOps H} `{HF : Faulty H} `{HL : !FileLaws H}.

(** C33: a chunk that was appended stays readable.  db_write_buf returns the end of
    the file as its position; from any later state of the file that kept what stood
    below its own end, pread_bin at that position returns the bytes, which the
    block prefixes and the checksum in between do not change. *)
Theorem append_then_read buf (f : tree_file H) :
  tf_ok f -> blen buf < 2 ^ 31 ->
  wp (db_write_buf buf)
     (fun r f1 => exists size, r = Done (tf_pos f, size) /\ tf_ok f1 /\ tf_ext f f1 /\ tf_pos f1 = tf_pos f + size /\
        forall f2, tf_ok f2 -> tf_keep f1 f2 ->
          wp (pread_bin (tf_pos f)) (fun r f3 => r = Done buf /\ tf_contents f3 = tf_contents f2) f2) f.
Proof.
  intros Hf Hl. apply wp_append; [by apply tf_ok_appending|done|]. intros f1 _ Hok1 He Hat Hlt Hp. eexists. split_and!; auto.
  intros f2 (Hok2 & Hp2 & _) Hk. apply (chunk_at_keep f1 f2) in Hat as (Hpos & Hle & _ & Hhas); [|done].
  apply (wp_pread_bin buf); [done|done|done|done|]. by intros f3 _ _ Hc.
Qed.

(** A damaged chunk is not returned.  When the checksum stored with a chunk is
    not zero and is not the CRC-32 of its bytes, pread_bin fails with
    CHECKSUM_FAIL; a stored zero is not compared. *)
Theorem damaged_chunk_rejected crc buf pos (f : tree_file H) :
  file_ok (tf_handle f) -> 0 <= pos -> blen buf < 2 ^ 31 -> 0 < crc < 2 ^ 32 -> crc <> hash_crc32 buf ->
  has (tf_contents f) pos (layout pos (chunk_with crc buf)) ->
  wp (pread_bin pos) (fun r f' => r = Error COUCHSTORE_ERROR_CHECKSUM_FAIL /\ tf_contents f' = tf_contents f) f.
Proof.
  intros Hok Hp Hl Hcrc Hne Hhas. apply (wp_pread_chunk crc buf); [done|done|done|lia|done|].
  intros f' _ _ Hc. by rewrite decide_True by lia.
Qed.

(** The header codec.  What decode_header reads from the bytes write_header
    builds is the header that was written: its sequence numbers and its roots
    with their reductions; sizes are kept modulo their six bytes and the roots
    have no keys. *)
Theorem header_roundtrip pos h (d : Db H) :
  header_wf pos h ->
  decode_header pos (header_bytes h) d =
  Ret COUCHSTORE_SUCCESS {| db_file := db_file d; db_hdr := norm_header pos h |}.
Proof. apply decode_header_bytes. Qed.
End Chunks.

(** ** Codecs *)

(** The value of the by-id index holds the whole DocInfo: reading back what
    assemble_id_index_value wrote, with the id as the key, gives it again. *)
Theorem by_id_docinfo_roundtrip i : info_ok i ->
  by_id_read_docinfo (di_id i) (assemble_id_index_value i) = Some (Done i).
Proof. apply by_id_read_assemble. Qed.

(** The same for the by-sequence index, whose key holds the sequence number
    and whose value holds the id. *)
Theorem by_seq_docinfo_roundtrip i : info_ok i ->
  by_seq_read_docinfo (encode_raw48 (di_db_seq i)) (assemble_seq_index_value i) = Some (Done i).
Proof. apply by_seq_read_assemble. Qed.

(** An item of a node is read back, whatever follows it, and the count of bytes
    read_kv reports is the one write_kv wrote. *)
Theorem kv_item_roundtrip k v rest : blen k < 2 ^ 12 -> blen v < 2 ^ 28 ->
  read_kv (write_kv k v ++ rest) = Some (k, v, length (write_kv k v)).
Proof. intros Hk Hv. apply read_kv_write_kv. by split. Qed.

(** The comparisons order the two indexes.  ebin_cmp is the lexicographic order
    of bytes with a prefix first, and seq_cmp orders six byte keys by the sequence
    numbers they encode. *)
Theorem comparisons_are_orders :
  (forall a b, (ebin_cmp a b < 0 <-> lex_lt a b) /\ (ebin_cmp a b = 0 <-> a = b)) /\
  (forall m n, 0 <= m < 2 ^ 48 -> 0 <= n < 2 ^ 48 ->
     exists c, seq_cmp (encode_raw48 m) (encode_raw48 n) = Some c /\ (c < 0 <-> m < n) /\ (c = 0 <-> m = n)).
Proof.
  split.
  - intros a b. destruct (ebin_cmp_lex a b) as [[H1 H2]|[[H1 H2]|[H1 H2]]].
    + split; split; try done; try lia. intros ->. by apply lex_lt_irrefl in H2.
    + subst. split; split; try done; try lia. by intros ?%lex_lt_irrefl.
    + split; split; try done; try lia.
      * intros H3. exfalso. eapply lex_lt_irrefl. by eapply lex_lt_trans.
      * intros ->. by apply lex_lt_irrefl in H2.
  - intros m n Hm Hn. unfold seq_cmp.
    rewrite !decode_sequence_key_be, !encode_raw48_be, !be_val_be_bytes by apply encode_raw48_length.
    change (256 ^ Z.of_nat 6) with (2 ^ 48). rewrite !Z.mod_small by done. cbn [mbind option_bind].
    repeat case_decide; eexists; (split; [reflexivity|]); lia.
Qed.

(** Fatbuf_get hands out disjoint parts of its buffer.  As long as the sizes
    fit, the parts follow one another inside the allocation. *)
Theorem fatbuf_parts sizes size : Forall (fun n => 0 <= n) sizes -> sumZ (fun n : Z => n) sizes <= size < 2 ^ 64 ->
  foldl (fun s n => let '(ps, fb) := s in let '(p, fb) := fatbuf_get fb n in (ps ++ [p], fb))
    ([], fatbuf_alloc size) sizes =
  (map (fun i => Some (sumZ (fun n : Z => n) (take i sizes))) (seq 0 (length sizes)),
   {| fb_pos := sumZ (fun n : Z => n) sizes; fb_size := size |}).
Proof.
  intros Hs Hsize. induction sizes as [|n sizes IH] using rev_ind; [done|].
  apply Forall_app in Hs as [Hs Hn]. apply list.Forall_cons in Hn as [Hn _]. rewrite sumZ_app in Hsize |- *.
  assert (sumZ (fun n : Z => n) [n] = n) as E1 by (unfold sumZ; cbn; lia). rewrite E1 in Hsize |- *.
  assert (0 <= sumZ (fun n : Z => n) sizes).
  { clear -Hs. unfold sumZ. induction Hs as [|x l Hx _ IHl]; cbn; [done|]. lia. }
  rewrite foldl_app, IH by (done || lia). cbn [foldl]. rewrite fatbuf_get_fits by (cbn; lia). cbn [fb_pos fb_size].
  rewrite length_app, seq_app, map_app. cbn [length seq map]. f_equal. f_equal.
  - apply map_ext_in. intros i Hi%in_seq. rewrite take_app_le by lia. done.
  - by rewrite Nat.add_0_l, take_app_length.
Qed.

(** ** Runs on the sample database *)

(** Any open database has a file that can be appended to. *)
Lemma sample_tf : exists f : tree_file memfile, tf_ok f.
Proof. destruct sample_new as (d & Hr & _). exists (db_file d). apply Hr. Qed.

(** The tree of the index by id of the sample, with its items. *)
Lemma sample_id_tree : exists (f : tree_file memfile) h pos kvs sz,
  tf_ok f /\ node_at id_kvok by_id_rval f h pos kvs sz /\ ksorted (compare := ebin_compare) kvs /\ value_of [Byte.x61] kvs <> None.
Proof.
  destruct sample_db as (d & t & D & saved & Hs). destruct Hs as (Hr & Hs). pose proof (conj Hr Hs) as Hrep.
  destruct (sample_saved d t D saved 0 _ _ Hrep eq_refl eq_refl) as (i & Hi & _). change (D !! [Byte.x61] = Some i) in Hi.
  destruct (dr_id _ _ _ _ Hr) as (Hso & h & _ & Hroot). exists (db_file d), h.
  destruct (dh_by_id_root (db_hdr d)) as [root|] eqn:Er.
  - destruct Hroot as (sz & Hn & _). exists (np_pointer root), (t_id t), sz. split_and!; [apply Hr|done|done|].
    rewrite value_of_map, (dr_id_map _ _ _ _ Hr), lookup_fmap, Hi. done.
  - apply db_rep_empty in Hr as [[He _] _]. rewrite (He Er) in Hi. done.
Qed.

Lemma modify_btree_refines_witness : exists (f : tree_file memfile) fuel,
  wp (modify_btree (F := tree_file memfile) local_request fuel None [ACTION_INSERT [Byte.x61] [Byte.x62]])
     (fun r s => exists h' kvs', root_at local_kvok no_rval s.1 h' r.1 kvs' /\
        as_map kvs' = {[ [Byte.x61] := [Byte.x62] ]}) (f, tt).
Proof.
  destruct sample_tf as (f & Hok). exists f, 5%nat. pose proof local_ReduceLaws as HR.
  eapply wp_mono; [apply (modify_btree_refines local_request local_kvok no_rval 5 f tt tt 0 None []
    [ACTION_INSERT [Byte.x61] [Byte.x62]])|].
  - done.
  - exact Hok.
  - done.
  - constructor.
  - by repeat constructor.
  - by repeat constructor.
  - done.
  - by vm_compute.
  - done.
  - cbn. lia.
  - intros r s (_ & _ & _ & _ & h' & kvs' & Hr & _ & Hm). exists h', kvs'. split; [done|]. rewrite Hm. apply insert_empty.
Defined.

Lemma btree_lookup_finds_witness : exists (f : tree_file memfile) fuel pos kvs,
  value_of [Byte.x61] kvs <> None /\
  wp (btree_lookup (recording ebin_compare) fuel false [[Byte.x61]] pos)
     (fun e s => e = COUCHSTORE_SUCCESS /\ s.2 = [([Byte.x61], value_of [Byte.x61] kvs)]) (f, []).
Proof.
  destruct sample_id_tree as (f & h & pos & kvs & sz & Hok & Hn & Hs & Hv). exists f, (S h), pos, kvs. split; [done|].
  eapply wp_mono; [apply (btree_lookup_finds ebin_compare id_kvok by_id_rval id_kvok_key id_kvok_fits by_id_rval_size
    (S h) h [[Byte.x61]] f [] pos kvs sz)|].
  - lia.
  - exact Hok.
  - exact Hn.
  - exact Hs.
  - by repeat constructor.
  - by repeat constructor.
  - by split.
  - by intros e s (? & ? & _).
Defined.


Lemma append_then_read_witness : exists f : tree_file memfile,
  wp (db_write_buf sample_body) (fun r f1 => wp (pread_bin (tf_pos f)) (fun r _ => r = Done sample_body) f1) f.
Proof.
  destruct sample_tf as (f & Hok). exists f.
  eapply wp_mono; [apply (append_then_read sample_body f Hok); by vm_compute|].
  intros r f1 (size & _ & Hok1 & _ & _ & Hread). eapply wp_mono; [apply (Hread f1 Hok1)|by intros r3 f3 [? _]].
  apply tf_ext_keep. reflexivity.
Defined.

Lemma has_tail (x : byte) c : has (x :: c) 1 c.
Proof. split; [lia|]. by intros i y Hi. Qed.

Lemma damaged_chunk_rejected_witness :
  let f := {| tf_pos := 10; tf_handle := {| mf_data := Byte.x00 :: chunk_with 7 [Byte.x61]; mf_faults := []; mf_failed := false |} |} in
  wp (pread_bin 1) (fun r _ => r = Error COUCHSTORE_ERROR_CHECKSUM_FAIL) f.
Proof.
  cbv zeta. set (f := {| tf_pos := 10 |}).
  eapply wp_mono; [apply (damaged_chunk_rejected 7 [Byte.x61] 1 f)|by intros r f' [? _]].
  - done.
  - lia.
  - by vm_compute.
  - lia.
  - apply Z.eqb_neq. by vm_compute.
  - assert (layout 1 (chunk_with 7 [Byte.x61]) = chunk_with 7 [Byte.x61]) as -> by (by vm_compute). apply has_tail.
Defined.

Definition sample_header : db_header := set_update_seq 5 zero_header.

Lemma header_roundtrip_witness :
  decode_header 4096 (header_bytes sample_header) (H := memfile) {| db_file := {| tf_pos := 0; tf_handle := mf_empty |}; db_hdr := zero_header |} =
  Ret COUCHSTORE_SUCCESS {| db_file := {| tf_pos := 0; tf_handle := mf_empty |}; db_hdr := norm_header 4096 sample_header |}.
Proof. apply (header_roundtrip 4096 sample_header). split; cbn; try done; lia. Defined.

Definition sample_stored : DocInfo :=
  {| di_id := [Byte.x61]; di_db_seq := 7; di_rev_seq := 2; di_rev_meta := [Byte.x11]; di_deleted := 1;
     di_content_meta := 128; di_bp := 4097; di_size := 13 |}.
Lemma sample_stored_ok : info_ok sample_stored.
Proof. split; first [by vm_compute|by right|split; by vm_compute]. Qed.

Lemma by_id_docinfo_roundtrip_witness :
  by_id_read_docinfo [Byte.x61] (assemble_id_index_value sample_stored) = Some (Done sample_stored).
Proof. exact (by_id_docinfo_roundtrip sample_stored sample_stored_ok). Defined.

Lemma by_seq_docinfo_roundtrip_witness :
  by_seq_read_docinfo (encode_raw48 7) (assemble_seq_index_value sample_stored) = Some (Done sample_stored).
Proof. exact (by_seq_docinfo_roundtrip sample_stored sample_stored_ok). Defined.

Lemma kv_item_roundtrip_witness :
  read_kv (write_kv [Byte.x61] sample_body ++ [Byte.xff]) = Some ([Byte.x61], sample_body, 11%nat).
Proof. apply (kv_item_roundtrip [Byte.x61] sample_body [Byte.xff]); by vm_compute. Defined.

Lemma fatbuf_parts_witness :
  foldl (fun s n => let '(ps, fb) := s in let '(p, fb) := fatbuf_get fb n in (ps ++ [p], fb)) ([], fatbuf_alloc 10) [6; 4] =
  ([Some 0; Some 6], {| fb_pos := 10; fb_size := 10 |}).
Proof. apply (fatbuf_parts [6; 4] 10); [repeat constructor; lia|by vm_compute]. Defined.
