(* ===== verification/SortTheorems.v ===== *)
(** * SortTheorems: the external sort and the bulk load

    The promise of merge_sort for any callbacks, its witness and that of the bulk
    load on concrete files, and what the tree writer does with items it cannot take. *)

From Stdlib Require Import ZArith Lia.
From stdpp Require Import sorting gmap numbers list.
From S2P Require Import Prelude FileOps Runs LinkedSort Stdio MergeSort MergeSortProofs Util TreeFile NodeStore BTree BTreeInv BTreeFlush Reduces TreeWriter Header DbSpec SaveDb Sample StoreTheorems.

#[local] Open Scope Z_scope.
#[local] Open Scope couch_scope.

(** C14: merge_sort sorts a file.  For callbacks that read and write records and compare
    them by a total order, it succeeds and reports the number of records; the output
    then holds the records of the input in ascending order, also when it is the input
    itself, the temporary files are closed and no other stream has changed. *)
Theorem merge_sort_sorts {B} read write compare cmp (fresh : B) enc rok max_record_size
    `{!RecordIO read write enc rok max_record_size} `{!Compares rok compare cmp} fuel f g block_size l s :
  0 <= max_record_size -> streams_ok s -> sort_files enc s f g l ->
  (exists e, io_files s !! f = Some {| fl_data := encs enc l; fl_pos := 0; fl_error := e |}) ->
  Forall rok l -> Z.of_nat (length l) < 2 ^ 63 -> 0 < block_size < 2 ^ 63 -> (length l < fuel)%nat ->
  wp (merge_sort read write compare fresh fuel f g max_record_size block_size)
     (fun r s' => r = (COUCHSTORE_SUCCESS, Some (Z.of_nat (length l))) /\
        exists l', StronglySorted (fun a b => cmp a b <= 0) l' /\ l' ≡ₚ l /\
          (exists p e, io_files s' !! g = Some {| fl_data := encs enc l'; fl_pos := p; fl_error := e |}) /\
          forall h, h ∉ [f; g] -> io_files s' !! h = io_files s !! h) s.
Proof.
  intros Hmax Hs Hfg Hf Hok Hl Hb Hfuel. eapply wp_mono; [by apply (wp_merge_sort read write compare cmp fresh enc rok max_record_size)|].
  intros r s' (-> & l' & Hsort & Hp & Hg & _ & Hsame). split; [done|]. by exists l'.
Qed.

Definition item_b : kv := ([Byte.x62], [Byte.x01]).
Definition item_a : kv := ([Byte.x61], [Byte.x02; Byte.x03]).
Definition item_c : kv := ([Byte.x63; Byte.x63], [Byte.x04]).

Definition sample_streams (items : list kv) : stdio :=
  {| io_files := {[0%nat := {| fl_data := encs enc (records items); fl_pos := 0; fl_error := false |}]}; io_next := 1;
     io_script := []; io_bad := false |}.

Lemma sample_streams_ok items : streams_ok (sample_streams items).
Proof. intros h Hh. cbn in *. apply lookup_singleton_ne. lia. Qed.

Lemma sample_items_ok : Forall item_ok [item_b; item_a; item_c].
Proof. repeat constructor; do 2 eexists; (split; [reflexivity|]); by vm_compute. Qed.

(** Three records, with blocks of one, so that there are two passes. *)
Lemma merge_sort_sorts_witness :
  wp (merge_sort read_id_record write_id_record (compare_id_record ebin_compare) None 4 0 0 ID_SORT_MAX_RECORD_SIZE 1)
     (fun r s' => r = (COUCHSTORE_SUCCESS, Some 3) /\
        exists l', StronglySorted (fun a b => record_cmp ebin_cmp a b <= 0) l' /\ l' ≡ₚ records [item_b; item_a; item_c] /\
          (exists p e, io_files s' !! 0%nat = Some {| fl_data := encs enc l'; fl_pos := p; fl_error := e |}) /\
          forall h, h ∉ [0%nat; 0%nat] -> io_files s' !! h = io_files (sample_streams [item_b; item_a; item_c]) !! h)
     (sample_streams [item_b; item_a; item_c]).
Proof.
  assert (Compares rok (compare_id_record ebin_compare) (record_cmp ebin_cmp)) as HC.
  { split; [apply _|]. intros a b (k & v & -> & _) (k' & v' & -> & _). done. }
  apply (merge_sort_sorts read_id_record write_id_record (compare_id_record ebin_compare) (record_cmp ebin_cmp) None enc rok ID_SORT_MAX_RECORD_SIZE
    4 0 0 1 (records [item_b; item_a; item_c])).
  - done.
  - apply sample_streams_ok.
  - split; [do 2 eexists; apply lookup_singleton_eq|by left].
  - eexists. apply lookup_singleton_eq.
  - exact (proj2 (Forall_mapped _ _ _) sample_items_ok).
  - done.
  - done.
  - cbn. lia.
Defined.

Definition sample_writer : TreeWriter :=
  {| tw_file := 0; tw_key_compare := ebin_compare; tw_reduce := None; tw_rereduce := None |}.

Lemma tree_writer_builds_tree_witness : exists f : tree_file memfile,
  wp (bulk_load 4 ebin_compare None None [item_b; item_a; item_c])
     (fun r s' => r.1 = COUCHSTORE_SUCCESS /\ exists h items', items' ≡ₚ [item_b; item_a; item_c] /\
        StronglySorted (key_le ebin_cmp) items' /\ root_at local_kvok no_rval (ss_store s') h r.2 items')
     {| ss_store := f; ss_stdio := sample_streams [] |}.
Proof.
  destruct sample_tf as (f & Hok). exists f.
  assert (ReduceLaws (writer_request sample_writer) local_kvok no_rval) as HR by (by apply no_ReduceLaws).
  eapply wp_mono; [apply (tree_writer_builds_tree sample_writer local_kvok no_rval (fun _ => True) ebin_cmp 4 [item_b; item_a; item_c])|].
  - exact Hok.
  - apply sample_streams_ok.
  - apply sample_items_ok.
  - by repeat constructor.
  - by repeat constructor.
  - repeat constructor; intros l; by vm_compute.
  - by vm_compute.
  - cbn. lia.
  - intros r s' (He & _ & _ & Hr). exact (conj He Hr).
Defined.

(** The sort writes past its buffer.  Records are read into buffers of 4196 bytes
    whatever their length: an item with a key of one byte and a value of 4164 bytes is
    accepted by TreeWriterAddItem, and read_id_record then writes beyond the end of the
    buffer. *)
Theorem long_record_overruns_buffer :
  let value := replicate 4164 Byte.x00 in
  exists s s', TreeWriterAddItem sample_writer [Byte.x61] value (sample_streams []) = Ret COUCHSTORE_SUCCESS s /\
    (let* _ := rewind 0 in read_id_record 0 None) s = Undef s'.
Proof. do 2 eexists. split; vm_compute; reflexivity. Qed.

(** An empty value is refused with a write error.  fwrite of an item of size zero
    returns zero, so TreeWriterAddItem reports a failed write although no call failed,
    and leaves the lengths and the key in the file. *)
Theorem empty_value_is_refused :
  exists s, TreeWriterAddItem sample_writer [Byte.x61] [] (sample_streams []) = Ret COUCHSTORE_ERROR_WRITE s /\
    io_failed s = false /\ fl_data <$> io_files s !! 0%nat = Some [Byte.x00; Byte.x01; Byte.x00; Byte.x00; Byte.x00; Byte.x00; Byte.x61].
Proof. eexists. split_and!; vm_compute; reflexivity. Qed.
