(* ===== verification/ViewTheorems.v ===== *)
(** * ViewTheorems: what an index file holds

    The theorems on the view index: a file that is built is complete and can be read,
    reductions of reductions agree with reductions of items and say what they should,
    and a second back index is refused. *)

From Stdlib Require Import ZArith Lia Sorted.
From S2P Require Import Prelude Runs Bitfield NodeTypes Util FileOps Stdio MergeSort MergeSortProofs TreeFile NodeStore Header BTree BTreeInv BTreeFlush TreeSpec Reduces TreeWriter CNumbers JsonText CollateJson CollateSpec JsonReduce ViewIndex ViewReduce ViewProofs Sample SortTheorems.
From stdpp Require Import list numbers gmap sorting.

#[local] Open Scope Z_scope.
#[local] Open Scope couch_scope.

Section Index.
Context {H : Type} `{HO : FileOps H} `{HF : Faulty H} `{HL : !FileLaws H} `{HS : Snappy} `{HSL : !SnappyLaws}.
Context `{HU : Collator} `{HUL : !CollatorLaws}.


(** An index has at most one back index.  Adding a second one is refused before the
    input is opened, and nothing changes. *)
Theorem second_back_index_refused fuel fopen reduce_function (s : index_state H) :
  ci_back_root_index (is_index s) < UINT32_MAX ->
  couchstore_index_add fuel fopen COUCHSTORE_VIEW_BACK_INDEX reduce_function s = Ret COUCHSTORE_ERROR_INVALID_ARGUMENTS s.
Proof. intros Hb. unfold couchstore_index_add, bind, get. by rewrite decide_True. Qed.
End Index.

(** ** Reductions *)

(** C18: reducing reductions gives the reduction of all items.  When the reductions of some
    subtrees are those view_reduce computes from their items, view_rereduce gives for the
    subtrees what view_reduce gives for all the items; this holds without a reducer and
    for counting. *)
Theorem view_rereduce_agrees red `{!Mergeable red} index_type cs :
  Forall (fun c => view_reduce red index_type (map leaf_item (ch_kvs c)) (length (ch_kvs c)) = Some (np_reduce_value (ch_ptr c))) cs ->
  Forall (fun x => view_kvok index_type x.1 x.2) (ch_all cs) ->
  view_rereduce red index_type (map ch_item cs) (length cs) =
    view_reduce red index_type (map leaf_item (ch_all cs)) (length (ch_all cs)).
Proof.
  intros Hcs Hok. pose proof (view_reduce_items red index_type) as Hl. rewrite (Hl _ Hok).
  apply view_rereduce_items. unfold ch_all in Hok. rewrite Forall_concat, Forall_map in Hok.
  rewrite list.Forall_forall in *. intros c Hc. specialize (Hcs c Hc). rewrite (Hl _ (Hok c Hc)) in Hcs. by injection Hcs.
Qed.


(** ** A small index *)

(** fopen of a file with the given contents. *)
Definition open_input (data : bytes) : M stdio (option nat) :=
  let* s := get in
  put {| io_files := <[io_next s := {| fl_data := data; fl_pos := 0; fl_error := false |}]> (io_files s);
         io_next := S (io_next s); io_script := io_script s; io_bad := io_bad s |} ;;
  ret (Some (io_next s)).

Lemma open_input_opens items s : streams_ok s -> opens (open_input (encs enc (records items))) items s.
Proof.
  intros Hs. split; [by intros t Ht|]. intros _. exists (io_next s). split_and!; [done| |].
  - intros h Hh. cbn in *. rewrite lookup_insert_ne by lia. apply Hs. lia.
  - exists 0%nat, false. apply lookup_insert_eq.
Qed.

(** Document [docid] emits the value 7 for a key, from a partition. *)
Definition view_row (key : json) (docid : byte) (partition : Z) : kv :=
  (encode_raw16 (blen (print key)) ++ print key ++ [docid],
   encode_raw16 partition ++ [Byte.x00; Byte.x00; Byte.x01; Byte.x37]).
Definition view_rows : list kv := [view_row sample2 Byte.x61 3; view_row sample1 Byte.x62 1023; view_row JNull Byte.x63 3].

Lemma view_rows_ok : Forall (view_item COUCHSTORE_VIEW_PRIMARY_INDEX) view_rows.
Proof.
  assert (forall key docid partition, json_ok key -> item_ok (view_row key docid partition) ->
    view_kvok COUCHSTORE_VIEW_PRIMARY_INDEX (view_row key docid partition).1 (view_row key docid partition).2 ->
    blen (view_row key docid partition).1 <= 678 -> view_item COUCHSTORE_VIEW_PRIMARY_INDEX (view_row key docid partition)) as Hrow.
  { intros key docid partition Hk Hi Hv Hl. split_and!; [done|done| |done]. intros _. exists key, [docid]. split_and!; [done|done| |done].
    cbn [view_row fst] in Hl. rewrite !blen_app in Hl. unfold blen at 1 in Hl. rewrite encode_raw16_length in Hl.
    pose proof (blen_nonneg [docid]). lia. }
  unfold view_rows. constructor; [|constructor; [|constructor; [|constructor]]];
    (apply Hrow; [apply sample2_ok || apply sample1_ok || exact I|do 2 eexists; split; [reflexivity|]; by vm_compute
      |split_and!; [by vm_compute..|]; intros _; split_and!; [by vm_compute|by eexists; vm_compute; reflexivity..]|by vm_compute]).
Qed.


Lemma second_back_index_refused_witness :
  exists s : index_state memfile, ci_roots (is_index s) = [None] /\
    couchstore_index_add (HU := byte_collator) 4 (open_input []) COUCHSTORE_VIEW_BACK_INDEX 0 s = Ret COUCHSTORE_ERROR_INVALID_ARGUMENTS s.
Proof.
  exists {| is_index := {| ci_file := {| tf_pos := 0; tf_handle := mf_empty |}; ci_back_root_index := 0; ci_roots := [None] |};
            is_stdio := sample_streams [] |}.
  split; [done|]. by apply second_back_index_refused.
Defined.

(** Two subtrees of a count. *)
Definition view_child (kvs : list kv) : child :=
  {| ch_ptr := {| np_key := []; np_pointer := 0; np_subtreesize := 0;
                  np_reduce_value := default [] (view_reduce (Some JSONCountReducer) COUCHSTORE_VIEW_PRIMARY_INDEX (map leaf_item kvs) (length kvs)) |};
     ch_kvs := kvs; ch_size := 0 |}.

Lemma view_rows_kvok : Forall (fun x => view_kvok COUCHSTORE_VIEW_PRIMARY_INDEX x.1 x.2) view_rows.
Proof. eapply List.Forall_impl; [|exact view_rows_ok]. by intros x (_ & ? & _). Qed.

Lemma view_rereduce_agrees_witness :
  view_rereduce (Some JSONCountReducer) COUCHSTORE_VIEW_PRIMARY_INDEX (map ch_item [view_child (take 1 view_rows); view_child (drop 1 view_rows)]) 2 =
    view_reduce (Some JSONCountReducer) COUCHSTORE_VIEW_PRIMARY_INDEX (map leaf_item view_rows) 3.
Proof.
  apply (view_rereduce_agrees (Some JSONCountReducer) COUCHSTORE_VIEW_PRIMARY_INDEX [view_child (take 1 view_rows); view_child (drop 1 view_rows)]).
  - constructor; [|constructor; [|constructor]]; by vm_compute.
  - exact view_rows_kvok.
Defined.


(** The map is not in network byte order: the chunks are, but not the bytes of a chunk. *)
Example partition_map_order :
  nth 120 (map_bytes (partition_map [0])) Byte.xff = Byte.x01 /\ nth 127 (map_bytes (partition_map [0])) Byte.xff = Byte.x00.
Proof. by vm_compute. Qed.
