(* ===== verification/DbTheorems.v ===== *)
(** * DbTheorems: what the database operations promise

    The operations of the public interface against the maps [D] and [L] of
    DbSpec, each with a run on the database of Sample.  All of them are total:
    unless the file fails, they return with the fuel named, without undefined
    behaviour. *)

From Stdlib Require Import ZArith Lia Sorted.
From S2P Require Import Prelude Bitfield NodeTypes Util FileOps TreeFile NodeStore Header BTree BTreeInv BTreeFlush TreeSpec BTreeModify Reduces BTreeRead Docs Save DocCodec DbSpec DbIter SaveSpec SaveDb Recovery Sample.
From stdpp Require Import list numbers gmap.

#[local] Open Scope Z_scope.
#[local] Open Scope couch_scope.
#[local] Existing Instance pure_ctx | 100.

Section Theorems.
Context {H : Type} `{HO : FileOps H} `{HF : Faulty H} `{HL : !FileLaws H} `{HS : Snappy} `{HSL : !SnappyLaws}.

(** What couchstore_save_documents may be given: well-formed documents with
    distinct ids, sequence numbers that do not run out, and trees whose total
    size stays below the limit of a node buffer. *)
Record batch_ok (d : Db H) (t : trees) (docs : option (list (option Doc))) (infos : list DocInfo) : Prop := {
  bt_inputs : Forall2 input_ok (doc_list docs infos) infos;
  bt_ids : NoDup (map di_id infos);
  bt_seqs : dh_update_seq (db_hdr d) + Z.of_nat (length infos) < 2 ^ 48;
  bt_room : weight (t_id t) + weight (t_seq t) + sumZ info_weight infos + 1 < max_node
}.

Definition save_fuel (t : trees) (infos : list DocInfo) : nat :=
  S (t_height t + length (t_id t) + length (t_seq t) + 2 * length infos).

(** C1: couchstore_save_documents refines the update of a finite map.  From a
    database that stands for the documents [D] it succeeds and leaves one that
    stands for [save_all saved D]: each document of the batch replaces the one
    with its id, takes the next sequence number, and its body is in the file;
    the other documents, the local documents and all earlier bytes of the file
    are untouched, and the caller's DocInfos carry the numbers given out. *)
Theorem save_documents_refines d t D L fuel docs infos options :
  db_rep d t D L -> batch_ok d t docs infos -> (save_fuel t infos <= fuel)%nat ->
  wp (couchstore_save_documents fuel docs infos options)
     (fun r d' => r.1 = COUCHSTORE_SUCCESS /\ exists t' saved,
        db_rep d' t' (save_all saved D) L /\ tf_ext (db_file d) (db_file d') /\
        stored_all (db_file d') options (doc_list docs infos) infos (dh_update_seq (db_hdr d)) saved /\
        map di_db_seq r.2 = map di_db_seq saved /\
        dh_update_seq (db_hdr d') = dh_update_seq (db_hdr d) + Z.of_nat (length infos)) d.
Proof.
  intros Hr [] Hfuel. unfold save_fuel in Hfuel. eapply wp_save_documents; try done.
  intros d' t' saved infos' He Hr' Hst Hm Hu. split; [done|]. by exists t', saved.
Qed.


(** C4: a saved document is read back.  After couchstore_save_documents,
    couchstore_open_document of the id of any document of the batch that has a
    body returns that body, with the same options and enough fuel. *)
Theorem save_then_open d t D L fuel docs infos options n doc info :
  db_rep d t D L -> batch_ok d t docs infos -> (save_fuel t infos <= fuel)%nat ->
  doc_list docs infos !! n = Some (Some doc) -> infos !! n = Some info ->
  wp (couchstore_save_documents fuel docs infos options)
     (fun r d' => r.1 = COUCHSTORE_SUCCESS /\ exists n, forall fuel', (n <= fuel')%nat ->
        wp (couchstore_open_document fuel' (di_id info) options None)
           (fun r _ => r = Done {| doc_id := di_id info; doc_data := doc_data doc |}) d') d.
Proof.
  intros Hr [] Hfuel Hdoc Hinfo. unfold save_fuel in Hfuel. eapply wp_save_documents; try done.
  intros d' t' saved infos' He Hr' Hst Hm Hu. split; [done|]. exists (S (t_height t')). intros fuel' Hf'.
  destruct (stored_all_lookup _ _ _ _ _ _ n doc info Hst Hdoc Hinfo) as (i & seq & Hi & Eid & _ & _ & _ & Ecm & _ & Hbp & Hbody).
  eapply wp_open_document; [exact Hr'|done| |done|by rewrite Ecm|done].
  pose proof (stored_all_ids _ _ _ _ _ _ Hst) as Hids.
  apply (save_all_lookup saved D (di_id info)); [by rewrite Hids|by eapply list_elem_of_lookup_2|done].
Qed.

(** C10: couchstore_docinfo_by_id answers from the map: the DocInfo of the id, or
    DOC_NOT_FOUND with the caller's pointer untouched. *)
Theorem docinfo_by_id_correct d t D L fuel id p :
  db_rep d t D L -> (t_height t < fuel)%nat ->
  wp (couchstore_docinfo_by_id fuel id p)
     (fun r d' => after_read d d' /\ r = match D !! id with
        | Some i => (COUCHSTORE_SUCCESS, Some i) | None => (COUCHSTORE_ERROR_DOC_NOT_FOUND, p) end) d.
Proof. intros Hr Hfuel. by eapply wp_docinfo_by_id. Qed.

(** C16: couchstore_docinfo_by_sequence finds the document whose current sequence
    number is [seq], and DOC_NOT_FOUND when no document has it, as after the
    document was saved again. *)
Theorem docinfo_by_sequence_correct d t D L fuel seq p :
  db_rep d t D L -> (t_height t < fuel)%nat -> 0 <= seq < 2 ^ 48 ->
  wp (couchstore_docinfo_by_sequence fuel seq p)
     (fun r d' => after_read d d' /\
        ((exists id i, D !! id = Some i /\ di_db_seq i = seq /\ r = (COUCHSTORE_SUCCESS, Some i)) \/
         ((forall id i, D !! id = Some i -> di_db_seq i <> seq) /\ r = (COUCHSTORE_ERROR_DOC_NOT_FOUND, p)))) d.
Proof.
  intros Hr Hfuel Hseq. eapply wp_docinfo_by_sequence; try done.
  - intros d' id i Ha Hi E. split; [done|]. left. by exists id, i.
  - intros Hno d' Ha. split; [done|]. by right.
Qed.

(** Couchstore_open_document of an id that is not there, or whose document
    has no body, is DOC_NOT_FOUND. *)
Theorem open_document_missing d t D L fuel id options info :
  db_rep d t D L -> (t_height t < fuel)%nat -> (forall i, D !! id = Some i -> di_bp i = 0) ->
  wp (couchstore_open_document fuel id options info)
     (fun r d' => after_read d d' /\ r = Error COUCHSTORE_ERROR_DOC_NOT_FOUND) d.
Proof. intros Hr Hfuel Hno. by eapply wp_open_no_body. Qed.

(** C17: local documents.  couchstore_save_local_document inserts the document
    or, when it is marked deleted, removes it; couchstore_open_local_document
    then answers accordingly for every id, and no other document changes. *)
Theorem local_documents d t D L fuel lDoc :
  db_rep d t D L -> blen (ld_id lDoc) < 2 ^ 12 -> blen (ld_json lDoc) < 2 ^ 28 ->
  weight (t_local t) + blen (ld_id lDoc) + blen (ld_json lDoc) + 1025 < max_node ->
  (t_height t + length (t_local t) + 1 < fuel)%nat ->
  wp (couchstore_save_local_document fuel lDoc)
     (fun e d' => e = COUCHSTORE_SUCCESS /\ exists t', db_rep d' t' D (save_local lDoc L) /\
        (forall fuel' id p, (t_height t' < fuel')%nat ->
          wp (couchstore_open_local_document fuel' id p)
             (fun r d'' => after_read d' d'' /\ match save_local lDoc L !! id with
                | Some json => r = (COUCHSTORE_SUCCESS, Some {| ld_id := id; ld_json := json; ld_deleted := 0 |})
                | None => r.1 = COUCHSTORE_ERROR_DOC_NOT_FOUND end) d')) d.
Proof.
  intros Hr Hid Hjson Hw Hfuel. eapply wp_save_local_document; try done.
  intros d' t' Hr' _ _ _. split; [done|]. exists t'. split; [done|]. intros fuel' id p Hf'.
  eapply wp_open_local_document; [done..|]. intros d'' Ha.
  by destruct (save_local lDoc L !! id).
Qed.

(** Couchstore_db_info reports the true counts: the live and the deleted
    documents, the last sequence number and, modulo 2^64, the size of the bodies
    and the three trees.  It reads them from the reductions in the root. *)
Theorem db_info_counts d t D L :
  db_rep d t D L -> count_docs is_live D < 2 ^ 40 -> count_docs (fun i => negb (is_live i)) D < 2 ^ 40 ->
  sumZ di_size (map_to_list D).*2 < 2 ^ 48 ->
  wp couchstore_db_info
     (fun r d' => d' = d /\ r = (COUCHSTORE_SUCCESS,
        {| dbi_last_sequence := dh_update_seq (db_hdr d); dbi_doc_count := count_docs is_live D;
           dbi_deleted_count := count_docs (fun i => negb (is_live i)) D;
           dbi_space_used := u64 (sumZ di_size (map_to_list D).*2 + subtree_size (dh_by_id_root (db_hdr d)) +
             subtree_size (dh_by_seq_root (db_hdr d)) + subtree_size (dh_local_docs_root (db_hdr d)));
           dbi_header_position := dh_position (db_hdr d) |})) d.
Proof. intros Hr H1 H2 H3. by eapply wp_db_info. Qed.

(** Opening an empty file for writing makes a database without documents. *)
Theorem open_new_database h create :
  file_ok h -> synced h -> contents h = [] ->
  wp (couchstore_open_db_ex false create)
     (fun e d => e = COUCHSTORE_SUCCESS /\ db_rep d empty_trees ∅ ∅) (closed h).
Proof. intros. by apply wp_open_new. Qed.
End Theorems.

Section Multi.
Context {H C : Type} `{HO : FileOps H} `{HF : Faulty H} `{HL : !FileLaws H} `{HS : Snappy} `{HSL : !SnappyLaws}.
Variable cb : changes_callback (H := H) (C := C).
Hypothesis cb_sticky : forall i, sticky (cb i).

Lemma sort_id_list (ids : list bytes) : NoDup ids ->
  exists ks, qsort id_ptr_cmp ids = Some ks /\ ks ≡ₚ ids /\ StronglySorted lex_lt ks.
Proof.
  intros Hnd. destruct (qsort_spec id_ptr_cmp (fun _ => True) (fun x y => lex_lt x y \/ x = y)) with (l := ids)
    as (r & E & Hp & Hs).
  - intros x y z [Hxy| ->] [Hyz| <-]; auto. left. by eapply lex_lt_trans.
  - intros x y _ _. exists (ebin_cmp x y). split; [done|].
    destruct (ebin_cmp_lex x y) as [[? ?]|[[? ->]|[? ?]]]; split; auto; lia.
  - by apply list.Forall_true.
  - exists r. split_and!; [done|done|]. eapply (sorted_strict (fun x => x)); [|by rewrite map_id, Hp|exact Hs].
    cbn. intros x y [?|?] ?; done.
Qed.

(** The documents of a list of ids that all exist. *)
Lemma docs_of_ids (D : gmap bytes DocInfo) upd ks : docs_ok D upd -> (forall k, k ∈ ks -> D !! k <> None) ->
  exists l, map di_id l = ks /\ Forall (fun i => D !! di_id i = Some i /\ info_ok i) l.
Proof.
  intros HD. induction ks as [|k ks IH]; intros Hk; [by exists []|].
  destruct IH as (l & Hl & Hall); [intros k' Hk'; by apply Hk, list_elem_of_further|].
  destruct (D !! k) as [i|] eqn:Ei; [|by apply Hk in Ei; [|apply list_elem_of_here]].
  destruct (proj1 HD _ _ Ei) as (Hid & Hok & _). exists (i :: l). cbn. rewrite Hl, Hid. split; [done|].
  constructor; [|done]. by rewrite Hid.
Qed.

Lemma wanted_all l : List.filter (wanted 0) l = l.
Proof. induction l as [|i l IH]; [done|]. cbn. by rewrite IH. Qed.

(** The entries of the documents [l] in the index by id. *)
Definition id_entries (l : list DocInfo) : list kv := map (fun i => (di_id i, assemble_id_index_value i)) l.

Lemma id_entries_found d t D L l : db_rep d t D L -> Forall (fun i => D !! di_id i = Some i /\ info_ok i) l ->
  found (t_id t) (map di_id l) = map (fun x => (x.1, Some x.2)) (id_entries l) /\
  Forall (readable true) (id_entries l) /\ map (info_of true) (id_entries l) = l /\ present (t_id t) (map di_id l).
Proof.
  intros Hr Hl. unfold found, id_entries. induction Hl as [|i l [Hi Hok] _ (IH1 & IH2 & IH3 & IH4)]; [by split_and!|]. cbn [map].
  destruct (readable_ok true (di_id i, assemble_id_index_value i) i) as [Hread Hinfo]; [by apply by_id_read_assemble|].
  rewrite IH1, IH3, Hinfo, (value_of_id _ _ _ _ _ Hr), Hi. split_and!; [done|by constructor|done|].
  split; [|done]. intros _. apply list_elem_of_fmap. exists (di_id i, assemble_id_index_value i). split; [done|].
  by apply (id_item_of _ _ _ _ (di_id i) i Hr).
Qed.

(** Couchstore_docinfos_by_id with ids that all exist, in any order and
    without repetition, calls the callback for exactly their documents, once each
    and in the order of the ids, up to the first error it returns. *)
Theorem docinfos_by_id_in_order d t D L fuel ids options :
  db_rep d t D L -> (t_height t < fuel)%nat -> NoDup ids -> (forall id, id ∈ ids -> D !! id <> None) ->
  flag options RANGES = false ->
  exists l, StronglySorted (fun i j => lex_lt (di_id i) (di_id j)) l /\
    map di_id l ≡ₚ ids /\ (forall i, i ∈ l -> D !! di_id i = Some i) /\
    forall (ctx : C) Q, visits cb l Q (db_file d) ctx ->
      wp (couchstore_docinfos_by_id fuel ids options cb ctx)
         (fun r d' => db_hdr d' = db_hdr d /\ Q r.1 (db_file d', r.2)) d.
Proof.
  intros Hr Hfuel Hnd Hin Hopt. destruct (sort_id_list ids Hnd) as (ks & Eks & Hp & Hsorted).
  destruct (docs_of_ids D _ ks (dr_docs _ _ _ _ Hr)) as (l & Hl & Hall); [intros k Hk; apply Hin; by rewrite <- Hp|].
  destruct (id_entries_found _ _ _ _ _ Hr Hall) as (Hfound & Hread & Hinfo & Hpres). rewrite Hl in Hfound, Hpres.
  exists l. split_and!.
  - rewrite <- Hl in Hsorted. clear -Hsorted. induction l as [|i l IH]; [constructor|]. cbn in Hsorted.
    apply StronglySorted_inv in Hsorted as [Hs Hx]. constructor; [by apply IH|]. exact (proj1 (Forall_mapped _ _ _) Hx).
  - by rewrite Hl.
  - intros i Hi. rewrite list.Forall_forall in Hall. by apply Hall.
  - intros ctx Q Hv. unfold couchstore_docinfos_by_id, iterate_docinfos. rewrite Hopt.
    pose proof (dr_id _ _ _ _ Hr) as Ht. fold (context cb true 0).
    apply wp_bind; [intros; case_match; [rewrite Eks; cbv iota; apply sticky_need_bind; intros; apply sticky_run_list; exact cb_sticky|solve_sticky]|]. intros _.
    destruct (dh_by_id_root (db_hdr d)) as [root|] eqn:Eroot.
    + rewrite Eks. apply wp_need_Some. eapply (wp_lookup_list cb cb_sticky id_kvok by_id_rval true 0 fuel (t_height t) d root (t_id t) ks (id_entries l));
        eauto using id_kvok_key, id_kvok_fits, by_id_rval_size; [apply Hr|by apply list.Forall_true|].
      by rewrite Hinfo, wanted_all.
    + apply tree_at_none in Ht as [E _]. specialize (E eq_refl). rewrite E in Hpres. apply wp_ret. split; [done|].
      destruct l as [|i l]; [by apply Hv; [apply Hr|]|]. exfalso. apply list.Forall_cons in Hall as [[Hi _] _].
      pose proof (id_item_of _ _ _ _ _ _ Hr Hi) as Hx. rewrite E in Hx. by apply not_elem_of_nil in Hx.
Qed.
End Multi.

(** ** Runs on the sample database *)

Ltac with_sample d t D saved Hr ED Hu Hst :=
  destruct sample_db as (d & t & D & saved & Hr & ED & Hu & Hst).

Lemma save_documents_refines_witness : exists (d : Db memfile) t,
  db_rep d t ∅ ∅ /\ wp (couchstore_save_documents 10 (Some sample_docs) sample_infos 1)
     (fun r d' => r.1 = COUCHSTORE_SUCCESS) d.
Proof.
  destruct sample_new as (d & Hr & Hu). exists d, empty_trees. split; [done|].
  eapply wp_mono; [apply (save_documents_refines d empty_trees ∅ ∅); [exact Hr| |unfold save_fuel; cbn; lia]|].
  - split; [exact sample_inputs|exact sample_ids|rewrite Hu; cbn; lia|by vm_compute].
  - by intros r d' [? _].
Defined.

Lemma save_then_open_witness : exists (d : Db memfile) t,
  db_rep d t ∅ ∅ /\ wp (couchstore_save_documents 10 (Some sample_docs) sample_infos 1)
     (fun r d' => exists fuel', wp (couchstore_open_document fuel' [Byte.x61] 1 None)
        (fun r _ => r = Done {| doc_id := [Byte.x61]; doc_data := sample_body |}) d') d.
Proof.
  destruct sample_new as (d & Hr & Hu). exists d, empty_trees. split; [done|].
  eapply wp_mono; [apply (save_then_open d empty_trees ∅ ∅ 10 (Some sample_docs) sample_infos 1 0
    {| doc_id := [Byte.x61]; doc_data := sample_body |} (sample_info [Byte.x61] 0)); [exact Hr| |unfold save_fuel; cbn; lia|done|done]|].
  - split; [exact sample_inputs|exact sample_ids|rewrite Hu; cbn; lia|by vm_compute].
  - intros r d' [_ [n Hn]]. exists n. by apply Hn.
Defined.


Lemma docinfo_by_id_correct_witness : exists (d : Db memfile) t D fuel,
  db_rep d t D ∅ /\ wp (couchstore_docinfo_by_id fuel [Byte.x7a] None)
    (fun r _ => r = match D !! [Byte.x7a] with
       | Some i => (COUCHSTORE_SUCCESS, Some i) | None => (COUCHSTORE_ERROR_DOC_NOT_FOUND, None) end) d.
Proof.
  with_sample d t D saved Hr ED Hu Hst. exists d, t, D, (S (t_height t)). split; [done|].
  eapply wp_mono; [apply (docinfo_by_id_correct d t D ∅); [done|lia]|]. by intros r d' [_ ?].
Defined.

Lemma docinfo_by_sequence_correct_witness : exists (d : Db memfile) t D fuel,
  db_rep d t D ∅ /\ wp (couchstore_docinfo_by_sequence fuel 2 None)
    (fun r _ => exists id i, D !! id = Some i /\ di_db_seq i = 2 /\ r = (COUCHSTORE_SUCCESS, Some i)) d.
Proof.
  with_sample d t D saved Hr ED Hu Hst. destruct (sample_second d t D saved) as (i & Hi & Hseq); [by split_and!|].
  exists d, t, D, (S (t_height t)). split; [done|].
  eapply wp_mono; [apply (docinfo_by_sequence_correct d t D ∅ _ 2); [done|lia|lia]|].
  intros r d' [_ [?|[Hno _]]]; [done|]. by apply Hno in Hi.
Defined.

Lemma open_document_missing_witness : exists (d : Db memfile) t D fuel,
  db_rep d t D ∅ /\ wp (couchstore_open_document fuel [Byte.x63] 1 None)
    (fun r _ => r = Error COUCHSTORE_ERROR_DOC_NOT_FOUND) d.
Proof.
  with_sample d t D saved Hr ED Hu Hst. pose proof (sample_deleted d t D saved) as Hdel.
  exists d, t, D, (S (t_height t)). split; [done|].
  eapply wp_mono; [apply (open_document_missing d t D ∅); [done|lia|]|].
  - intros i Hi. apply Hdel; [by split_and!|done].
  - by intros r d' [_ ?].
Defined.

Definition sample_local : LocalDoc := {| ld_id := [Byte.x78]; ld_json := [Byte.x7b; Byte.x7d]; ld_deleted := 0 |}.

Lemma local_documents_witness : exists (d : Db memfile) t,
  db_rep d t ∅ ∅ /\ wp (couchstore_save_local_document 5 sample_local)
    (fun e d' => e = COUCHSTORE_SUCCESS /\ exists fuel, wp (couchstore_open_local_document fuel [Byte.x78] None)
      (fun r _ => r = (COUCHSTORE_SUCCESS, Some sample_local)) d') d.
Proof.
  destruct sample_new as (d & Hr & Hu). exists d, empty_trees. split; [done|].
  eapply wp_mono; [apply (local_documents d empty_trees ∅ ∅ 5 sample_local);
    [exact Hr|by vm_compute|by vm_compute|by vm_compute|cbn; lia]|].
  intros e d' (He & t' & _ & Ho). split; [done|]. exists (S (t_height t')).
  eapply wp_mono; [apply (Ho _ [Byte.x78] None); lia|]. intros r d'' [_ Hres]. exact Hres.
Defined.

Lemma db_info_counts_witness : exists (d : Db memfile) t D,
  db_rep d t D ∅ /\ dh_update_seq (db_hdr d) = 3 /\
  wp couchstore_db_info (fun r _ => r.1 = COUCHSTORE_SUCCESS /\ dbi_doc_count r.2 = count_docs is_live D) d.
Proof.
  with_sample d t D saved Hr ED Hu Hst. destruct (sample_small d t D saved) as (H1 & H2 & H3); [by split_and!|].
  exists d, t, D. split_and!; [done..|].
  eapply wp_mono; [apply (db_info_counts d t D ∅ Hr); [apply H1|apply H2|apply H3]|]. by intros r d' [_ ->].
Defined.

Lemma open_new_database_witness :
  wp (couchstore_open_db_ex false true)
     (fun e d => e = COUCHSTORE_SUCCESS /\ db_rep d empty_trees ∅ ∅) (closed mf_empty).
Proof. by apply (open_new_database mf_empty true). Defined.

(** A changes callback that collects the documents it is called with. *)
Definition collect (i : DocInfo) : M (tree_file memfile * list DocInfo) callback_int :=
  fun s => Ret (CB_CODE COUCHSTORE_SUCCESS) (s.1, s.2 ++ [i]).

Lemma collect_sticky i : sticky (collect i).
Proof. intros [f c] Hf. exact Hf. Qed.

Lemma collect_visits l f c : visits collect l (fun e s => e = COUCHSTORE_SUCCESS /\ s.2 = c ++ l) f c.
Proof.
  revert f c. induction l as [|i l IH]; intros f c; cbn [visits].
  - intros f' _ _. by rewrite app_nil_r.
  - intros f' Hok _ _. cbn [fst snd]. split_and!; [done|reflexivity|].
    replace (c ++ i :: l) with ((c ++ [i]) ++ l) by (by rewrite <- app_assoc). apply IH.
Qed.

Lemma changes_since_in_order_witness : exists (d : Db memfile) t D fuel l,
  db_rep d t D ∅ /\ StronglySorted (fun i j => di_db_seq i < di_db_seq j) l /\ (exists i, i ∈ l /\ di_db_seq i = 2) /\
  wp (couchstore_changes_since fuel 2 0 collect []) (fun r _ => r = (COUCHSTORE_SUCCESS, l)) d.
Proof.
  with_sample d t D saved Hr ED Hu Hst. destruct (sample_second d t D saved) as (i & Hi & Hseq); [by split_and!|].
  destruct (changes_since_in_order collect collect_sticky d t D ∅ (S (t_height t)) 2 0 Hr) as (l & Hs & Hl & Hw); [lia|lia|].
  exists d, t, D, (S (t_height t)), l. split_and!; [done|done| |].
  - exists i. split; [|done]. apply Hl. split_and!; [done|lia|]. by exists [Byte.x62].
  - eapply wp_mono; [apply (Hw [] _ (collect_visits l (db_file d) []))|]. intros [e c] d' [_ [H1 H2]]. cbn in H1, H2. by rewrite H1, H2.
Defined.

Lemma all_docs_in_order_witness : exists (d : Db memfile) t D fuel l,
  db_rep d t D ∅ /\ StronglySorted (fun i j => lex_lt (di_id i) (di_id j)) l /\
  wp (couchstore_all_docs fuel (Some [Byte.x62]) 0 collect []) (fun r _ => r = (COUCHSTORE_SUCCESS, l)) d.
Proof.
  with_sample d t D saved Hr ED Hu Hst.
  destruct (all_docs_in_order collect collect_sticky d t D ∅ (S (t_height t)) (Some [Byte.x62]) 0 Hr) as (l & Hs & Hl & Hw); [lia|].
  exists d, t, D, (S (t_height t)), l. split_and!; [done|done|].
  eapply wp_mono; [apply (Hw [] _ (collect_visits l (db_file d) []))|]. intros [e c] d' [_ [H1 H2]]. cbn in H1, H2. by rewrite H1, H2.
Defined.

Lemma docinfos_by_id_in_order_witness : exists (d : Db memfile) t D fuel l,
  db_rep d t D ∅ /\ map di_id l ≡ₚ [[Byte.x62]] /\
  wp (couchstore_docinfos_by_id fuel [[Byte.x62]] 0 collect []) (fun r _ => r = (COUCHSTORE_SUCCESS, l)) d.
Proof.
  with_sample d t D saved Hr ED Hu Hst. destruct (sample_second d t D saved) as (i & Hi & Hseq); [by split_and!|].
  destruct (docinfos_by_id_in_order collect collect_sticky d t D ∅ (S (t_height t)) [[Byte.x62]] 0 Hr) as (l & Hs & Hp & Hl & Hw);
    [lia|apply NoDup_singleton| |done|].
  { intros id ->%list_elem_of_singleton. by rewrite Hi. }
  exists d, t, D, (S (t_height t)), l. split_and!; [done|done|].
  eapply wp_mono; [apply (Hw [] _ (collect_visits l (db_file d) []))|]. intros [e c] d' [_ [H1 H2]]. cbn in H1, H2. by rewrite H1, H2.
Defined.
