(* ===== verification/CompactTheorems.v ===== *)
(** * CompactTheorems: what compaction promises

    couchstore_compact_db_ex with and without a hook, against the maps [D] and [L]
    of DbSpec, with runs on the database of Sample; and what it does when the
    target cannot be opened or a body cannot be written. *)

From Stdlib Require Import ZArith Lia Sorted.
From S2P Require Import Prelude Bitfield NodeTypes Util FileOps Stdio TreeFile NodeStore Header BTree BTreeInv BTreeFlush TreeSpec BTreeModify Reduces TreeWriter BTreeRead Docs Save DocCodec DbSpec SaveSpec SaveDb Recovery Compact CompactProofs CompactDb Sample.
From stdpp Require Import list numbers gmap.

#[local] Open Scope Z_scope.
#[local] Open Scope couch_scope.
#[local] Existing Instance pure_ctx | 100.

(** A document the flags drop, without a hook. *)
Definition dropped (flags : Z) (i : DocInfo) : bool :=
  bool_decide (di_deleted i <> 0) && flag flags COUCHSTORE_COMPACT_FLAG_DROP_DELETES.

(** A deletion that the compactor purges: its expiry lies before the limit. *)
Definition expired (limit : Z) (i : DocInfo) : bool :=
  bool_decide (di_deleted i <> 0 /\ 16 <= blen (di_rev_meta i)) &&
  match expiry (di_rev_meta i) with Some e => bool_decide (e < limit) | None => false end.

Definition purge_next (u : time_purge_ctx) (i : DocInfo) : time_purge_ctx :=
  if expired (purge_before u) i && bool_decide (max_purged_seq u < di_db_seq i)
  then {| purge_before := purge_before u; max_purged_seq := di_db_seq i |} else u.

Lemma slice_some n m (l : bytes) : (n + m <= length l)%nat -> is_Some (slice n m l).
Proof. intros Hl. unfold slice. case_decide; [by eexists|lia]. Qed.

Lemma expiry_some m : 16 <= blen m -> is_Some (expiry m).
Proof.
  unfold blen, expiry. intros Hm. destruct (slice_some 8 4 m) as [e ->]; [lia|]. by eexists.
Qed.

Section Theorems.
Context {H U : Type} `{HO : FileOps H} `{HF : Faulty H} `{HL : !FileLaws H} `{HS : Snappy} `{HSL : !SnappyLaws}.

(** Where the compaction starts: a file that can be made, and streams at hand. *)
Record fresh_target {V} (h : H) (c : compact_ctx H V) : Prop := {
  ft_closed : cc_target c = closed h;
  ft_ok : file_ok h;
  ft_synced : synced h;
  ft_empty : contents h = [];
  ft_streams : streams_ok (cc_stdio c)
}.

Lemma purge_seq_bumped (d : Db H) t D L flags : db_rep d t D L -> dh_purge_seq (db_hdr d) + 1 < 2 ^ 48 ->
  dh_purge_seq (target_header (db_hdr d) flags zero_header) =
    dh_purge_seq (db_hdr d) + (if flag flags COUCHSTORE_COMPACT_FLAG_DROP_DELETES then 1 else 0).
Proof.
  intros Hr Hp. pose proof (dr_purge_seq _ _ _ _ Hr). cbn [target_header dh_purge_seq].
  destruct (flag _ _); [|lia]. unfold u64. apply Z.mod_small. lia.
Qed.

(** Compaction without a hook, in terms of what is kept. *)
Lemma wp_compact_plain fuel (d : Db H) t D L flags h (c : compact_ctx H U) Q :
  db_rep d t D L -> compactable d t D -> (compact_fuel t <= fuel)%nat -> dh_purge_seq (db_hdr d) + 1 < 2 ^ 48 ->
  fresh_target h c ->
  (forall s, compacted flags (fun i => negb (dropped flags i)) (fun u _ => u) (fun _ p => p) d t D L (cc_hook_ctx c) s ->
     Q (COUCHSTORE_SUCCESS, false) s) ->
  wp (couchstore_compact_db_ex fuel (db_hdr d) flags None) Q (db_file d, c).
Proof.
  intros Hr Hc Hfuel Hp [] HQ.
  eapply wp_mono; [apply (wp_compact_db_ex None flags (fun i => negb (dropped flags i)) (fun u _ => u) (fun _ => True)
                            (fun _ p => p)) with (t := t) (D := D) (L := L) (h := h)|]; try done.
  - intros u _. rewrite (purge_seq_bumped d t D L) by done. pose proof (dr_purge_seq _ _ _ _ Hr). destruct (flag _ _); lia.
  - intros r s [-> Hs]. by apply HQ.
Qed.

(** C5: compaction without a hook keeps the database.  The new file stands for the
    same local documents and for the documents of the old one, each with all its
    fields and its body, except that deleted documents go when the flag asks for
    it; the update sequence is carried over and the purge counter moves only with
    the flag.  The source still stands for what it did, and whoever opens the new
    file finds the copy. *)
Theorem compact_preserves fuel (d : Db H) t D L flags h (c : compact_ctx H U) :
  db_rep d t D L -> compactable d t D -> (compact_fuel t <= fuel)%nat -> dh_purge_seq (db_hdr d) + 1 < 2 ^ 48 ->
  fresh_target h c ->
  wp (couchstore_compact_db_ex fuel (db_hdr d) flags None)
     (fun r s => r = (COUCHSTORE_SUCCESS, false) /\ exists t' D',
        let d' := cc_target s.2 in
        let keep := fun i => negb (dropped flags i) in
        db_rep d' t' D' L /\ copies (db_file d) (db_file d') keep D D' /\
        dh_update_seq (db_hdr d') = dh_update_seq (db_hdr d) /\
        dh_purge_seq (db_hdr d') = dh_purge_seq (db_hdr d) +
          (if flag flags COUCHSTORE_COMPACT_FLAG_DROP_DELETES then 1 else 0) /\
        db_rep {| db_file := s.1; db_hdr := db_hdr d |} t D L /\
        reopens keep d D D' L t' (db_file d'))
     (db_file d, c).
Proof.
  intros Hr Hc Hfuel Hp Hft. apply (wp_compact_plain fuel d t D L flags h); [done..|].
  intros s (t' & D' & l & Hr' & Hco & Hu & _ & _ & _ & Hpg & Hsrc & Hre). split; [done|].
  exists t', D'. split_and!; try done. by rewrite Hpg, (purge_seq_bumped d t D L).
Qed.

(** C6: what is read from a compacted file is what was in the old one.  Opening
    the new file and then a document that had a body gives that body. *)
Theorem compact_then_read fuel (d : Db H) t D L h (c : compact_ctx H U) id i options data :
  db_rep d t D L -> compactable d t D -> (compact_fuel t <= fuel)%nat -> dh_purge_seq (db_hdr d) + 1 < 2 ^ 48 ->
  fresh_target h c -> D !! id = Some i -> di_bp i <> 0 ->
  body_at (db_file d) (compressed (di_content_meta i) options) (di_bp i) data ->
  wp (couchstore_compact_db fuel (db_hdr d))
     (fun r s => r = (COUCHSTORE_SUCCESS, false) /\ exists n, forall fuel' h' rdonly create info, (n < fuel')%nat ->
        open_flags_ok rdonly create = true -> file_ok h' -> synced h' ->
        contents h' = tf_contents (db_file (cc_target s.2)) ->
        wp (let* _ := couchstore_open_db_ex rdonly create in couchstore_open_document fuel' id options info)
           (fun r _ => r = Done {| doc_id := id; doc_data := data |}) (closed h'))
     (db_file d, c).
Proof.
  intros Hr Hc Hfuel Hp Hft Hi Hbp Hb. apply (wp_compact_plain fuel d t D L 0 h); [done..|].
  intros s (t' & D' & l & Hr' & Hco & Hu & _ & _ & _ & Hpg & Hsrc & Hre). split; [done|].
  exists (t_height t'). intros fuel' h' rd cr info Hf Hfl Hok Hsy Hcont.
  apply wp_bind; [intros; apply sticky_open_document|].
  eapply wp_mono; [by apply (Hre h' rd cr)|]. intros e d' (-> & Hrep & Hcop).
  specialize (Hcop id). rewrite Hi in Hcop. unfold dropped in Hcop. change (flag 0 _) with false in Hcop.
  rewrite andb_false_r in Hcop. destruct Hcop as (j & Hj & Hm). pose proof Hm as (bp & -> & _ & Hz & _).
  apply (wp_open_document d' t' D' L fuel' id (set_bp bp i) options data); [done|done|exact Hj|by intros ?%Hz| |done].
  by apply (moved_body _ _ _ _ _ _ Hm).
Qed.

(** ** The hook of the compactor *)

Definition purge_inv (limit : Z) (u : time_purge_ctx) : Prop :=
  purge_before u = limit /\ 0 <= max_purged_seq u < 2 ^ 48.

Lemma time_purge_decides flags limit :
  decides (H := H) (Some time_purge_hook) flags (fun i => negb (expired limit i)) purge_next (purge_inv limit).
Proof.
  intros i d u Hi [<- Hu]. pose proof (io_db_seq i Hi) as Hs. split.
  { unfold purge_next, purge_inv. destruct (_ && _); cbn; split; try done; lia. }
  unfold time_purge_hook, purge_next, expired, bind, get. case_decide as Hd.
  - rewrite (bool_decide_true _ Hd). destruct (expiry_some _ (proj2 Hd)) as [e ->]. cbn.
    case_decide as He; [rewrite (bool_decide_true _ He)|rewrite (bool_decide_false _ He)]; cbn.
    + case_decide as Hm; [rewrite (bool_decide_true _ Hm)|rewrite (bool_decide_false _ Hm)]; by eexists.
    + eexists. split; [done|by left].
  - rewrite (bool_decide_false _ Hd). cbn. eexists. split; [done|by left].
Qed.

Lemma time_purge_finishes : finishes (H := H) (Some time_purge_hook) (fun u _ => max_purged_seq u).
Proof. intros d u. exists (HOOK_CODE COUCHSTORE_SUCCESS). split; [done|]. by intros e [= <-]. Qed.

Lemma time_purge_sticky : hook_sticky (H := H) (Some time_purge_hook).
Proof.
  intros i. unfold time_purge_hook. apply sticky_bind; [solve_sticky|]. intros [d u]. destruct i; solve_sticky.
Qed.

(** The context ends with the greatest sequence number of what was purged. *)
Lemma purge_fold l u :
  purge_before (foldl purge_next u l) = purge_before u /\
  max_purged_seq u <= max_purged_seq (foldl purge_next u l) /\
  (forall i, i ∈ l -> expired (purge_before u) i = true -> di_db_seq i <= max_purged_seq (foldl purge_next u l)) /\
  (max_purged_seq (foldl purge_next u l) = max_purged_seq u \/
   exists i, i ∈ l /\ expired (purge_before u) i = true /\ di_db_seq i = max_purged_seq (foldl purge_next u l)).
Proof.
  revert u. induction l as [|i l IH]; intros u; cbn [foldl].
  { split_and!; [done|lia| |by left]. intros i Hi. by apply elem_of_nil in Hi. }
  destruct (IH (purge_next u i)) as (Hb & Hle & Hall & Hex).
  assert (purge_before (purge_next u i) = purge_before u) as E by (unfold purge_next; by destruct (_ && _)).
  rewrite E in *.
  assert (max_purged_seq u <= max_purged_seq (purge_next u i) /\
          (expired (purge_before u) i = true -> di_db_seq i <= max_purged_seq (purge_next u i)) /\
          (max_purged_seq (purge_next u i) = max_purged_seq u \/
           expired (purge_before u) i = true /\ di_db_seq i = max_purged_seq (purge_next u i))) as (H1 & H2 & H3).
  { unfold purge_next. destruct (expired _ i) eqn:Ex; cbn [andb]; [|split_and!; [lia|done|by left]].
    case_bool_decide; cbn [max_purged_seq]; split_and!; try lia; auto. }
  split_and!; [done|lia| |].
  - intros j [->|Hj]%elem_of_cons Ej; [specialize (H2 Ej); lia|by apply Hall].
  - destruct Hex as [Hex|(j & Hj & Ej & Es)]; [|right; exists j; split_and!; [by right|done|done]].
    rewrite Hex. destruct H3 as [H3|[H3 H4]]; [by left|right; exists i]. split_and!; [by left|done|done].
Qed.

(** C7: the compactor purges exactly the deletions that have expired.  Every other
    document is copied, with its body, and the purge counter of the new file is
    the greatest sequence number among the purged documents, or what the context
    started with when there are none. *)
Theorem compactor_purges fuel (d : Db H) t D L flags h (c : compact_ctx H time_purge_ctx) :
  db_rep d t D L -> compactable d t D -> (compact_fuel t <= fuel)%nat ->
  fresh_target h c -> 0 <= max_purged_seq (cc_hook_ctx c) < 2 ^ 48 ->
  wp (couchstore_compact_db_ex fuel (db_hdr d) flags (Some time_purge_hook))
     (fun r s => r = (COUCHSTORE_SUCCESS, false) /\ exists t' D',
        let d' := cc_target s.2 in
        let gone := expired (purge_before (cc_hook_ctx c)) in
        let p := dh_purge_seq (db_hdr d') in
        db_rep d' t' D' L /\ copies (db_file d) (db_file d') (fun i => negb (gone i)) D D' /\
        dh_update_seq (db_hdr d') = dh_update_seq (db_hdr d) /\
        (forall id i, D !! id = Some i -> gone i = true -> di_db_seq i <= p) /\
        (p = max_purged_seq (cc_hook_ctx c) \/ exists id i, D !! id = Some i /\ gone i = true /\ di_db_seq i = p) /\
        reopens (fun i => negb (gone i)) d D D' L t' (db_file d'))
     (db_file d, c).
Proof.
  intros Hr Hc Hfuel [] Hm. set (limit := purge_before (cc_hook_ctx c)).
  eapply wp_mono; [apply (wp_compact_db_ex (Some time_purge_hook) flags (fun i => negb (expired limit i)) purge_next
    (purge_inv limit) (fun u _ => max_purged_seq u)) with (t := t) (D := D) (L := L) (h := h)|]; try done.
  - apply time_purge_decides.
  - apply time_purge_finishes.
  - apply time_purge_sticky.
  - by intros u [_ Hu].
  - intros r s [-> (t' & D' & l & Hr' & Hco & Hu & _ & Hin & _ & Hpg & _ & Hre)]. split; [done|].
    destruct (purge_fold l (cc_hook_ctx c)) as (_ & _ & Hall & Hex). cbv beta in Hpg.
    exists t', D'. cbv zeta. rewrite Hpg. split_and!; try done.
    + intros id i Hi. apply Hall, Hin. by rewrite (proj1 (proj1 (dr_docs _ _ _ _ Hr) _ _ Hi)).
    + destruct Hex as [Hex|(i & Hi & Ei)]; [by left|right]. exists (di_id i), i. split; [by apply Hin|done].
Qed.
End Theorems.

(** ** Runs on the sample *)

Definition sample_streams0 : stdio := {| io_files := ∅; io_next := 1; io_script := []; io_bad := false |}.
Definition sample_ctx {U} (u : U) : compact_ctx memfile U :=
  {| cc_target_mr := new_btree_modres; cc_target := closed mf_empty; cc_stdio := sample_streams0; cc_hook_ctx := u |}.

Lemma sample_fresh {U} (u : U) : fresh_target mf_empty (sample_ctx u).
Proof. split; try done. Qed.

Lemma save_all_elem (l : list DocInfo) (D : gmap bytes DocInfo) id i :
  save_all l D !! id = Some i -> (i ∈ l /\ di_id i = id) \/ D !! id = Some i.
Proof.
  unfold save_all. revert D. induction l as [|j l IH]; intros D; cbn [foldl]; [by right|]. intros Hi.
  destruct (IH _ Hi) as [[Hl <-]|Hd]; [left; split; [by right|done]|].
  destruct (decide (di_id j = id)) as [<-|Hne].
  - rewrite lookup_insert in Hd. rewrite decide_True in Hd by done. injection Hd as <-. left. split; [by left|done].
  - rewrite lookup_insert_ne in Hd by done. by right.
Qed.

(** Every document of the sample is one of the batch. *)
Lemma sample_each d t D saved id i : sample_rep d t D saved -> D !! id = Some i ->
  exists n doc info seq, sample_docs !! n = Some doc /\ sample_infos !! n = Some info /\
    stored_as (db_file d) 1 doc info seq i /\ di_id i = id.
Proof.
  intros (_ & -> & _ & Hst) Hi. destruct (save_all_elem _ _ _ _ Hi) as [[Hl E]|Hn]; [|done].
  destruct saved as [|i0 [|i1 [|i2 [|]]]]; cbn [stored_all sample_docs sample_infos] in Hst; try tauto.
  destruct Hst as (H0 & H1 & H2 & _). rewrite !elem_of_cons, elem_of_nil in Hl.
  destruct Hl as [->|[->|[->|[]]]]; [exists 0%nat|exists 1%nat|exists 2%nat]; eauto 10.
Qed.

Lemma body_chunk (f : tree_file memfile) b bp data : body_at f b bp data -> exists c, chunk_at f bp c.
Proof. destruct b; [intros (dsz & c & Hc & _)|]; eauto. Qed.

Lemma sample_lengths n info : sample_infos !! n = Some info -> blen (di_id info) = 1 /\ blen (di_rev_meta info) = 2.
Proof. destruct n as [|[|[|n]]]; by intros [= <-]. Qed.

Lemma weight_each {X} (g : X -> kv) l m :
  (forall x, x ∈ l -> blen (g x).1 + blen (g x).2 + 1024 <= m) -> weight (map g l) <= Z.of_nat (length l) * m.
Proof.
  intros Hl. rewrite <- (length_map g). apply sumZ_bound, list.Forall_forall. intros y Hy.
  apply list_elem_of_In, in_map_iff in Hy as (x & <- & Hx). by apply Hl, list_elem_of_In.
Qed.

Lemma sample_compactable d t D saved : sample_rep d t D saved -> dh_purge_ptr (db_hdr d) = 0 -> compactable d t D.
Proof.
  intros Hs Hp. pose proof Hs as (Hr & ED & _ & Hst).
  assert (forall id i, D !! id = Some i -> blen (di_id i) = 1 /\ blen (di_rev_meta i) = 2) as Hlen.
  { intros id i Hi. destruct (sample_each _ _ _ _ _ _ Hs Hi) as (n & doc & info & seq & _ & Hn & (-> & _ & _ & -> & _) & _).
    by apply (sample_lengths n). }
  pose proof (as_map_empty _ (dr_local_map _ _ _ _ Hr)) as El.
  split.
  - intros id i Hi Hb. destruct (sample_each _ _ _ _ _ _ Hs Hi) as (n & doc & info & seq & _ & _ & (_ & _ & _ & _ & _ & Hd) & _).
    destruct doc; [|lia]. destruct Hd as (_ & _ & Hd). by eapply body_chunk.
  - intros id i Hi. destruct (Hlen _ _ Hi) as [E1 E2]. destruct (sample_each _ _ _ _ _ _ Hs Hi) as (n & doc & info & seq & _ & _ & _ & <-).
    split_and!; [by intros E; rewrite E in E1|by rewrite E1|by rewrite E1, E2].
  - by rewrite El.
  - destruct (docs_in_order d t D _ Hr) as (l & E & Hnd & Hin & Hperm). rewrite El, E, (weight_perm _ _ Hperm).
    assert (length l <= 3)%nat as Hl.
    { rewrite <- (length_map di_id l). apply (submseteq_length _ (map di_id sample_infos)), NoDup_submseteq; [done|].
      intros id (i & -> & Hi)%list_elem_of_fmap. apply Hin in Hi.
      destruct (sample_each _ _ _ _ _ _ Hs Hi) as (n & doc & info & seq & _ & Hn & (-> & _) & _).
      apply list_elem_of_fmap. exists info. split; [done|]. by eapply list_elem_of_lookup_2. }
    assert (forall i, i ∈ l -> blen (seq_kv i).1 + blen (seq_kv i).2 + 1024 <= 2000 /\
                               blen (id_kv i).1 + blen (id_kv i).2 + 1024 <= 2000) as Hw.
    { intros i Hi. destruct (Hlen _ _ (proj1 (Hin i) Hi)). unfold blen, seq_kv, id_kv in *. cbn [fst snd].
      rewrite assemble_seq_length, assemble_id_length, encode_raw48_length. lia. }
    pose proof (weight_each seq_kv l 2000 (fun i Hi => proj1 (Hw i Hi))).
    pose proof (weight_each id_kv l 2000 (fun i Hi => proj2 (Hw i Hi))).
    unfold max_node. change (weight []) with 0. lia.
  - done.
Qed.

(** The compaction drops the deletion and keeps the other two documents. *)
Lemma compact_preserves_witness : exists d t D saved, sample_rep d t D saved /\
  wp (couchstore_compact_db_ex (compact_fuel t) (db_hdr d) COUCHSTORE_COMPACT_FLAG_DROP_DELETES None)
     (fun r s => r = (COUCHSTORE_SUCCESS, false) /\ exists t' D', db_rep (cc_target s.2) t' D' ∅ /\
        is_Some (D' !! [Byte.x61]) /\ is_Some (D' !! [Byte.x62]) /\ D' !! [Byte.x63] = None /\
        dh_purge_seq (db_hdr (cc_target s.2)) = 1)
     (db_file d, sample_ctx tt).
Proof.
  destruct sample_db_purge as (d & t & D & saved & Hs & Hq & Hp). exists d, t, D, saved. split; [exact Hs|].
  pose proof (sample_compactable d t D saved Hs Hp) as Hc. pose proof Hs as (Hr & _).
  eapply wp_mono; [apply (compact_preserves (compact_fuel t) d t D ∅ COUCHSTORE_COMPACT_FLAG_DROP_DELETES mf_empty (sample_ctx tt))|].
  - exact Hr.
  - exact Hc.
  - done.
  - rewrite Hq. done.
  - apply sample_fresh.
  - intros r s (-> & t' & D' & Hr' & Hco & _ & Hq' & _). split; [done|]. exists t', D'. split; [exact Hr'|].
    rewrite Hq' , Hq.
    destruct (sample_saved d t D saved 0 _ _ Hs eq_refl eq_refl) as (i0 & Hi0 & _ & _ & _ & _ & _ & Hd0 & _).
    destruct (sample_saved d t D saved 1 _ _ Hs eq_refl eq_refl) as (i1 & Hi1 & _ & _ & _ & _ & _ & Hd1 & _).
    destruct (sample_saved d t D saved 2 _ _ Hs eq_refl eq_refl) as (i2 & Hi2 & _ & _ & _ & _ & _ & Hd2 & _).
    pose proof (Hco [Byte.x61]) as H0. pose proof (Hco [Byte.x62]) as H1. pose proof (Hco [Byte.x63]) as H2.
    cbn in Hi0, Hi1, Hi2. rewrite Hi0 in H0. rewrite Hi1 in H1. rewrite Hi2 in H2.
    unfold dropped in H0, H1, H2. rewrite Hd0 in H0. rewrite Hd1 in H1. rewrite Hd2 in H2. cbn in H0, H1, H2.
    destruct H0 as (j0 & -> & _), H1 as (j1 & -> & _). split_and!; eauto.
Defined.

(** The compressed document is read back from the new file. *)
Lemma compact_then_read_witness : exists d t D saved, sample_rep d t D saved /\
  wp (couchstore_compact_db (compact_fuel t) (db_hdr d))
     (fun r s => r = (COUCHSTORE_SUCCESS, false) /\ exists n, forall fuel' h' rdonly create info, (n < fuel')%nat ->
        open_flags_ok rdonly create = true -> file_ok h' -> synced h' ->
        contents h' = tf_contents (db_file (cc_target s.2)) ->
        wp (let* _ := couchstore_open_db_ex rdonly create in couchstore_open_document fuel' [Byte.x62] 1 info)
           (fun r _ => r = Done {| doc_id := [Byte.x62]; doc_data := sample_body ++ sample_body |}) (closed h'))
     (db_file d, sample_ctx tt).
Proof.
  destruct sample_db_purge as (d & t & D & saved & Hs & Hq & Hp). exists d, t, D, saved. split; [exact Hs|].
  pose proof (sample_compactable d t D saved Hs Hp) as Hc. pose proof Hs as (Hr & _).
  destruct (sample_saved d t D saved 1 _ _ Hs eq_refl eq_refl) as (i & Hi & _ & _ & _ & _ & Hcm & _ & Hbp & Hb).
  apply (compact_then_read (compact_fuel t) d t D ∅ mf_empty (sample_ctx tt) [Byte.x62] i).
  - exact Hr.
  - exact Hc.
  - done.
  - rewrite Hq. done.
  - apply sample_fresh.
  - exact Hi.
  - exact Hbp.
  - rewrite Hcm. exact Hb.
Defined.

(** No deletion of the sample has expired: all documents stay. *)
Lemma compactor_purges_witness : exists d t D saved, sample_rep d t D saved /\
  wp (couchstore_compact_db_ex (compact_fuel t) (db_hdr d) 0 (Some time_purge_hook))
     (fun r s => r = (COUCHSTORE_SUCCESS, false) /\ exists t' D', db_rep (cc_target s.2) t' D' ∅ /\
        is_Some (D' !! [Byte.x61]) /\ is_Some (D' !! [Byte.x63]))
     (db_file d, sample_ctx {| purge_before := 1000; max_purged_seq := 0 |}).
Proof.
  destruct sample_db_purge as (d & t & D & saved & Hs & Hq & Hp). exists d, t, D, saved. split; [exact Hs|].
  pose proof (sample_compactable d t D saved Hs Hp) as Hc. pose proof Hs as (Hr & _).
  eapply wp_mono; [apply (compactor_purges (compact_fuel t) d t D ∅ 0 mf_empty (sample_ctx _))|].
  - exact Hr.
  - exact Hc.
  - done.
  - apply sample_fresh.
  - done.
  - intros r s (-> & t' & D' & Hr' & Hco & _). split; [done|]. exists t', D'. split; [exact Hr'|].
    destruct (sample_saved d t D saved 0 _ _ Hs eq_refl eq_refl) as (i0 & Hi0 & _ & _ & _ & Hm0 & _).
    destruct (sample_saved d t D saved 2 _ _ Hs eq_refl eq_refl) as (i2 & Hi2 & _ & _ & _ & Hm2 & _).
    pose proof (Hco [Byte.x61]) as H0. pose proof (Hco [Byte.x63]) as H2.
    cbn in Hi0, Hi2. rewrite Hi0 in H0. rewrite Hi2 in H2.
    unfold expired in H0, H2. rewrite Hm0 in H0. rewrite Hm2 in H2. rewrite bool_decide_false in H0, H2 by (intros [_ Hx]; by apply Hx).
    destruct H0 as (j0 & -> & _), H2 as (j2 & -> & _). split; eauto.
Defined.

(** ** Faults of the target file *)

(** The sample, compacted into a file whose operation number [k] fails. *)
Definition faulty_compaction {A} (k : nat) (m : M (Db memfile) A) : option (couchstore_error_t * bool * option A) :=
  let d := final (sample_program (closed mf_empty)) in
  let h := {| mf_data := []; mf_faults := replicate k false ++ [true]; mf_failed := false |} in
  match couchstore_compact_db 30 (db_hdr d)
          (db_file d, {| cc_target_mr := new_btree_modres; cc_target := closed h; cc_stdio := sample_streams0;
                         cc_hook_ctx := tt |}) with
  | Ret r s => Some (r, match m (cc_target s.2) with Ret a _ => Some a | _ => None end)
  | _ => None
  end.


(** Couchstore_compact_db_ex closes a null db when the target cannot be opened. *)
Theorem compaction_without_target {H U} `{FileOps H} `{Snappy} fuel source flags hook (f : tree_file H) (c : compact_ctx H U) e d :
  couchstore_open_db_ex false true (cc_target c) = Ret e d -> e <> COUCHSTORE_SUCCESS ->
  exists s, couchstore_compact_db_ex fuel source flags hook (f, c) = Undef s.
Proof.
  intros E He. unfold couchstore_compact_db_ex, bind at 1, on_ctx, on_target, zoom. cbn [snd]. rewrite E.
  rewrite decide_True by done. by eexists.
Qed.
