(* ===== verification/Findings.v ===== *)
(** * Findings: where the code differs from its documentation

    Runs of the library on concrete databases, and general facts, that show what
    the code does where its comments or its headers say something else. *)

From Stdlib Require Import ZArith Lia Sorted.
From S2P Require Import Prelude Bitfield NodeTypes Crc32 Util FileOps TreeFile NodeStore Header BTree BTreeInv BTreeFlush TreeSpec BTreeModify Reduces BTreeRead Docs Save DocCodec DbSpec Recovery Compact Sample.
From stdpp Require Import list numbers gmap.

#[local] Open Scope Z_scope.
#[local] Open Scope couch_scope.

(** A changes callback that notes the ids it is called with. *)
Definition note (i : DocInfo) : M (tree_file memfile * list bytes) callback_int :=
  fun s => Ret (CB_CODE COUCHSTORE_SUCCESS) (s.1, s.2 ++ [di_id i]).

(** The result of [m] on the sample database, which holds the ids a, b and c. *)
Definition on_sample {A} (m : M (Db memfile) A) : option A :=
  match (let* _ := sample_program in m) (closed mf_empty) with Ret a _ => Some a | _ => None end.


(** A range may deliver a document past its end.  In a tree of one leaf the
    range from 0 to 1, which holds no document, delivers the document a: the item
    that starts the fold is not compared with the end. *)
Theorem range_delivers_past_its_end :
  on_sample (couchstore_docinfos_by_id 10 [[Byte.x30]; [Byte.x31]] RANGES note []) =
    Some (COUCHSTORE_SUCCESS, [[Byte.x61]]) /\
  ebin_cmp [Byte.x31] [Byte.x61] < 0.
Proof. split; by vm_compute. Qed.

(** Only the first of several ranges is visited.  The ranges a to a and c to c
    deliver a alone. *)
Theorem second_range_is_ignored :
  on_sample (couchstore_docinfos_by_id 10 [[Byte.x61]; [Byte.x61]; [Byte.x63]; [Byte.x63]] RANGES note []) =
    Some (COUCHSTORE_SUCCESS, [[Byte.x61]]).
Proof. by vm_compute. Qed.

(** A batch with the same id twice leaves two documents with that id in the
    index, and succeeds. *)
Theorem duplicate_ids_in_a_batch :
  on_sample (let* r := couchstore_save_documents 10 None [sample_info [Byte.x7a] 0; sample_info [Byte.x7a] 0] 1 in
             let* l := couchstore_all_docs 10 (Some [Byte.x7a]) 0 note [] in ret (r.1, l)) =
    Some (COUCHSTORE_SUCCESS, (COUCHSTORE_SUCCESS, [[Byte.x7a]; [Byte.x7a]])).
Proof. by vm_compute. Qed.

(** A header shorter than its fixed part is read past its end.  A header chunk
    that holds just the version byte passes the checks of pread_header, and
    find_header_at_pos then reads the other fields outside the buffer. *)
Theorem short_header_is_overread (d : Db memfile) pos :
  exists d', decode_header pos [Byte.x0b] d = Undef d'.
Proof. eexists. lazy. reflexivity. Qed.

(** Couchstore_docinfo_by_sequence follows a null root.  It tests the root of
    the other index: a header with an index by id alone makes it dereference the
    missing one. *)
Theorem by_sequence_tests_wrong_root (f : tree_file memfile) root fuel seq p :
  exists d', couchstore_docinfo_by_sequence fuel seq p
    {| db_file := f; db_hdr := set_roots (Some root) None zero_header |} = Undef d'.
Proof. eexists. reflexivity. Qed.

(** Lengths that do not fit their field are not rejected.  A value of 2^28
    bytes is recorded with the length zero. *)
Theorem oversized_value_length : decode_kv_length (encode_kv_length 1 (2 ^ 28)) = (1, 0).
Proof. by vm_compute. Qed.

(** ** The quota of flush_mr_partial *)

Lemma flush_loop_overrun t l q s dst size fk n :
  0 <= s -> q + s + sumZ item_size l < 2 ^ 63 -> 0 < q < 2 ^ 63 ->
  (forall k, (0 < k <= length l)%nat -> s + sumZ item_size (take k l) <> q) -> s <> q ->
  (flush_loop t l (u64 (q - s)) dst size fk n).2 = [].
Proof.
  revert s dst size fk n. induction l as [|x l IH]; intros s dst size fk n Hs Hmax Hq Hne Hsq; [done|].
  cbn [flush_loop]. unfold sumZ in Hmax. cbn [foldr] in Hmax. fold (sumZ item_size l) in Hmax.
  assert (0 < item_size x) as Hx by (unfold item_size; pose proof (blen_nonneg (nl_key x)); pose proof (blen_nonneg (nl_data x)); lia).
  assert (0 <= sumZ item_size l).
  { apply sumZ_nonneg. intros y. unfold item_size. pose proof (blen_nonneg (nl_key y)). pose proof (blen_nonneg (nl_data y)). lia. }
  assert (0 < u64 (q - s)) as Hpos.
  { unfold u64. pose proof (Z.mod_pos_bound (q - s) (2 ^ 64)). assert ((q - s) mod 2 ^ 64 <> 0); [|lia].
    intros E. apply Z.mod_divide in E as [z Hz]; [|done]. lia. }
  rewrite decide_True by (by left). fold (item_size x).
  assert (u64 (u64 (q - s) - item_size x) = u64 (q - (s + item_size x))) as ->.
  { unfold u64. rewrite Zminus_mod_idemp_l. f_equal. lia. }
  apply IH; [lia|lia|lia| |].
  - intros k Hk E. apply (Hne (S k)); [cbn; lia|]. cbn [take]. unfold sumZ in *. cbn [foldr]. lia.
  - intros E. apply (Hne 1%nat); [cbn; lia|]. cbn [take]. rewrite take_0. unfold sumZ. cbn [foldr]. lia.
Qed.

(** The quota of flush_mr_partial does not stop it.  The quota is unsigned and
    wraps around when the last item that fits exceeds it, so the loop that fills a
    node goes on to the end of the list, unless some items add up to the quota
    exactly: a flush of CHUNK_SIZE bytes writes everything into one node. *)
Theorem flush_quota_wraps t l dst size fk n :
  sumZ item_size l < 2 ^ 62 ->
  (forall k, (0 < k <= length l)%nat -> sumZ item_size (take k l) <> CHUNK_SIZE) ->
  (flush_loop t l (u64 CHUNK_SIZE) dst size fk n).2 = [].
Proof.
  intros Hmax Hne. replace CHUNK_SIZE with (CHUNK_SIZE - 0) by lia.
  apply flush_loop_overrun; try done; try (change CHUNK_SIZE with 852; lia).
Qed.

Definition big_item : nodelist := {| nl_data := replicate 500 Byte.x00; nl_key := [Byte.x61]; nl_pointer := None |}.

Lemma flush_quota_wraps_witness :
  sumZ item_size (replicate 4 big_item) = 2024 /\ CHUNK_SIZE = 852 /\
  (flush_loop KV_NODE (replicate 4 big_item) (u64 CHUNK_SIZE) [] 0 [] 0).2 = [].
Proof.
  split_and!; [by vm_compute|done|]. apply (flush_quota_wraps KV_NODE (replicate 4 big_item)); [by vm_compute|].
  intros [|[|[|[|[|k]]]]] Hk; cbn in Hk; try lia; by vm_compute.
Defined.

(** ** The last loop of a compacted tree *)

Section Diverge.
Context {F C A : Type} `{NodeStore F}.
Variable rq : modify_request C A.
Hypothesis Hcompacting : rq_compacting rq = true.
Hypothesis Hcode : forall buf (f : F) e f', write_node buf f = Ret (Error e) f' -> e <> COUCHSTORE_SUCCESS.

(** A pointer that fills a node alone. *)
Definition alone (i : nodelist) : Prop := CHUNK_SIZE < blen (nl_key i).

(** A collector that waits for pointers. *)
Definition idle (m : modify_result) : Prop :=
  mr_values m = [] /\ mr_node_len m = 0 /\ mr_modified m = true /\ mr_node_type m = KP_NODE.

(** Each pointer is written into a node of its own, with the same key. *)
Lemma push_alone i m (s : F * C) m' s' :
  alone i -> idle m -> maybe_flush rq (add_value i m) s = Ret (m', COUCHSTORE_SUCCESS) s' ->
  idle m' /\ exists j, alone j /\ mr_pointers m' = mr_pointers m ++ [j].
Proof.
  intros Hi (Ev & En & Em & Et). unfold maybe_flush. rewrite Hcompacting.
  pose proof (blen_nonneg (nl_data i)). unfold alone in Hi.
  rewrite decide_True; [|cbn [add_value mr_modified mr_node_len]; rewrite Em, En; unfold item_size; split; [done|lia]].
  unfold flush_mr, flush_mr_partial, add_value. cbn [mr_values mr_modified mr_node_type mr_node_len mr_count mr_pointers].
  rewrite Ev, Em, Et, En. rewrite decide_False by (by intros [?|?]).
  cbn [app flush_loop]. rewrite decide_True by (right; split; [lia|done]).
  case_decide as Hb; [done|]. unfold bind, need, ret, on_file, zoom.
  destruct (write_node _ _) as [w s1| |] eqn:Ew; [|done..].
  destruct w as [[pos dsz]|e]; [|intros [= _ -> _]; by apply Hcode in Ew]. destruct (reduce_items _ _ _ _) as [red|]; [|done].
  case_decide; [done|]. intros [= <- <-]. cbn [mr_pointers mr_values mr_modified mr_node_type mr_node_len].
  split; [|by exists (encode_pointer {| np_key := nl_key i; np_pointer := pos; np_reduce_value := red;
    np_subtreesize := u64 ((match nl_pointer i with Some p => u64 (0 + np_subtreesize p) | None => 0 end) + dsz) |})].
  split_and!; try done. cbn [mr_node_len]. unfold item_size, blen. cbn [app length]. rewrite write_kv_length. lia.
Qed.

Lemma move_alone l m (s : F * C) m' s' :
  Forall alone l -> idle m -> mr_move_pointers rq l m s = Ret (m', COUCHSTORE_SUCCESS) s' ->
  idle m' /\ exists l', Forall alone l' /\ length l' = length l /\ mr_pointers m' = mr_pointers m ++ l'.
Proof.
  intros Hl. revert m s. induction Hl as [|i l Hi _ IH]; intros m s Hm; cbn [mr_move_pointers].
  { intros [= <- <-]. split; [done|]. exists []. by rewrite app_nil_r. }
  unfold bind. destruct (maybe_flush _ _ s) as [[m1 e] s1| |] eqn:E1; [|done..]. case_decide as He; [subst e|by intros [= _ ? _]].
  intros E2. destruct (push_alone _ _ _ _ _ Hi Hm E1) as (Hm1 & j & Hj & E). destruct (IH _ _ Hm1 E2) as (Hm' & l' & Hl' & El & Ep).
  split; [done|]. exists (j :: l'). split_and!; [by constructor|cbn; lia|]. by rewrite Ep, E, <- app_assoc.
Qed.

Lemma flush_idle m (s : F * C) : idle m -> flush_mr rq m s = Ret (m, COUCHSTORE_SUCCESS) s.
Proof. intros (E & _). unfold flush_mr, flush_mr_partial. by rewrite decide_True by (by left). Qed.

Lemma finish_loop_alone fuel root_result collector (s : F * C) p s' :
  idle root_result -> idle collector -> mr_pointers collector = [] ->
  Forall alone (mr_pointers root_result) -> (2 <= length (mr_pointers root_result))%nat ->
  finish_loop rq fuel root_result collector s <> Ret (p, COUCHSTORE_SUCCESS) s'.
Proof.
  revert root_result collector s. induction fuel as [|fuel IH]; intros r c s Hr Hc Ec Hp Hl; cbn [finish_loop];
    destruct (mr_pointers r) as [|i [|i2 l]] eqn:El; try (cbn in Hl; lia); [done|].
  unfold bind. destruct (mr_move_pointers _ _ _ s) as [[m1 e] s1| |] eqn:E1; [|done..].
  case_decide as He; [by intros [= _ ? _]|]. destruct (decide (e = COUCHSTORE_SUCCESS)) as [->|]; [|tauto].
  destruct (move_alone _ _ _ _ _ Hp Hc E1) as (Hm & l' & Hl' & Elen & Ep). rewrite flush_idle by done.
  rewrite decide_False by auto. rewrite Ec in Ep. cbn [app] in Ep. apply IH; [done| |done|by rewrite Ep|].
  - by destruct Hr as (? & ? & ? & ?).
  - rewrite Ep, Elen. done.
Qed.

Lemma complete_alone fuel m (s : F * C) p s' :
  mr_values m = [] -> Forall alone (mr_pointers m) -> (2 <= length (mr_pointers m))%nat ->
  complete_new_btree rq fuel m s <> Ret (p, COUCHSTORE_SUCCESS) s'.
Proof.
  intros Ev Hp Hl. unfold complete_new_btree, bind. unfold flush_mr at 1, flush_mr_partial. rewrite decide_True by (by left).
  unfold ret at 1. rewrite decide_False by auto.
  destruct (mr_move_pointers _ _ _ s) as [[m1 e] s1| |] eqn:E1; [|done..].
  case_decide as He; [by intros [= _ ? _]|]. destruct (decide (e = COUCHSTORE_SUCCESS)) as [->|]; [|tauto].
  destruct (move_alone _ (set_modified (make_modres KP_NODE)) _ _ _ Hp ltac:(done) E1) as (Hm & l' & Hl' & Elen & Ep).
  cbn [app set_modified make_modres mr_pointers] in Ep.
  rewrite decide_True by (right; rewrite Ep; by destruct l'; cbn in *; [lia|]).
  unfold finish_root, bind. rewrite flush_idle by done. apply finish_loop_alone; [done|done|done|by rewrite Ep|].
  by rewrite Ep, Elen.
Qed.
End Diverge.

Section DivergeFile.
Context {H C A : Type} `{HO : FileOps H} `{HS : Snappy}.
Hypothesis Hcode : forall (h : H) buf off h' e, ops_pwrite h buf off = (h', Error e) -> e <> COUCHSTORE_SUCCESS.

(** Errors are told by a code of their own. *)
Definition codes {X} (m : M (tree_file H) (result X)) : Prop :=
  forall f e f', m f = Ret (Error e) f' -> e <> COUCHSTORE_SUCCESS.

Lemma codes_ret {X} (x : X) : codes (ret (Done x)).
Proof. by intros f e f'. Qed.

Lemma codes_next {X Y} (m : M (tree_file H) (result X)) (k : X -> M (tree_file H) (result Y)) :
  codes m -> (forall x, codes (k x)) -> codes (let* r := m in match r with Error e => ret (Error e) | Done x => k x end).
Proof.
  intros Hm Hk f e f'. unfold bind. destruct (m f) as [[x|e1] f1| |] eqn:E; [|intros [= <- <-]; by eapply Hm|done..].
  apply Hk.
Qed.

Lemma codes_pwrite bs off : codes (file_pwrite bs off).
Proof.
  intros f e f'. unfold file_pwrite. destruct (ops_pwrite _ _ _) as [h [n|e1]] eqn:E; intros [= <- <-]. by eapply Hcode.
Qed.

Lemma codes_raw_write buf pos : codes (raw_write buf pos).
Proof.
  apply codes_next; [|intros; apply codes_ret]. generalize (2 * length buf + 1)%nat. intros n. revert buf pos.
  induction n as [|n IH]; intros [|b buf] pos; cbn [raw_write_loop]; try apply codes_ret; [by intros f e f'|].
  case_decide; apply codes_next; auto using codes_pwrite.
Qed.

Lemma codes_write_node buf : codes (write_node buf).
Proof.
  cbn. unfold db_write_buf_compressed. destruct (snappy_compress _ _) as [z|]; [|intros f e f' [= <- _]; done].
  intros f. apply (codes_next (raw_write _ (tf_pos f))); [apply codes_raw_write|]. intros n.
  apply codes_next; [apply codes_raw_write|]. by intros n2 f1 e f'.
Qed.

(** C38: complete_new_btree does not end for long keys.  A compacted tree of two or
    more leaves whose last keys are longer than CHUNK_SIZE never gets a root: every
    pointer is written into an interior node of its own, so each pass of finish_root
    over them has as many pointers as the one before, and no number of passes is
    enough.  Only a failing write ends the loop, with its error. *)
Theorem long_keys_never_finish (rq : modify_request C A) fuel m (s : tree_file H * C) p s' :
  rq_compacting rq = true -> mr_values m = [] ->
  Forall alone (mr_pointers m) -> (2 <= length (mr_pointers m))%nat ->
  complete_new_btree rq fuel m s <> Ret (p, COUCHSTORE_SUCCESS) s'.
Proof. intros. apply complete_alone; [done|apply codes_write_node|done..]. Qed.
End DivergeFile.

Definition long_pointer : nodelist :=
  encode_pointer {| np_key := replicate 900 Byte.x61; np_pointer := 4097; np_reduce_value := []; np_subtreesize := 1000 |}.

Lemma long_keys_never_finish_witness : ~ exists fuel p s',
  complete_new_btree local_tree_request fuel
    {| mr_values := []; mr_node_len := 0; mr_count := 0; mr_pointers := [long_pointer; long_pointer];
       mr_modified := true; mr_node_type := KV_NODE |}
    ({| tf_pos := 8192; tf_handle := mf_empty |}, tt) = Ret (p, COUCHSTORE_SUCCESS) s'.
Proof.
  intros (fuel & p & s' & E). revert E. apply (long_keys_never_finish (H := memfile) (C := unit) (A := unit)); try done.
  - intros h buf off h' e. cbn. unfold mf_pwrite. destruct (mf_next h) as [[] h1]; [by intros [= _ <-]|].
    case_decide; by intros [= _ <-].
  - repeat constructor; by vm_compute.
Defined.
