(* ===== verification/Md5.v ===== *)
(** * Md5: the digest behind the ketama hash

    Models src/rfc1321/md5c.c and src/ketama.c of libvbucket
    (src/cbase/libvbucket/libvbucket-1.8.0): the context, its updates and the digest.
    However a message is cut into updates, the digest is that of [md5_reference]: the
    whole message, padded and taken block by block. *)

From Stdlib Require Import ZArith Lia String.
From S2P Require Import Prelude.
From stdpp Require Import list numbers.

#[local] Open Scope Z_scope.

(** ** The transformation of a block *)

Definition S11 : Z := 7.
Definition S12 : Z := 12.
Definition S13 : Z := 17.
Definition S14 : Z := 22.
Definition S21 : Z := 5.
Definition S22 : Z := 9.
Definition S23 : Z := 14.
Definition S24 : Z := 20.
Definition S31 : Z := 4.
Definition S32 : Z := 11.
Definition S33 : Z := 16.
Definition S34 : Z := 23.
Definition S41 : Z := 6.
Definition S42 : Z := 10.
Definition S43 : Z := 15.
Definition S44 : Z := 21.

(** The macros of one letter. *)
Module Basic.
Definition F (x y z : Z) : Z := Z.lor (Z.land x y) (Z.land (u32 (Z.lnot x)) z).
Definition G (x y z : Z) : Z := Z.lor (Z.land x z) (Z.land y (u32 (Z.lnot z))).
Definition H (x y z : Z) : Z := Z.lxor (Z.lxor x y) z.
Definition I (x y z : Z) : Z := Z.lxor y (Z.lor x (u32 (Z.lnot z))).

End Basic.

Definition ROTATE_LEFT (x n : Z) : Z := Z.lor (u32 (Z.shiftl x n)) (Z.shiftr x (32 - n)).

(** The four macros differ in the function they add. *)
Definition round_with (f : Z -> Z -> Z -> Z) (a b c d x s ac : Z) : Z :=
  u32 (ROTATE_LEFT (u32 (a + (f b c d + x + ac))) s + b).
Definition FF : Z -> Z -> Z -> Z -> Z -> Z -> Z -> Z := round_with Basic.F.
Definition GG : Z -> Z -> Z -> Z -> Z -> Z -> Z -> Z := round_with Basic.G.
Definition HH : Z -> Z -> Z -> Z -> Z -> Z -> Z -> Z := round_with Basic.H.
Definition II : Z -> Z -> Z -> Z -> Z -> Z -> Z -> Z := round_with Basic.I.

(** The 64 steps: the macro, the word of the block, the rotation and the constant.  The
    registers of a step are those of the step before, moved on by one place. *)
Definition md5_steps : list ((Z -> Z -> Z -> Z -> Z -> Z -> Z -> Z) * nat * Z * Z) :=
  [
   (FF, 0%nat, S11, 0xd76aa478); (FF, 1%nat, S12, 0xe8c7b756); (FF, 2%nat, S13, 0x242070db); (FF, 3%nat, S14, 0xc1bdceee);
   (FF, 4%nat, S11, 0xf57c0faf); (FF, 5%nat, S12, 0x4787c62a); (FF, 6%nat, S13, 0xa8304613); (FF, 7%nat, S14, 0xfd469501);
   (FF, 8%nat, S11, 0x698098d8); (FF, 9%nat, S12, 0x8b44f7af); (FF, 10%nat, S13, 0xffff5bb1); (FF, 11%nat, S14, 0x895cd7be);
   (FF, 12%nat, S11, 0x6b901122); (FF, 13%nat, S12, 0xfd987193); (FF, 14%nat, S13, 0xa679438e); (FF, 15%nat, S14, 0x49b40821);
   (GG, 1%nat, S21, 0xf61e2562); (GG, 6%nat, S22, 0xc040b340); (GG, 11%nat, S23, 0x265e5a51); (GG, 0%nat, S24, 0xe9b6c7aa);
   (GG, 5%nat, S21, 0xd62f105d); (GG, 10%nat, S22, 0x2441453); (GG, 15%nat, S23, 0xd8a1e681); (GG, 4%nat, S24, 0xe7d3fbc8);
   (GG, 9%nat, S21, 0x21e1cde6); (GG, 14%nat, S22, 0xc33707d6); (GG, 3%nat, S23, 0xf4d50d87); (GG, 8%nat, S24, 0x455a14ed);
   (GG, 13%nat, S21, 0xa9e3e905); (GG, 2%nat, S22, 0xfcefa3f8); (GG, 7%nat, S23, 0x676f02d9); (GG, 12%nat, S24, 0x8d2a4c8a);
   (HH, 5%nat, S31, 0xfffa3942); (HH, 8%nat, S32, 0x8771f681); (HH, 11%nat, S33, 0x6d9d6122); (HH, 14%nat, S34, 0xfde5380c);
   (HH, 1%nat, S31, 0xa4beea44); (HH, 4%nat, S32, 0x4bdecfa9); (HH, 7%nat, S33, 0xf6bb4b60); (HH, 10%nat, S34, 0xbebfbc70);
   (HH, 13%nat, S31, 0x289b7ec6); (HH, 0%nat, S32, 0xeaa127fa); (HH, 3%nat, S33, 0xd4ef3085); (HH, 6%nat, S34, 0x4881d05);
   (HH, 9%nat, S31, 0xd9d4d039); (HH, 12%nat, S32, 0xe6db99e5); (HH, 15%nat, S33, 0x1fa27cf8); (HH, 2%nat, S34, 0xc4ac5665);
   (II, 0%nat, S41, 0xf4292244); (II, 7%nat, S42, 0x432aff97); (II, 14%nat, S43, 0xab9423a7); (II, 5%nat, S44, 0xfc93a039);
   (II, 12%nat, S41, 0x655b59c3); (II, 3%nat, S42, 0x8f0ccc92); (II, 10%nat, S43, 0xffeff47d); (II, 1%nat, S44, 0x85845dd1);
   (II, 8%nat, S41, 0x6fa87e4f); (II, 15%nat, S42, 0xfe2ce6e0); (II, 6%nat, S43, 0xa3014314); (II, 13%nat, S44, 0x4e0811a1);
   (II, 4%nat, S41, 0xf7537e82); (II, 11%nat, S42, 0xbd3af235); (II, 2%nat, S43, 0x2ad7d2bb); (II, 9%nat, S44, 0xeb86d391)
  ].

Definition md5_state : Type := Z * Z * Z * Z.

Definition md5_step (x : list Z) (abcd : md5_state) (step : (Z -> Z -> Z -> Z -> Z -> Z -> Z -> Z) * nat * Z * Z) : md5_state :=
  let '(a, b, c, d) := abcd in
  let '(macro, k, s, ac) := step in
  (d, macro a b c d (nth k x 0) s ac, b, c).

(** Words are stored with their low byte first. *)
Fixpoint Encode (input : list Z) : bytes :=
  match input with
  | [] => []
  | w :: input =>
      z2b (Z.land w 255) :: z2b (Z.land (Z.shiftr w 8) 255) :: z2b (Z.land (Z.shiftr w 16) 255) ::
      z2b (Z.land (Z.shiftr w 24) 255) :: Encode input
  end.

Fixpoint Decode (input : bytes) : list Z :=
  match input with
  | b0 :: b1 :: b2 :: b3 :: input =>
      Z.lor (Z.lor (Z.lor (b2z b0) (Z.shiftl (b2z b1) 8)) (Z.shiftl (b2z b2) 16)) (Z.shiftl (b2z b3) 24) :: Decode input
  | _ => []
  end.

Definition MD5Transform (state : md5_state) (block : bytes) : md5_state :=
  let '(s0, s1, s2, s3) := state in
  let '(a, b, c, d) := foldl (md5_step (Decode block)) state md5_steps in
  (u32 (s0 + a), u32 (s1 + b), u32 (s2 + c), u32 (s3 + d)).

(** ** The context *)

Record MD5_CTX : Type := {
  md_state : md5_state;
  md_count0 : Z;
  md_count1 : Z;
  md_buffer : bytes
}.

Definition PADDING : bytes := Byte.x80 :: replicate 63 Byte.x00.

(** The buffer keeps what it had. *)
Definition MD5Init (context : MD5_CTX) : MD5_CTX :=
  {| md_state := (0x67452301, 0xefcdab89, 0x98badcfe, 0x10325476);
     md_count0 := 0; md_count1 := 0; md_buffer := md_buffer context |}.

(** memcpy into the buffer; outside of it is undefined. *)
Definition MD5_memcpy (index : Z) (input buffer : bytes) : option bytes :=
  if decide (index + blen input <= blen buffer) then
    Some (take (Z.to_nat index) buffer ++ input ++ drop (Z.to_nat index + length input) buffer)
  else None.

(** The blocks that lie whole in the input. *)
Fixpoint transform_loop (fuel : nat) (state : md5_state) (input : bytes) (i inputLen : Z) : option (md5_state * Z) :=
  match fuel with
  | O => None
  | S fuel =>
      if decide (u32 (i + 63) < inputLen) then
        block ← slice (Z.to_nat i) 64 input;
        transform_loop fuel (MD5Transform state block) input (u32 (i + 64)) inputLen
      else Some (state, i)
  end.

(** The number of bits, in two words. *)
Definition add_bits (count0 count1 inputLen : Z) : Z * Z :=
  let bits := u32 (Z.shiftl inputLen 3) in
  let count0 := u32 (count0 + bits) in
  let count1 := if decide (count0 < bits) then u32 (count1 + 1) else count1 in
  (count0, u32 (count1 + Z.shiftr inputLen 29)).

Definition MD5Update (context : MD5_CTX) (input : bytes) : option MD5_CTX :=
  let inputLen := u32 (blen input) in
  let index := Z.land (Z.shiftr (md_count0 context) 3) 0x3F in
  let '(count0, count1) := add_bits (md_count0 context) (md_count1 context) inputLen in
  let partLen := 64 - index in
  '(state, buffer, index, i) ←
    (if decide (partLen <= inputLen) then
       buffer ← MD5_memcpy index (take (Z.to_nat partLen) input) (md_buffer context);
       '(state, i) ← transform_loop (S (length input)) (MD5Transform (md_state context) buffer) input partLen inputLen;
       Some (state, buffer, 0, i)
     else Some (md_state context, md_buffer context, index, 0));
  buffer ← MD5_memcpy index (drop (Z.to_nat i) input) buffer;
  Some {| md_state := state; md_count0 := count0; md_count1 := count1; md_buffer := buffer |}.

(** The digest; the context is cleared and not used again. *)
Definition MD5Final (context : MD5_CTX) : option bytes :=
  let bits := Encode [md_count0 context; md_count1 context] in
  let index := Z.land (Z.shiftr (md_count0 context) 3) 0x3f in
  let padLen := if decide (index < 56) then 56 - index else 120 - index in
  context ← MD5Update context (take (Z.to_nat padLen) PADDING);
  context ← MD5Update context bits;
  let '(a, b, c, d) := md_state context in
  Some (Encode [a; b; c; d]).

(** ** ketama.c *)

(** A context before it is initialised; what its buffer holds does not matter. *)
Definition raw_context : MD5_CTX :=
  {| md_state := (0, 0, 0, 0); md_count0 := 0; md_count1 := 0; md_buffer := replicate 64 Byte.x00 |}.

Definition hash_md5 (key : bytes) : option bytes :=
  ctx ← MD5Update (MD5Init raw_context) key;
  MD5Final ctx.

(** A null context is replaced by a new one. *)
Definition hash_md5_update (ctx : option MD5_CTX) (key : bytes) : option MD5_CTX :=
  MD5Update (match ctx with Some ctx => ctx | None => MD5Init raw_context end) key.

(** A null context leaves the result as it was. *)
Definition hash_md5_final (ctx : option MD5_CTX) (result : bytes) : option bytes :=
  match ctx with Some ctx => MD5Final ctx | None => Some result end.

Definition digest_word (digest : bytes) (nn : nat) : Z :=
  let at_ i := b2z (nth (i + nn * 4) digest Byte.x00) in
  Z.lor (Z.lor (Z.lor (Z.shiftl (at_ 3%nat) 24) (Z.shiftl (at_ 2%nat) 16)) (Z.shiftl (at_ 1%nat) 8)) (at_ 0%nat).

Definition hash_ketama (key : bytes) : option Z :=
  digest ← hash_md5 key; Some (digest_word digest 0).

(** ** The reference *)

(** The first [n] blocks of a message. *)
Fixpoint md5_blocks (n : nat) (state : md5_state) (m : bytes) : md5_state :=
  match n with
  | O => state
  | S n => md5_blocks n (MD5Transform state (take 64 m)) (drop 64 m)
  end.

Definition md5_init : md5_state := (0x67452301, 0xefcdab89, 0x98badcfe, 0x10325476).

(** A bit, zeros up to 56 bytes of a block, and the number of bits in eight bytes. *)
Definition md5_pad (m : bytes) : bytes :=
  let zeros := ((119 - length m `mod` 64) `mod` 64)%nat in
  m ++ Byte.x80 :: replicate zeros Byte.x00 ++ le_bytes 8 (8 * blen m).

Definition md5_reference (m : bytes) : bytes :=
  let '(a, b, c, d) := md5_blocks (length (md5_pad m) `div` 64) md5_init (md5_pad m) in
  concat (map (le_bytes 4) [a; b; c; d]).

(** ** Blocks *)

Lemma md5_blocks_app n k state a b : length a = (64 * n)%nat ->
  md5_blocks (n + k) state (a ++ b) = md5_blocks k (md5_blocks n state a) b.
Proof.
  revert state a. induction n as [|n IH]; intros state a Ha; cbn [md5_blocks plus].
  - destruct a; [done|]. cbn in Ha. lia.
  - rewrite take_app_le, drop_app_le by lia. apply IH. rewrite length_drop. lia.
Qed.

Lemma md5_blocks_head n state a b : (64 * n <= length a)%nat -> md5_blocks n state (a ++ b) = md5_blocks n state a.
Proof.
  revert state a. induction n as [|n IH]; intros state a Ha; cbn [md5_blocks]; [done|].
  rewrite take_app_le, drop_app_le by lia. apply IH. rewrite length_drop. lia.
Qed.

Lemma md5_blocks_take n state a : (64 * n <= length a)%nat -> md5_blocks n state (take (64 * n) a) = md5_blocks n state a.
Proof. intros Ha. rewrite <- (take_drop (64 * n) a) at 2. by rewrite md5_blocks_head by (rewrite length_take; lia). Qed.

(** ** What a context stands for *)

Record md5_rep (m : bytes) (ctx : MD5_CTX) : Prop := {
  mr_state : md_state ctx = md5_blocks (length m `div` 64) md5_init m;
  mr_count0 : md_count0 ctx = u32 (8 * blen m);
  mr_count1 : md_count1 ctx = u32 (8 * blen m / 2 ^ 32);
  mr_length : length (md_buffer ctx) = 64%nat;
  mr_buffer : take (length m `mod` 64) (md_buffer ctx) = drop (64 * (length m `div` 64)) m
}.

Lemma init_rep ctx : length (md_buffer ctx) = 64%nat -> md5_rep [] (MD5Init ctx).
Proof. intros Hb. by split. Qed.

Lemma index_of m ctx : md5_rep m ctx -> Z.land (Z.shiftr (md_count0 ctx) 3) 0x3F = Z.of_nat (length m `mod` 64).
Proof.
  intros [_ -> _ _ _]. change 0x3F with (Z.ones 6). rewrite Z.land_ones, Z.shiftr_div_pow2 by lia.
  rewrite Nat2Z.inj_mod. unfold u32, blen. change (2 ^ 3) with 8. change (2 ^ 6) with 64. change (Z.of_nat 64) with 64.
  Z.div_mod_to_equations. lia.
Qed.

Lemma add_bits_spec n k : 0 <= n -> 0 <= k < 2 ^ 32 ->
  add_bits (u32 (8 * n)) (u32 (8 * n / 2 ^ 32)) k = (u32 (8 * (n + k)), u32 (8 * (n + k) / 2 ^ 32)).
Proof.
  intros Hn Hk. unfold add_bits. rewrite Z.shiftl_mul_pow2, Z.shiftr_div_pow2 by lia. unfold u32.
  change (2 ^ 3) with 8. change (2 ^ 29) with 536870912. change (2 ^ 32) with 4294967296 in *.
  f_equal; [Z.div_mod_to_equations; lia|]. case_decide; Z.div_mod_to_equations; lia.
Qed.

Lemma memcpy_ok (index : nat) input buffer : (index + length input <= length buffer)%nat ->
  MD5_memcpy (Z.of_nat index) input buffer = Some (take index buffer ++ input ++ drop (index + length input) buffer).
Proof. intros Hl. unfold MD5_memcpy, blen. rewrite decide_True by lia. by rewrite Nat2Z.id. Qed.

(** The loop takes the whole blocks behind [i]. *)
Lemma transform_loop_spec k : forall fuel state input (i : nat), (k < fuel)%nat ->
  Z.of_nat (length input) < 2 ^ 32 - 64 -> (i <= length input)%nat -> k = ((length input - i) `div` 64)%nat ->
  transform_loop fuel state input (Z.of_nat i) (Z.of_nat (length input)) =
    Some (md5_blocks k state (drop i input), Z.of_nat (i + 64 * k)).
Proof.
  induction k as [|k IH]; intros [|fuel] state input i Hf Hl Hi Hk; try lia; cbn [transform_loop]; unfold u32.
  - rewrite Z.mod_small by lia. pose proof (Nat.Div0.div_mod (length input - i) 64) as E.
    pose proof (Nat.mod_upper_bound (length input - i) 64 ltac:(lia)). rewrite <- Hk in E.
    rewrite decide_False by lia. f_equal. f_equal. lia.
  - pose proof (Nat.Div0.div_mod (length input - i) 64) as E. rewrite <- Hk in E. rewrite !Z.mod_small by lia.
    rewrite decide_True by lia. rewrite Nat2Z.id, slice_Some by lia. cbn [mbind option_bind].
    replace (Z.of_nat i + 64) with (Z.of_nat (i + 64)) by lia. rewrite IH; [|lia|lia|lia|].
    + cbn [md5_blocks]. rewrite drop_drop. f_equal. f_equal. lia.
    + replace (length input - i)%nat with ((length input - (i + 64)) + 1 * 64)%nat in Hk by lia.
      rewrite Nat.div_add in Hk by lia. lia.
Qed.

Lemma md5_rest (L n : nat) : let r := (L `mod` 64)%nat in (64 - r <= n)%nat ->
  let k := ((n - (64 - r)) `div` 64)%nat in
  ((L + n) `div` 64 = S (L `div` 64) + k)%nat /\ ((L + n) `mod` 64 = n - (64 - r) - 64 * k)%nat /\ (64 - r + 64 * k <= n)%nat /\
  (n - (64 - r) - 64 * k < 64)%nat.
Proof.
  intros r Hn k. pose proof (Nat.Div0.div_mod L 64) as E1. fold r in E1.
  pose proof (Nat.mod_upper_bound L 64 ltac:(lia)) as Hr. fold r in Hr.
  pose proof (Nat.Div0.div_mod (n - (64 - r)) 64) as E2. fold k in E2.
  pose proof (Nat.mod_upper_bound (n - (64 - r)) 64 ltac:(lia)) as Hb.
  assert (L + n = 64 * (S (L / 64) + k) + (n - (64 - r)) mod 64)%nat as E by lia.
  split_and!; [symmetry; by eapply Nat.div_unique|symmetry; eapply Nat.mod_unique; [|rewrite E at 1; f_equal]; lia|lia|lia].
Qed.

Lemma u32_small z : 0 <= z < 2 ^ 32 -> u32 z = z.
Proof. apply Z.mod_small. Qed.

Lemma update_small m ctx input : md5_rep m ctx -> (length m `mod` 64 + length input < 64)%nat ->
  exists ctx', MD5Update ctx input = Some ctx' /\ md5_rep (m ++ input) ctx'.
Proof.
  intros Hrep Hn. pose proof Hrep as [Es E0 E1 Hl Hb]. unfold MD5Update. rewrite (index_of m ctx) by done.
  rewrite (u32_small (blen input)) by (unfold blen; lia). rewrite E0, E1, add_bits_spec by (unfold blen; lia).
  rewrite decide_False by (unfold blen; lia). cbn [mbind option_bind]. rewrite drop_0, memcpy_ok by lia. cbn [mbind option_bind].
  eexists. split; [done|].
  pose proof (Nat.Div0.div_mod (length m) 64) as E. assert (length (m ++ input) = 64 * (length m / 64) + (length m mod 64 + length input))%nat as E2
    by (rewrite length_app; lia).
  assert (length (m ++ input) / 64 = length m / 64 /\ length (m ++ input) mod 64 = length m mod 64 + length input)%nat as [Eq Er].
  { split; [symmetry; by eapply Nat.div_unique|symmetry; by eapply Nat.mod_unique]. }
  split; cbn [md_state md_count0 md_count1 md_buffer]; [|by rewrite blen_app..| |].
  - rewrite Eq, md5_blocks_head by lia. done.
  - rewrite !length_app, length_take, length_drop. lia.
  - rewrite Er, Eq, app_assoc, take_app_length'; [|rewrite length_app, length_take; lia]. rewrite Hb, drop_app_le by lia. done.
Qed.

Lemma update_large m ctx input : md5_rep m ctx -> (64 - length m `mod` 64 <= length input)%nat -> blen input < 2 ^ 32 - 64 ->
  exists ctx', MD5Update ctx input = Some ctx' /\ md5_rep (m ++ input) ctx'.
Proof.
  intros Hrep Hn Hmax. pose proof Hrep as [Es E0 E1 Hl Hb]. unfold MD5Update. rewrite (index_of m ctx) by done.
  destruct (md5_rest (length m) (length input) Hn) as (Eq & Er & Hk & Hr). rewrite <- length_app in Eq, Er.
  set (r := (length m `mod` 64)%nat) in *. set (k := ((length input - (64 - r)) `div` 64)%nat) in *.
  assert (r < 64)%nat as Hr64 by (apply Nat.mod_upper_bound; lia).
  rewrite (u32_small (blen input)) by (unfold blen in *; lia). rewrite E0, E1, add_bits_spec by (unfold blen in *; lia).
  rewrite decide_True by (unfold blen in *; lia). replace (64 - Z.of_nat r) with (Z.of_nat (64 - r)) by lia. rewrite Nat2Z.id.
  rewrite memcpy_ok by (rewrite length_take; lia). cbn [mbind option_bind].
  rewrite length_take_le by lia. replace (r + (64 - r))%nat with 64%nat by lia. rewrite (drop_ge _ 64), app_nil_r by lia.
  unfold blen at 1. rewrite (transform_loop_spec k) by (unfold blen in *; try lia; done). cbn [mbind option_bind].
  change 0 with (Z.of_nat 0). rewrite Nat2Z.id, Hb.
  set (block := drop (64 * (length m `div` 64)) m ++ take (64 - r) input).
  assert (length block = 64%nat) as Hblock.
  { unfold block. rewrite length_app, <- Hb, !length_take_le by lia. lia. }
  rewrite memcpy_ok by (rewrite length_drop; lia). cbn [mbind option_bind]. rewrite take_0. cbn [app]. eexists. split; [done|].
  split; cbn [md_state md_count0 md_count1 md_buffer]; [|by rewrite blen_app..| |].
  - rewrite Eq, Es. pose proof (Nat.Div0.div_mod (length m) 64) as E.
    assert (m ++ input = take (64 * (length m / 64)) m ++ block ++ drop (64 - r) input) as ->.
    { unfold block. by rewrite <- app_assoc, take_drop, app_assoc, take_drop. }
    replace (S (length m / 64) + k)%nat with (length m / 64 + (1 + k))%nat by lia.
    rewrite md5_blocks_app, md5_blocks_app; [|done|rewrite length_take; lia].
    cbn [md5_blocks]. rewrite (take_ge block) by lia. f_equal. f_equal.
    symmetry. apply md5_blocks_take. lia.
  - rewrite !length_app, !length_drop, Hblock. lia.
  - rewrite Er, Eq, take_app_length' by (rewrite length_drop; lia). symmetry.
    pose proof (Nat.Div0.div_mod (length m) 64) as E. fold r in E. rewrite drop_app_ge by lia. f_equal. lia.
Qed.

Lemma update_rep m ctx input : md5_rep m ctx -> blen input < 2 ^ 32 - 64 ->
  exists ctx', MD5Update ctx input = Some ctx' /\ md5_rep (m ++ input) ctx'.
Proof.
  intros Hrep Hmax. destruct (Nat.lt_ge_cases (length m `mod` 64 + length input) 64); [by apply update_small|].
  apply update_large; [done|lia|done].
Qed.

(** Any cuts of a message. *)
Fixpoint MD5Updates (ctx : MD5_CTX) (pieces : list bytes) : option MD5_CTX :=
  match pieces with
  | [] => Some ctx
  | p :: pieces => ctx ← MD5Update ctx p; MD5Updates ctx pieces
  end.

Lemma updates_rep pieces : forall m ctx, md5_rep m ctx -> Forall (fun p => blen p < 2 ^ 32 - 64) pieces ->
  exists ctx', MD5Updates ctx pieces = Some ctx' /\ md5_rep (m ++ concat pieces) ctx'.
Proof.
  induction pieces as [|p pieces IH]; intros m ctx Hrep Hp; cbn [MD5Updates concat].
  - exists ctx. by rewrite app_nil_r.
  - apply list.Forall_cons in Hp as [Hp Hps]. destruct (update_rep m ctx p Hrep Hp) as (c1 & -> & Hc1). cbn [mbind option_bind].
    rewrite app_assoc. by apply IH.
Qed.

(** ** The digest *)

Lemma encode_word w : z2b (Z.land w 255) :: z2b (Z.land (Z.shiftr w 8) 255) :: z2b (Z.land (Z.shiftr w 16) 255) ::
  [z2b (Z.land (Z.shiftr w 24) 255)] = le_bytes 4 w.
Proof.
  change 255 with (Z.ones 8). rewrite !Z.land_ones, !Z.shiftr_div_pow2 by lia. unfold le_bytes.
  cbn [be_bytes app]. unfold reverse. cbn [rev_append].
  repeat (apply f_equal2; [apply b2z_inj; rewrite !b2z_z2b; change (2 ^ 8) with 256; change (2 ^ 16) with 65536;
    change (2 ^ 24) with 16777216; Z.div_mod_to_equations; lia|]). done.
Qed.

Lemma Encode_le ws : Encode ws = concat (map (le_bytes 4) ws).
Proof. induction ws as [|w ws IH]; [done|]. cbn [Encode map concat]. by rewrite <- encode_word, IH. Qed.

Lemma le_bytes_app n m z : le_bytes (n + m) z = le_bytes n z ++ le_bytes m (z / 256 ^ Z.of_nat n).
Proof. unfold le_bytes. by rewrite Nat.add_comm, be_bytes_app, reverse_app. Qed.

Lemma le_bytes_mod n z : le_bytes n (z mod 256 ^ Z.of_nat n) = le_bytes n z.
Proof. unfold le_bytes. by rewrite be_bytes_mod. Qed.

Lemma encode_bits z : Encode [u32 z; u32 (z / 2 ^ 32)] = le_bytes 8 z.
Proof.
  rewrite Encode_le. cbn [map concat]. rewrite app_nil_r. change 8%nat with (4 + 4)%nat. rewrite le_bytes_app.
  f_equal; apply (le_bytes_mod 4).
Qed.

Lemma md5_pad_length m : (length (md5_pad m) `mod` 64 = 0)%nat.
Proof.
  unfold md5_pad. rewrite length_app. cbn [length]. rewrite length_app, length_replicate. unfold le_bytes.
  rewrite length_reverse, be_bytes_length. pose proof (Nat.Div0.div_mod (length m) 64) as E.
  pose proof (Nat.mod_upper_bound (length m) 64 ltac:(lia)). set (r := (length m mod 64)%nat) in *.
  set (q := (length m / 64)%nat) in *. destruct (Nat.lt_ge_cases r 56).
  - replace ((119 - r) mod 64)%nat with (55 - r)%nat by (apply (Nat.mod_unique _ _ 1); lia).
    symmetry. apply (Nat.mod_unique _ _ (q + 1)); lia.
  - replace ((119 - r) mod 64)%nat with (119 - r)%nat by (apply (Nat.mod_unique _ _ 0); lia).
    symmetry. apply (Nat.mod_unique _ _ (q + 2)); lia.
Qed.

(** The padding MD5Final adds. *)
Lemma final_padding (r : nat) : (r < 64)%nat ->
  take (Z.to_nat (if decide (Z.of_nat r < 56) then 56 - Z.of_nat r else 120 - Z.of_nat r)) PADDING =
    Byte.x80 :: replicate ((119 - r) `mod` 64) Byte.x00.
Proof.
  intros Hr. unfold PADDING. case_decide.
  - replace (Z.to_nat _) with (S (55 - r)) by lia. cbn [take].
    replace ((119 - r) mod 64)%nat with (55 - r)%nat by (apply (Nat.mod_unique _ _ 1); lia). by rewrite take_replicate, Nat.min_l by lia.
  - replace (Z.to_nat _) with (S (119 - r)) by lia. cbn [take].
    replace ((119 - r) mod 64)%nat with (119 - r)%nat by (apply (Nat.mod_unique _ _ 0); lia). by rewrite take_replicate, Nat.min_l by lia.
Qed.

Lemma final_rep m ctx : md5_rep m ctx -> MD5Final ctx = Some (md5_reference m).
Proof.
  intros Hrep. unfold MD5Final. rewrite (index_of m ctx), final_padding by (done || apply Nat.mod_upper_bound; lia).
  rewrite (mr_count0 _ _ Hrep), (mr_count1 _ _ Hrep), encode_bits. set (pad := Byte.x80 :: _).
  destruct (update_rep m ctx pad Hrep) as (c1 & -> & H1).
  { unfold pad, blen. cbn [length]. rewrite length_replicate. pose proof (Nat.mod_upper_bound (119 - length m mod 64) 64 ltac:(lia)). lia. }
  cbn [mbind option_bind]. destruct (update_rep _ c1 (le_bytes 8 (8 * blen m)) H1) as (c2 & -> & H2).
  { unfold blen, le_bytes. rewrite length_reverse, be_bytes_length. lia. }
  cbn [mbind option_bind]. rewrite (mr_state _ _ H2).
  replace ((m ++ pad) ++ le_bytes 8 (8 * blen m)) with (md5_pad m) by (by unfold pad, md5_pad; rewrite <- app_assoc).
  unfold md5_reference. destruct (md5_blocks _ _ _) as [[[a b] c] d]. by rewrite Encode_le.
Qed.

(** C28: the digest of a message does not depend on how it is handed over.  Any updates,
    each of less than 2^32 - 64 bytes, of a context that was initialised, whatever its
    buffer held, followed by the final step give the digest of the concatenation: the
    padded message, transformed block by block. *)
Theorem md5_updates_digest ctx pieces : length (md_buffer ctx) = 64%nat -> Forall (fun p => blen p < 2 ^ 32 - 64) pieces ->
  (c ← MD5Updates (MD5Init ctx) pieces; MD5Final c) = Some (md5_reference (concat pieces)).
Proof.
  intros Hb Hp. destruct (updates_rep pieces [] (MD5Init ctx) (init_rep ctx Hb) Hp) as (c & -> & Hc).
  cbn [mbind option_bind]. by rewrite (final_rep _ _ Hc).
Qed.

Lemma hash_md5_reference key : blen key < 2 ^ 32 - 64 -> hash_md5 key = Some (md5_reference key).
Proof.
  intros Hk. unfold hash_md5. destruct (update_rep [] (MD5Init raw_context) key) as (c & -> & Hc); [by apply init_rep|done|].
  cbn [mbind option_bind]. by apply final_rep.
Qed.

(** ** Test vectors of RFC 1321, in three cuts *)

Lemma md5_updates_digest_witness :
  let pieces := map list_byte_of_string ["mess"; ""; "age digest"]%string in
  (c ← MD5Updates (MD5Init raw_context) pieces; MD5Final c) =
    Some [Byte.xf9; Byte.x6b; Byte.x69; Byte.x7d; Byte.x7c; Byte.xb7; Byte.x93; Byte.x8d;
          Byte.x52; Byte.x5a; Byte.x2f; Byte.x31; Byte.xaa; Byte.xf1; Byte.x61; Byte.xd0].
Proof.
  cbv zeta. rewrite md5_updates_digest; [by vm_compute|done|]. by repeat constructor.
Defined.
