(* ===== verification/CJson.v ===== *)
(** * CJson: the JSON parser of libvbucket

    Models the parser and the access functions of src/cJSON.c of libvbucket
    (src/cbase/libvbucket/libvbucket-1.8.0).  A pointer into the text is the memory from
    there on, with the terminating zero; looking past it is undefined ([None]).  A parser
    that returns a null pointer gives [Some None].  Parsing the text of a JSON value gives
    the tree of the value. *)

From Stdlib Require Import ZArith Lia Floats.SpecFloat.
From S2P Require Import Prelude CNumbers JsonText.
From stdpp Require Import list numbers.

#[local] Open Scope Z_scope.

(** ** The tree *)

Definition cJSON_False : Z := 0.
Definition cJSON_True : Z := 1.
Definition cJSON_NULL : Z := 2.
Definition cJSON_Number : Z := 3.
Definition cJSON_String : Z := 4.
Definition cJSON_Array : Z := 5.
Definition cJSON_Object : Z := 6.

(** An item with the list of its children; [string] is its name in an object. *)
Inductive cJSON : Type :=
  cJSON_item (type : Z) (valuestring : option bytes) (valueint : Z) (valuedouble : double) (string : option bytes)
    (child : list cJSON).

Definition cj_type (c : cJSON) : Z := let 'cJSON_item t _ _ _ _ _ := c in t.
Definition cj_valuestring (c : cJSON) : option bytes := let 'cJSON_item _ s _ _ _ _ := c in s.
Definition cj_valueint (c : cJSON) : Z := let 'cJSON_item _ _ n _ _ _ := c in n.
Definition cj_string (c : cJSON) : option bytes := let 'cJSON_item _ _ _ _ k _ := c in k.
Definition cj_child (c : cJSON) : list cJSON := let 'cJSON_item _ _ _ _ _ l := c in l.

(** An item of a type, everything else zero. *)
Definition new_item (type : Z) : cJSON := cJSON_item type None 0 dbl_zero None [].
Definition set_name (name : bytes) (c : cJSON) : cJSON :=
  let 'cJSON_item t s n d _ l := c in cJSON_item t s n d (Some name) l.

(** ** Parsing *)

(** A step that may be undefined or may return null. *)
Definition try {A B} (m : option (option A)) (f : A -> option (option B)) : option (option B) :=
  match m with
  | Some (Some a) => f a
  | Some None => Some None
  | None => None
  end.
Declare Scope cjson_scope.
Notation "'let?' p := m 'in' k" := (try m (fun p => k)) (at level 10, p pattern, m at level 100, k at level 200) : cjson_scope.
#[local] Open Scope cjson_scope.
Definition done_with {A} (a : A) : option (option A) := Some (Some a).

(** Zero is no end for this loop either. *)
Fixpoint skip (s : bytes) : option bytes :=
  match s with
  | [] => None
  | c :: s' => if decide (b2z c <= 32) then skip s' else Some s
  end.

(** strncmp of the length of the word. *)
Fixpoint strncmp0 (word s : bytes) : option bool :=
  match word, s with
  | [], _ => Some true
  | _ :: _, [] => None
  | a :: word, c :: s => if decide (c = a) then strncmp0 word s else Some false
  end.

(** *** Numbers *)

(** pow of ten at integers, of the math library. *)
Class Libm : Type := pow10 : Z -> double.

Definition dbl_of_Z (z : Z) : double := double_of_binary (bool_decide (z < 0)) (Z.abs z) 0.

Definition INT_MAX : Z := 2 ^ 31 - 1.
Definition INT_MIN : Z := - 2 ^ 31.
Definition as_int (z : Z) : option Z := if decide (INT_MIN <= z <= INT_MAX) then Some z else None.

(** The conversion of a double to an int cuts off the fraction; out of range it is
    undefined. *)
Definition int_of_dbl (d : double) : option Z :=
  match d with
  | S754_zero _ => Some 0
  | S754_finite s m e =>
      let v := if decide (0 <= e) then Z.pos m * 2 ^ e else Z.pos m / 2 ^ (- e) in
      as_int (if s then - v else v)
  | _ => None
  end.

Definition add_digit (n : double) (d : Z) : double := dbl_add (dbl_mul n (dbl_of_Z 10)) (dbl_of_Z d).

(** The digits from here on: the number of them as well. *)
Fixpoint parse_digits (n : double) (count : Z) (num : bytes) : option (double * Z * bytes) :=
  match num with
  | [] => None
  | c :: num' =>
      match digit c with
      | Some d => parse_digits (add_digit n d) (count + 1) num'
      | None => Some (n, count, num)
      end
  end.

(** The digits of an exponent, in an int. *)
Fixpoint parse_subscale (subscale : Z) (num : bytes) : option (Z * bytes) :=
  match num with
  | [] => None
  | c :: num' =>
      match digit c with
      | Some d => s ← as_int (subscale * 10 + d); parse_subscale s num'
      | None => Some (subscale, num)
      end
  end.

(** A plain char as a number. *)
Definition char_int (c : byte) : Z := let z := b2z c in if decide (z < 128) then z else z - 256.

(** The fraction takes the character behind the point whatever it is. *)
Definition parse_fraction (n : double) (num : bytes) : option (double * Z * bytes) :=
  match num with
  | [] => None
  | Byte.x2e :: num' =>
      match num' with
      | [] => None
      | c :: num' => parse_digits (add_digit n (char_int c - 48)) 1 num'
      end
  | _ => Some (n, 0, num)
  end.

Definition exponent_sign (num : bytes) : option (Z * bytes) :=
  match num with
  | [] => None
  | Byte.x2b :: num' => Some (1, num')
  | Byte.x2d :: num' => Some (-1, num')
  | _ => Some (1, num)
  end.

Definition parse_exponent (num : bytes) : option (Z * bytes) :=
  match num with
  | [] => None
  | (Byte.x65 | Byte.x45) :: num' =>
      '(signsubscale, num') ← exponent_sign num';
      '(subscale, num') ← parse_subscale 0 num';
      Some (subscale * signsubscale, num')
  | _ => Some (0, num)
  end.

Definition number_sign (num : bytes) : option (Z * bytes) :=
  match num with
  | [] => None
  | Byte.x2d :: num' => Some (-1, num')
  | _ => Some (1, num)
  end.

Definition skip_zero (num : bytes) : option bytes :=
  match num with
  | [] => None
  | Byte.x30 :: num' => Some num'
  | _ => Some num
  end.

Section Parse.
Context `{HM : Libm}.

Definition parse_number (num : bytes) : option (option (cJSON * bytes)) :=
  '(sign, num) ← number_sign num;
  num ← skip_zero num;
  c ← head num;
  '(n, _, num) ← (if decide (49 <= b2z c <= 57) then parse_digits dbl_zero 0 num else Some (dbl_zero, 0, num));
  '(n, scale, num) ← parse_fraction n num;
  '(exponent, num) ← parse_exponent num;
  let n := dbl_mul (dbl_mul (dbl_of_Z sign) n) (pow10 (exponent - scale)) in
  valueint ← int_of_dbl n;
  done_with (cJSON_item cJSON_Number None valueint n None [], num).

(** *** Strings *)

(** The length needed, roughly. *)
Fixpoint string_length (ptr : bytes) : option nat :=
  match ptr with
  | [] => None
  | c :: ptr' =>
      if decide (c = Byte.x22 \/ b2z c <= 31) then Some O
      else if decide (c = Byte.x5c) then
        match ptr' with [] => None | _ :: ptr'' => S <$> string_length ptr'' end
      else S <$> string_length ptr'
  end.

(** Up to [w] hexadecimal digits. *)
Fixpoint scan_hex_max (w : nat) (s : bytes) : option (list Z) :=
  match w, s with
  | O, _ => Some []
  | S _, [] => None
  | S w, c :: s => match hex_digit c with Some d => cons d <$> scan_hex_max w s | None => Some [] end
  end.

(** sscanf of %4x: white space, a sign, 0x, and digits in four characters.  [Some None]
    when there is no number. *)
Definition sscanf_4x (s : bytes) : option (option Z) :=
  r0 ← skip_spaces s;
  '(neg, r) ← scan_sign r0;
  let w := (4 - (length r0 - length r))%nat in
  ds ← match r with
       | Byte.x30 :: ((Byte.x78 | Byte.x58) :: r') => scan_hex_max (w - 2) r'
       | _ => scan_hex_max w r
       end;
  match ds with
  | [] => Some None
  | _ => let v := digits_value 16 ds in Some (Some (if neg : bool then u32 (- v) else v))
  end.

Definition utf8 (uc : Z) : bytes :=
  if decide (uc < 0x80) then [z2b uc]
  else if decide (uc < 0x800) then
    [z2b (Z.lor (Z.shiftr uc 6) 0xC0); z2b (Z.land (Z.lor uc 0x80) 0xBF)]
  else
    [z2b (Z.lor (Z.shiftr (Z.shiftr uc 6) 6) 0xE0); z2b (Z.land (Z.lor (Z.shiftr uc 6) 0x80) 0xBF);
     z2b (Z.land (Z.lor uc 0x80) 0xBF)].

(** The character an escape stands for. *)
Definition unescape (c : byte) : byte :=
  match c with
  | Byte.x62 => Byte.x08
  | Byte.x66 => Byte.x0c
  | Byte.x6e => Byte.x0a
  | Byte.x72 => Byte.x0d
  | Byte.x74 => Byte.x09
  | c => c
  end.

(** Writing behind [out] in a buffer of [len + 1] bytes. *)
Definition emit (len : nat) (out bs : bytes) : option bytes :=
  if decide (length out + length bs <= len + 1)%nat then Some (out ++ bs) else None.

(** The loop that copies; [uc] is set by the first escape of a code. *)
Fixpoint copy_string (fuel len : nat) (uc : option Z) (ptr out : bytes) : option (bytes * bytes) :=
  match fuel with
  | O => None
  | S fuel =>
      c ← head ptr;
      if decide (c = Byte.x22 \/ b2z c <= 31) then Some (out, ptr)
      else if decide (c <> Byte.x5c) then out ← emit len out [c]; copy_string fuel len uc (tail ptr) out
      else
        let ptr := tail ptr in
        e ← head ptr;
        if decide (e = Byte.x75) then
          code ← sscanf_4x (tail ptr);
          uc ← (match code with Some v => Some v | None => uc end);
          out ← emit len out (utf8 uc);
          copy_string fuel len (Some uc) (drop 5 ptr) out
        else out ← emit len out [unescape e]; copy_string fuel len uc (tail ptr) out
  end.

(** The string that starts at a byte ends before the first zero. *)
Fixpoint cstring (s : bytes) : bytes :=
  match s with
  | [] => []
  | c :: s => if decide (c = Byte.x00) then [] else c :: cstring s
  end.

Definition parse_string (str : bytes) : option (option (bytes * bytes)) :=
  c ← head str;
  if decide (c <> Byte.x22) then Some None
  else
    len ← string_length (tail str);
    '(out, ptr) ← copy_string (S (length str)) len None (tail str) [];
    out ← emit len out [Byte.x00];
    c ← head ptr;
    done_with (cstring out, if decide (c = Byte.x22) then tail ptr else ptr).

(** *** Values *)

Definition word_null : bytes := [Byte.x6e; Byte.x75; Byte.x6c; Byte.x6c].
Definition word_false : bytes := [Byte.x66; Byte.x61; Byte.x6c; Byte.x73; Byte.x65].
Definition word_true : bytes := [Byte.x74; Byte.x72; Byte.x75; Byte.x65].

Fixpoint parse_value (fuel : nat) (value : bytes) {struct fuel} : option (option (cJSON * bytes)) :=
  match fuel with
  | O => None
  | S fuel =>
      b ← strncmp0 word_null value;
      if b : bool then done_with (new_item cJSON_NULL, drop 4 value) else
      b ← strncmp0 word_false value;
      if b : bool then done_with (new_item cJSON_False, drop 5 value) else
      b ← strncmp0 word_true value;
      if b : bool then done_with (cJSON_item cJSON_True None 1 dbl_zero None [], drop 4 value) else
      c ← head value;
      if decide (c = Byte.x22) then
        let? (s, value) := parse_string value in done_with (cJSON_item cJSON_String (Some s) 0 dbl_zero None [], value)
      else if decide (c = Byte.x2d \/ 48 <= b2z c <= 57) then parse_number value
      else if decide (c = Byte.x5b) then parse_array fuel value
      else if decide (c = Byte.x7b) then parse_object fuel value
      else Some None
  end
with parse_array (fuel : nat) (value : bytes) {struct fuel} : option (option (cJSON * bytes)) :=
  match fuel with
  | O => None
  | S fuel =>
      value ← skip (tail value);
      c ← head value;
      if decide (c = Byte.x5d) then done_with (new_item cJSON_Array, tail value)
      else let? (l, value) := parse_elements fuel value in done_with (cJSON_item cJSON_Array None 0 dbl_zero None l, value)
  end
with parse_elements (fuel : nat) (value : bytes) {struct fuel} : option (option (list cJSON * bytes)) :=
  match fuel with
  | O => None
  | S fuel =>
      value ← skip value;
      let? (child, value) := parse_value fuel value in
      value ← skip value;
      c ← head value;
      if decide (c = Byte.x2c) then
        let? (l, value) := parse_elements fuel (tail value) in done_with (child :: l, value)
      else if decide (c = Byte.x5d) then done_with ([child], tail value)
      else Some None
  end
with parse_object (fuel : nat) (value : bytes) {struct fuel} : option (option (cJSON * bytes)) :=
  match fuel with
  | O => None
  | S fuel =>
      value ← skip (tail value);
      c ← head value;
      if decide (c = Byte.x7d) then done_with (new_item cJSON_Object, tail value)
      else let? (l, value) := parse_members fuel value in done_with (cJSON_item cJSON_Object None 0 dbl_zero None l, value)
  end
with parse_members (fuel : nat) (value : bytes) {struct fuel} : option (option (list cJSON * bytes)) :=
  match fuel with
  | O => None
  | S fuel =>
      value ← skip value;
      let? (name, value) := parse_string value in
      value ← skip value;
      c ← head value;
      if decide (c <> Byte.x3a) then Some None
      else
        value ← skip (tail value);
        let? (child, value) := parse_value fuel value in
        value ← skip value;
        c ← head value;
        if decide (c = Byte.x2c) then
          let? (l, value) := parse_members fuel (tail value) in done_with (set_name name child :: l, value)
        else if decide (c = Byte.x7d) then done_with ([set_name name child], tail value)
        else Some None
  end.

(** A level of nesting or an element takes a byte at least, and three calls. *)
Definition cJSON_Parse (value : bytes) : option (option cJSON) :=
  v ← skip value;
  let? (c, _) := parse_value (3 * length value) v in done_with c.
End Parse.

(** ** Access *)

(** Strings without case; a null name is equal to none. *)
Fixpoint strcasecmp (s1 s2 : bytes) : Z :=
  match s1, s2 with
  | [], [] => 0
  | [], c2 :: _ => - b2z (tolower c2)
  | c1 :: _, [] => b2z (tolower c1)
  | c1 :: s1, c2 :: s2 => if decide (tolower c1 = tolower c2) then strcasecmp s1 s2 else b2z (tolower c1) - b2z (tolower c2)
  end.
Definition cJSON_strcasecmp (s1 : option bytes) (s2 : bytes) : Z :=
  match s1 with Some s1 => strcasecmp s1 s2 | None => 1 end.

Definition cJSON_GetArraySize (array : cJSON) : Z := Z.of_nat (length (cj_child array)).
Definition cJSON_GetArrayItem (array : cJSON) (item : Z) : option cJSON := cj_child array !! Z.to_nat item.
Fixpoint find_item (l : list cJSON) (string : bytes) : option cJSON :=
  match l with
  | [] => None
  | c :: l => if decide (cJSON_strcasecmp (cj_string c) string = 0) then Some c else find_item l string
  end.
Definition cJSON_GetObjectItem (object : cJSON) (string : bytes) : option cJSON := find_item (cj_child object) string.
