(* ===== verification/CJsonProofs.v ===== *)
(** * CJsonProofs: parsing the text of a value gives its tree

    [tree] is the tree that stands for a JSON value, and cJSON_Parse of the text of the
    value returns it.  A text that ends too early is read past its end. *)

From Stdlib Require Import ZArith Lia Floats.SpecFloat.
From S2P Require Import Prelude CNumbers JsonText CJson.
From stdpp Require Import list numbers.

#[local] Open Scope Z_scope.
#[local] Open Scope cjson_scope.

Section Parse.
Context `{HM : Libm}.

(** ** Numbers *)

(** The double of the digits, as the parser adds them up. *)
Definition digits_double (ds : list Z) : double := foldl add_digit dbl_zero ds.
Definition number_double (n : jnumber) : double :=
  dbl_mul (dbl_mul (dbl_of_Z (if jn_neg n then -1 else 1)) (digits_double (jn_int n ++ jn_frac n)))
    (pow10 (exp_value (jn_exp n) - Z.of_nat (length (jn_frac n)))).

(** No superfluous zero in front, an exponent and a value within an int. *)
Record number_ok (n : jnumber) : Prop := {
  no_number : jnumber_ok n;
  no_zero : jn_int n = [0] \/ head (jn_int n) <> Some 0;
  no_exp : match jn_exp n with Some e => digits_value 10 (je_digits e) <= INT_MAX | None => True end;
  no_value : is_Some (int_of_dbl (number_double n))
}.

Lemma parse_digits_print ds c r : digits_ok ds -> digit c = None -> forall n k,
  parse_digits n k (map digit_char ds ++ c :: r) = Some (foldl add_digit n ds, k + Z.of_nat (length ds), c :: r).
Proof.
  intros Hd Hc. induction Hd as [|d ds Hd0 _ IH]; intros n k; cbn [map app parse_digits foldl length].
  - rewrite Hc. by rewrite Z.add_0_r.
  - rewrite digit_char_digit, IH by done. f_equal. f_equal. f_equal. lia.
Qed.

Lemma digits_value_cons s d ds : foldl (fun a d => a * 10 + d) s (d :: ds) = foldl (fun a d => a * 10 + d) (s * 10 + d) ds.
Proof. done. Qed.

Lemma digits_value_ge ds s : digits_ok ds -> 0 <= s -> s <= foldl (fun a d => a * 10 + d) s ds.
Proof.
  intros Hd. revert s. induction Hd as [|d ds Hd0 _ IH]; intros s Hs; [done|]. rewrite digits_value_cons.
  specialize (IH (s * 10 + d)). lia.
Qed.

Lemma parse_subscale_print ds c r : digits_ok ds -> digit c = None -> forall s, 0 <= s ->
  foldl (fun a d => a * 10 + d) s ds <= INT_MAX ->
  parse_subscale s (map digit_char ds ++ c :: r) = Some (foldl (fun a d => a * 10 + d) s ds, c :: r).
Proof.
  intros Hd Hc. induction Hd as [|d ds Hd0 Hds IH]; intros s Hs Hmax; cbn [map app parse_subscale].
  - by rewrite Hc.
  - rewrite digits_value_cons in *. rewrite digit_char_digit by done. unfold as_int.
    pose proof (digits_value_ge ds (s * 10 + d) Hds). rewrite decide_True by (unfold INT_MIN; lia). cbn [mbind option_bind].
    apply IH; [lia|done].
Qed.

Lemma char_int_digit d : 0 <= d < 10 -> char_int (digit_char d) - 48 = d.
Proof.
  intros Hd. assert (d = 0 \/ d = 1 \/ d = 2 \/ d = 3 \/ d = 4 \/ d = 5 \/ d = 6 \/ d = 7 \/ d = 8 \/ d = 9) as Hc by lia.
  destruct_or! Hc; subst; done.
Qed.

Lemma parse_fraction_print fp c r n : digits_ok fp -> digit c = None -> c <> Byte.x2e ->
  parse_fraction n (match fp with [] => [] | _ => Byte.x2e :: map digit_char fp end ++ c :: r) =
    Some (foldl add_digit n fp, Z.of_nat (length fp), c :: r).
Proof.
  intros Hf Hc Hp. destruct fp as [|d fp]; cbn [app parse_fraction].
  - by destruct c.
  - apply list.Forall_cons in Hf as [Hd Hf]. cbn [map app]. rewrite char_int_digit by done.
    rewrite parse_digits_print by done. cbn [foldl length]. f_equal. f_equal. f_equal. lia.
Qed.

Lemma parse_exponent_print e c r : exp_ok e ->
  match e with Some e => digits_value 10 (je_digits e) <= INT_MAX | None => True end -> delimiter c ->
  parse_exponent (print_exp e ++ c :: r) = Some (exp_value e, c :: r).
Proof.
  intros He Hm Hc. assert (digit c = None) as Hd by (destruct Hc as [->|[->|[->| ->]]]; done).
  destruct e as [[l sg ds]|]; cbn [print_exp exp_value je_letter je_sign je_digits exp_ok app] in *.
  - destruct He as (Hl & Hds & Hne). assert (l = Byte.x65 \/ l = Byte.x45) as Hle by (destruct l; try done; auto).
    destruct ds as [|d ds]; [done|]. pose proof Hds as [Hd0 _]%list.Forall_cons.
    set (sign := match sg with Some true => [Byte.x2d] | Some false => [Byte.x2b] | None => [] end).
    assert (exponent_sign ((sign ++ map digit_char (d :: ds)) ++ c :: r) =
      Some (match sg with Some true => -1 | _ => 1 end, map digit_char (d :: ds) ++ c :: r)) as Es.
    { destruct sg as [[]|]; [done|done|]. cbn [app map sign]. by destruct (digit_char_cases d Hd0) as [->|(_ & _ & ? & ?)]; [|destruct (digit_char d)]. }
    assert (parse_exponent (l :: (sign ++ map digit_char (d :: ds)) ++ c :: r) =
      '(signsubscale, num') ← exponent_sign ((sign ++ map digit_char (d :: ds)) ++ c :: r);
      '(subscale, num') ← parse_subscale 0 num'; Some (subscale * signsubscale, num')) as E by (by destruct Hle as [-> | ->]).
    rewrite E, Es. cbn [mbind option_bind]. unfold digits_value in *.
    rewrite parse_subscale_print by (done || lia). cbn [mbind option_bind].
    f_equal. f_equal. destruct sg as [[]|]; lia.
  - by destruct Hc as [->|[->|[->| ->]]].
Qed.

Definition number_item (n : jnumber) : cJSON :=
  cJSON_item cJSON_Number None (default 0 (int_of_dbl (number_double n))) (number_double n) None [].

Lemma number_sign_print (neg : bool) d s : 0 <= d < 10 ->
  number_sign ((if neg then [Byte.x2d] else []) ++ digit_char d :: s) = Some (if neg then -1 else 1, digit_char d :: s).
Proof.
  intros Hd. destruct neg; [done|]. cbn [app]. destruct (digit_char_cases d Hd) as [->|(_ & _ & ? & _)]; [done|].
  by destruct (digit_char d).
Qed.

Lemma digit_char_range d : 0 <= d < 10 -> b2z (digit_char d) = 48 + d.
Proof. intros Hd. unfold digit_char. rewrite b2z_z2b, Z.mod_small by lia. done. Qed.

(** The integer part, after the sign. *)
Lemma parse_int_print ip c r : digits_ok ip -> ip = [0] \/ (ip <> [] /\ head ip <> Some 0) -> digit c = None ->
  exists num k, skip_zero (map digit_char ip ++ c :: r) = Some num /\
    (x ← head num; (if decide (49 <= b2z x <= 57) then parse_digits dbl_zero 0 num else Some (dbl_zero, 0, num))) =
      Some (digits_double ip, k, c :: r).
Proof.
  intros Hd Hz Hc. destruct Hz as [->|[Hne Hh]].
  - exists (c :: r), 0. split; [done|]. cbn [head mbind option_bind]. rewrite decide_False.
    + do 3 f_equal.
    + intros Hr. unfold digit in Hc. rewrite decide_True in Hc by lia. done.
  - destruct ip as [|d ip]; [done|]. pose proof Hd as [Hd0 _]%list.Forall_cons.
    assert (d <> 0) as Hd1 by (intros ->; done). exists (map digit_char (d :: ip) ++ c :: r), (0 + Z.of_nat (length (d :: ip))). split.
    + cbn [map app]. pose proof (digit_char_range d Hd0) as E. destruct (digit_char d); try done. exfalso. change (b2z Byte.x30) with 48 in E. lia.
    + cbn [map app head mbind option_bind]. rewrite decide_True by (rewrite digit_char_range by done; lia).
      by apply (parse_digits_print (d :: ip)).
Qed.

Lemma parse_number_print n c r : number_ok n -> delimiter c ->
  parse_number (print_number n ++ c :: r) = done_with (number_item n, c :: r).
Proof.
  intros [[[Hi Hne] Hf He] Hz Hx [v Hv]] Hc. unfold print_number. rewrite <- !app_assoc.
  destruct (scan_frac (jn_frac n) (jn_exp n) c r) as (c' & r' & Er & Hd' & Hp' & _ & _); [done..|].
  pose proof (parse_exponent_print (jn_exp n) c r He Hx Hc) as Ex. rewrite Er in *.
  pose proof (parse_fraction_print (jn_frac n) c' r' (digits_double (jn_int n)) Hf Hd' Hp') as Ef.
  set (frac := match jn_frac n with [] => [] | _ => Byte.x2e :: map digit_char (jn_frac n) end) in *.
  assert (exists c'' r'', frac ++ c' :: r' = c'' :: r'' /\ digit c'' = None) as (c'' & r'' & Ec & Hd'').
  { unfold frac. destruct (jn_frac n); [by exists c', r'|]. cbn [app]. by eexists _, _. }
  rewrite Ec in *. destruct (parse_int_print (jn_int n) c'' r'' Hi) as (num & k & E1 & E2); [|done|].
  { destruct Hz as [Hz|Hz]; [by left|by right]. }
  unfold parse_number. destruct (jn_int n) as [|d ip] eqn:Ei; [done|]. pose proof Hi as [Hi0 _]%list.Forall_cons.
  cbn [map app] in *. rewrite number_sign_print by done. cbn [mbind option_bind] in *. rewrite E1.
  destruct num as [|x num]; [done|]. cbn [mbind option_bind head] in *. rewrite E2. cbn [mbind option_bind]. rewrite Ef. cbn [mbind option_bind]. rewrite Ex. cbn [mbind option_bind].
  unfold number_item. assert (dbl_mul (dbl_mul (dbl_of_Z (if jn_neg n then -1 else 1)) (foldl add_digit (digits_double (d :: ip)) (jn_frac n)))
    (pow10 (exp_value (jn_exp n) - Z.of_nat (length (jn_frac n)))) = number_double n) as ->.
  { unfold number_double, digits_double. by rewrite Ei, foldl_app. }
  by rewrite Hv.
Qed.

(** ** Strings *)

(** The bytes a character of a text stands for. *)
Definition char_bytes (c : jchar) : bytes :=
  match c with
  | JPlain c => [c]
  | JEscape c => [unescape c]
  | JUnicode d0 d1 d2 d3 =>
      let v d := default 0 (hex_digit d) in utf8 (v d0 * 4096 + v d1 * 256 + v d2 * 16 + v d3)
  end.
Definition string_bytes (s : jstring) : bytes := cstring (concat (map char_bytes s)).

(** Control characters end a string. *)
Definition char_ok (c : jchar) : Prop := jchar_ok c /\ match c with JPlain c => 31 < b2z c | _ => True end.

(** What string_length counts for it. *)
Definition char_room (c : jchar) : nat := match c with JUnicode _ _ _ _ => 5%nat | _ => 1%nat end.
Definition room (s : jstring) : nat := foldr (fun c n => char_room c + n)%nat O s.

Lemma hex_plain d : hex_digit d <> None -> d <> Byte.x22 /\ d <> Byte.x5c /\ 31 < b2z d.
Proof. destruct d; intros Hd; by vm_compute in Hd. Qed.

Lemma string_length_plain c r : c <> Byte.x22 -> c <> Byte.x5c -> 31 < b2z c -> string_length (c :: r) = S <$> string_length r.
Proof. intros H1 H2 H3. cbn [string_length]. rewrite decide_False by (intros [?|?]; [done|lia]). by rewrite decide_False. Qed.

Lemma string_length_escape c r : string_length (Byte.x5c :: c :: r) = S <$> string_length r.
Proof. done. Qed.

Lemma string_length_print s r : Forall char_ok s -> string_length (concat (map print_char s) ++ Byte.x22 :: r) = Some (room s).
Proof.
  induction 1 as [|c s [Hc Hp] _ IH]; [done|]. cbn [map concat]. rewrite <- app_assoc. unfold room in *. cbn [map foldr].
  destruct c as [c|c|d0 d1 d2 d3]; cbn [print_char app char_room].
  - destruct Hc. rewrite string_length_plain, IH by done. done.
  - by rewrite string_length_escape, IH.
  - apply list.Forall_cons in Hc as [H0 Hc]. apply list.Forall_cons in Hc as [H1 Hc]. apply list.Forall_cons in Hc as [H2 Hc].
    apply list.Forall_cons in Hc as [H3 _]. apply hex_plain in H0 as (?&?&?). apply hex_plain in H1 as (?&?&?).
    apply hex_plain in H2 as (?&?&?). apply hex_plain in H3 as (?&?&?).
    by rewrite string_length_escape, !string_length_plain, IH.
Qed.

Lemma sscanf_hex d0 d1 d2 d3 r : Forall (fun d => hex_digit d <> None) [d0; d1; d2; d3] ->
  let v d := default 0 (hex_digit d) in
  sscanf_4x (d0 :: d1 :: d2 :: d3 :: r) = Some (Some (v d0 * 4096 + v d1 * 256 + v d2 * 16 + v d3)).
Proof.
  intros Hf. apply list.Forall_cons in Hf as [H0 Hf]. apply list.Forall_cons in Hf as [H1 Hf].
  apply list.Forall_cons in Hf as [H2 Hf]. apply list.Forall_cons in Hf as [H3 _]. cbv zeta.
  assert (forall s, skip_spaces (d0 :: s) = Some (d0 :: s) /\ scan_sign (d0 :: s) = Some (false, d0 :: s)) as Es.
  { intros s. destruct d0; try done; by vm_compute in H0. }
  unfold sscanf_4x. destruct (Es (d1 :: d2 :: d3 :: r)) as [-> E2]. cbn [mbind option_bind]. rewrite E2. cbn [mbind option_bind].
  rewrite Nat.sub_diag. change (4 - 0)%nat with 4%nat.
  assert (forall A (f : bytes -> A) (g : A), match d0 :: d1 :: d2 :: d3 :: r with
    | Byte.x30 :: ((Byte.x78 | Byte.x58) :: r') => f r' | _ => g end = g) as Em.
  { intros A f g. destruct d0; try done. destruct d1; try done; by vm_compute in H1. }
  rewrite Em. cbn [scan_hex_max].
  destruct (hex_digit d0) as [v0|]; [|done]. destruct (hex_digit d1) as [v1|]; [|done].
  destruct (hex_digit d2) as [v2|]; [|done]. destruct (hex_digit d3) as [v3|]; [|done].
  cbn [fmap option_fmap option_map mbind option_bind default]. f_equal. f_equal. unfold digits_value. cbn [foldl]. unfold id. lia.
Qed.

Lemma emit_ok len out bs : (length out + length bs <= len + 1)%nat -> emit len out bs = Some (out ++ bs).
Proof. intros Hl. unfold emit. by rewrite decide_True. Qed.

Lemma utf8_length uc : (length (utf8 uc) <= 3)%nat.
Proof. unfold utf8. repeat case_decide; cbn; lia. Qed.

Lemma copy_string_print s r : Forall char_ok s -> forall fuel len uc out, (length s < fuel)%nat -> (length out + room s <= len)%nat ->
  copy_string fuel len uc (concat (map print_char s) ++ Byte.x22 :: r) out = Some (out ++ concat (map char_bytes s), Byte.x22 :: r).
Proof.
  induction 1 as [|c s [Hc Hp] _ IH]; intros fuel len uc out Hf Hl; cbn [length] in Hf; (destruct fuel as [|fuel]; [lia|]).
  { cbn. by rewrite app_nil_r. }
  unfold room in *. cbn [map concat foldr] in *. rewrite <- app_assoc, (app_assoc out). cbn [copy_string].
  destruct c as [c|c|d0 d1 d2 d3]; cbn [print_char app head tail mbind option_bind char_bytes char_room] in *.
  - destruct Hc. rewrite decide_False by (intros [?|?]; [done|lia]). rewrite decide_True by done.
    rewrite emit_ok by (cbn; lia). cbn [mbind option_bind]. apply IH; [lia|]. rewrite length_app. cbn [length]. lia.
  - rewrite decide_False by (intros [?|?]; done). rewrite decide_False by tauto. rewrite decide_False by done.
    rewrite emit_ok by (cbn; lia). cbn [mbind option_bind]. apply IH; [lia|]. rewrite length_app. cbn [length]. lia.
  - rewrite decide_False by (intros [?|?]; done). rewrite decide_False by tauto. rewrite decide_True by done.
    rewrite sscanf_hex by done. cbn [mbind option_bind]. set (uc' := _ + _ + _ + _). pose proof (utf8_length uc').
    rewrite emit_ok by lia. cbn [mbind option_bind drop]. apply IH; [lia|rewrite length_app; lia].
Qed.

Lemma print_char_length s : (length s <= length (concat (map print_char s)))%nat.
Proof. induction s as [|[] s IH]; cbn; [lia|lia..]. Qed.

Lemma cstring_app_zero s : cstring (s ++ [Byte.x00]) = cstring s.
Proof. induction s as [|c s IH]; [done|]. cbn. case_decide; [done|]. by rewrite IH. Qed.

Lemma char_bytes_room s : (length (concat (map char_bytes s)) <= room s)%nat.
Proof.
  unfold room. induction s as [|c s IH]; [done|]. cbn [map concat foldr]. rewrite length_app.
  destruct c as [c|c|d0 d1 d2 d3]; cbn [char_bytes char_room length]; [lia|lia|].
  pose proof (utf8_length (let v d := default 0 (hex_digit d) in v d0 * 4096 + v d1 * 256 + v d2 * 16 + v d3)). cbv zeta in *. lia.
Qed.

Lemma parse_string_print s r : Forall char_ok s -> parse_string (print_string s ++ r) = done_with (string_bytes s, r).
Proof.
  intros Hs. unfold parse_string, print_string. cbn [app head tail mbind option_bind]. rewrite decide_False by tauto.
  rewrite <- app_assoc. cbn [app]. rewrite string_length_print by done. cbn [mbind option_bind].
  pose proof (print_char_length s). pose proof (char_bytes_room s).
  rewrite copy_string_print by (done || (rewrite ?length_cons, ?length_app; cbn; lia)). cbn [mbind option_bind app].
  rewrite emit_ok by (cbn; lia). cbn [mbind option_bind head tail]. rewrite decide_True by done. by rewrite cstring_app_zero.
Qed.

(** ** Values *)

Fixpoint text_ok (v : json) : Prop :=
  match v with
  | JNull | JFalse | JTrue => True
  | JNumber n => number_ok n
  | JString s => Forall char_ok s
  | JArray l => foldr (fun v P => text_ok v /\ P) True l
  | JObject l => foldr (fun kv P => (Forall char_ok kv.1 /\ text_ok kv.2) /\ P) True l
  end.

Fixpoint tree (v : json) : cJSON :=
  match v with
  | JNull => new_item cJSON_NULL
  | JFalse => new_item cJSON_False
  | JTrue => cJSON_item cJSON_True None 1 dbl_zero None []
  | JNumber n => number_item n
  | JString s => cJSON_item cJSON_String (Some (string_bytes s)) 0 dbl_zero None []
  | JArray l => cJSON_item cJSON_Array None 0 dbl_zero None (map tree l)
  | JObject l => cJSON_item cJSON_Object None 0 dbl_zero None (map (fun kv => set_name (string_bytes kv.1) (tree kv.2)) l)
  end.

Lemma skip_at c r : 32 < b2z c -> skip (c :: r) = Some (c :: r).
Proof. intros Hc. cbn. by rewrite decide_False by lia. Qed.

Lemma skip_blank l : Forall (fun c => b2z c <= 32) l -> skip l = None.
Proof. induction 1 as [|c l Hc _ IH]; [done|]. cbn [skip]. by rewrite decide_True. Qed.

(** A number starts with a sign or a digit. *)
Lemma number_head n : number_ok n -> exists c s, print_number n = c :: s /\ (c = Byte.x2d \/ 48 <= b2z c <= 57).
Proof.
  intros [[[Hi Hne] _ _] _ _ _]. unfold print_number. destruct (jn_neg n); [by do 2 eexists; split; [done|left]|].
  destruct (jn_int n) as [|d ip]; [done|]. apply list.Forall_cons in Hi as [Hd _]. do 2 eexists. split; [done|]. right.
  rewrite digit_char_range by done. lia.
Qed.

Lemma text_head v : text_ok v -> exists c s, print v = c :: s /\ 32 < b2z c /\ c <> Byte.x5d.
Proof.
  intros Hv. destruct v; try by do 2 eexists; split_and!. destruct (number_head n Hv) as (c & s & E & Hc).
  exists c, s. split; [done|]. destruct Hc as [->|Hc]; [done|]. split; [lia|]. intros ->. change (b2z Byte.x5d) with 93 in Hc. lia.
Qed.

Lemma skip_print v r : text_ok v -> skip (print v ++ r) = Some (print v ++ r).
Proof. intros Hv. destruct (text_head v Hv) as (c & s & -> & Hc & _). by apply skip_at. Qed.

Lemma skip_string s r : skip (print_string s ++ r) = Some (print_string s ++ r).
Proof. by apply skip_at. Qed.

Definition parses (v : json) : Prop := text_ok v -> forall fuel c r, delimiter c -> (3 * length (print v) <= fuel)%nat ->
  parse_value fuel (print v ++ c :: r) = done_with (tree v, c :: r).

Lemma delimiter_skip c r : delimiter c -> c <> Byte.x00 -> skip (c :: r) = Some (c :: r).
Proof. intros Hc Hz. apply skip_at. by destruct Hc as [->|[->|[->| ->]]]. Qed.

Lemma cjson_print_tail_cons {A} (p : A -> bytes) close x l : print_tail p close (x :: l) = Byte.x2c :: print_items p close (x :: l).
Proof. unfold print_tail, print_items. cbn [map concat app]. by rewrite <- app_assoc. Qed.

Lemma print_tail_length {A} (p : A -> bytes) close l : (0 < length (print_tail p close l))%nat.
Proof. unfold print_tail. rewrite length_app. cbn. lia. Qed.

Lemma parse_elements_print l : Forall parses l -> Forall text_ok l -> l <> [] -> forall fuel r,
  (3 * length (print_items print Byte.x5d l) <= fuel)%nat ->
  parse_elements fuel (print_items print Byte.x5d l ++ r) = done_with (map tree l, r).
Proof.
  induction 1 as [|v l Hv _ IH]; intros Hok Hne fuel r Hf; [done|]. apply list.Forall_cons in Hok as [Hok Hoks].
  cbn [print_items] in *. rewrite length_app in Hf. destruct l as [|v2 l].
  - cbn [print_tail map concat app] in *. change (print_tail print Byte.x5d []) with [Byte.x5d] in *. cbn [length] in Hf.
    destruct fuel as [|fuel]; [lia|]. cbn [parse_elements]. rewrite <- app_assoc. cbn [app]. rewrite skip_print by done. cbn [mbind option_bind].
    rewrite Hv; [|done|by right; left|lia]. cbn [try done_with]. rewrite delimiter_skip by (done || by right; left). cbn [mbind option_bind head tail].
    by rewrite decide_False, decide_True by done.
  - rewrite cjson_print_tail_cons in *. cbn [length] in Hf. destruct fuel as [|fuel]; [lia|]. cbn [parse_elements]. rewrite <- app_assoc. cbn [app]. rewrite skip_print by done. cbn [mbind option_bind].
    rewrite Hv; [|done|by left|lia]. cbn [try done_with]. rewrite delimiter_skip by (done || by left). cbn [mbind option_bind head tail].
    rewrite decide_True by done. rewrite IH by (done || lia). done.
Qed.

Definition print_member (kv : jstring * json) : bytes := print_string kv.1 ++ Byte.x3a :: print kv.2.
Definition member_tree (kv : jstring * json) : cJSON := set_name (string_bytes kv.1) (tree kv.2).
Definition member_ok (kv : jstring * json) : Prop := Forall char_ok kv.1 /\ text_ok kv.2.

(** One member, up to what follows it. *)
Lemma parse_member_print kv fuel c r (k : cJSON -> bytes -> option (option (list cJSON * bytes))) :
  parses kv.2 -> member_ok kv -> delimiter c -> c <> Byte.x00 -> (3 * length (print_member kv) <= fuel)%nat ->
  (value ← skip (print_member kv ++ c :: r);
   let? (name, value) := parse_string value in
   value ← skip value;
   x ← head value;
   if decide (x <> Byte.x3a) then Some None
   else
     value ← skip (tail value);
     let? (child, value) := parse_value fuel value in
     value ← skip value;
     k (set_name name child) value) = k (member_tree kv) (c :: r).
Proof.
  intros Hp [Hk Hv] Hc Hz Hf. unfold print_member in *. rewrite length_app in Hf. cbn [length] in Hf. rewrite <- app_assoc. cbn [app].
  rewrite skip_string. cbn [mbind option_bind]. rewrite parse_string_print by done. cbn [try done_with].
  rewrite (skip_at Byte.x3a) by done. cbn [mbind option_bind head tail]. rewrite decide_False by tauto.
  rewrite skip_print by done. cbn [mbind option_bind]. rewrite Hp by (done || lia). cbn [try done_with].
  by rewrite delimiter_skip by done.
Qed.

Lemma parse_members_print l : Forall (fun kv => parses kv.2) l -> Forall member_ok l -> l <> [] -> forall fuel r,
  (3 * length (print_items print_member Byte.x7d l) <= fuel)%nat ->
  parse_members fuel (print_items print_member Byte.x7d l ++ r) = done_with (map member_tree l, r).
Proof.
  induction 1 as [|kv l Hv _ IH]; intros Hok Hne fuel r Hf; [done|]. apply list.Forall_cons in Hok as [Hok Hoks].
  cbn [print_items] in *. rewrite length_app in Hf. destruct fuel as [|fuel]; [pose proof (print_tail_length print_member Byte.x7d l); lia|].
  cbn [parse_members]. destruct l as [|kv2 l].
  - change (print_tail print_member Byte.x7d []) with [Byte.x7d] in *. cbn [length] in Hf. rewrite <- app_assoc. cbn [app].
    rewrite (parse_member_print kv fuel Byte.x7d r (fun child value => c ← head value;
      if decide (c = Byte.x2c) then let? (l, value) := parse_members fuel (tail value) in done_with (child :: l, value)
      else if decide (c = Byte.x7d) then done_with ([child], tail value) else Some None)); [done|done|done|by right; right; left|done|lia].
  - rewrite cjson_print_tail_cons in *. cbn [length] in Hf. rewrite <- app_assoc. cbn [app].
    rewrite (parse_member_print kv fuel Byte.x2c _ (fun child value => c ← head value;
      if decide (c = Byte.x2c) then let? (l, value) := parse_members fuel (tail value) in done_with (child :: l, value)
      else if decide (c = Byte.x7d) then done_with ([child], tail value) else Some None)); [|done|done|by left|done|lia].
    cbn [head tail mbind option_bind]. rewrite decide_True by done. rewrite IH by (done || lia). done.
Qed.

Lemma text_ok_array l : text_ok (JArray l) <-> Forall text_ok l.
Proof. cbn. induction l as [|v l IH]; cbn; [split; [constructor|done]|]. by rewrite list.Forall_cons, IH. Qed.
Lemma text_ok_object l : text_ok (JObject l) <-> Forall member_ok l.
Proof. cbn. induction l as [|v l IH]; cbn; [split; [constructor|done]|]. by rewrite list.Forall_cons, IH. Qed.

(** A value that is none of the three words. *)
Lemma parse_value_other fuel c s : c <> Byte.x6e -> c <> Byte.x66 -> c <> Byte.x74 ->
  parse_value (S fuel) (c :: s) =
    if decide (c = Byte.x22) then
      let? (t, value) := parse_string (c :: s) in done_with (cJSON_item cJSON_String (Some t) 0 dbl_zero None [], value)
    else if decide (c = Byte.x2d \/ 48 <= b2z c <= 57) then parse_number (c :: s)
    else if decide (c = Byte.x5b) then parse_array fuel (c :: s)
    else if decide (c = Byte.x7b) then parse_object fuel (c :: s)
    else Some None.
Proof.
  intros H1 H2 H3. cbn [parse_value strncmp0 word_null word_false word_true].
  rewrite (decide_False (P := c = Byte.x6e)), (decide_False (P := c = Byte.x66)), (decide_False (P := c = Byte.x74)) by done. done.
Qed.

Lemma parse_array_print l fuel r : Forall parses l -> Forall text_ok l -> (3 * length (print (JArray l)) <= S fuel)%nat ->
  parse_array fuel (print (JArray l) ++ r) = done_with (tree (JArray l), r).
Proof.
  intros Hp Hok Hf. cbn [print app tree length] in *. destruct fuel as [|fuel]; [lia|]. cbn [parse_array tail].
  destruct l as [|v l].
  - cbn [print_items app map]. by rewrite skip_at.
  - assert (exists c s, print_items print Byte.x5d (v :: l) = c :: s /\ 32 < b2z c /\ c <> Byte.x5d) as (c & s & E & Hc & Hn).
    { apply list.Forall_cons in Hok as [Hv _]. destruct (text_head v Hv) as (c & s & E & Hc & Hn). cbn [print_items]. rewrite E. by eexists _, _. }
    rewrite E. cbn [app]. rewrite skip_at by done. cbn [mbind option_bind head]. rewrite decide_False by done.
    change (c :: s ++ r) with ((c :: s) ++ r). rewrite <- E. rewrite parse_elements_print by (done || lia). done.
Qed.

Lemma parse_object_print l fuel r : Forall (fun kv => parses kv.2) l -> Forall member_ok l -> (3 * length (print (JObject l)) <= S fuel)%nat ->
  parse_object fuel (print (JObject l) ++ r) = done_with (tree (JObject l), r).
Proof.
  intros Hp Hok Hf. cbn [print app tree length] in *. destruct fuel as [|fuel]; [lia|]. cbn [parse_object tail].
  change (fun kv => print_string kv.1 ++ Byte.x3a :: print kv.2) with print_member in *.
  change (fun kv => set_name (string_bytes kv.1) (tree kv.2)) with member_tree.
  destruct l as [|kv l].
  - cbn [print_items app map]. by rewrite skip_at.
  - assert (exists s, print_items print_member Byte.x7d (kv :: l) = Byte.x22 :: s) as (s & E) by (by eexists).
    rewrite E. cbn [app]. rewrite skip_at by done. cbn [mbind option_bind head]. rewrite decide_False by done.
    change (Byte.x22 :: s ++ r) with ((Byte.x22 :: s) ++ r). rewrite <- E. rewrite parse_members_print by (done || lia). done.
Qed.

Lemma number_first x : x = Byte.x2d \/ 48 <= b2z x <= 57 -> x <> Byte.x6e /\ x <> Byte.x66 /\ x <> Byte.x74 /\ x <> Byte.x22.
Proof. intros [->|Hx]; [done|]. split_and!; intros ->; vm_compute in Hx; naive_solver. Qed.

Lemma parse_print v : parses v.
Proof.
  induction v as [| | |n|s|l IH|l IH] using json_induction; intros Hok fuel c r Hc Hf; (destruct fuel as [|fuel]; [cbn in Hf; try lia|]).
  1-3: done.
  - destruct (number_head n Hok) as (x & s & E & _). cbn [print] in Hf. rewrite E in Hf. cbn in Hf. lia.
  - destruct (number_head n Hok) as (x & s & E & Hx). cbn [print tree]. rewrite <- parse_number_print by done. rewrite E. cbn [app].
    destruct (number_first x Hx) as (?&?&?&?). rewrite parse_value_other, decide_False by done. by rewrite decide_True.
  - cbn [print tree]. unfold print_string. cbn [app]. rewrite parse_value_other by done. rewrite decide_True by done.
    change (Byte.x22 :: ?a ++ ?b) with ((Byte.x22 :: a) ++ b). fold (print_string s). rewrite parse_string_print by done. done.
  - apply text_ok_array in Hok. rewrite <- (parse_array_print l fuel) by done. cbn [print app]. by rewrite parse_value_other.
  - apply text_ok_object in Hok. rewrite <- (parse_object_print l fuel) by done. cbn [print app]. by rewrite parse_value_other.
Qed.

(** C29: the parser builds the tree of a value.  cJSON_Parse of the text of a JSON value, with
    its terminating zero, returns the tree of the value: the members and elements in
    order, strings with their escapes decoded to UTF-8, and numbers as the doubles and
    ints their digits add up to. *)
Theorem cJSON_Parse_print v : text_ok v -> cJSON_Parse (print v ++ [Byte.x00]) = Some (Some (tree v)).
Proof.
  intros Hok. unfold cJSON_Parse. rewrite skip_print by done. cbn [mbind option_bind].
  rewrite parse_print; [done|done|by right; right; right|]. rewrite length_app. lia.
Qed.

(** A text that ends inside an array is read past its end.  Blanks are skipped up to a
    byte above 32, and the zero that ends the text is not one. *)
Theorem truncated_text_overread v l fuel : text_ok v -> Forall (fun c => b2z c <= 32) l ->
  parse_value (3 * length (print v) + 3 + fuel) (Byte.x5b :: print v ++ Byte.x00 :: l) = None.
Proof.
  intros Hok Hl. set (k := (3 * length (print v) + fuel)%nat). replace (_ + 3 + fuel)%nat with (S (S (S k))) by lia.
  rewrite parse_value_other by done. rewrite decide_False by done.
  rewrite decide_False by (vm_compute; naive_solver). rewrite decide_True by done. cbn [parse_array tail]. rewrite skip_print by done. cbn [mbind option_bind].
  destruct (text_head v Hok) as (c & s & E & Hc & Hn). rewrite E at 1. cbn [app head mbind option_bind].
  rewrite decide_False by done. cbn [parse_elements]. rewrite skip_print by done. cbn [mbind option_bind].
  rewrite parse_print by (done || (by right; right; right) || lia). cbn [try done_with].
  rewrite skip_blank; [done|]. by constructor.
Qed.
End Parse.

(** ** Examples *)

(** pow of ten as the nearest double. *)
Definition sample_libm : Libm := fun e => double_of_decimal false 1 e.

Definition int_number (neg : bool) (ds : list Z) : jnumber := {| jn_neg := neg; jn_int := ds; jn_frac := []; jn_exp := None |}.
(** The array of -12, a string with escapes and an object with a member. *)
Definition sample_text : json :=
  JArray [JNumber (int_number true [1; 2]); JString [JPlain Byte.x61; JEscape Byte.x6e; JUnicode Byte.x30 Byte.x30 Byte.x65 Byte.x39];
          JObject [([JPlain Byte.x6b], JNull)]].

Lemma sample_text_ok : text_ok (HM := sample_libm) sample_text.
Proof.
  split_and!; try exact I.
  - split; [split; [split; [repeat constructor; lia|done]|constructor|exact I]|by right|exact I|].
    exists (-12). by vm_compute.
  - repeat constructor; try done; by vm_compute.
Qed.

Lemma cJSON_Parse_print_witness :
  cJSON_Parse (HM := sample_libm) (print sample_text ++ [Byte.x00]) = Some (Some (tree (HM := sample_libm) sample_text)) /\
  map cj_valueint (cj_child (tree (HM := sample_libm) sample_text)) = [-12; 0; 0] /\
  map cj_valuestring (cj_child (tree (HM := sample_libm) sample_text)) = [None; Some [Byte.x61; Byte.x0a; Byte.xc3; Byte.xa9]; None].
Proof. split; [apply cJSON_Parse_print, sample_text_ok|by vm_compute]. Defined.

Lemma truncated_text_overread_witness :
  parse_value (HM := sample_libm) 20 [Byte.x5b; Byte.x6e; Byte.x75; Byte.x6c; Byte.x6c; Byte.x00] = None.
Proof. apply (truncated_text_overread (HM := sample_libm) JNull [] 5); [exact I|constructor]. Defined.
