(* ===== verification/VBucket.v ===== *)
(** * VBucket: where a key lives

    Models src/vbucket.c of libvbucket (src/cbase/libvbucket/libvbucket-1.8.0), the
    client's view of a cluster: the configuration parsed from JSON, the mapping of keys to
    partitions (vbuckets) and servers or to points on a ring, the correction of a wrong
    master, and the comparison of two configurations.  [None] is undefined behaviour, as
    following a null pointer; errors are values with the message of the library.  Running
    out of memory is not modelled. *)

From Stdlib Require Import ZArith Lia String.
From S2P Require Import Prelude Crc32 Md5 CNumbers CJson.
From stdpp Require Import list numbers.

#[local] Open Scope Z_scope.

(** ** Data *)

Definition MAX_CONFIG_SIZE : Z := 100 * 1048576.
Definition MAX_REPLICAS : Z := 4.
Definition MAX_AUTORITY_SIZE : Z := 100.

Inductive VBUCKET_DISTRIBUTION_TYPE : Type := VBUCKET_DISTRIBUTION_VBUCKET | VBUCKET_DISTRIBUTION_KETAMA.

#[global] Instance distribution_eq_dec : EqDecision VBUCKET_DISTRIBUTION_TYPE.
Proof. solve_decision. Defined.

Record server_st : Type := { sv_authority : option bytes; sv_couchdb_api_base : option bytes }.

(** The servers of a vbucket: the master and the replicas, MAX_REPLICAS + 1 in all. *)
Definition vbucket_st : Type := list Z.

Record continuum_item_st : Type := { cn_index : Z; cn_point : Z }.

Record vbucket_config_st : Type := {
  vc_distribution : VBUCKET_DISTRIBUTION_TYPE;
  vc_num_vbuckets : Z;
  vc_mask : Z;
  vc_num_servers : Z;
  vc_num_replicas : Z;
  vc_user : option bytes;
  vc_password : option bytes;
  vc_continuum : option (list continuum_item_st);
  vc_servers : list server_st;
  vc_fvbuckets : option (list vbucket_st);
  vc_vbuckets : option (list vbucket_st)
}.

Definition set_servers (l : list server_st) (vb : vbucket_config_st) : vbucket_config_st :=
  {| vc_distribution := vc_distribution vb; vc_num_vbuckets := vc_num_vbuckets vb; vc_mask := vc_mask vb;
     vc_num_servers := vc_num_servers vb; vc_num_replicas := vc_num_replicas vb; vc_user := vc_user vb;
     vc_password := vc_password vb; vc_continuum := vc_continuum vb; vc_servers := l;
     vc_fvbuckets := vc_fvbuckets vb; vc_vbuckets := vc_vbuckets vb |}.
Definition set_counts (num_servers num_replicas num_vbuckets mask : Z) (vb : vbucket_config_st) : vbucket_config_st :=
  {| vc_distribution := vc_distribution vb; vc_num_vbuckets := num_vbuckets; vc_mask := mask;
     vc_num_servers := num_servers; vc_num_replicas := num_replicas; vc_user := vc_user vb;
     vc_password := vc_password vb; vc_continuum := vc_continuum vb; vc_servers := vc_servers vb;
     vc_fvbuckets := vc_fvbuckets vb; vc_vbuckets := vc_vbuckets vb |}.
Definition set_maps (vbuckets fvbuckets : option (list vbucket_st)) (vb : vbucket_config_st) : vbucket_config_st :=
  {| vc_distribution := vc_distribution vb; vc_num_vbuckets := vc_num_vbuckets vb; vc_mask := vc_mask vb;
     vc_num_servers := vc_num_servers vb; vc_num_replicas := vc_num_replicas vb; vc_user := vc_user vb;
     vc_password := vc_password vb; vc_continuum := vc_continuum vb; vc_servers := vc_servers vb;
     vc_fvbuckets := fvbuckets; vc_vbuckets := vbuckets |}.
Definition set_continuum (c : list continuum_item_st) (vb : vbucket_config_st) : vbucket_config_st :=
  {| vc_distribution := vc_distribution vb; vc_num_vbuckets := vc_num_vbuckets vb; vc_mask := vc_mask vb;
     vc_num_servers := vc_num_servers vb; vc_num_replicas := vc_num_replicas vb; vc_user := vc_user vb;
     vc_password := vc_password vb; vc_continuum := Some c; vc_servers := vc_servers vb;
     vc_fvbuckets := vc_fvbuckets vb; vc_vbuckets := vc_vbuckets vb |}.

(** ** Errors *)

Abbreviation vb_result A := (option (string + A)%type).
Definition ok {A} (a : A) : vb_result A := Some (inr a).
Definition fail {A} (errstr : string) : vb_result A := Some (inl errstr).
Definition vb_bind {A B} (m : vb_result A) (f : A -> vb_result B) : vb_result B :=
  match m with
  | Some (inr a) => f a
  | Some (inl e) => Some (inl e)
  | None => None
  end.
Declare Scope vbucket_scope.
Notation "'let!' p := m 'in' k" := (vb_bind m (fun p => k))
  (at level 10, p pattern, m at level 100, k at level 200) : vbucket_scope.
#[local] Open Scope vbucket_scope.

Definition text (s : string) : bytes := list_byte_of_string s.

(** A field of an object that has to have a type. *)
Definition field_of (type : Z) (o : option cJSON) (errstr : string) : vb_result cJSON :=
  match o with
  | Some json => if decide (cj_type json = type) then ok json else fail errstr
  | None => fail errstr
  end.

(** The string of an item; a null pointer is undefined. *)
Definition string_of (json : cJSON) : vb_result bytes := s ← cj_valuestring json; ok s.

(** ** The ring *)

Definition continuum_item_cmp (t1 t2 : continuum_item_st) : Z :=
  if decide (cn_point t1 = cn_point t2) then 0 else if decide (cn_point t2 < cn_point t1) then 1 else -1.

(** qsort of the C library: where elements compare as equal, it may leave them in any
    order. *)
Class Qsort : Type := qsort : (continuum_item_st -> continuum_item_st -> Z) -> list continuum_item_st -> list continuum_item_st.

(** snprintf of %d and %u. *)
Definition print_d (z : Z) : bytes := (if decide (z < 0) then [Byte.x2d] else []) ++ print_llu (Z.abs z).

(** The digest of the text of a server and a number; snprintf cuts off what does not fit,
    and the length it returns is that of the whole. *)
Definition host_digest (authority : bytes) (hh : Z) : option bytes :=
  let host := authority ++ text "-" ++ print_d hh in
  key ← slice 0 (length host) (take (Z.to_nat (MAX_AUTORITY_SIZE + 9)) host ++ [Byte.x00]);
  hash_md5 key.

Definition host_points (ss : Z) (authority : bytes) (hh : Z) : option (list continuum_item_st) :=
  digest ← host_digest authority hh;
  Some (map (fun nn => {| cn_index := ss; cn_point := digest_word digest nn |}) (seq 0 4)).

Definition server_points (ss : Z) (server : server_st) : option (list continuum_item_st) :=
  authority ← sv_authority server;
  l ← mapM (host_points ss authority) (seqZ 0 40);
  Some (concat l).

Fixpoint points_from (ss : Z) (servers : list server_st) : option (list continuum_item_st) :=
  match servers with
  | [] => Some []
  | s :: servers => l ← server_points ss s; r ← points_from (ss + 1) servers; Some (l ++ r)
  end.

Definition update_ketama_continuum `{Qsort} (vb : vbucket_config_st) : option vbucket_config_st :=
  l ← points_from 0 (vc_servers vb);
  Some (set_continuum (qsort continuum_item_cmp l) vb).

(** ** Servers *)

Fixpoint populate_servers (count : nat) (i : Z) (c : cJSON) : vb_result (list server_st) :=
  match count with
  | O => ok []
  | S count =>
      let! jServer := field_of cJSON_String (cJSON_GetArrayItem c i) "Expected array of strings for serverList" in
      let! server := string_of jServer in
      let! l := populate_servers count (i + 1) c in
      ok ({| sv_authority := Some server; sv_couchdb_api_base := None |} :: l)
  end.

(** What is before the first colon. *)
Fixpoint before_colon (s : bytes) : bytes :=
  match s with
  | [] => []
  | c :: s => if decide (c = Byte.x3a) then [] else c :: before_colon s
  end.

Definition get_node_authority (node : cJSON) (nbuf : Z) : vb_result bytes :=
  let! json := field_of cJSON_String (cJSON_GetObjectItem node (text "hostname")) "Expected string for node's hostname" in
  let! hostname := string_of json in
  let! ports := field_of cJSON_Object (cJSON_GetObjectItem node (text "ports")) "Expected json object for node's ports" in
  let! json := field_of cJSON_Number (cJSON_GetObjectItem ports (text "direct")) "Expected number for node's direct port" in
  let port := cj_valueint json in
  ok (before_colon (take (Z.to_nat (nbuf - 8)) hostname) ++ take 6 (text ":" ++ print_d port)).

(** The index of the first server with this name; strcmp of a null pointer is undefined. *)
Fixpoint server_index (ii : Z) (servers : list server_st) (authority : bytes) : option Z :=
  match servers with
  | [] => Some (-1)
  | s :: servers =>
      a ← sv_authority s;
      if decide (a = authority) then Some ii else server_index (ii + 1) servers authority
  end.

Definition lookup_server_struct (servers : list server_st) (c : cJSON) : option Z :=
  r ← get_node_authority c MAX_AUTORITY_SIZE;
  match r with
  | inl _ => Some (-1)
  | inr authority => server_index 0 servers authority
  end.

Definition set_api_base (value : bytes) (s : server_st) : server_st :=
  {| sv_authority := sv_authority s; sv_couchdb_api_base := Some value |}.

Definition update_node (servers : list server_st) (node : cJSON) : vb_result (list server_st) :=
  if decide (cj_type node <> cJSON_Object) then fail "Expected json object for nodes array item"
  else
    idx ← lookup_server_struct servers node;
    if decide (0 <= idx) then
      match cJSON_GetObjectItem node (text "couchApiBase") with
      | None => ok servers
      | Some json => let! value := string_of json in ok (alter (set_api_base value) (Z.to_nat idx) servers)
      end
    else ok servers.

Fixpoint update_server_info (servers : list server_st) (nodes : list cJSON) : vb_result (list server_st) :=
  match nodes with
  | [] => ok servers
  | node :: nodes => let! servers := update_node servers node in update_server_info servers nodes
  end.

(** ** The maps *)

Definition calloc_vbucket : vbucket_st := replicate (Z.to_nat (MAX_REPLICAS + 1)) 0.

(** The servers of one vbucket, from place [j] on. *)
Fixpoint populate_ids (count : nat) (j num_servers : Z) (jBucket : cJSON) (v : vbucket_st) : vb_result vbucket_st :=
  match count with
  | O => ok v
  | S count =>
      let errstr := "Server ID must be >= -1 and < num_servers"%string in
      let! jServerId := field_of cJSON_Number (cJSON_GetArrayItem jBucket j) errstr in
      let id := cj_valueint jServerId in
      if decide (id < -1 \/ num_servers <= id) then fail errstr
      else populate_ids count (j + 1) num_servers jBucket (<[Z.to_nat j := id]> v)
  end.

Fixpoint populate_from (count : nat) (i num_servers num_replicas : Z) (c : cJSON) : vb_result (list vbucket_st) :=
  match count with
  | O => ok []
  | S count =>
      let errstr := "Expected array of arrays each with numReplicas + 1 ints for vBucketMap"%string in
      let! jBucket := field_of cJSON_Array (cJSON_GetArrayItem c i) errstr in
      if decide (cJSON_GetArraySize jBucket <> num_replicas + 1) then fail errstr
      else
        let! v := populate_ids (Z.to_nat (num_replicas + 1)) 0 num_servers jBucket calloc_vbucket in
        let! l := populate_from count (i + 1) num_servers num_replicas c in
        ok (v :: l)
  end.

Definition populate_buckets (vb : vbucket_config_st) (c : cJSON) (is_forward : bool) : vb_result vbucket_config_st :=
  let! m := populate_from (Z.to_nat (vc_num_vbuckets vb)) 0 (vc_num_servers vb) (vc_num_replicas vb) c in
  ok (if is_forward then set_maps (vc_vbuckets vb) (Some m) vb else set_maps (Some m) (vc_fvbuckets vb) vb).

(** ** Parsing a configuration *)

Definition set_servers_of (num_servers : Z) (l : list server_st) (vb : vbucket_config_st) : vbucket_config_st :=
  set_servers l (set_counts num_servers (vc_num_replicas vb) (vc_num_vbuckets vb) (vc_mask vb) vb).

(** The map of servers, or the whole when it comes without an envelope. *)
Definition server_map_of (c : cJSON) : cJSON :=
  match cJSON_GetObjectItem c (text "vBucketServerMap") with
  | Some config => if decide (cj_type config = cJSON_Object) then config else c
  | None => c
  end.

Definition parse_replicas (config : cJSON) : vb_result Z :=
  let errstr := "Expected number <= MAX_REPLICAS for numReplicas"%string in
  let! json := field_of cJSON_Number (cJSON_GetObjectItem config (text "numReplicas")) errstr in
  if decide (MAX_REPLICAS < cj_valueint json) then fail errstr else ok (cj_valueint json).

Definition parse_server_list (c config : cJSON) : vb_result (list server_st) :=
  let! json := field_of cJSON_Array (cJSON_GetObjectItem config (text "serverList")) "Expected array for serverList" in
  if decide (cJSON_GetArraySize json = 0) then fail "Empty serverList"
  else
    let! servers := populate_servers (Z.to_nat (cJSON_GetArraySize json)) 0 json in
    match cJSON_GetObjectItem c (text "nodes") with
    | None => ok servers
    | Some json =>
        if decide (cj_type json <> cJSON_Array) then fail "Expected array for nodes"
        else update_server_info servers (cj_child json)
    end.

Definition parse_vbucket_config (vb : vbucket_config_st) (c : cJSON) : vb_result vbucket_config_st :=
  let config := server_map_of c in
  let! num_replicas := parse_replicas config in
  let! servers := parse_server_list c config in
  let num_servers := Z.of_nat (length servers) in
  let! json := field_of cJSON_Array (cJSON_GetObjectItem config (text "vBucketMap")) "Expected array for vBucketMap" in
  let num_vbuckets := cJSON_GetArraySize json in
  if decide (num_vbuckets = 0 \/ Z.land num_vbuckets (num_vbuckets - 1) <> 0) then
    fail "Number of buckets must be a power of two > 0 and <= MAX_BUCKETS"
  else
    let vb := set_servers servers (set_counts num_servers num_replicas num_vbuckets (num_vbuckets - 1) vb) in
    let! vb := populate_buckets vb json false in
    match cJSON_GetObjectItem config (text "vBucketMapForward") with
    | None => ok vb
    | Some json =>
        if decide (cj_type json <> cJSON_Array) then fail "Expected array for vBucketMapForward"
        else populate_buckets vb json true
    end.

Fixpoint populate_nodes (count : nat) (ii : Z) (json : cJSON) : vb_result (list server_st) :=
  match count with
  | O => ok []
  | S count =>
      let! node := field_of cJSON_Object (cJSON_GetArrayItem json ii) "Expected object for nodes array item" in
      let! buf := get_node_authority node MAX_AUTORITY_SIZE in
      let! l := populate_nodes count (ii + 1) json in
      ok ({| sv_authority := Some buf; sv_couchdb_api_base := None |} :: l)
  end.

Section Config.
Context `{HQ : Qsort}.

Definition parse_ketama_config (vb : vbucket_config_st) (config : cJSON) : vb_result vbucket_config_st :=
  let! json := field_of cJSON_Array (cJSON_GetObjectItem config (text "nodes")) "Expected array for nodes" in
  let num_servers := cJSON_GetArraySize json in
  if decide (num_servers = 0) then fail "Empty serverList"
  else
    let! servers := populate_nodes (Z.to_nat num_servers) 0 json in
    vb ← update_ketama_continuum (set_servers_of num_servers servers vb);
    ok vb.

(** calloc of a configuration, with the distribution. *)
Definition empty_config (d : VBUCKET_DISTRIBUTION_TYPE) (user password : option bytes) : vbucket_config_st :=
  {| vc_distribution := d; vc_num_vbuckets := 0; vc_mask := 0; vc_num_servers := 0; vc_num_replicas := 0;
     vc_user := user; vc_password := password; vc_continuum := None; vc_servers := []; vc_fvbuckets := None; vc_vbuckets := None |}.

(** A string field that is there; strcmp and strdup of a null pointer are undefined. *)
Definition optional_string (o : option cJSON) : option (option bytes) :=
  match o with
  | Some json => if decide (cj_type json = cJSON_String) then Some <$> cj_valuestring json else Some None
  | None => Some None
  end.

(** A locator that is neither of the two is accepted and nothing is parsed. *)
Definition parse_cjson (config : cJSON) : vb_result vbucket_config_st :=
  name ← optional_string (cJSON_GetObjectItem config (text "name"));
  let user := match name with Some s => if decide (s = text "default") then None else Some s | None => None end in
  password ← optional_string (cJSON_GetObjectItem config (text "saslPassword"));
  let vb := empty_config VBUCKET_DISTRIBUTION_VBUCKET user password in
  match cJSON_GetObjectItem config (text "nodeLocator") with
  | None => parse_vbucket_config vb config
  | Some json =>
      if decide (cj_type json = cJSON_String) then
        locator ← cj_valuestring json;
        if decide (locator = text "vbucket") then parse_vbucket_config vb config
        else if decide (locator = text "ketama") then
          parse_ketama_config (empty_config VBUCKET_DISTRIBUTION_KETAMA user password) config
        else ok vb
      else fail "Expected string for nodeLocator"
  end.

Context `{HM : Libm}.

(** [data] is the memory of the string, with its zero. *)
Definition vbucket_config_parse_string (data : bytes) : vb_result vbucket_config_st :=
  c ← cJSON_Parse data;
  match c with
  | None => fail "Failed to parse data"
  | Some c => parse_cjson c
  end.

(** The contents of the file, or none when it cannot be opened. *)
Definition vbucket_config_parse_file (file : option bytes) : vb_result vbucket_config_st :=
  match file with
  | None => fail "Unable to open file"
  | Some data =>
      if decide (MAX_CONFIG_SIZE < blen data) then fail "File too large"
      else vbucket_config_parse_string (data ++ [Byte.x00])
  end.
End Config.

(** ** Access *)

Definition vbucket_config_get_num_replicas : vbucket_config_st -> Z := vc_num_replicas.
Definition vbucket_config_get_num_vbuckets : vbucket_config_st -> Z := vc_num_vbuckets.
Definition vbucket_config_get_num_servers : vbucket_config_st -> Z := vc_num_servers.
Definition vbucket_config_get_distribution_type : vbucket_config_st -> VBUCKET_DISTRIBUTION_TYPE := vc_distribution.
Definition vbucket_config_get_user : vbucket_config_st -> option bytes := vc_user.
Definition vbucket_config_get_password : vbucket_config_st -> option bytes := vc_password.

(** An element of an array; outside of it is undefined. *)
Definition at_index {A} (l : list A) (i : Z) : option A := if decide (0 <= i) then l !! Z.to_nat i else None.

Definition vbucket_config_get_server (vb : vbucket_config_st) (i : Z) : option (option bytes) :=
  sv_authority <$> at_index (vc_servers vb) i.
Definition vbucket_config_get_couch_api_base (vb : vbucket_config_st) (i : Z) : option (option bytes) :=
  sv_couchdb_api_base <$> at_index (vc_servers vb) i.

(** The hash of libvbucket: fifteen bits of the CRC, whose table is that of couchstore. *)
Definition hash_crc32 (key : bytes) : Z :=
  Z.land (Z.shiftr (u32 (Z.lnot (foldl crc32_step 0xFFFFFFFF key))) 16) 0x7fff.

Definition vbucket_get_vbucket_by_key (vb : vbucket_config_st) (key : bytes) : Z := Z.land (hash_crc32 key) (vc_mask vb).

Definition vbucket_at (m : option (list vbucket_st)) (vbucket : Z) : option vbucket_st := l ← m; at_index l vbucket.

Definition vbucket_get_master (vb : vbucket_config_st) (vbucket : Z) : option Z :=
  v ← vbucket_at (vc_vbuckets vb) vbucket; at_index v 0.
Definition vbucket_get_replica (vb : vbucket_config_st) (vbucket i : Z) : option Z :=
  v ← vbucket_at (vc_vbuckets vb) vbucket; at_index v (i + 1).

(** ** From a key to a server *)

(** The search on the ring; positions are indexes into it. *)
Fixpoint ketama_search (fuel : nat) (continuum : list continuum_item_st) (digest lowp highp : Z) : option Z :=
  match fuel with
  | O => None
  | S fuel =>
      let endp := Z.of_nat (length continuum) in
      let midp := lowp + Z.quot (highp - lowp) 2 in
      if decide (midp = endp) then cn_index <$> at_index continuum 0
      else
        m ← at_index continuum midp;
        let mid := cn_point m in
        prev ← (if decide (midp = 0) then Some 0 else cn_point <$> at_index continuum (midp - 1));
        if decide (digest <= mid /\ prev < digest) then Some (cn_index m)
        else
          let '(lowp, highp) := if decide (mid < digest) then (midp + 1, highp) else (lowp, midp - 1) in
          if decide (highp < lowp) then cn_index <$> at_index continuum 0
          else ketama_search fuel continuum digest lowp highp
  end.

(** The vbucket and the index of the server. *)
Definition vbucket_map (vb : vbucket_config_st) (key : bytes) : option (Z * Z) :=
  match vc_distribution vb with
  | VBUCKET_DISTRIBUTION_KETAMA =>
      continuum ← vc_continuum vb;
      digest ← hash_ketama key;
      server_idx ← ketama_search (S (length continuum)) continuum digest 0 (Z.of_nat (length continuum));
      Some (0, server_idx)
  | VBUCKET_DISTRIBUTION_VBUCKET =>
      let vbucket_id := vbucket_get_vbucket_by_key vb key in
      server_idx ← vbucket_get_master vb vbucket_id;
      Some (vbucket_id, server_idx)
  end.

(** ** A wrong answer *)

(** The places from [i + 1] on are copied, as many as there are replicas. *)
Fixpoint copy_replicas (count : nat) (i : Z) (from v : vbucket_st) : option vbucket_st :=
  match count with
  | O => Some v
  | S count => r ← at_index from (i + 1); _ ← at_index v (i + 1); copy_replicas count (i + 1) from (<[Z.to_nat (i + 1) := r]> v)
  end.

Definition set_vbucket (vbucket : Z) (v : vbucket_st) (vb : vbucket_config_st) : vbucket_config_st :=
  set_maps (insert (Z.to_nat vbucket) v <$> vc_vbuckets vb) (vc_fvbuckets vb) vb.

Definition vbucket_found_incorrect_master (vb : vbucket_config_st) (vbucket wrongserver : Z) : option (Z * vbucket_config_st) :=
  v ← vbucket_at (vc_vbuckets vb) vbucket;
  mappedServer ← at_index v 0;
  match vc_fvbuckets vb with
  | Some _ =>
      fv ← vbucket_at (vc_fvbuckets vb) vbucket;
      rv ← at_index fv 0;
      v ← copy_replicas (Z.to_nat (vc_num_replicas vb)) 0 fv (<[0%nat := rv]> v);
      Some (rv, set_vbucket vbucket v vb)
  | None =>
      if decide (mappedServer = wrongserver) then
        if decide (vc_num_servers vb = 0) then None
        else
          let rv := Z.rem (mappedServer + 1) (vc_num_servers vb) in
          Some (rv, set_vbucket vbucket (<[0%nat := rv]> v) vb)
      else Some (mappedServer, vb)
  end.

(** ** Comparing two configurations *)

Record VBUCKET_CONFIG_DIFF : Type := {
  df_servers_added : list bytes;
  df_servers_removed : list bytes;
  df_n_vb_changes : Z;
  df_sequence_changed : bool
}.

(** The name of a server; strcmp of a null pointer is undefined. *)
Definition server_name (vb : vbucket_config_st) (i : Z) : option bytes := mjoin (vbucket_config_get_server vb i).

Fixpoint found_in (count : nat) (j : Z) (from : vbucket_config_st) (sn : bytes) : option bool :=
  match count with
  | O => Some false
  | S count => sn2 ← server_name from j; if decide (sn2 = sn) then Some true else found_in count (j + 1) from sn
  end.

Fixpoint diff_from (count : nat) (i : Z) (from to : vbucket_config_st) : option (list bytes) :=
  match count with
  | O => Some []
  | S count =>
      sn ← server_name to i;
      found ← found_in (Z.to_nat (vc_num_servers from)) 0 from sn;
      l ← diff_from count (i + 1) from to;
      Some (if found : bool then l else sn :: l)
  end.

(** The names go to an array of [room] places. *)
Definition compute_vb_list_diff (room : Z) (from to : vbucket_config_st) : option (list bytes) :=
  out ← diff_from (Z.to_nat (vc_num_servers to)) 0 from to;
  if decide (Z.of_nat (length out) < room) then Some out else None.

Fixpoint sequence_differs (count : nat) (i : Z) (from to : vbucket_config_st) : option bool :=
  match count with
  | O => Some false
  | S count =>
      a ← server_name from i; b ← server_name to i;
      d ← sequence_differs count (i + 1) from to;
      Some (bool_decide (a <> b) || d)
  end.

Definition credential_differs (a b : option bytes) : bool :=
  match a, b with
  | Some a, Some b => bool_decide (a <> b)
  | _, _ => xorb (bool_decide (a <> None)) (bool_decide (b <> None))
  end.

Fixpoint count_changes (count : nat) (i : Z) (from to : vbucket_config_st) : option Z :=
  match count with
  | O => Some 0
  | S count =>
      a ← vbucket_get_master from i; b ← vbucket_get_master to i;
      n ← count_changes count (i + 1) from to;
      Some ((if decide (a = b) then 0 else 1) + n)
  end.

Definition vbucket_compare (from to : vbucket_config_st) : option VBUCKET_CONFIG_DIFF :=
  let num_servers := Z.max (vc_num_servers from) (vc_num_servers to) + 1 in
  added ← compute_vb_list_diff num_servers from to;
  removed ← compute_vb_list_diff num_servers to from;
  changed ← (if decide (vc_num_servers to = vc_num_servers from)
             then sequence_differs (Z.to_nat (vc_num_servers from)) 0 from to else Some true);
  n ← (if decide (vc_num_vbuckets to = vc_num_vbuckets from)
       then count_changes (Z.to_nat (vc_num_vbuckets to)) 0 from to else Some (-1));
  Some {| df_servers_added := added; df_servers_removed := removed; df_n_vb_changes := n;
          df_sequence_changed := changed || credential_differs (vc_user from) (vc_user to) ||
                                 credential_differs (vc_password from) (vc_password to) |}.
