(* ===== verification/VBucketProofs.v ===== *)
(** * VBucketProofs: well-formed configurations and the ring

    What a parsed configuration satisfies ([config_wf]), the points of the ring and what
    the search on it finds. *)

From Stdlib Require Import ZArith Lia Sorted String.
From S2P Require Import Prelude Crc32 Md5 CNumbers CJson VBucket.
From stdpp Require Import list numbers.

#[local] Open Scope Z_scope.
#[local] Open Scope vbucket_scope.

(** ** Results *)

Lemma vb_bind_inr {A B} (m : vb_result A) (f : A -> vb_result B) b :
  vb_bind m f = Some (inr b) -> exists a, m = Some (inr a) /\ f a = Some (inr b).
Proof. destruct m as [[e|a]|]; cbn; [done| |done]. by exists a. Qed.

Lemma ok_inr {A} (x y : A) : ok x = Some (inr y) -> x = y.
Proof. by intros [= ->]. Qed.

Lemma field_of_inr type o errstr json : field_of type o errstr = Some (inr json) -> o = Some json /\ cj_type json = type.
Proof. unfold field_of, ok, fail. destruct o as [j|]; [|done]. case_decide; [|done]. intros [= <-]. done. Qed.

(** Take the next step of a run that succeeded. *)
Tactic Notation "vb_step" hyp(H) "as" ident(a) ident(E) := apply vb_bind_inr in H as (a & E & H).

(** ** Well-formed configurations *)

Definition ids_ok (num_servers : Z) (v : vbucket_st) : Prop :=
  length v = 5%nat /\ Forall (fun id => -1 <= id < num_servers) v.

Definition map_ok (vb : vbucket_config_st) (m : list vbucket_st) : Prop :=
  Z.of_nat (length m) = vc_num_vbuckets vb /\ Forall (ids_ok (vc_num_servers vb)) m.

Definition ring_le (a b : continuum_item_st) : Prop := cn_point a <= cn_point b.

Definition ring_ok (num_servers : Z) (c : list continuum_item_st) : Prop :=
  Z.of_nat (length c) = 160 * num_servers /\ StronglySorted ring_le c /\
  Forall (fun m => 0 <= cn_index m < num_servers /\ 0 <= cn_point m < 2 ^ 32) c.

Record config_wf (vb : vbucket_config_st) : Prop := {
  wf_servers : vc_num_servers vb = Z.of_nat (length (vc_servers vb)) /\ 0 < vc_num_servers vb;
  wf_names : Forall (fun s => is_Some (sv_authority s)) (vc_servers vb);
  wf_replicas : -1 <= vc_num_replicas vb <= MAX_REPLICAS;
  wf_maps : vc_distribution vb = VBUCKET_DISTRIBUTION_VBUCKET ->
    (exists m, vc_vbuckets vb = Some m /\ map_ok vb m) /\
    (exists k, 0 <= k /\ vc_num_vbuckets vb = 2 ^ k) /\ vc_mask vb = vc_num_vbuckets vb - 1;
  wf_forward : forall m, vc_fvbuckets vb = Some m -> map_ok vb m;
  wf_ring : vc_distribution vb = VBUCKET_DISTRIBUTION_KETAMA ->
    vc_num_vbuckets vb = 0 /\ exists c, vc_continuum vb = Some c /\ ring_ok (vc_num_servers vb) c
}.

(** *** Powers of two *)

Lemma power_of_two n : 0 < n -> Z.land n (n - 1) = 0 -> exists k, 0 <= k /\ n = 2 ^ k.
Proof.
  intros Hn Hl. exists (Z.log2 n). pose proof (Z.log2_nonneg n). split; [done|].
  pose proof (Z.log2_spec n Hn) as [Hlo Hhi]. destruct (decide (n = 2 ^ Z.log2 n)) as [|Hne]; [done|]. exfalso.
  assert (Z.log2 (n - 1) = Z.log2 n) as E by (apply Z.log2_unique; lia).
  assert (Z.testbit (Z.land n (n - 1)) (Z.log2 n) = true) as Hb.
  { rewrite Z.land_spec. rewrite Z.bit_log2 by done. rewrite <- E. rewrite Z.bit_log2; [done|].
    pose proof (Z.pow_pos_nonneg 2 (Z.log2 n)). lia. }
  by rewrite Hl, Z.bits_0 in Hb.
Qed.

Lemma mask_range h k : 0 <= k -> 0 <= Z.land h (2 ^ k - 1) < 2 ^ k.
Proof.
  intros Hk. replace (2 ^ k - 1) with (Z.ones k) by (rewrite Z.ones_equiv; lia).
  rewrite Z.land_ones by done. apply Z.mod_pos_bound, Z.pow_pos_nonneg; lia.
Qed.

(** *** Servers *)

Lemma populate_servers_spec count : forall i c l, populate_servers count i c = Some (inr l) ->
  length l = count /\ Forall (fun s => is_Some (sv_authority s)) l.
Proof.
  induction count as [|count IH]; intros i c l H; cbn [populate_servers] in H; [injection H as <-; by split|].
  vb_step H as j Ej. vb_step H as s Es. vb_step H as r Er. injection H as <-. apply IH in Er as [<- Hf]. split; [done|]. by constructor.
Qed.

Lemma alter_names f i : (forall s, sv_authority (f s) = sv_authority s) ->
  forall l, map sv_authority (alter f i l) = map sv_authority l.
Proof.
  intros Hf l. revert i. induction l as [|s l IH]; intros [|i]; cbn; [done|done|by rewrite Hf|]. f_equal. apply IH.
Qed.

Lemma update_server_info_spec nodes : forall servers l, update_server_info servers nodes = Some (inr l) ->
  map sv_authority l = map sv_authority servers.
Proof.
  induction nodes as [|node nodes IH]; intros servers l H; cbn [update_server_info] in H; [by injection H as <-|].
  vb_step H as l1 E. rewrite (IH _ _ H). clear IH H. unfold update_node in E. case_decide; [done|].
  destruct (lookup_server_struct servers node) as [idx|]; [|done]. cbn [mbind option_bind] in E. case_decide; [|by injection E as <-].
  destruct (cJSON_GetObjectItem _ _); [|by injection E as <-]. vb_step E as s Es. injection E as <-.
  by apply alter_names.
Qed.

Lemma names_some l l' : map sv_authority l = map sv_authority l' ->
  Forall (fun s => is_Some (sv_authority s)) l' -> Forall (fun s => is_Some (sv_authority s)) l.
Proof.
  intros E Hl. apply (Forall_fmap sv_authority is_Some l). change (Forall is_Some (map sv_authority l)). rewrite E.
  by apply (Forall_fmap sv_authority is_Some l').
Qed.

Lemma parse_server_list_spec c config l : parse_server_list c config = Some (inr l) ->
  l <> [] /\ Forall (fun s => is_Some (sv_authority s)) l.
Proof.
  intros H. unfold parse_server_list in H. vb_step H as json Ej. case_decide as Hz; [done|]. vb_step H as l0 E0.
  apply populate_servers_spec in E0 as [Hl Hf]. unfold cJSON_GetArraySize in *. rewrite Nat2Z.id in Hl.
  assert (l0 <> []) as Hne by (intros ->; cbn in Hl; lia).
  destruct (cJSON_GetObjectItem c (text "nodes")); [|by injection H as <-]. case_decide; [done|].
  apply update_server_info_spec in H. split; [|by eapply names_some]. intros ->. apply Hne. by destruct l0.
Qed.

(** *** Maps *)

Lemma populate_ids_spec count : forall j num_servers jBucket v v', 0 <= j -> j + Z.of_nat count <= 5 ->
  populate_ids count j num_servers jBucket v = Some (inr v') -> ids_ok num_servers v -> ids_ok num_servers v'.
Proof.
  induction count as [|count IH]; intros j num_servers jBucket v v' Hj Hc H Hv; cbn [populate_ids] in H; [by injection H as <-|].
  vb_step H as id Eid. case_decide as Hid; [done|]. apply IH in H; [done|lia|lia|]. destruct Hv as [Hl Hf].
  split; [by etrans; [apply length_insert|]|]. apply Forall_insert; [done|]. lia.
Qed.

Lemma populate_from_spec count : forall i num_servers num_replicas c m, 0 < num_servers -> num_replicas <= MAX_REPLICAS ->
  populate_from count i num_servers num_replicas c = Some (inr m) ->
  length m = count /\ Forall (ids_ok num_servers) m /\ (count <> 0%nat -> -1 <= num_replicas).
Proof.
  induction count as [|count IH]; intros i num_servers num_replicas c m Hn Hr H; cbn [populate_from] in H; [injection H as <-; by split_and!|].
  vb_step H as jb Ej. case_decide as Hs; [done|]. vb_step H as v Ev. vb_step H as r Er. injection H as <-.
  apply IH in Er as (<- & Hf & _); [|done|done]. unfold cJSON_GetArraySize in Hs. split_and!; [done| |lia].
  constructor; [|done]. eapply populate_ids_spec; [| |exact Ev|]; [lia|unfold MAX_REPLICAS in Hr; lia|].
  split; [done|]. by repeat constructor; lia.
Qed.

Lemma populate_buckets_spec vb c (forward : bool) vb' : 0 < vc_num_servers vb -> vc_num_replicas vb <= MAX_REPLICAS ->
  0 < vc_num_vbuckets vb -> populate_buckets vb c forward = Some (inr vb') -> -1 <= vc_num_replicas vb /\
  exists m, map_ok vb m /\
    vb' = if forward then set_maps (vc_vbuckets vb) (Some m) vb else set_maps (Some m) (vc_fvbuckets vb) vb.
Proof.
  intros Hs Hr Hn H. unfold populate_buckets in H. vb_step H as m Em. injection H as <-.
  apply populate_from_spec in Em as (Hl & Hf & Hlow); [|done|done]. split; [lia|]. exists m. by repeat split; [lia|].
Qed.

(** What holds once the counts, the servers and the map are in place. *)
Lemma vbucket_config_wf num n servers k user password m fwd : servers <> [] ->
  Forall (fun s => is_Some (sv_authority s)) servers -> -1 <= n <= MAX_REPLICAS -> 0 <= k /\ num = 2 ^ k ->
  let vb := set_servers servers (set_counts (Z.of_nat (length servers)) n num (num - 1)
              (empty_config VBUCKET_DISTRIBUTION_VBUCKET user password)) in
  map_ok vb m -> (forall m, fwd = Some m -> map_ok vb m) -> config_wf (set_maps (Some m) fwd vb).
Proof.
  intros Hne Hnames Hn Hk vb Hm Hf. split; cbn; [|done|done| |done|done].
  - split; [done|]. destruct servers; [done|]. cbn. lia.
  - intros _. split_and!; [by exists m|by exists k|done].
Qed.

Lemma parse_vbucket_config_wf user password c vb :
  parse_vbucket_config (empty_config VBUCKET_DISTRIBUTION_VBUCKET user password) c = Some (inr vb) ->
  config_wf vb /\ vc_distribution vb = VBUCKET_DISTRIBUTION_VBUCKET.
Proof.
  intros H. unfold parse_vbucket_config in H. vb_step H as n En. vb_step H as servers Es. vb_step H as json Ej.
  case_decide as Hp; [done|]. apply parse_server_list_spec in Es as [Hne Hnames].
  unfold parse_replicas in En. vb_step En as jn Ejn. case_decide as Hr; [done|]. injection En as En.
  unfold cJSON_GetArraySize in *. set (num := Z.of_nat (length (cj_child json))) in *.
  assert (0 < Z.of_nat (length servers)) as Hpos by (destruct servers; [done|cbn; lia]).
  destruct (decide (Z.land num (num - 1) = 0)) as [Hland|]; [|tauto]. assert (num <> 0) as Hnum by tauto.
  destruct (power_of_two num) as [k Hk]; [lia|done|]. vb_step H as vb1 E1.
  apply populate_buckets_spec in E1 as (Hlow & m & Hm & ->); [|cbn; lia..].
  destruct (cJSON_GetObjectItem _ (text "vBucketMapForward")) as [jf|].
  - case_decide; [done|]. apply populate_buckets_spec in H as (_ & m2 & Hm2 & ->); [|cbn; lia..]. split; [|done].
    apply (vbucket_config_wf num n servers k user password m (Some m2)); [done|done|cbn in Hlow; lia|done|done|].
    intros m' [= <-]. done.
  - injection H as <-. split; [|done].
    by apply (vbucket_config_wf num n servers k user password m None); [done|done|cbn in Hlow; lia|done|done|].
Qed.

(** ** The ring *)

Class QsortLaws (HQ : Qsort) : Prop := {
  qsort_permutation : forall cmp l, qsort cmp l ≡ₚ l;
  qsort_sorted : forall cmp l, (forall a b, cmp a b <= 0 \/ cmp b a <= 0) ->
    (forall a b c, cmp a b <= 0 -> cmp b c <= 0 -> cmp a c <= 0) -> StronglySorted (fun a b => cmp a b <= 0) (qsort cmp l)
}.

Lemma continuum_item_cmp_le a b : continuum_item_cmp a b <= 0 <-> ring_le a b.
Proof. unfold continuum_item_cmp, ring_le. repeat case_decide; lia. Qed.

Lemma b2z_nth l i : 0 <= b2z (nth i l Byte.x00) < 2 ^ 8.
Proof. apply b2z_range. Qed.

Lemma digest_word_range digest nn : 0 <= digest_word digest nn < 2 ^ 32.
Proof.
  unfold digest_word. pose proof (b2z_nth digest (3 + nn * 4)) as H3. pose proof (b2z_nth digest (2 + nn * 4)) as H2.
  pose proof (b2z_nth digest (1 + nn * 4)) as H1. pose proof (b2z_nth digest (0 + nn * 4)) as H0.
  rewrite !Z.shiftl_mul_pow2 by lia. split; [rewrite !Z.lor_nonneg; lia|].
  assert (forall a b, 0 <= a < 2 ^ 32 -> 0 <= b < 2 ^ 32 -> 0 <= Z.lor a b < 2 ^ 32) as Hlor.
  { intros a b Ha Hb. split; [apply Z.lor_nonneg; lia|]. destruct (decide (Z.lor a b = 0)) as [->|]; [done|].
    apply Z.log2_lt_cancel. rewrite Z.log2_lor, Z.log2_pow2 by lia.
    apply Z.max_lub_lt; (destruct (decide (a = 0)) as [->|]; destruct (decide (b = 0)) as [->|]; cbn; try lia; apply Z.log2_lt_pow2; lia). }
  repeat apply Hlor; lia.
Qed.

Definition host_key (authority : bytes) (hh : Z) : bytes := authority ++ text "-" ++ print_d hh.

(** The points of a server: four words of the digest of each of its forty names. *)
Definition host_ring (authority : bytes) (hh : Z) : list Z := map (digest_word (md5_reference (host_key authority hh))) (seq 0 4).
Definition server_ring (authority : bytes) : list Z := concat (map (host_ring authority) (seqZ 0 40)).

Definition authority_ok (server : server_st) : Prop := exists a, sv_authority server = Some a /\ blen a <= 98.

Lemma print_d_length hh : 0 <= hh < 40 -> blen (print_d hh) <= 2.
Proof.
  intros Hh. assert (Forall (fun hh => blen (print_d hh) <= 2) (seqZ 0 40)) as Hf by (by apply (bool_decide_unpack _); vm_compute).
  rewrite list.Forall_forall in Hf. apply Hf, elem_of_seqZ. lia.
Qed.

Lemma host_points_spec ss a hh : blen a <= 98 -> 0 <= hh < 40 ->
  host_points ss a hh = Some (map (fun p => {| cn_index := ss; cn_point := p |}) (host_ring a hh)).
Proof.
  intros Ha Hh. unfold host_points, host_digest, host_ring. fold (host_key a hh). pose proof (print_d_length hh Hh) as Hp.
  assert (length (host_key a hh) <= 101)%nat as Hl.
  { unfold host_key, blen in *. rewrite !length_app. change (length (text "-")) with 1%nat. lia. }
  rewrite take_ge by (change (Z.to_nat (MAX_AUTORITY_SIZE + 9)) with 109%nat; lia).
  rewrite slice_Some by (rewrite length_app; lia). cbn [mbind option_bind]. rewrite drop_0, take_app_length.
  rewrite hash_md5_reference by (unfold blen; lia). cbn [mbind option_bind]. by rewrite map_map.
Qed.

Lemma server_points_spec ss s a : sv_authority s = Some a -> blen a <= 98 ->
  server_points ss s = Some (map (fun p => {| cn_index := ss; cn_point := p |}) (server_ring a)).
Proof.
  intros Es Ha. unfold server_points. rewrite Es. cbn [mbind option_bind].
  assert (forall l, Forall (fun hh => 0 <= hh < 40) l -> mapM (host_points ss a) l =
    Some (map (fun hh => map (fun p => {| cn_index := ss; cn_point := p |}) (host_ring a hh)) l)) as Hm.
  { induction 1 as [|hh l Hh _ IH]; [done|]. cbn [mapM map]. rewrite host_points_spec by done. cbn [mbind option_bind].
    by rewrite IH. }
  rewrite Hm by (apply list.Forall_forall; intros hh; rewrite elem_of_seqZ; lia). cbn [mbind option_bind].
  unfold server_ring. by rewrite concat_map, map_map.
Qed.

Lemma server_ring_length a : length (server_ring a) = 160%nat.
Proof. done. Qed.

Lemma server_ring_range a p : p ∈ server_ring a -> 0 <= p < 2 ^ 32.
Proof.
  unfold server_ring. rewrite list_elem_of_In, in_concat. intros (l & Hl & Hp). apply in_map_iff in Hl as (hh & <- & _).
  apply in_map_iff in Hp as (nn & <- & _). apply digest_word_range.
Qed.

Lemma points_from_spec servers : forall ss, Forall authority_ok servers -> exists l,
  points_from ss servers = Some l /\ length l = (160 * length servers)%nat /\
  forall m, m ∈ l <-> exists i s a, servers !! i = Some s /\ sv_authority s = Some a /\
    cn_index m = ss + Z.of_nat i /\ cn_point m ∈ server_ring a.
Proof.
  induction servers as [|s servers IH]; intros ss Hf; cbn [points_from].
  - exists []. split_and!; [done|done|]. intros m. split; [by intros ?%elem_of_nil|]. by intros (i & ? & ? & ? & _).
  - apply list.Forall_cons in Hf as [(a & Ea & Ha) Hf]. rewrite (server_points_spec ss s a) by done. cbn [mbind option_bind].
    destruct (IH (ss + 1) Hf) as (l & -> & Hl & Hm). cbn [mbind option_bind]. eexists. split; [done|]. split.
    { rewrite length_app, length_map, server_ring_length, Hl. cbn [length]. lia. }
    intros m. rewrite elem_of_app, Hm. split.
    + intros [Hi|(i & s' & a' & ? & ? & ? & ?)].
      * rewrite list_elem_of_In in Hi. apply in_map_iff in Hi as (p & <- & Hp). exists 0%nat, s, a. cbn. rewrite list_elem_of_In.
        split_and!; [done|done|lia|done].
      * exists (S i), s', a'. split_and!; [done|done|lia|done].
    + intros ([|i] & s' & a' & Hs & Ea' & Hi & Hp); cbn in Hs; [left|right; exists i, s', a'; split_and!; [done|done|lia|done]].
      injection Hs as <-. rewrite list_elem_of_In. apply in_map_iff. exists (cn_point m). rewrite list_elem_of_In in Hp.
      destruct m as [ci cp]; cbn in *. replace ci with ss by lia. split; [done|]. congruence.
Qed.

Lemma before_colon_length s : (length (before_colon s) <= length s)%nat.
Proof. induction s as [|c s IH]; cbn [before_colon]; [done|]. case_decide; cbn [length]; lia. Qed.

Lemma get_node_authority_length node a : get_node_authority node MAX_AUTORITY_SIZE = Some (inr a) -> blen a <= 98.
Proof.
  intros H. unfold get_node_authority in H. vb_step H as j1 E1. vb_step H as hostname E2. vb_step H as j2 E3. vb_step H as j3 E4.
  apply ok_inr in H as <-. unfold blen. rewrite length_app.
  pose proof (before_colon_length (take (Z.to_nat (MAX_AUTORITY_SIZE - 8)) hostname)) as Hl. rewrite length_take in Hl.
  rewrite length_take. change (Z.to_nat (MAX_AUTORITY_SIZE - 8)) with 92%nat in *. lia.
Qed.

Lemma populate_nodes_spec count : forall ii json l, populate_nodes count ii json = Some (inr l) ->
  length l = count /\ Forall authority_ok l.
Proof.
  induction count as [|count IH]; intros ii json l H; cbn [populate_nodes] in H; [injection H as <-; by split|].
  vb_step H as node En. vb_step H as a Ea. vb_step H as r Er. injection H as <-. apply IH in Er as [<- Hf]. split; [done|].
  constructor; [|done]. exists a. split; [done|]. by eapply get_node_authority_length.
Qed.

Section Ring.
Context {HQ : Qsort} {HQL : QsortLaws HQ}.

(** What the ring of a list of servers holds. *)
Definition ring_of (servers : list server_st) (c : list continuum_item_st) : Prop :=
  ring_ok (Z.of_nat (length servers)) c /\
  forall m, m ∈ c <-> exists i s a, servers !! i = Some s /\ sv_authority s = Some a /\
    cn_index m = Z.of_nat i /\ cn_point m ∈ server_ring a.

Lemma update_ketama_continuum_spec vb : Forall authority_ok (vc_servers vb) -> exists c,
  update_ketama_continuum vb = Some (set_continuum c vb) /\ ring_of (vc_servers vb) c.
Proof.
  intros Hs. unfold update_ketama_continuum. destruct (points_from_spec _ 0 Hs) as (l & -> & Hl & Hm). cbn [mbind option_bind].
  eexists. split; [done|]. split; [split; [|split]|].
  - rewrite (Permutation_length (qsort_permutation _ l)), Hl. lia.
  - assert (StronglySorted (fun a b => continuum_item_cmp a b <= 0) (qsort continuum_item_cmp l)) as Hsort.
    { apply qsort_sorted; [intros a b|intros a b c]; rewrite !continuum_item_cmp_le; unfold ring_le; lia. }
    induction Hsort as [|a r _ IH Hf]; constructor; [done|]. eapply list.Forall_impl; [exact Hf|]. intros b. apply continuum_item_cmp_le.
  - rewrite (qsort_permutation _ l). apply list.Forall_forall. intros m (i & s & a & Hi & Ea & -> & Hp)%Hm.
    apply lookup_lt_Some in Hi. split; [lia|]. by eapply server_ring_range.
  - intros m. rewrite (qsort_permutation _ l), Hm. done.
Qed.

Lemma parse_ketama_config_wf user password c vb :
  parse_ketama_config (empty_config VBUCKET_DISTRIBUTION_KETAMA user password) c = Some (inr vb) ->
  config_wf vb /\ vc_distribution vb = VBUCKET_DISTRIBUTION_KETAMA /\ exists c, vc_continuum vb = Some c /\ ring_of (vc_servers vb) c.
Proof.
  intros H. unfold parse_ketama_config in H. vb_step H as json Ej. case_decide as Hz; [done|]. vb_step H as servers Es.
  apply populate_nodes_spec in Es as [Hl Hf]. unfold cJSON_GetArraySize in *. rewrite Nat2Z.id in Hl. rewrite <- Hl in *.
  destruct (update_ketama_continuum_spec (set_servers_of (Z.of_nat (length servers)) servers
    (empty_config VBUCKET_DISTRIBUTION_KETAMA user password)) Hf) as (r & Er & Hr).
  rewrite Er in H. cbn [mbind option_bind] in H. injection H as <-. split; [|split; [done|]; by exists r].
  split; cbn; [lia| |unfold MAX_REPLICAS; lia|done|done|].
  - eapply list.Forall_impl; [exact Hf|]. intros s (a & -> & _). done.
  - intros _. split; [done|]. exists r. split; [done|]. apply Hr.
Qed.
End Ring.

(** ** The search *)

(** The owner of the first point that is not below the digest; behind the last point the
    ring starts again. *)
Definition ring_owner (c : list continuum_item_st) (digest : Z) : option continuum_item_st :=
  match list_find (fun m => digest <= cn_point m) c with
  | Some (_, m) => Some m
  | None => head c
  end.

Lemma at_index_nat {A} (l : list A) (i : nat) : at_index l (Z.of_nat i) = l !! i.
Proof. unfold at_index. by rewrite decide_True, Nat2Z.id by lia. Qed.

(** [a] is the number of points below the digest. *)
Definition below (c : list continuum_item_st) (digest : Z) (a : nat) : Prop :=
  (a <= length c)%nat /\ forall i m, c !! i = Some m -> (cn_point m < digest <-> (i < a)%nat).

Lemma below_exists c digest : StronglySorted ring_le c -> exists a, below c digest a.
Proof.
  induction 1 as [|m c Hs (a & Ha & Hb) Hf]; [by exists 0%nat|]. destruct (decide (cn_point m < digest)) as [Hm|Hm].
  - exists (S a). split; [cbn; lia|]. intros [|i] m' Hi; cbn in Hi; [injection Hi as <-; lia|]. rewrite (Hb i m' Hi). lia.
  - exists 0%nat. split; [lia|]. intros [|i] m' Hi; cbn in Hi; [injection Hi as <-; lia|].
    apply (list.Forall_lookup_1 _ _ _ _ Hf) in Hi. unfold ring_le in Hi. lia.
Qed.

Lemma ring_owner_below c digest a : below c digest a ->
  ring_owner c digest = if decide (a = length c) then c !! 0%nat else c !! a.
Proof.
  intros [Ha Hb]. unfold ring_owner. destruct (list_find _ c) as [[i m]|] eqn:E.
  - apply list_find_Some in E as (Hi & Hge & Hlt). pose proof (lookup_lt_Some _ _ _ Hi). assert (i = a) as ->.
    { destruct (Nat.lt_trichotomy i a) as [|[|Hia]]; [apply Hb in Hi; lia|done|].
      destruct (lookup_lt_is_Some_2 c a) as [m' Hm']; [lia|]. pose proof (Hlt _ _ Hm' Hia). apply Hb in Hm'. lia. }
    by rewrite decide_False by lia.
  - apply list_find_None in E. case_decide as Hd; [by destruct c|].
    destruct (lookup_lt_is_Some_2 c a) as [m Hm]; [lia|]. pose proof (list.Forall_lookup_1 _ _ _ _ E Hm) as Hn. cbn in Hn.
    apply Hb in Hm. lia.
Qed.

Lemma ketama_search_spec c digest a : below c digest a -> 0 <= digest -> forall fuel (low high : Z),
  0 <= low <= Z.of_nat a -> Z.of_nat a <= high <= Z.of_nat (length c) -> high - low < Z.of_nat fuel ->
  ketama_search fuel c digest low high = cn_index <$> ring_owner c digest.
Proof.
  intros Hbelow Hd. pose proof (ring_owner_below c digest a Hbelow) as Ho. destruct Hbelow as [Ha Hb].
  assert (a = length c -> ring_owner c digest = c !! 0%nat) as Hfirst by (intros Hl; by rewrite decide_True in Ho).
  assert (a <> length c -> ring_owner c digest = c !! a) as Hown by (intros Hl; by rewrite decide_False in Ho). clear Ho.
  induction fuel as [|fuel IH]; intros low high Hlow Hhigh Hfuel; [lia|]. cbn [ketama_search].
  assert (low <= low + Z.quot (high - low) 2 <= high) as Hmid by (Z.quot_rem_to_equations; lia).
  assert (low < high -> low + Z.quot (high - low) 2 < high) as Hmid2 by (Z.quot_rem_to_equations; lia).
  assert (exists mid : nat, low + Z.quot (high - low) 2 = Z.of_nat mid) as [mid Emid] by (exists (Z.to_nat (low + Z.quot (high - low) 2)); lia).
  rewrite Emid in *. case_decide as Hend.
  { rewrite Hfirst by lia. done. }
  destruct (lookup_lt_is_Some_2 c mid) as [m Em]; [lia|]. rewrite at_index_nat, Em. cbn [mbind option_bind].
  pose proof (Hb mid m Em) as Hbm. destruct (decide (Z.of_nat mid = 0)) as [Hzero|Hzero].
  - assert (mid = 0%nat) as -> by lia. cbn [mbind option_bind]. case_decide as Hfound.
    + assert (a = 0%nat) as -> by lia. rewrite Hown, Em by lia. done.
    + case_decide as Hlt; case_decide as Hempty; [lia|by apply IH; lia| |lia].
      assert (a = 0%nat) as -> by lia. rewrite Hown by lia. done.
  - destruct (lookup_lt_is_Some_2 c (mid - 1)) as [p Ep]; [lia|].
    replace (Z.of_nat mid - 1) with (Z.of_nat (mid - 1)) by lia. rewrite at_index_nat, Ep. cbn [mbind option_bind fmap option_fmap option_map].
    pose proof (Hb _ p Ep) as Hbp. case_decide as Hfound.
    + assert (a = mid) as -> by lia. rewrite Hown, Em by lia. done.
    + case_decide as Hlt; case_decide as Hempty; [lia|by apply IH; lia|lia|apply IH; lia].
Qed.
