(* ===== verification/VBucketTheorems.v ===== *)
(** * VBucketTheorems: what libvbucket promises its clients

    A configuration that was parsed is well-formed, keys go to one server of it, the ring
    keeps keys where they are when other servers leave, a wrong master is corrected, and
    the comparison of two configurations says what changed. *)

From Stdlib Require Import ZArith Lia Sorted String.
From S2P Require Import Prelude Crc32 Md5 CNumbers CJson CJsonProofs VBucket VBucketProofs.
From stdpp Require Import list numbers sorting.

#[local] Open Scope Z_scope.
#[local] Open Scope vbucket_scope.

(** ** A sort for the examples *)

#[local] Instance cmp_dec (cmp : continuum_item_st -> continuum_item_st -> Z) a b : Decision ((fun a b => cmp a b <= 0) a b) :=
  Z_le_dec (cmp a b) 0.

#[global] Instance sample_qsort : Qsort := fun cmp => merge_sort (fun a b => cmp a b <= 0).

#[global] Instance sample_qsort_laws : QsortLaws sample_qsort.
Proof.
  split.
  - intros cmp l. apply merge_sort_Permutation.
  - intros cmp l Ht Htr. apply StronglySorted_merge_sort; [exact Htr|exact Ht].
Qed.

(** ** Parsing *)

Section Parsing.
Context {HQ : Qsort} {HQL : QsortLaws HQ} {HM : Libm}.

Lemma parse_cjson_wf config vb : parse_cjson config = Some (inr vb) -> vc_num_servers vb <> 0 -> config_wf vb.
Proof.
  intros H Hn. unfold parse_cjson in H. apply bind_Some in H as (name & _ & H).
  apply bind_Some in H as (password & _ & H).
  destruct (cJSON_GetObjectItem config (text "nodeLocator")) as [json|]; [|by eapply parse_vbucket_config_wf].
  case_decide; [|done]. apply bind_Some in H as (locator & _ & H).
  case_decide; [by eapply parse_vbucket_config_wf|]. case_decide; [by eapply parse_ketama_config_wf|]. by injection H as <-.
Qed.

(** C21: a configuration that was read from a text is well-formed.  Whatever the text, when
    the parser returns a configuration with servers, the count of servers is that of the
    list, every server has a name, there are at most MAX_REPLICAS replicas, the map of
    vbuckets and the forward map have an entry per vbucket, each with server indexes that
    are -1 or within the list, the number of vbuckets is a power of two and the mask one
    less; a ring is sorted and has 160 points per server, each of an existing server. *)
Theorem parsed_config_wf data vb : vbucket_config_parse_string data = Some (inr vb) -> vc_num_servers vb <> 0 -> config_wf vb.
Proof.
  unfold vbucket_config_parse_string. destruct (cJSON_Parse data) as [[c|]|]; cbn [mbind option_bind]; [|done|done]. apply parse_cjson_wf.
Qed.

(** ** An unknown locator *)

End Parsing.

(** ** Mapping keys *)

Lemma at_index_pos {A} (l : list A) i : 0 <= i -> at_index l i = l !! Z.to_nat i.
Proof. intros Hi. unfold at_index. by rewrite decide_True. Qed.

Lemma map_lookup vb m i : map_ok vb m -> 0 <= i < vc_num_vbuckets vb ->
  exists v, at_index m i = Some v /\ ids_ok (vc_num_servers vb) v.
Proof.
  intros [Hl Hf] Hi. unfold at_index. rewrite decide_True by lia. destruct (lookup_lt_is_Some_2 m (Z.to_nat i)) as [v Ev]; [lia|].
  exists v. split; [done|]. by eapply list.Forall_lookup_1.
Qed.

Lemma ids_lookup n v i : ids_ok n v -> 0 <= i <= MAX_REPLICAS -> exists id, at_index v i = Some id /\ -1 <= id < n.
Proof.
  intros [Hl Hf] Hi. unfold at_index, MAX_REPLICAS in *. rewrite decide_True by lia.
  destruct (lookup_lt_is_Some_2 (A:=Z) v (Z.to_nat i)) as [id Eid]; [lia|]. exists id. split; [done|].
  by apply (list.Forall_lookup_1 _ _ _ _ Hf Eid).
Qed.

Lemma master_exists vb i : config_wf vb -> vc_distribution vb = VBUCKET_DISTRIBUTION_VBUCKET -> 0 <= i < vc_num_vbuckets vb ->
  exists id, vbucket_get_master vb i = Some id /\ -1 <= id < vc_num_servers vb.
Proof.
  intros Hwf Hd Hi. destruct (wf_maps vb Hwf Hd) as [(m & Em & Hm) _]. unfold vbucket_get_master, vbucket_at. rewrite Em.
  cbn [mbind option_bind]. destruct (map_lookup vb m i Hm Hi) as (v & -> & Hv). cbn [mbind option_bind].
  apply ids_lookup; [done|unfold MAX_REPLICAS; lia].
Qed.

Lemma vbucket_by_key_range vb key : config_wf vb -> vc_distribution vb = VBUCKET_DISTRIBUTION_VBUCKET ->
  0 <= vbucket_get_vbucket_by_key vb key < vc_num_vbuckets vb.
Proof.
  intros Hwf Hd. destruct (wf_maps vb Hwf Hd) as (_ & (k & Hk & En) & Em). unfold vbucket_get_vbucket_by_key.
  rewrite Em, En. by apply mask_range.
Qed.

Lemma hash_ketama_reference key : blen key < 2 ^ 32 - 64 -> hash_ketama key = Some (digest_word (md5_reference key) 0).
Proof. intros Hk. unfold hash_ketama. by rewrite hash_md5_reference. Qed.

Lemma ring_owner_Some c digest : c <> [] -> exists m, ring_owner c digest = Some m /\ m ∈ c.
Proof.
  intros Hc. unfold ring_owner. destruct (list_find _ c) as [[i m]|] eqn:E.
  - exists m. split; [done|]. apply list_find_Some in E as [Hi _]. by eapply list_elem_of_lookup_2.
  - destruct c as [|m c]; [done|]. exists m. split; [done|]. left.
Qed.

Lemma ring_nonempty n c : ring_ok n c -> 0 < n -> c <> [].
Proof. intros [Hl _] Hn ->. cbn in Hl. lia. Qed.

Lemma ketama_map_owner vb c key : vc_distribution vb = VBUCKET_DISTRIBUTION_KETAMA -> vc_continuum vb = Some c ->
  StronglySorted ring_le c -> blen key < 2 ^ 32 - 64 ->
  vbucket_map vb key = m ← ring_owner c (digest_word (md5_reference key) 0); Some (0, cn_index m).
Proof.
  intros Hd Ec Hs Hk. unfold vbucket_map. rewrite Hd, Ec. cbn [mbind option_bind]. rewrite hash_ketama_reference by done.
  cbn [mbind option_bind]. set (digest := digest_word _ _). destruct (below_exists c digest Hs) as [a Ha].
  rewrite (ketama_search_spec c digest a Ha); [|apply digest_word_range|destruct Ha; lia..]. by destruct (ring_owner c digest).
Qed.

(** C20: with a well-formed configuration every key has a server.  No array is left and no
    null pointer is followed: the vbucket of a key is within the map and its server is the
    master there, an index of the list or -1; on a ring the bisection stops, and its
    result is the owner of the first point that is not below the digest of the key, the
    first of the ring when there is none. *)
Theorem vbucket_map_correct vb key : config_wf vb -> blen key < 2 ^ 32 - 64 -> exists vbucket_id server_idx,
  vbucket_map vb key = Some (vbucket_id, server_idx) /\ -1 <= server_idx < vc_num_servers vb /\
  match vc_distribution vb with
  | VBUCKET_DISTRIBUTION_VBUCKET =>
      vbucket_id = vbucket_get_vbucket_by_key vb key /\ 0 <= vbucket_id < vc_num_vbuckets vb /\
      vbucket_get_master vb vbucket_id = Some server_idx
  | VBUCKET_DISTRIBUTION_KETAMA =>
      vbucket_id = 0 /\ 0 <= server_idx /\ exists c m, vc_continuum vb = Some c /\
      ring_owner c (digest_word (md5_reference key) 0) = Some m /\ cn_index m = server_idx
  end.
Proof.
  intros Hwf Hk. destruct (vc_distribution vb) eqn:Hd.
  - pose proof (vbucket_by_key_range vb key Hwf Hd) as Hr. destruct (master_exists vb _ Hwf Hd Hr) as (id & Eid & Hid).
    exists (vbucket_get_vbucket_by_key vb key), id. unfold vbucket_map. by rewrite Hd, Eid.
  - destruct (wf_ring vb Hwf Hd) as (_ & c & Ec & Hc). rewrite (ketama_map_owner vb c) by (done || apply Hc).
    pose proof (wf_servers vb Hwf) as [_ Hn]. destruct (ring_owner_Some c (digest_word (md5_reference key) 0)) as (m & Em & Hin);
      [by eapply ring_nonempty|]. rewrite Em. destruct Hc as (_ & _ & Hf). rewrite list.Forall_forall in Hf.
    destruct (Hf m Hin). exists 0, (cn_index m). split_and!; [done|lia|lia|done|lia|]. by exists c, m.
Qed.

(** ** The ring when servers leave *)

Definition server_names (vb : vbucket_config_st) : list bytes := omap sv_authority (vc_servers vb).

Lemma server_name_lookup vb i s : vc_servers vb !! i = Some s -> server_name vb (Z.of_nat i) = sv_authority s.
Proof. intros Hi. unfold server_name, vbucket_config_get_server. by rewrite at_index_nat, Hi. Qed.

Lemma elem_of_server_names vb a : a ∈ server_names vb <-> exists i s, vc_servers vb !! i = Some s /\ sv_authority s = Some a.
Proof.
  unfold server_names. rewrite list_elem_of_omap. split.
  - intros (s & Hs & Ea). apply list_elem_of_lookup in Hs as [i Hi]. by exists i, s.
  - intros (i & s & Hi & Ea). exists s. split; [|done]. by eapply list_elem_of_lookup_2.
Qed.

Lemma ring_sorted_lookup c : StronglySorted ring_le c -> forall i j x y, c !! i = Some x -> c !! j = Some y -> (i <= j)%nat ->
  cn_point x <= cn_point y.
Proof.
  induction 1 as [|m c _ IH Hf]; intros [|i] [|j] x y Hi Hj Hij; cbn in Hi, Hj; try done; try lia.
  - injection Hi as <-. injection Hj as <-. done.
  - injection Hi as <-. by apply (list.Forall_lookup_1 _ _ _ _ Hf Hj).
  - apply (IH i j); [done..|lia].
Qed.

Lemma ring_owner_min c digest m : StronglySorted ring_le c -> ring_owner c digest = Some m ->
  (digest <= cn_point m /\ forall x, x ∈ c -> digest <= cn_point x -> cn_point m <= cn_point x) \/
  ((forall x, x ∈ c -> cn_point x < digest) /\ forall x, x ∈ c -> cn_point m <= cn_point x).
Proof.
  intros Hs Ho. destruct (below_exists c digest Hs) as [a Hb]. rewrite (ring_owner_below c digest a Hb) in Ho.
  destruct Hb as [Ha Hb].
  case_decide as Hd.
  - right. split; intros x (i & Hi)%list_elem_of_lookup; pose proof (lookup_lt_Some _ _ _ Hi); [apply (Hb i x Hi); lia|].
    apply (ring_sorted_lookup c Hs 0 i); [done..|lia].
  - left. pose proof (Hb a m Ho). split; [lia|]. intros x (i & Hi)%list_elem_of_lookup Hx. apply (ring_sorted_lookup c Hs a i); [done..|].
    pose proof (Hb i x Hi). lia.
Qed.

(** No two points of the ring coincide. *)
Definition points_distinct (c : list continuum_item_st) : Prop := NoDup (map cn_point c).

Lemma distinct_point c x y : points_distinct c -> x ∈ c -> y ∈ c -> cn_point x = cn_point y -> x = y.
Proof.
  intros Hn (i & Hi)%list_elem_of_lookup (j & Hj)%list_elem_of_lookup E.
  assert (i = j) as ->; [|congruence]. apply (NoDup_lookup (map cn_point c) i j (cn_point x)); [done| |].
  - change (map cn_point c) with (cn_point <$> c). by rewrite list_lookup_fmap, Hi.
  - change (map cn_point c) with (cn_point <$> c). by rewrite list_lookup_fmap, Hj, E.
Qed.

Section Leaving.
Context {HQ : Qsort} {HQL : QsortLaws HQ}.

Lemma parse_cjson_ring config vb : parse_cjson config = Some (inr vb) -> vc_distribution vb = VBUCKET_DISTRIBUTION_KETAMA ->
  exists c, vc_continuum vb = Some c /\ ring_of (vc_servers vb) c /\ c <> [].
Proof.
  intros H Hd. unfold parse_cjson in H. apply bind_Some in H as (name & _ & H). apply bind_Some in H as (password & _ & H).
  destruct (cJSON_GetObjectItem config (text "nodeLocator")) as [json|].
  2:{ apply parse_vbucket_config_wf in H as [_ E]. congruence. }
  case_decide; [|done]. apply bind_Some in H as (locator & _ & H).
  case_decide; [apply parse_vbucket_config_wf in H as [_ E]; congruence|]. case_decide; [|by injection H as <-].
  apply parse_ketama_config_wf in H as (Hwf & _ & c & Ec & Hc). exists c. split_and!; [done|done|].
  pose proof (wf_servers vb Hwf) as [En Hpos]. eapply ring_nonempty; [apply Hc|]. lia.
Qed.

(** C22: on the ring only the keys of the servers that leave move.  Of two configurations
    with rings, when every server of the second is a server of the first (in whatever
    order), and the points of the first are distinct, a key whose server is still in the
    second has the same server there. *)
Theorem ring_keeps_keys config config' vb vb' c key i name :
  parse_cjson config = Some (inr vb) -> vc_distribution vb = VBUCKET_DISTRIBUTION_KETAMA ->
  parse_cjson config' = Some (inr vb') -> vc_distribution vb' = VBUCKET_DISTRIBUTION_KETAMA ->
  vc_continuum vb = Some c -> points_distinct c -> blen key < 2 ^ 32 - 64 ->
  server_names vb' ⊆ server_names vb ->
  vbucket_map vb key = Some (0, i) -> server_name vb i = Some name -> name ∈ server_names vb' ->
  exists j, vbucket_map vb' key = Some (0, j) /\ server_name vb' j = Some name.
Proof.
  intros H1 Hd1 H2 Hd2 Ec Hdist Hk Hsub Hmap Hname Hin.
  destruct (parse_cjson_ring _ _ H1 Hd1) as (c0 & Ec0 & [Hok1 Hr1] & Hne1). assert (c0 = c) as -> by congruence. clear Ec0.
  destruct (parse_cjson_ring _ _ H2 Hd2) as (c' & Ec' & [Hok2 Hr2] & Hne2).
  rewrite (ketama_map_owner vb c) in Hmap by (done || apply Hok1). apply bind_Some in Hmap as (m & Em & [= <-]).
  rewrite (ketama_map_owner vb' c') by (done || apply Hok2).
  set (digest := digest_word (md5_reference key) 0) in *.
  destruct (ring_owner_Some c' digest Hne2) as (m' & Em' & Hm'). rewrite Em'. cbn [mbind option_bind]. exists (cn_index m').
  split; [done|]. destruct (ring_owner_Some c digest Hne1) as (m0 & Em0 & Hm0). assert (m0 = m) as -> by congruence. clear Em0.
  destruct (proj1 (Hr1 m) Hm0) as (k & s & a & Hs & Ea & Ek & Hp). rewrite Ek, (server_name_lookup _ _ _ Hs), Ea in Hname.
  injection Hname as <-. destruct (proj1 (Hr2 m') Hm') as (k' & s' & a' & Hs' & Ea' & Ek' & Hp').
  rewrite Ek', (server_name_lookup _ _ _ Hs'), Ea'.
  (* the server of [m'] has the same point on the first ring, and that of [m] on the second *)
  assert (a' ∈ server_names vb) as (k1 & s1 & Hs1 & Ea1)%elem_of_server_names by (apply Hsub, elem_of_server_names; by exists k', s').
  apply elem_of_server_names in Hin as (k2 & s2 & Hs2 & Ea2).
  assert ({| cn_index := Z.of_nat k1; cn_point := cn_point m' |} ∈ c) as Hx1 by (apply Hr1; by exists k1, s1, a').
  assert ({| cn_index := Z.of_nat k2; cn_point := cn_point m |} ∈ c') as Hx2 by (apply Hr2; by exists k2, s2, a).
  assert (cn_point m = cn_point m') as Epoint.
  { pose proof (ring_owner_min c digest m (proj1 (proj2 Hok1)) Em) as Hmin.
    pose proof (ring_owner_min c' digest m' (proj1 (proj2 Hok2)) Em') as Hmin'.
    destruct Hmin as [[G1 G2]|[G1 G2]], Hmin' as [[G3 G4]|[G3 G4]];
      try (pose proof (G2 _ Hx1)); try (pose proof (G4 _ Hx2)); try (pose proof (G1 _ Hx1)); try (pose proof (G3 _ Hx2)); cbn in *; lia. }
  pose proof (distinct_point c _ m Hdist Hx1 Hm0 (eq_sym Epoint)) as E. subst m. cbn in Ek, Hp. assert (k = k1) as -> by lia.
  congruence.
Qed.
End Leaving.

(** ** Wrong masters *)

Lemma ids_insert n v i id : ids_ok n v -> -1 <= id < n -> ids_ok n (<[i := id]> v).
Proof. intros [Hl Hf] Hid. split; [by etrans; [apply length_insert|]|]. by apply Forall_insert. Qed.

Lemma ids_positive n v i : 0 <= i <= MAX_REPLICAS -> ids_ok n v -> is_Some (at_index v i).
Proof. intros Hi Hv. destruct (ids_lookup n v i Hv Hi) as (id & -> & _). done. Qed.

(** The places of the replicas come from the other entry, the master stays. *)
Lemma copy_replicas_spec count : forall i n from v, 0 <= i -> i + Z.of_nat count <= MAX_REPLICAS -> ids_ok n from -> ids_ok n v ->
  exists v', copy_replicas count i from v = Some v' /\ ids_ok n v' /\ v' !! 0%nat = v !! 0%nat.
Proof.
  induction count as [|count IH]; intros i n from v Hi Hc Hf Hv; cbn [copy_replicas]; [by exists v|].
  destruct (ids_lookup n from (i + 1) Hf) as (r & -> & Hr); [lia|]. destruct (ids_lookup n v (i + 1) Hv) as (x & -> & _); [lia|].
  cbn [mbind option_bind]. destruct (IH (i + 1) n from (<[Z.to_nat (i + 1) := r]> v)) as (v' & -> & Hv' & E0);
    [lia|lia|done|by apply ids_insert|]. exists v'. split_and!; [done|done|]. rewrite E0. apply list_lookup_insert_ne. lia.
Qed.

Lemma set_vbucket_wf vb vbucket v : config_wf vb -> ids_ok (vc_num_servers vb) v -> config_wf (set_vbucket vbucket v vb).
Proof.
  intros [H1 H2 H3 H4 H5 H6] Hv. split; cbn; [done|done|done| |done|done]. intros Hd.
  destruct (H4 Hd) as [(m & Em & Hl & Hf) Hrest]. split; [|done]. rewrite Em. eexists. split; [done|].
  split; [by rewrite length_insert|]. by apply Forall_insert.
Qed.

Lemma set_vbucket_master vb m vbucket v id : vc_vbuckets vb = Some m -> 0 <= vbucket < Z.of_nat (length m) -> at_index v 0 = Some id ->
  vbucket_get_master (set_vbucket vbucket v vb) vbucket = Some id.
Proof.
  intros Em Hi Hid. unfold vbucket_get_master, vbucket_at, set_vbucket. cbn [set_maps vc_vbuckets]. rewrite Em. cbn [fmap option_fmap option_map mbind option_bind].
  rewrite (at_index_pos _ vbucket), list_lookup_insert_eq by lia. done.
Qed.

Lemma set_vbucket_other vb vbucket v i : 0 <= vbucket -> i <> vbucket ->
  vbucket_at (vc_vbuckets (set_vbucket vbucket v vb)) i = vbucket_at (vc_vbuckets vb) i.
Proof.
  intros Hv Hi. unfold vbucket_at, set_vbucket. cbn [set_maps vc_vbuckets]. destruct (vc_vbuckets vb) as [m|]; [|done].
  cbn [fmap option_fmap option_map mbind option_bind]. unfold at_index. case_decide; [|done]. rewrite list_lookup_insert_ne by lia. done.
Qed.

(** Without a forward map the server behind the wrong master is next. *)
Lemma next_master vb vbucket old : config_wf vb -> vc_distribution vb = VBUCKET_DISTRIBUTION_VBUCKET ->
  0 <= vbucket < vc_num_vbuckets vb -> vc_fvbuckets vb = None -> vbucket_get_master vb vbucket = Some old ->
  let rv := (old + 1) mod vc_num_servers vb in
  exists v, let vb' := set_vbucket vbucket v vb in
    vbucket_found_incorrect_master vb vbucket old = Some (rv, vb') /\ config_wf vb' /\ vbucket_get_master vb' vbucket = Some rv.
Proof.
  intros Hwf Hd Hi Ef Eold rv. destruct (wf_maps vb Hwf Hd) as [(m & Em & Hm) _]. pose proof (wf_servers vb Hwf) as [_ Hn].
  destruct (map_lookup vb m vbucket Hm Hi) as (v & Ev & Hv). unfold vbucket_found_incorrect_master.
  assert (vbucket_at (vc_vbuckets vb) vbucket = Some v) as Eat by (by rewrite Em).
  unfold vbucket_get_master in Eold. rewrite Eat in Eold |- *. cbn [mbind option_bind] in *. rewrite Eold. cbn [mbind option_bind].
  destruct (ids_lookup _ v 0 Hv) as (old' & E' & Hold); [unfold MAX_REPLICAS; lia|]. assert (old' = old) as -> by congruence.
  rewrite Ef, decide_True, decide_False by (done || lia). rewrite Z.rem_mod_nonneg by lia. fold rv.
  pose proof (Z.mod_pos_bound (old + 1) (vc_num_servers vb) Hn) as Hrv. fold rv in Hrv. eexists. split; [done|]. split.
  - apply set_vbucket_wf; [done|]. apply ids_insert; [done|lia].
  - eapply set_vbucket_master; [done|destruct Hm; lia|]. apply (list_lookup_insert_eq (A:=Z)). destruct Hv; lia.
Qed.

(** C25: a wrong master is corrected.  For any vbucket of a well-formed configuration the
    report of a wrong server gives a well-formed configuration whose master is what is
    returned, with no other vbucket changed.  With a forward map the new master is the one
    of that map; without one the next server follows the wrong one, cyclically, and the
    report of a server that is not the master changes nothing. *)
Theorem incorrect_master_corrected vb vbucket wrongserver : config_wf vb ->
  vc_distribution vb = VBUCKET_DISTRIBUTION_VBUCKET -> 0 <= vbucket < vc_num_vbuckets vb ->
  exists rv vb' old, vbucket_found_incorrect_master vb vbucket wrongserver = Some (rv, vb') /\ config_wf vb' /\
    vbucket_get_master vb vbucket = Some old /\ vbucket_get_master vb' vbucket = Some rv /\
    (forall i, i <> vbucket -> vbucket_at (vc_vbuckets vb') i = vbucket_at (vc_vbuckets vb) i) /\
    match vc_fvbuckets vb with
    | Some _ => rv ← vbucket_at (vc_fvbuckets vb) vbucket; at_index rv 0
    | None => Some (if decide (old = wrongserver) then (old + 1) mod vc_num_servers vb else old)
    end = Some rv.
Proof.
  intros Hwf Hd Hi. destruct (wf_maps vb Hwf Hd) as [(m & Em & Hm) _]. pose proof (wf_servers vb Hwf) as [_ Hn].
  destruct (map_lookup vb m vbucket Hm Hi) as (v & Ev & Hv). destruct (ids_lookup _ v 0 Hv) as (old & Eold & Hold); [unfold MAX_REPLICAS; lia|].
  assert (0 <= vbucket < Z.of_nat (length m)) as Hlen by (destruct Hm; lia).
  assert (vbucket_at (vc_vbuckets vb) vbucket = Some v) as Eat by (by rewrite Em).
  assert (vbucket_get_master vb vbucket = Some old) as Emaster by (unfold vbucket_get_master; by rewrite Eat).
  destruct (vc_fvbuckets vb) as [fm|] eqn:Ef.
  - pose proof (wf_forward vb Hwf fm Ef) as Hfm. destruct (map_lookup vb fm vbucket Hfm Hi) as (fv & Efv & Hfv).
    destruct (ids_lookup _ fv 0 Hfv) as (rv & Erv & Hrv); [unfold MAX_REPLICAS; lia|].
    assert (vbucket_at (vc_fvbuckets vb) vbucket = Some fv) as Efat by (by rewrite Ef). rewrite <- Ef, Efat.
    unfold vbucket_found_incorrect_master. rewrite Eat, Efat. cbn [mbind option_bind]. rewrite Eold, Erv, Ef. cbn [mbind option_bind].
    pose proof (wf_replicas vb Hwf). destruct (copy_replicas_spec (Z.to_nat (vc_num_replicas vb)) 0 (vc_num_servers vb) fv (<[0%nat := rv]> v))
      as (v' & -> & Hv' & E0); [lia|unfold MAX_REPLICAS in *; lia|done|by apply ids_insert|]. cbn [mbind option_bind].
    exists rv, (set_vbucket vbucket v' vb), old. split_and!; [done|by apply set_vbucket_wf|done| | |done].
    + eapply set_vbucket_master; [done|done|]. change (v' !! 0%nat = Some rv). rewrite E0. apply (list_lookup_insert_eq (A:=Z)). destruct Hv; lia.
    + intros i Hne. apply set_vbucket_other; lia.
  - destruct (decide (old = wrongserver)) as [<-|Hw].
    + destruct (next_master vb vbucket old Hwf Hd Hi Ef Emaster) as (v' & Hf & Hwf' & Hm'). eexists _, _, old.
      split_and!; [done|done|done|done| |by rewrite decide_True]. intros i Hne. apply set_vbucket_other; lia.
    + exists old, vb, old. unfold vbucket_found_incorrect_master. rewrite Eat. cbn [mbind option_bind]. rewrite Eold. cbn [mbind option_bind].
      by rewrite Ef, !decide_False.
Qed.

(** A client that reports the master as wrong, over and over. *)
Fixpoint report_masters (n : nat) (vb : vbucket_config_st) (vbucket : Z) : option vbucket_config_st :=
  match n with
  | O => Some vb
  | S n => m ← vbucket_get_master vb vbucket; r ← vbucket_found_incorrect_master vb vbucket m; report_masters n r.2 vbucket
  end.

Lemma report_masters_spec n : forall vb vbucket old, config_wf vb -> vc_distribution vb = VBUCKET_DISTRIBUTION_VBUCKET ->
  0 <= vbucket < vc_num_vbuckets vb -> vc_fvbuckets vb = None -> vbucket_get_master vb vbucket = Some old ->
  exists vb', report_masters (S n) vb vbucket = Some vb' /\
    vbucket_get_master vb' vbucket = Some ((old + 1 + Z.of_nat n) mod vc_num_servers vb).
Proof.
  induction n as [|n IH]; intros vb vbucket old Hwf Hd Hi Ef Eold; destruct (next_master vb vbucket old Hwf Hd Hi Ef Eold) as (v & Hf & Hwf' & Hm).
  - cbn [report_masters]. rewrite Eold. cbn [mbind option_bind]. rewrite Hf. cbn. rewrite Z.add_0_r. by eexists.
  - rewrite (eq_refl : report_masters (S (S n)) vb vbucket = (m ← vbucket_get_master vb vbucket;
      r ← vbucket_found_incorrect_master vb vbucket m; report_masters (S n) r.2 vbucket)).
    rewrite Eold. cbn [mbind option_bind]. rewrite Hf. cbn [mbind option_bind snd].
    destruct (IH _ vbucket _ Hwf' Hd Hi Ef Hm) as (vb' & Er & Em). rewrite Er. exists vb'. split; [done|]. rewrite Em. f_equal.
    change (vc_num_servers (set_vbucket vbucket v vb)) with (vc_num_servers vb). pose proof (wf_servers vb Hwf) as [_ Hn].
    rewrite <- Z.add_assoc, Zplus_mod_idemp_l. f_equal. lia.
Qed.

(** C26: no server is left out.  Without a forward map a client that keeps reporting the
    master as wrong is sent to every server of the list within as many reports as there
    are servers, whatever the master was at first. *)
Theorem every_server_tried vb vbucket target : config_wf vb -> vc_distribution vb = VBUCKET_DISTRIBUTION_VBUCKET ->
  0 <= vbucket < vc_num_vbuckets vb -> vc_fvbuckets vb = None -> 0 <= target < vc_num_servers vb ->
  exists n vb', Z.of_nat n <= vc_num_servers vb /\ report_masters n vb vbucket = Some vb' /\
    vbucket_get_master vb' vbucket = Some target.
Proof.
  intros Hwf Hd Hi Ef Ht. destruct (master_exists vb vbucket Hwf Hd Hi) as (old & Eold & Hold).
  set (N := vc_num_servers vb) in *. pose proof (Z.mod_pos_bound (target - (old + 1)) N ltac:(lia)) as Hr.
  destruct (report_masters_spec (Z.to_nat ((target - (old + 1)) mod N)) vb vbucket old Hwf Hd Hi Ef Eold) as (vb' & Er & Em).
  exists (S (Z.to_nat ((target - (old + 1)) mod N))), vb'. split_and!; [lia|done|]. rewrite Em, Z2Nat.id by lia. fold N. f_equal.
  rewrite Zplus_mod_idemp_r. replace (old + 1 + (target - (old + 1))) with target by lia. by apply Z.mod_small.
Qed.

(** ** Comparing configurations *)

Lemma names_lookup vb i : Forall (fun s => is_Some (sv_authority s)) (vc_servers vb) -> server_name vb (Z.of_nat i) = server_names vb !! i.
Proof.
  intros Hf. unfold server_name, vbucket_config_get_server. rewrite at_index_nat. unfold server_names.
  revert i. induction Hf as [|s l [a Ea] _ IH]; intros i; [done|]. cbn [omap list_omap]. rewrite Ea.
  destruct i as [|i]; cbn; [by rewrite Ea|]. apply IH.
Qed.

Lemma names_length vb : config_wf vb -> Z.of_nat (length (server_names vb)) = vc_num_servers vb.
Proof.
  intros Hwf. destruct (wf_servers vb Hwf) as [-> _]. f_equal. unfold server_names.
  induction (wf_names vb Hwf) as [|s l [a Ea] _ IH]; [done|]. cbn [omap list_omap]. rewrite Ea. cbn [length]. by f_equal.
Qed.

Lemma found_in_spec from sn : config_wf from -> forall count i, (i + count = length (server_names from))%nat ->
  found_in count (Z.of_nat i) from sn = Some (bool_decide (sn ∈ drop i (server_names from))).
Proof.
  intros Hwf. induction count as [|count IH]; intros i Hi; cbn [found_in].
  - by rewrite drop_ge by lia.
  - rewrite names_lookup by apply Hwf. destruct (lookup_lt_is_Some_2 (server_names from) i) as [a Ea]; [lia|]. rewrite Ea.
    cbn [mbind option_bind]. rewrite (drop_S _ _ _ Ea). case_decide as Hd.
    + subst a. rewrite bool_decide_true; [done|]. left.
    + replace (Z.of_nat i + 1) with (Z.of_nat (S i)) by lia. rewrite IH by lia. f_equal. apply bool_decide_ext.
      rewrite elem_of_cons. naive_solver.
Qed.

Lemma diff_from_spec from to : config_wf from -> config_wf to -> forall count i, (i + count = length (server_names to))%nat ->
  diff_from count (Z.of_nat i) from to = Some (filter (fun sn => sn ∉ server_names from) (drop i (server_names to))).
Proof.
  intros Hf Ht. induction count as [|count IH]; intros i Hi; cbn [diff_from].
  - by rewrite drop_ge by lia.
  - rewrite names_lookup by apply Ht. destruct (lookup_lt_is_Some_2 (server_names to) i) as [a Ea]; [lia|]. rewrite Ea.
    cbn [mbind option_bind]. pose proof (names_length from Hf) as Hl. rewrite <- Hl, Nat2Z.id.
    pose proof (found_in_spec from a Hf (length (server_names from)) 0) as E0. change (Z.of_nat 0) with 0 in E0. rewrite E0 by lia. cbn [mbind option_bind]. rewrite drop_0.
    replace (Z.of_nat i + 1) with (Z.of_nat (S i)) by lia. rewrite IH by lia. cbn [mbind option_bind].
    rewrite (drop_S _ _ _ Ea). destruct (decide (a ∈ server_names from)) as [Hd|Hd].
    + by rewrite bool_decide_true, filter_cons_False by tauto.
    + by rewrite bool_decide_false, filter_cons_True by done.
Qed.

Lemma compute_vb_list_diff_spec room from to : config_wf from -> config_wf to -> vc_num_servers to < room ->
  compute_vb_list_diff room from to = Some (filter (fun sn => sn ∉ server_names from) (server_names to)).
Proof.
  intros Hf Ht Hr. pose proof (names_length to Ht) as Hl. unfold compute_vb_list_diff. rewrite <- Hl, Nat2Z.id.
  pose proof (diff_from_spec from to Hf Ht (length (server_names to)) 0) as E0. change (Z.of_nat 0) with 0 in E0. rewrite E0 by lia. cbn [mbind option_bind]. rewrite drop_0.
  rewrite decide_True; [done|]. pose proof (length_filter (fun sn => sn ∉ server_names from) (server_names to)). lia.
Qed.

Lemma sequence_differs_spec from to : config_wf from -> config_wf to -> forall count i,
  (i + count = length (server_names from))%nat -> (i + count = length (server_names to))%nat ->
  sequence_differs count (Z.of_nat i) from to = Some (bool_decide (drop i (server_names from) <> drop i (server_names to))).
Proof.
  intros Hf Ht. induction count as [|count IH]; intros i Hi1 Hi2; cbn [sequence_differs].
  - by rewrite !drop_ge by lia.
  - rewrite !names_lookup by (apply Hf || apply Ht).
    destruct (lookup_lt_is_Some_2 (server_names from) i) as [a Ea]; [lia|].
    destruct (lookup_lt_is_Some_2 (server_names to) i) as [b Eb]; [lia|]. rewrite Ea, Eb. cbn [mbind option_bind].
    replace (Z.of_nat i + 1) with (Z.of_nat (S i)) by lia. rewrite IH by lia. cbn [mbind option_bind].
    rewrite (drop_S _ _ _ Ea), (drop_S _ _ _ Eb). f_equal. apply eq_true_iff_eq. rewrite orb_true_iff, !bool_decide_eq_true. split.
    + intros [Hn|Hn] E; apply Hn; by injection E.
    + intros Hn. destruct (decide (a = b)) as [->|]; [right|by left]. intros E. apply Hn. by rewrite E.
Qed.

Lemma credential_differs_spec a b : credential_differs a b = bool_decide (a <> b).
Proof. unfold credential_differs. destruct a, b; repeat case_bool_decide; cbn; naive_solver. Qed.

(** The vbuckets whose masters differ. *)
Definition moved (from to : vbucket_config_st) (i : Z) : Prop := vbucket_get_master from i <> vbucket_get_master to i.

#[global] Instance moved_dec from to i : Decision (moved from to i).
Proof. unfold moved. apply _. Defined.

Lemma count_changes_spec from to : (forall i, 0 <= i < vc_num_vbuckets to -> is_Some (vbucket_get_master from i) /\ is_Some (vbucket_get_master to i)) ->
  forall count i, 0 <= i -> i + Z.of_nat count = vc_num_vbuckets to ->
  count_changes count i from to = Some (Z.of_nat (length (filter (moved from to) (seqZ i (Z.of_nat count))))).
Proof.
  intros Hm. induction count as [|count IH]; intros i Hi Hc; cbn [count_changes]; [done|].
  destruct (Hm i ltac:(lia)) as [[a Ea] [b Eb]]. rewrite Ea, Eb. cbn [mbind option_bind]. rewrite IH by lia. cbn [mbind option_bind].
  rewrite (seqZ_cons i (Z.of_nat (S count))) by lia. replace (Z.pred (Z.of_nat (S count))) with (Z.of_nat count) by lia.
  change (Z.succ i) with (i + 1). f_equal. destruct (decide (a = b)) as [->|Hd].
  - by rewrite filter_cons_False by (unfold moved; rewrite Ea, Eb; tauto).
  - rewrite filter_cons_True by (unfold moved; rewrite Ea, Eb; congruence). cbn [length]. lia.
Qed.

Lemma masters_exist vb i : config_wf vb -> 0 <= i < vc_num_vbuckets vb -> is_Some (vbucket_get_master vb i).
Proof.
  intros Hwf Hi. destruct (vc_distribution vb) eqn:Hd.
  - destruct (master_exists vb i Hwf Hd Hi) as (id & -> & _). done.
  - destruct (wf_ring vb Hwf Hd) as [E _]. lia.
Qed.

(** C27: the comparison of two configurations is right.  For well-formed configurations it
    leaves no array; it names the servers of the second that the first does not have and
    the other way round, counts the vbuckets whose masters differ (-1 when the numbers of
    vbuckets do), and says that the sequence changed exactly when the lists of servers,
    the users or the passwords differ. *)
Theorem vbucket_compare_correct from to : config_wf from -> config_wf to -> exists d, vbucket_compare from to = Some d /\
  df_servers_added d = filter (fun sn => sn ∉ server_names from) (server_names to) /\
  df_servers_removed d = filter (fun sn => sn ∉ server_names to) (server_names from) /\
  df_n_vb_changes d = (if decide (vc_num_vbuckets to = vc_num_vbuckets from)
    then Z.of_nat (length (filter (moved from to) (seqZ 0 (vc_num_vbuckets to)))) else -1) /\
  (df_sequence_changed d = true <->
    server_names from <> server_names to \/ vc_user from <> vc_user to \/ vc_password from <> vc_password to).
Proof.
  intros Hf Ht. unfold vbucket_compare. rewrite !compute_vb_list_diff_spec by (done || lia). cbn [mbind option_bind].
  pose proof (names_length from Hf) as Lf. pose proof (names_length to Ht) as Lt.
  assert ((if decide (vc_num_servers to = vc_num_servers from) then sequence_differs (Z.to_nat (vc_num_servers from)) 0 from to
           else Some true) = Some (bool_decide (server_names from <> server_names to))) as ->.
  { case_decide as Hn.
    - rewrite <- Lf, Nat2Z.id. by apply (sequence_differs_spec from to Hf Ht (length (server_names from)) 0); lia.
    - rewrite bool_decide_true; [done|]. intros E. rewrite <- E in Lt. lia. }
  assert ((if decide (vc_num_vbuckets to = vc_num_vbuckets from) then count_changes (Z.to_nat (vc_num_vbuckets to)) 0 from to
           else Some (-1)) = Some (if decide (vc_num_vbuckets to = vc_num_vbuckets from)
             then Z.of_nat (length (filter (moved from to) (seqZ 0 (vc_num_vbuckets to)))) else -1)) as ->.
  { case_decide as Hn; [|done]. destruct (Z.lt_ge_cases (vc_num_vbuckets to) 0) as [Hneg|Hpos].
    - replace (Z.to_nat (vc_num_vbuckets to)) with 0%nat by lia. by rewrite seqZ_nil by lia.
    - rewrite (count_changes_spec from to); [by rewrite Z2Nat.id| |lia|lia].
      intros i Hi. split; apply masters_exist; (done || lia). }
  cbn [mbind option_bind]. eexists. split_and!; [done|done|done|done|]. cbn. rewrite !credential_differs_spec, !orb_true_iff, !bool_decide_eq_true. tauto.
Qed.

(** ** Examples *)

Section Samples.
#[local] Existing Instance sample_libm.

(** A text with its zero, written with single quotes. *)
Definition quoted (s : string) : bytes := map (fun c => if decide (c = Byte.x27) then Byte.x22 else c) (text s) ++ [Byte.x00].

Definition sample_json (s : string) : cJSON :=
  match cJSON_Parse (quoted s) with Some (Some c) => c | _ => new_item cJSON_NULL end.

(** Three servers and four vbuckets, one without a master. *)
Definition sample_map_text : string :=
  "{'name':'b','nodeLocator':'vbucket','vBucketServerMap':{'numReplicas':1,'serverList':['a:1','b:2','c:3'],'vBucketMap':[[0,1],[1,0],[-1,2],[2,1]]}}".
(** Two servers, the map of the vbuckets changed, and a forward map. *)
Definition sample_forward_text : string :=
  "{'numReplicas':1,'serverList':['b:2','a:1'],'vBucketMap':[[0,1],[1,0],[-1,0],[1,0]],'vBucketMapForward':[[1,0],[0,1],[0,1],[0,1]]}".
Definition sample_ring_text : string :=
  "{'nodeLocator':'ketama','nodes':[{'hostname':'a:8091','ports':{'direct':11210}},{'hostname':'b:8091','ports':{'direct':11210}}]}".
Definition sample_smaller_text : string :=
  "{'nodeLocator':'ketama','nodes':[{'hostname':'b','ports':{'direct':11210}}]}".

Definition parsed (s : string) : vbucket_config_st :=
  match parse_cjson (sample_json s) with Some (inr vb) => vb | _ => empty_config VBUCKET_DISTRIBUTION_VBUCKET None None end.
Definition sample_map : vbucket_config_st := Eval vm_compute in parsed sample_map_text.
Definition sample_forward : vbucket_config_st := Eval vm_compute in parsed sample_forward_text.
Definition sample_ring : vbucket_config_st := Eval vm_compute in parsed sample_ring_text.
Definition sample_smaller : vbucket_config_st := Eval vm_compute in parsed sample_smaller_text.

Lemma sample_map_wf : config_wf sample_map.
Proof. apply (parse_cjson_wf (sample_json sample_map_text)); by vm_compute. Qed.
Lemma sample_forward_wf : config_wf sample_forward.
Proof. apply (parse_cjson_wf (sample_json sample_forward_text)); by vm_compute. Qed.

Lemma parsed_config_wf_witness : vbucket_config_parse_string (quoted sample_map_text) = Some (inr sample_map) /\ config_wf sample_map.
Proof.
  assert (vbucket_config_parse_string (quoted sample_map_text) = Some (inr sample_map)) as E by (by vm_compute).
  split; [exact E|]. by apply (parsed_config_wf _ _ E).
Defined.


Lemma vbucket_map_correct_witness : vbucket_map sample_map (text "k7") = Some (1, 1) /\
  exists vbucket_id server_idx, vbucket_map sample_map (text "k7") = Some (vbucket_id, server_idx) /\ -1 <= server_idx < 3.
Proof.
  split; [by vm_compute|].
  destruct (vbucket_map_correct sample_map (text "k7") sample_map_wf ltac:(by vm_compute)) as (v & i & E & Hi & _).
  exists v, i. split; [exact E|exact Hi].
Defined.

Lemma ring_keeps_keys_witness : vbucket_map sample_ring (text "k7") = Some (0, 1) /\
  exists j, vbucket_map sample_smaller (text "k7") = Some (0, j) /\ server_name sample_smaller j = Some (text "b:11210").
Proof.
  assert (vbucket_map sample_ring (text "k7") = Some (0, 1)) as E by (by vm_compute). split; [exact E|].
  eapply (ring_keeps_keys (sample_json sample_ring_text) (sample_json sample_smaller_text) sample_ring sample_smaller _ (text "k7") 1).
  - by vm_compute.
  - done.
  - by vm_compute.
  - done.
  - done.
  - apply (bool_decide_unpack _). by vm_compute.
  - by vm_compute.
  - intros x Hx. change (server_names sample_smaller) with [text "b:11210"] in Hx. apply list_elem_of_singleton in Hx as ->.
    apply (bool_decide_unpack _). by vm_compute.
  - exact E.
  - done.
  - apply (bool_decide_unpack _). by vm_compute.
Defined.

(** A vbucket without a master, and one with a forward map. *)
Lemma incorrect_master_corrected_witness :
  (exists rv vb', vbucket_found_incorrect_master sample_map 2 (-1) = Some (rv, vb') /\ config_wf vb' /\ rv = 0) /\
  (exists rv vb', vbucket_found_incorrect_master sample_forward 3 0 = Some (rv, vb') /\ config_wf vb' /\ rv = 0).
Proof.
  split.
  - destruct (incorrect_master_corrected sample_map 2 (-1) sample_map_wf) as (rv & vb' & old & E & Hwf & Eo & _ & _ & Er); [done|done|].
    exists rv, vb'. split; [exact E|]. split; [exact Hwf|]. injection Eo as <-. by injection Er.
  - destruct (incorrect_master_corrected sample_forward 3 0 sample_forward_wf) as (rv & vb' & old & E & Hwf & Eo & _ & _ & Er); [done|done|].
    exists rv, vb'. split; [exact E|]. split; [exact Hwf|]. by injection Er.
Defined.

Lemma every_server_tried_witness : exists n vb', Z.of_nat n <= 3 /\ report_masters n sample_map 1 = Some vb' /\
  vbucket_get_master vb' 1 = Some 0.
Proof. by apply (every_server_tried sample_map 1 0 sample_map_wf). Defined.

Lemma vbucket_compare_correct_witness : exists d, vbucket_compare sample_map sample_forward = Some d /\
  df_servers_added d = [] /\ df_servers_removed d = [text "c:3"] /\ df_n_vb_changes d = 1.
Proof.
  destruct (vbucket_compare_correct sample_map sample_forward sample_map_wf sample_forward_wf) as (d & E & Ea & Er & En & _).
  exists d. rewrite Ea, Er, En. by vm_compute.
Defined.
End Samples.
