(* ===== verification/Genhash.v ===== *)
(** * Genhash: the hash table of the bucket engine

    Models genhash.c of bucket-engine (src/cbase/bucket-engine/bucket-engine-1.8.0) and the
    operations bucket_engine.c gives it: a chained table that keeps every value stored for
    a key, the newest first.  Keys and values are opaque, with a length; the table copies
    and frees them through the functions it is given, and the model keeps a list of these
    calls, the newest first.  [None] is a failed assertion; running out of memory is not
    modelled. *)

From Stdlib Require Import ZArith Lia.
From S2P Require Import Prelude.
From stdpp Require Import list numbers.

#[local] Open Scope Z_scope.

(** ** Sizes *)

Definition prime_size_table : list Z :=
  [3; 7; 13; 23; 47; 97; 193; 383; 769; 1531; 3067; 6143; 12289; 24571; 49157;
   98299; 196613; 393209; 786433; 1572869; 3145721; 6291449; 12582917;
   25165813; 50331653; 100663291; 201326611; 402653189; 805306357; 1610612741].

(** (int)log(est): the powers of e up to the largest int, rounded up. *)
Definition exp_table : list Z :=
  [3; 8; 21; 55; 149; 404; 1097; 2981; 8104; 22027; 59875; 162755; 442414; 1202605; 3269018; 8886111; 24154953;
   65659970; 178482301; 485165196; 1318815735].
Definition int_log (est : Z) : Z := Z.of_nat (length (filter (fun e => e <= est) exp_table)).

(** A small integer divided by log(2), as a size_t. *)
Definition div_log2 (n : Z) : Z := n * 1000000000000 `div` 693147180560.

(** The cast binds the logarithm, not the quotient. *)
Definition estimate_table_size (est : Z) : option Z :=
  if decide (0 < est) then
    let magn := u64 (div_log2 (int_log est) - 1) in
    let magn := if decide (2 ^ 31 <= u32 magn) then 0 else magn in
    if decide (magn < Z.of_nat (length prime_size_table)) then prime_size_table !! Z.to_nat magn else None
  else None.

Section Table.
Context {K V : Type}.

(** freeKey and freeValue: whether they are there. *)
Record hash_ops : Type := {
  hashfunc : K -> Z -> Z;
  hasheq : K -> Z -> K -> Z -> bool;
  dupKey : option (K -> Z -> K);
  dupValue : option (V -> Z -> V);
  freeKey : bool;
  freeValue : bool
}.

Record genhash_entry_t : Type := { ge_key : K; ge_nkey : Z; ge_value : V; ge_nvalue : Z }.

Record genhash_t : Type := { gh_size : Z; gh_ops : hash_ops; gh_buckets : list (list genhash_entry_t) }.

(** A call of one of the functions the table was given, with the result of a copy and the
    argument of a release. *)
Inductive call : Type := DupKey (k : K) | DupValue (v : V) | FreeKey (k : K) | FreeValue (v : V).

Definition set_buckets (b : list (list genhash_entry_t)) (h : genhash_t) : genhash_t :=
  {| gh_size := gh_size h; gh_ops := gh_ops h; gh_buckets := b |}.

Definition dup_key (h : genhash_t) (key : K) (klen : Z) (calls : list call) : K * list call :=
  match dupKey (gh_ops h) with
  | Some dup => (dup key klen, DupKey (dup key klen) :: calls)
  | None => (key, calls)
  end.

Definition dup_value (h : genhash_t) (value : V) (vlen : Z) (calls : list call) : V * list call :=
  match dupValue (gh_ops h) with
  | Some dup => (dup value vlen, DupValue (dup value vlen) :: calls)
  | None => (value, calls)
  end.

Definition free_key (h : genhash_t) (key : K) (calls : list call) : list call :=
  if freeKey (gh_ops h) then FreeKey key :: calls else calls.

Definition free_value (h : genhash_t) (value : V) (calls : list call) : list call :=
  if freeValue (gh_ops h) then FreeValue value :: calls else calls.

(** The outer result is the assertions, the inner one the null pointer. *)
Definition genhash_init (est : Z) (ops : hash_ops) : option (option genhash_t) :=
  if decide (est < 1) then Some None
  else if decide ((is_Some (dupKey ops) \/ freeKey ops = false) /\ (is_Some (dupValue ops) \/ freeValue ops = false)) then
    size ← estimate_table_size est;
    Some (Some {| gh_size := size; gh_ops := ops; gh_buckets := replicate (Z.to_nat size) [] |})
  else None.

(** The remainder is taken of the hash as a size_t. *)
Definition bucket_index (h : genhash_t) (k : K) (klen : Z) : option nat :=
  let n := u64 (hashfunc (gh_ops h) k klen) mod gh_size h in
  if decide (u32 n < 2 ^ 31 /\ n < gh_size h) then Some (Z.to_nat n) else None.

Definition genhash_store (h : genhash_t) (k : K) (klen : Z) (v : V) (vlen : Z) (calls : list call) : option (genhash_t * list call) :=
  n ← bucket_index h k klen;
  next ← gh_buckets h !! n;
  let '(key, calls) := dup_key h k klen calls in
  let '(value, calls) := dup_value h v vlen calls in
  let p := {| ge_key := key; ge_nkey := klen; ge_value := value; ge_nvalue := vlen |} in
  Some (set_buckets (<[n := p :: next]> (gh_buckets h)) h, calls).

(** Where the entry of a key is in a chain. *)
Fixpoint find_in_chain (ops : hash_ops) (k : K) (klen : Z) (p : list genhash_entry_t) : option (nat * genhash_entry_t) :=
  match p with
  | [] => None
  | e :: next =>
      if hasheq ops k klen (ge_key e) (ge_nkey e) then Some (O, e)
      else '(i, e) ← find_in_chain ops k klen next; Some (S i, e)
  end.

(** The entry, with its place. *)
Definition genhash_find_entry (h : genhash_t) (k : K) (klen : Z) : option (option (nat * nat * genhash_entry_t)) :=
  n ← bucket_index h k klen;
  chain ← gh_buckets h !! n;
  Some ('(i, e) ← find_in_chain (gh_ops h) k klen chain; Some (n, i, e)).

Definition genhash_find (h : genhash_t) (k : K) (klen : Z) : option (option V) :=
  p ← genhash_find_entry h k klen;
  Some (match p with Some (_, _, e) => Some (ge_value e) | None => None end).

Inductive update_type : Type := MODIFICATION | NEW.

(** The length stays that of the old value. *)
Definition set_value (v : V) (e : genhash_entry_t) : genhash_entry_t :=
  {| ge_key := ge_key e; ge_nkey := ge_nkey e; ge_value := v; ge_nvalue := ge_nvalue e |}.

Definition write_value (h : genhash_t) (n i : nat) (v : V) : genhash_t :=
  set_buckets (alter (alter (set_value v) i) n (gh_buckets h)) h.

Definition genhash_update (h : genhash_t) (k : K) (klen : Z) (v : V) (vlen : Z) (calls : list call)
  : option (update_type * genhash_t * list call) :=
  p ← genhash_find_entry h k klen;
  match p with
  | Some (n, i, e) =>
      let calls := free_value h (ge_value e) calls in
      let '(value, calls) := dup_value h v vlen calls in
      Some (MODIFICATION, write_value h n i value, calls)
  | None => '(h, calls) ← genhash_store h k klen v vlen calls; Some (NEW, h, calls)
  end.

(** [upd] gives the new value and its size; what it returned is freed by the caller's
    function, [freed] here. *)
Definition genhash_fun_update (h : genhash_t) (k : K) (klen : Z) (upd : K -> V -> V * Z) (def : V) (calls : list call) (freed : list V)
  : option (update_type * genhash_t * list call * list V) :=
  p ← genhash_find_entry h k klen;
  match p with
  | Some (n, i, e) =>
      let '(newValue, newSize) := upd k (ge_value e) in
      let calls := free_value h (ge_value e) calls in
      let '(value, calls) := dup_value h newValue newSize calls in
      Some (MODIFICATION, write_value h n i value, calls, newValue :: freed)
  | None =>
      let '(newValue, newSize) := upd k def in
      '(h, calls) ← genhash_store h k klen newValue newSize calls;
      Some (NEW, h, calls, newValue :: freed)
  end.

Definition free_item (h : genhash_t) (i : genhash_entry_t) (calls : list call) : list call :=
  free_value h (ge_value i) (free_key h (ge_key i) calls).

(** The first entry behind the head that matches is unlinked. *)
Fixpoint unlink_next (ops : hash_ops) (k : K) (klen : Z) (next : list genhash_entry_t) : option genhash_entry_t * list genhash_entry_t :=
  match next with
  | [] => (None, [])
  | e :: rest =>
      if hasheq ops (ge_key e) (ge_nkey e) k klen then (Some e, rest)
      else let '(deleteme, rest) := unlink_next ops k klen rest in (deleteme, e :: rest)
  end.

Definition unlink (ops : hash_ops) (k : K) (klen : Z) (chain : list genhash_entry_t) : option genhash_entry_t * list genhash_entry_t :=
  match chain with
  | [] => (None, [])
  | e :: rest =>
      if hasheq ops (ge_key e) (ge_nkey e) k klen then (Some e, rest)
      else let '(deleteme, rest) := unlink_next ops k klen rest in (deleteme, e :: rest)
  end.

Definition genhash_delete (h : genhash_t) (k : K) (klen : Z) (calls : list call) : option (Z * genhash_t * list call) :=
  n ← bucket_index h k klen;
  chain ← gh_buckets h !! n;
  let '(deleteme, chain) := unlink (gh_ops h) k klen chain in
  let h := set_buckets (<[n := chain]> (gh_buckets h)) h in
  match deleteme with
  | Some e => Some (1, h, free_item h e calls)
  | None => Some (0, h, calls)
  end.

Fixpoint delete_loop (fuel : nat) (h : genhash_t) (k : K) (klen : Z) (rv : Z) (calls : list call) : option (Z * genhash_t * list call) :=
  match fuel with
  | O => None
  | S fuel =>
      '(r, h, calls) ← genhash_delete h k klen calls;
      if decide (r = 1) then delete_loop fuel h k klen (rv + 1) calls else Some (rv, h, calls)
  end.

Definition entries (h : genhash_t) : list genhash_entry_t := concat (gh_buckets h).

Definition genhash_delete_all (h : genhash_t) (k : K) (klen : Z) (calls : list call) : option (Z * genhash_t * list call) :=
  delete_loop (S (length (entries h))) h k klen 0 calls.

(** [arg] is what the function is handed and changes. *)
Definition iterate {A} (iterfunc : K -> Z -> V -> Z -> A -> A) (arg : A) (chain : list genhash_entry_t) : A :=
  foldl (fun arg p => iterfunc (ge_key p) (ge_nkey p) (ge_value p) (ge_nvalue p) arg) arg chain.

Definition genhash_iter {A} (h : genhash_t) (iterfunc : K -> Z -> V -> Z -> A -> A) (arg : A) : A :=
  foldl (iterate iterfunc) arg (gh_buckets h).

Definition genhash_iter_key {A} (h : genhash_t) (key : K) (klen : Z) (iterfunc : K -> Z -> V -> Z -> A -> A) (arg : A) : option A :=
  n ← bucket_index h key klen;
  chain ← gh_buckets h !! n;
  Some (foldl (fun arg p => if hasheq (gh_ops h) key klen (ge_key p) (ge_nkey p)
                            then iterfunc (ge_key p) (ge_nkey p) (ge_value p) (ge_nvalue p) arg else arg) arg chain).

Definition count_entries (key : K) (klen : Z) (val : V) (vlen : Z) (count : Z) : Z := count + 1.

Definition genhash_size (h : genhash_t) : Z := genhash_iter h count_entries 0.

Definition genhash_size_for_key (h : genhash_t) (k : K) (klen : Z) : option Z := genhash_iter_key h k klen count_entries 0.

Fixpoint clear_chain (h : genhash_t) (chain : list genhash_entry_t) (calls : list call) : list call :=
  match chain with
  | [] => calls
  | p :: next => clear_chain h next (free_item h p calls)
  end.

(** The result counts nothing. *)
Definition genhash_clear (h : genhash_t) (calls : list call) : Z * genhash_t * list call :=
  (0, set_buckets (map (fun _ => []) (gh_buckets h)) h, foldl (fun calls chain => clear_chain h chain calls) calls (gh_buckets h)).

Definition genhash_free (h : option genhash_t) (calls : list call) : list call :=
  match h with
  | Some h => (genhash_clear h calls).2
  | None => calls
  end.
End Table.

Arguments hash_ops : clear implicits.
Arguments genhash_entry_t : clear implicits.
Arguments genhash_t : clear implicits.
Arguments call : clear implicits.

(** ** The operations of the bucket engine *)

Definition s32 (z : Z) : Z := let u := u32 z in if decide (u < 2 ^ 31) then u else u - 2 ^ 32.
Definition signed_char (c : byte) : Z := if decide (b2z c < 128) then b2z c else b2z c - 256.

(** Ints are taken to wrap around. *)
Definition genhash_string_hash (p : bytes) (nkey : Z) : Z :=
  foldl (fun rv c => Z.lxor (s32 (s32 (Z.shiftl rv 5) + rv)) (signed_char c)) 5381 (take (Z.to_nat nkey) p).

Definition my_hash_eq (k1 : bytes) (nkey1 : Z) (k2 : bytes) (nkey2 : Z) : bool :=
  bool_decide (nkey1 = nkey2) && bool_decide (take (Z.to_nat nkey1) k1 = take (Z.to_nat nkey1) k2).

Definition hash_strdup (k : bytes) (nkey : Z) : bytes := take (Z.to_nat nkey) k.

(** A value is a handle of an engine; a copy counts a reference, a release drops it. *)
Definition refcount_dup {V} (ob : V) (vlen : Z) : V := ob.

Definition my_hash_ops (V : Type) : hash_ops bytes V :=
  {| hashfunc := genhash_string_hash; hasheq := my_hash_eq; dupKey := Some hash_strdup; dupValue := Some refcount_dup;
     freeKey := true; freeValue := true |}.
