(* ===== verification/GenhashTheorems.v ===== *)
(** * GenhashTheorems: the hash table is a map from keys to stacks of values

    Every operation of genhash.c is compared with a map that gives for each key the values
    stored for it, the newest first; the copies of keys and values are released once. *)

From Stdlib Require Import ZArith Lia.
From S2P Require Import Prelude Genhash.
From stdpp Require Import list numbers.

#[local] Open Scope Z_scope.

(** What a table needs of its operations: keys are equal under an equivalence, equal keys
    have one hash, and a copy of a key is equal to it. *)
Class OpsLaws {K V} (o : hash_ops K V) : Prop := {
  eq_refl' : forall k n, hasheq o k n k n = true;
  eq_sym' : forall k n k' n', hasheq o k n k' n' = true -> hasheq o k' n' k n = true;
  eq_trans' : forall a i b j c l, hasheq o a i b j = true -> hasheq o b j c l = true -> hasheq o a i c l = true;
  eq_hash : forall k n k' n', hasheq o k n k' n' = true -> hashfunc o k n = hashfunc o k' n';
  dup_eq : forall dup k n, dupKey o = Some dup -> hasheq o (dup k n) n k n = true
}.

#[global] Instance my_hash_laws V : OpsLaws (my_hash_ops V).
Proof.
  split; cbn.
  - intros k n. unfold my_hash_eq. by rewrite !bool_decide_true.
  - unfold my_hash_eq. intros k n k' n'. rewrite !andb_true_iff, !bool_decide_eq_true. intros [-> E]. done.
  - unfold my_hash_eq. intros a i b j c l. rewrite !andb_true_iff, !bool_decide_eq_true. intros [-> E] [-> E2]. split; [done|congruence].
  - unfold my_hash_eq. intros k n k' n'. rewrite !andb_true_iff, !bool_decide_eq_true. intros [-> E].
    unfold genhash_string_hash. by rewrite E.
  - intros dup k n [= <-]. unfold my_hash_eq, hash_strdup. rewrite !bool_decide_true; [done| |done]. rewrite take_take. f_equal. lia.
Qed.

Lemma estimate_table_size_ok est : 0 < est < 2 ^ 31 -> exists size, estimate_table_size est = Some size /\ 3 <= size < 2 ^ 31.
Proof.
  intros He. unfold estimate_table_size. rewrite decide_True by lia. unfold int_log.
  pose proof (length_filter (fun e => e <= est) exp_table) as Hl. set (n := length (filter _ exp_table)) in *. clearbody n.
  change (length exp_table) with 21%nat in Hl.
  assert (forall n, (n <= 21)%nat -> exists size,
    (let magn := u64 (div_log2 (Z.of_nat n) - 1) in
     let magn := if decide (2 ^ 31 <= u32 magn) then 0 else magn in
     if decide (magn < Z.of_nat (length prime_size_table)) then prime_size_table !! Z.to_nat magn else None) = Some size /\ 3 <= size < 2 ^ 31) as H.
  { clear. intros n Hn. do 22 (destruct n as [|n]; [eexists; split; [by vm_compute|lia]|]). lia. }
  by apply H.
Qed.

Section Laws.
Context {K V : Type}.
Implicit Types (h : genhash_t K V) (e : genhash_entry_t K V) (k : K) (v : V).

(** ** The invariant *)

Record gh_wf h : Prop := {
  gw_laws : OpsLaws (gh_ops h);
  gw_size : 0 < gh_size h < 2 ^ 31;
  gw_length : Z.of_nat (length (gh_buckets h)) = gh_size h;
  gw_place : forall i chain e, gh_buckets h !! i = Some chain -> e ∈ chain -> bucket_index h (ge_key e) (ge_nkey e) = Some i
}.

Definition chain_of h k n : list (genhash_entry_t K V) := default [] (i ← bucket_index h k n; gh_buckets h !! i).
Definition matches h k n e : bool := hasheq (gh_ops h) k n (ge_key e) (ge_nkey e).

(** The values stored for a key, the newest first. *)
Definition values h k n : list V := map ge_value (filter (fun e => matches h k n e = true) (chain_of h k n)).

Lemma bucket_exists h k n : gh_wf h -> exists i, bucket_index h k n = Some i /\ gh_buckets h !! i = Some (chain_of h k n).
Proof.
  intros [_ Hs Hl _]. unfold chain_of, bucket_index. set (x := u64 _ mod gh_size h).
  assert (0 <= x < gh_size h) as Hx by (apply Z.mod_pos_bound; lia).
  rewrite decide_True by (unfold u32; rewrite Z.mod_small by lia; lia). exists (Z.to_nat x). split; [done|].
  cbn [mbind option_bind]. destruct (lookup_lt_is_Some_2 (gh_buckets h) (Z.to_nat x)) as [c Ec]; [lia|]. by rewrite Ec.
Qed.

Lemma index_eq h k n k' n' : gh_wf h -> hasheq (gh_ops h) k n k' n' = true -> bucket_index h k n = bucket_index h k' n'.
Proof. intros Hwf E. unfold bucket_index. by rewrite (eq_hash (OpsLaws := gw_laws h Hwf) _ _ _ _ E). Qed.

Lemma hasheq_cong h k n k' n' a l : gh_wf h -> hasheq (gh_ops h) k n k' n' = true ->
  hasheq (gh_ops h) a l k n = hasheq (gh_ops h) a l k' n'.
Proof.
  intros Hwf E. pose proof (gw_laws h Hwf). apply eq_true_iff_eq. split; intros E2; [by eapply eq_trans'|].
  eapply eq_trans'; [exact E2|]. by apply eq_sym'.
Qed.

Lemma hasheq_comm h k n k' n' : gh_wf h -> hasheq (gh_ops h) k n k' n' = hasheq (gh_ops h) k' n' k n.
Proof. intros Hwf. pose proof (gw_laws h Hwf). apply eq_true_iff_eq. split; apply eq_sym'. Qed.

(** *** A new chain in the place of the chain of a key *)

Definition set_chain h (i : nat) chain : genhash_t K V := set_buckets (<[i := chain]> (gh_buckets h)) h.

Lemma set_chain_wf h k n i chain : gh_wf h -> bucket_index h k n = Some i ->
  (forall e, e ∈ chain -> bucket_index h (ge_key e) (ge_nkey e) = Some i) -> gh_wf (set_chain h i chain).
Proof.
  intros [H1 H2 H3 H4] Hi Hc. split; cbn; [done|done|by rewrite length_insert|].
  intros j c e Hj He. change (bucket_index (set_chain h i chain)) with (bucket_index h). cbn in Hj.
  destruct (decide (j = i)) as [->|]; [|rewrite list_lookup_insert_ne in Hj by done; by eapply H4].
  apply list_lookup_insert_Some in Hj as [(_ & <- & _)|(? & _)]; [by apply Hc|done].
Qed.

Lemma values_set_chain h k n i chain k' n' : gh_wf h -> bucket_index h k n = Some i ->
  values (set_chain h i chain) k' n' =
    if decide (bucket_index h k' n' = Some i) then map ge_value (filter (fun e => matches h k' n' e = true) chain) else values h k' n'.
Proof.
  intros Hwf Hi. unfold values, chain_of. change (bucket_index (set_chain h i chain)) with (bucket_index h).
  change (matches (set_chain h i chain) k' n') with (matches h k' n'). destruct (bucket_exists h k n Hwf) as (i0 & E0 & Ec).
  assert (i0 = i) as -> by congruence. case_decide as Hd.
  - rewrite Hd. cbn. rewrite list_lookup_insert_eq; [done|]. by eapply lookup_lt_Some.
  - destruct (bucket_index h k' n') as [j|]; [|done]. cbn. rewrite list_lookup_insert_ne by congruence. done.
Qed.

Lemma values_edit h k n i chain' k' n' : gh_wf h -> bucket_index h k n = Some i ->
  filter (fun e => matches h k n e = false) chain' = filter (fun e => matches h k n e = false) (chain_of h k n) ->
  values (set_chain h i chain') k' n' =
    if hasheq (gh_ops h) k n k' n' then map ge_value (filter (fun e => matches h k n e = true) chain') else values h k' n'.
Proof.
  intros Hwf Hi Hrest. rewrite (values_set_chain h k n) by done. destruct (hasheq (gh_ops h) k n k' n') eqn:E.
  - rewrite decide_True by (rewrite <- Hi; symmetry; by apply index_eq). f_equal. apply list_filter_iff. intros e. unfold matches.
    rewrite !(hasheq_comm h _ _ (ge_key e)) by done. by rewrite (hasheq_cong h k n k' n').
  - case_decide as Hj; [|done]. unfold values. f_equal.
    assert (forall l : list (genhash_entry_t K V), filter (fun e => matches h k' n' e = true) l =
                      filter (fun e => matches h k' n' e = true) (filter (fun e => matches h k n e = false) l)) as Hf.
    { intros l. rewrite list_filter_filter. apply list_filter_iff. intros e. split; [|tauto]. intros Hm. split; [done|].
      unfold matches in *. by rewrite <- (hasheq_cong h k' n' _ _ k n Hwf Hm). }
    rewrite (Hf chain'), Hrest, <- Hf. f_equal. unfold chain_of. by rewrite Hj, Hi.
Qed.

(** *** The first entry of a key in a chain *)

Definition first_match h k n (chain l1 : list (genhash_entry_t K V)) e l2 : Prop :=
  chain = l1 ++ e :: l2 /\ Forall (fun e => matches h k n e = false) l1 /\ matches h k n e = true.

Lemma chain_cases h k n chain :
  (Forall (fun e => matches h k n e = false) chain) \/ (exists l1 e l2, first_match h k n chain l1 e l2).
Proof.
  induction chain as [|e chain [IH|(l1 & e' & l2 & -> & Hf & Hm)]]; [by left| |]; destruct (matches h k n e) eqn:E.
  - right. by exists [], e, chain.
  - left. by constructor.
  - right. by exists [], e, (l1 ++ e' :: l2).
  - right. exists (e :: l1), e', l2. split_and!; [done|by constructor|done].
Qed.

Lemma find_none h k n chain : Forall (fun e => matches h k n e = false) chain -> find_in_chain (gh_ops h) k n chain = None.
Proof. induction 1 as [|e chain E _ IH]; cbn [find_in_chain]; [done|]. unfold matches in E. by rewrite E, IH. Qed.

Lemma find_first h k n chain l1 e l2 : first_match h k n chain l1 e l2 -> find_in_chain (gh_ops h) k n chain = Some (length l1, e).
Proof.
  intros (-> & Hf & Hm). unfold matches in *. induction Hf as [|x l1 E _ IH]; cbn [find_in_chain app]; [by rewrite Hm|].
  rewrite E, IH. done.
Qed.

Lemma unlink_is_next h k n chain : unlink (gh_ops h) k n chain = unlink_next (gh_ops h) k n chain.
Proof. by destruct chain. Qed.

Lemma unlink_none h k n chain : gh_wf h -> Forall (fun e => matches h k n e = false) chain -> unlink (gh_ops h) k n chain = (None, chain).
Proof.
  intros Hwf Hf. rewrite unlink_is_next. induction Hf as [|e chain E _ IH]; cbn [unlink_next]; [done|].
  unfold matches in E. by rewrite hasheq_comm, E, IH.
Qed.

Lemma unlink_first h k n chain l1 e l2 : gh_wf h -> first_match h k n chain l1 e l2 ->
  unlink (gh_ops h) k n chain = (Some e, l1 ++ l2).
Proof.
  intros Hwf (-> & Hf & Hm). rewrite unlink_is_next. unfold matches in *. induction Hf as [|x l1 E _ IH]; cbn [unlink_next app].
  - by rewrite hasheq_comm, Hm.
  - by rewrite hasheq_comm, E, IH.
Qed.

Lemma filter_none h k n b chain : Forall (fun e => matches h k n e = negb b) chain -> filter (fun e => matches h k n e = b) chain = [].
Proof. induction 1 as [|e chain E _ IH]; [done|]. rewrite filter_cons_False; [done|]. rewrite E. by destruct b. Qed.

Lemma values_none h k n : Forall (fun e => matches h k n e = false) (chain_of h k n) -> values h k n = [].
Proof. intros Hf. unfold values. by rewrite (filter_none h k n true). Qed.

Lemma values_first h k n l1 e l2 : first_match h k n (chain_of h k n) l1 e l2 ->
  values h k n = ge_value e :: map ge_value (filter (fun e => matches h k n e = true) l2).
Proof.
  intros (E & Hf & Hm). unfold values. rewrite E, list.filter_app, (filter_none h k n true) by done. by rewrite filter_cons_True.
Qed.

(** *** Places *)

Lemma chain_place h k n i e : gh_wf h -> bucket_index h k n = Some i -> e ∈ chain_of h k n ->
  bucket_index h (ge_key e) (ge_nkey e) = Some i.
Proof.
  intros Hwf Hi He. destruct (bucket_exists h k n Hwf) as (j & Ej & Ec). assert (j = i) as -> by congruence.
  by eapply (gw_place h Hwf).
Qed.

(** ** The operations *)

(** The copy the table makes. *)
Definition key_copy h k n : K := match dupKey (gh_ops h) with Some dup => dup k n | None => k end.
Definition value_copy (o : hash_ops K V) v m : V := match dupValue o with Some dup => dup v m | None => v end.

Lemma dup_key_fst h k n calls : (dup_key h k n calls).1 = key_copy h k n.
Proof. unfold dup_key, key_copy. by destruct (dupKey (gh_ops h)). Qed.
Lemma dup_value_fst h v m calls : (dup_value h v m calls).1 = value_copy (gh_ops h) v m.
Proof. unfold dup_value, value_copy. by destruct (dupValue (gh_ops h)). Qed.

Lemma key_copy_eq h k n : gh_wf h -> hasheq (gh_ops h) k n (key_copy h k n) n = true.
Proof.
  intros Hwf. pose proof (gw_laws h Hwf). unfold key_copy. destruct (dupKey (gh_ops h)) eqn:E; [|apply eq_refl'].
  apply eq_sym'. by apply dup_eq.
Qed.

Lemma genhash_store_spec h k n v m calls : gh_wf h -> exists h' calls', genhash_store h k n v m calls = Some (h', calls') /\ gh_wf h' /\
  gh_ops h' = gh_ops h /\ forall k' n', values h' k' n' =
    if hasheq (gh_ops h) k n k' n' then value_copy (gh_ops h) v m :: values h k n else values h k' n'.
Proof.
  intros Hwf. destruct (bucket_exists h k n Hwf) as (i & Ei & Ec). unfold genhash_store. rewrite Ei. cbn [mbind option_bind].
  rewrite Ec. cbn [mbind option_bind]. pose proof (dup_key_fst h k n calls) as Ek. destruct (dup_key h k n calls) as [key calls1].
  cbn [fst] in Ek. subst key. pose proof (dup_value_fst h v m calls1) as Ev. destruct (dup_value h v m calls1) as [value calls2].
  cbn [fst] in Ev. subst value. set (p := {| ge_key := _ |}). eexists _, _. split; [done|].
  assert (matches h k n p = true) as Hp by (unfold matches; cbn; by apply key_copy_eq).
  fold (set_chain h i (p :: chain_of h k n)). split_and!; [|done|].
  - eapply set_chain_wf; [done..|]. intros e [->|He]%elem_of_cons; [|by eapply chain_place]. rewrite <- Ei. symmetry. by apply index_eq.
  - intros k' n'. rewrite (values_edit h k n) by (done || by rewrite filter_cons_False by (rewrite Hp; done)).
    by rewrite filter_cons_True.
Qed.

Lemma genhash_find_entry_spec h k n : gh_wf h -> exists i, bucket_index h k n = Some i /\ gh_buckets h !! i = Some (chain_of h k n) /\
  genhash_find_entry h k n = Some ('(j, e) ← find_in_chain (gh_ops h) k n (chain_of h k n); Some (i, j, e)).
Proof.
  intros Hwf. destruct (bucket_exists h k n Hwf) as (i & Ei & Ec). exists i. split_and!; [done|done|]. unfold genhash_find_entry.
  rewrite Ei. cbn [mbind option_bind]. by rewrite Ec.
Qed.

Lemma genhash_find_spec h k n : gh_wf h -> genhash_find h k n = Some (head (values h k n)).
Proof.
  intros Hwf. unfold genhash_find. destruct (genhash_find_entry_spec h k n Hwf) as (i & _ & _ & ->). cbn [mbind option_bind].
  destruct (chain_cases h k n (chain_of h k n)) as [Hf|(l1 & e & l2 & Hm)].
  - by rewrite find_none, values_none.
  - by rewrite (find_first _ _ _ _ _ _ _ Hm), (values_first _ _ _ _ _ _ Hm).
Qed.

Lemma write_value_chain h i l1 e l2 v : gh_buckets h !! i = Some (l1 ++ e :: l2) ->
  write_value h i (length l1) v = set_chain h i (l1 ++ set_value v e :: l2).
Proof.
  intros Ec. unfold write_value, set_chain. f_equal. apply list_eq. intros j. rewrite list_lookup_alter, list_lookup_insert.
  destruct (decide (i = j)) as [<-|]; [|by rewrite decide_False by tauto]. rewrite decide_True by (split; [done|by eapply lookup_lt_Some]).
  rewrite Ec. cbn. f_equal. rewrite alter_app_r_alt by lia. by rewrite Nat.sub_diag.
Qed.

(** A new value in the place of the newest one. *)
Lemma write_value_spec h k n i l1 e l2 v : gh_wf h -> bucket_index h k n = Some i ->
  gh_buckets h !! i = Some (chain_of h k n) -> first_match h k n (chain_of h k n) l1 e l2 ->
  gh_wf (write_value h i (length l1) v) /\ forall k' n', values (write_value h i (length l1) v) k' n' =
    if hasheq (gh_ops h) k n k' n' then v :: tail (values h k n) else values h k' n'.
Proof.
  intros Hwf Ei Ec Hm. pose proof Hm as (Echain & Hf & Hme).
  rewrite (write_value_chain h i l1 e l2 v) by (by rewrite <- Echain).
  assert (matches h k n (set_value v e) = true) as Hme' by done. split.
  - eapply set_chain_wf; [done..|]. intros x Hx. apply elem_of_app in Hx as [Hx|[->|Hx]%elem_of_cons].
    + apply (chain_place h k n); [done..|]. rewrite Echain. apply elem_of_app. by left.
    + change (bucket_index h (ge_key e) (ge_nkey e) = Some i). apply (chain_place h k n); [done..|]. rewrite Echain.
      apply elem_of_app. right. left.
    + apply (chain_place h k n); [done..|]. rewrite Echain. apply elem_of_app. right. by right.
  - intros k' n'. rewrite (values_edit h k n); [|done|done|].
    + by rewrite list.filter_app, (filter_none h k n true), filter_cons_True, (values_first _ _ _ _ _ _ Hm).
    + rewrite Echain, !list.filter_app. by rewrite !filter_cons_False by (rewrite ?Hme, ?Hme'; done).
Qed.

Lemma genhash_delete_spec h k n calls : gh_wf h -> exists h' calls',
  genhash_delete h k n calls = Some (if decide (values h k n = []) then 0 else 1, h', calls') /\ gh_wf h' /\ gh_ops h' = gh_ops h /\
  forall k' n', values h' k' n' = if hasheq (gh_ops h) k n k' n' then tail (values h k n) else values h k' n'.
Proof.
  intros Hwf. destruct (bucket_exists h k n Hwf) as (i & Ei & Ec). unfold genhash_delete. rewrite Ei. cbn [mbind option_bind].
  rewrite Ec. cbn [mbind option_bind]. destruct (chain_cases h k n (chain_of h k n)) as [Hf|(l1 & e & l2 & Hm)].
  - rewrite unlink_none, values_none by done. eexists _, _. split; [done|]. fold (set_chain h i (chain_of h k n)).
    split_and!; [eapply set_chain_wf; [done..|]; intros; by eapply chain_place|done|].
    intros k' n'. rewrite (values_edit h k n) by done. by rewrite (filter_none h k n true).
  - rewrite (unlink_first _ _ _ _ _ _ _ Hwf Hm). pose proof Hm as (Echain & Hf & Hme). eexists _, _.
    split; [rewrite decide_False; [done|]; by rewrite (values_first _ _ _ _ _ _ Hm)|]. fold (set_chain h i (l1 ++ l2)). split_and!; [|done|].
    + eapply set_chain_wf; [done..|]. intros x Hx. apply (chain_place h k n); [done..|]. rewrite Echain.
      rewrite elem_of_app, elem_of_cons. rewrite elem_of_app in Hx. tauto.
    + intros k' n'. rewrite (values_edit h k n); [|done|done|].
      * by rewrite list.filter_app, (filter_none h k n true), (values_first _ _ _ _ _ _ Hm).
      * rewrite Echain, !list.filter_app. by rewrite (filter_cons_False _ e) by (rewrite Hme; done).
Qed.

Lemma genhash_update_spec h k n v m calls : gh_wf h -> exists h' calls',
  genhash_update h k n v m calls = Some (if decide (values h k n = []) then NEW else MODIFICATION, h', calls') /\ gh_wf h' /\
  gh_ops h' = gh_ops h /\ forall k' n', values h' k' n' =
    if hasheq (gh_ops h) k n k' n' then value_copy (gh_ops h) v m :: tail (values h k n) else values h k' n'.
Proof.
  intros Hwf. unfold genhash_update. destruct (genhash_find_entry_spec h k n Hwf) as (i & Ei & Ec & ->). cbn [mbind option_bind].
  destruct (chain_cases h k n (chain_of h k n)) as [Hf|(l1 & e & l2 & Hm)].
  - rewrite find_none by done. cbn [mbind option_bind]. destruct (genhash_store_spec h k n v m calls Hwf) as (h' & calls' & -> & Hwf' & Ho & Hv).
    cbn [mbind option_bind]. exists h', calls'. rewrite values_none in Hv |- * by done. by rewrite decide_True.
  - rewrite (find_first _ _ _ _ _ _ _ Hm). cbn [mbind option_bind]. pose proof (dup_value_fst h v m (free_value h (ge_value e) calls)) as Ev.
    destruct (dup_value h v m _) as [value calls1]. cbn [fst] in Ev. subst value.
    destruct (write_value_spec h k n i l1 e l2 (value_copy (gh_ops h) v m) Hwf Ei Ec Hm) as [Hwf' Hv].
    eexists _, _. split; [rewrite decide_False; [done|]; by rewrite (values_first _ _ _ _ _ _ Hm)|]. by split_and!.
Qed.

Lemma genhash_fun_update_spec h k n upd def calls freed : gh_wf h ->
  let '(v, m) := upd k (default def (head (values h k n))) in
  exists h' calls', genhash_fun_update h k n upd def calls freed =
    Some (if decide (values h k n = []) then NEW else MODIFICATION, h', calls', v :: freed) /\ gh_wf h' /\
  gh_ops h' = gh_ops h /\ forall k' n', values h' k' n' =
    if hasheq (gh_ops h) k n k' n' then value_copy (gh_ops h) v m :: tail (values h k n) else values h k' n'.
Proof.
  intros Hwf. unfold genhash_fun_update. destruct (genhash_find_entry_spec h k n Hwf) as (i & Ei & Ec & ->). cbn [mbind option_bind].
  destruct (chain_cases h k n (chain_of h k n)) as [Hf|(l1 & e & l2 & Hm)].
  - rewrite find_none, values_none by done. cbn [mbind option_bind head default]. destruct (upd k def) as [v m].
    destruct (genhash_store_spec h k n v m calls Hwf) as (h' & calls' & -> & Hwf' & Ho & Hv).
    cbn [mbind option_bind]. exists h', calls'. rewrite values_none in Hv by done. by rewrite decide_True.
  - rewrite (find_first _ _ _ _ _ _ _ Hm). cbn [mbind option_bind]. pose proof (values_first _ _ _ _ _ _ Hm) as Eh.
    assert (default def (head (values h k n)) = ge_value e) as -> by (by rewrite Eh). destruct (upd k (ge_value e)) as [v m].
    pose proof (dup_value_fst h v m (free_value h (ge_value e) calls)) as Ev. destruct (dup_value h v m _) as [value calls1]. cbn [fst] in Ev. subst value.
    destruct (write_value_spec h k n i l1 e l2 (value_copy (gh_ops h) v m) Hwf Ei Ec Hm) as [Hwf' Hv].
    eexists _, _. split; [rewrite decide_False; [done|]; by rewrite Eh|]. by split_and!.
Qed.

Lemma delete_loop_spec k n : forall fuel h rv calls, gh_wf h -> (length (values h k n) < fuel)%nat -> exists h' calls',
  delete_loop fuel h k n rv calls = Some (rv + Z.of_nat (length (values h k n)), h', calls') /\ gh_wf h' /\ gh_ops h' = gh_ops h /\
  forall k' n', values h' k' n' = if hasheq (gh_ops h) k n k' n' then [] else values h k' n'.
Proof.
  induction fuel as [|fuel IH]; intros h rv calls Hwf Hf; [lia|]. cbn [delete_loop].
  destruct (genhash_delete_spec h k n calls Hwf) as (h1 & calls1 & -> & Hwf1 & Ho & Hv). cbn [mbind option_bind].
  pose proof (eq_refl' (OpsLaws := gw_laws h Hwf) k n) as Er. pose proof (Hv k n) as Ek. rewrite Er in Ek.
  destruct (values h k n) as [|x l] eqn:E.
  - rewrite decide_False by (by rewrite decide_True). exists h1, calls1. rewrite Z.add_0_r. split_and!; [done|done|done|]. exact Hv.
  - rewrite decide_True by (by rewrite decide_False). cbn [tail] in Ek, Hv.
    destruct (IH h1 (rv + 1) calls1 Hwf1) as (h2 & calls2 & -> & Hwf2 & Ho2 & Hv2); [rewrite Ek; cbn in Hf; lia|].
    exists h2, calls2. split_and!; [by rewrite Ek; cbn [length]; do 3 f_equal; lia|done|congruence|].
    intros k' n'. rewrite Hv2, Ho, Hv. by destruct (hasheq (gh_ops h) k n k' n').
Qed.

Lemma values_length h k n : (length (values h k n) <= length (entries h))%nat.
Proof.
  unfold values, entries. rewrite length_map. etrans; [apply length_filter|]. unfold chain_of.
  destruct (bucket_index h k n) as [i|]; [|cbn; lia]. cbn [mbind option_bind]. destruct (gh_buckets h !! i) as [c|] eqn:E; [|cbn; lia].
  cbn. apply list_elem_of_split_length in E as (l1 & l2 & -> & _). rewrite concat_app, length_app. cbn. rewrite length_app. lia.
Qed.

Lemma genhash_clear_spec h calls : gh_wf h -> exists h' calls', genhash_clear h calls = (0, h', calls') /\ gh_wf h' /\
  gh_ops h' = gh_ops h /\ forall k n, values h' k n = [].
Proof.
  intros [H1 H2 H3 H4]. eexists _, _. split; [done|].
  assert (forall i c, map (fun _ => []) (gh_buckets h) !! i = Some c -> c = ([] : list (genhash_entry_t K V))) as Hn.
  { intros i c Hc. change (map (fun _ => []) (gh_buckets h)) with ((fun _ => []) <$> gh_buckets h : list (list (genhash_entry_t K V))) in Hc.
    rewrite list_lookup_fmap in Hc. destruct (gh_buckets h !! i); [by injection Hc as <-|done]. }
  split_and!; [|done|].
  - split; cbn; [done|done|by rewrite length_map|]. intros i c e Hi He. cbn in Hi. apply Hn in Hi as ->. by apply elem_of_nil in He.
  - intros k n. unfold values, chain_of. destruct (bucket_index _ k n) as [i|]; [|done]. cbn.
    destruct (map _ _ !! i) as [c|] eqn:E; [|done]. by rewrite (Hn i c E).
Qed.

Lemma count_matching h k n chain c : foldl (fun arg p => if hasheq (gh_ops h) k n (ge_key p) (ge_nkey p)
    then count_entries (ge_key p) (ge_nkey p) (ge_value p) (ge_nvalue p) arg else arg) c chain =
  c + Z.of_nat (length (filter (fun e => matches h k n e = true) chain)).
Proof.
  revert c. induction chain as [|e chain IH]; intros c; cbn [foldl]; [cbn; lia|]. rewrite IH. fold (matches h k n e).
  destruct (matches h k n e) eqn:E.
  - rewrite filter_cons_True by done. unfold count_entries. cbn [length]. lia.
  - by rewrite filter_cons_False by (by rewrite E).
Qed.

Lemma genhash_size_for_key_spec h k n : gh_wf h -> genhash_size_for_key h k n = Some (Z.of_nat (length (values h k n))).
Proof.
  intros Hwf. unfold genhash_size_for_key, genhash_iter_key. destruct (bucket_exists h k n Hwf) as (i & -> & Ec). cbn [mbind option_bind].
  rewrite Ec. cbn [mbind option_bind]. rewrite count_matching. unfold values. by rewrite length_map.
Qed.

(** ** Sequences of operations *)

Inductive op : Type :=
  | Find (k : K) (n : Z)
  | Store (k : K) (n : Z) (v : V) (m : Z)
  | Update (k : K) (n : Z) (v : V) (m : Z)
  | FunUpdate (k : K) (n : Z) (upd : K -> V -> V * Z) (def : V)
  | Delete (k : K) (n : Z)
  | DeleteAll (k : K) (n : Z)
  | SizeForKey (k : K) (n : Z)
  | Clear.

Inductive result : Type := Done | Found (v : option V) | Count (n : Z) | Updated (u : update_type).

Definition run_op h (calls : list (call K V)) (o : op) : option (result * genhash_t K V * list (call K V)) :=
  match o with
  | Find k n => v ← genhash_find h k n; Some (Found v, h, calls)
  | Store k n v m => '(h, calls) ← genhash_store h k n v m calls; Some (Done, h, calls)
  | Update k n v m => '(u, h, calls) ← genhash_update h k n v m calls; Some (Updated u, h, calls)
  | FunUpdate k n upd def => '(u, h, calls, _) ← genhash_fun_update h k n upd def calls []; Some (Updated u, h, calls)
  | Delete k n => '(r, h, calls) ← genhash_delete h k n calls; Some (Count r, h, calls)
  | DeleteAll k n => '(r, h, calls) ← genhash_delete_all h k n calls; Some (Count r, h, calls)
  | SizeForKey k n => c ← genhash_size_for_key h k n; Some (Count c, h, calls)
  | Clear => let '(r, h, calls) := genhash_clear h calls in Some (Count r, h, calls)
  end.

Fixpoint run_ops h (calls : list (call K V)) (l : list op) : option (list result * genhash_t K V * list (call K V)) :=
  match l with
  | [] => Some ([], h, calls)
  | o :: l => '(r, h, calls) ← run_op h calls o; '(rs, h, calls) ← run_ops h calls l; Some (r :: rs, h, calls)
  end.

(** *** The map of stacks *)

Definition stacks : Type := K -> Z -> list V.

Definition put (o : hash_ops K V) k n (l : list V) (f : stacks) : stacks := fun k' n' => if hasheq o k n k' n' then l else f k' n'.

Definition spec_op (o : hash_ops K V) (f : stacks) (x : op) : result * stacks :=
  match x with
  | Find k n => (Found (head (f k n)), f)
  | Store k n v m => (Done, put o k n (value_copy o v m :: f k n) f)
  | Update k n v m => (Updated (if decide (f k n = []) then NEW else MODIFICATION), put o k n (value_copy o v m :: tail (f k n)) f)
  | FunUpdate k n upd def =>
      let '(v, m) := upd k (default def (head (f k n))) in
      (Updated (if decide (f k n = []) then NEW else MODIFICATION), put o k n (value_copy o v m :: tail (f k n)) f)
  | Delete k n => (Count (if decide (f k n = []) then 0 else 1), put o k n (tail (f k n)) f)
  | DeleteAll k n => (Count (Z.of_nat (length (f k n))), put o k n [] f)
  | SizeForKey k n => (Count (Z.of_nat (length (f k n))), f)
  | Clear => (Count 0, fun _ _ => [])
  end.

Fixpoint spec_ops (o : hash_ops K V) (f : stacks) (l : list op) : list result * stacks :=
  match l with
  | [] => ([], f)
  | x :: l => let '(r, f) := spec_op o f x in let '(rs, f) := spec_ops o f l in (r :: rs, f)
  end.

Definition represents h (f : stacks) : Prop := gh_wf h /\ forall k n, values h k n = f k n.

Lemma run_op_refines h calls f x : represents h f -> exists h' calls',
  run_op h calls x = Some ((spec_op (gh_ops h) f x).1, h', calls') /\ represents h' (spec_op (gh_ops h) f x).2 /\ gh_ops h' = gh_ops h.
Proof.
  intros [Hwf Hf]. destruct x as [k n|k n v m|k n v m|k n upd def|k n|k n|k n|]; cbn [run_op spec_op].
  - rewrite genhash_find_spec by done. rewrite Hf. by exists h, calls.
  - destruct (genhash_store_spec h k n v m calls Hwf) as (h' & calls' & -> & Hwf' & Ho & Hv). exists h', calls'. split_and!; [done| |done].
    split; [done|]. intros k' n'. by rewrite Hv, !Hf.
  - destruct (genhash_update_spec h k n v m calls Hwf) as (h' & calls' & -> & Hwf' & Ho & Hv). rewrite Hf in Hv |- *.
    exists h', calls'. split_and!; [done| |done]. split; [done|]. intros k' n'. by rewrite Hv, Hf.
  - pose proof (genhash_fun_update_spec h k n upd def calls [] Hwf) as Hs. rewrite Hf in Hs. destruct (upd k _) as [v m].
    destruct Hs as (h' & calls' & -> & Hwf' & Ho & Hv). exists h', calls'. split_and!; [done| |done]. split; [done|].
    intros k' n'. by rewrite Hv, Hf.
  - destruct (genhash_delete_spec h k n calls Hwf) as (h' & calls' & -> & Hwf' & Ho & Hv). rewrite Hf in Hv |- *.
    exists h', calls'. split_and!; [done| |done]. split; [done|]. intros k' n'. by rewrite Hv, Hf.
  - unfold genhash_delete_all. pose proof (values_length h k n).
    destruct (delete_loop_spec k n (S (length (entries h))) h 0 calls Hwf) as (h' & calls' & -> & Hwf' & Ho & Hv); [lia|].
    rewrite Hf. exists h', calls'. split_and!; [done| |done]. split; [done|]. intros k' n'. by rewrite Hv, Hf.
  - rewrite genhash_size_for_key_spec by done. rewrite Hf. by exists h, calls.
  - destruct (genhash_clear_spec h calls Hwf) as (h' & calls' & -> & Hwf' & Ho & Hv). by exists h', calls'.
Qed.

Lemma run_ops_refines l : forall h calls f, represents h f -> exists h' calls',
  run_ops h calls l = Some ((spec_ops (gh_ops h) f l).1, h', calls') /\ represents h' (spec_ops (gh_ops h) f l).2.
Proof.
  induction l as [|x l IH]; intros h calls f Hr; cbn [run_ops spec_ops]; [by exists h, calls|].
  destruct (run_op_refines h calls f x Hr) as (h1 & calls1 & -> & Hr1 & Ho). cbn [mbind option_bind].
  destruct (spec_op (gh_ops h) f x) as [r f1]. destruct (IH h1 calls1 f1 Hr1) as (h2 & calls2 & -> & Hr2). rewrite Ho in Hr2 |- *.
  destruct (spec_ops (gh_ops h) f1 l) as [rs f2]. by exists h2, calls2.
Qed.

Lemma concat_empty (n : nat) : concat (replicate n []) = ([] : list (genhash_entry_t K V)).
Proof. by induction n. Qed.

Lemma genhash_init_spec est (ops : hash_ops K V) : 0 < est < 2 ^ 31 -> OpsLaws ops ->
  is_Some (dupKey ops) \/ freeKey ops = false -> is_Some (dupValue ops) \/ freeValue ops = false ->
  exists h, genhash_init est ops = Some (Some h) /\ gh_ops h = ops /\ entries h = [] /\ represents h (fun _ _ => []).
Proof.
  intros He Hl Hk Hv. unfold genhash_init. rewrite decide_False by lia. rewrite decide_True by done.
  destruct (estimate_table_size_ok est He) as (size & -> & Hs). cbn [mbind option_bind]. eexists. split_and!; [done|done| |].
  - apply concat_empty.
  - split; [split; cbn; [done|lia|rewrite length_replicate; lia|]|].
    + intros i c e Hi He'. cbn in Hi. apply lookup_replicate in Hi as [-> _]. by apply elem_of_nil in He'.
    + intros k n. unfold values, chain_of. destruct (bucket_index _ k n) as [i|]; [|done]. cbn.
      destruct (replicate _ _ !! i) as [c|] eqn:E; [|done]. by apply lookup_replicate in E as [-> _].
Qed.


(** ** Copies *)

Definition dup_keys (calls : list (call K V)) : list K := omap (fun c => match c with DupKey k => Some k | _ => None end) calls.
Definition freed_keys (calls : list (call K V)) : list K := omap (fun c => match c with FreeKey k => Some k | _ => None end) calls.
Definition dup_values (calls : list (call K V)) : list V := omap (fun c => match c with DupValue v => Some v | _ => None end) calls.
Definition freed_values (calls : list (call K V)) : list V := omap (fun c => match c with FreeValue v => Some v | _ => None end) calls.

(** The table copies and frees both keys and values. *)
Definition owning (o : hash_ops K V) : Prop :=
  is_Some (dupKey o) /\ is_Some (dupValue o) /\ freeKey o = true /\ freeValue o = true.

(** What was copied was freed or is in the table. *)
Definition balanced (l : list (genhash_entry_t K V)) (calls : list (call K V)) : Prop :=
  dup_keys calls ≡ₚ freed_keys calls ++ map ge_key l /\ dup_values calls ≡ₚ freed_values calls ++ map ge_value l.

#[global] Instance balanced_proper : Proper ((≡ₚ) ==> (=) ==> iff) balanced.
Proof. intros l l' Hl c ? <-. unfold balanced. by rewrite Hl. Qed.

(** The entries of a table, one chain set apart. *)
Lemma entries_chain h i chain : gh_buckets h !! i = Some chain -> exists rest, entries h ≡ₚ chain ++ rest /\
  forall chain', entries (set_chain h i chain') ≡ₚ chain' ++ rest.
Proof.
  intros Hi. apply list_elem_of_split_length in Hi as (l1 & l2 & E & ->). exists (concat l1 ++ concat l2). unfold entries, set_chain. cbn.
  rewrite E. split; [|intros chain'; rewrite insert_app_r_alt, Nat.sub_diag by lia; cbn]; rewrite concat_app; cbn; by rewrite Permutation_app_swap_app.
Qed.

Lemma balanced_store l calls e : balanced l calls -> balanced (e :: l) (DupValue (ge_value e) :: DupKey (ge_key e) :: calls).
Proof. intros [Hk Hv]. split; cbn; [rewrite Hk|rewrite Hv]; apply Permutation_middle. Qed.

Lemma balanced_free l calls e : balanced (e :: l) calls -> balanced l (FreeValue (ge_value e) :: FreeKey (ge_key e) :: calls).
Proof. intros [Hk Hv]. split; cbn in *; [rewrite Hk|rewrite Hv]; symmetry; apply Permutation_middle. Qed.

Lemma balanced_write l calls e v : balanced (e :: l) calls -> balanced (set_value v e :: l) (DupValue v :: FreeValue (ge_value e) :: calls).
Proof.
  intros [Hk Hv]. split; cbn in *; [done|]. rewrite Hv. rewrite <- (Permutation_middle (freed_values calls) _ (ge_value e)).
  rewrite <- (Permutation_middle (freed_values calls) _ v). apply perm_swap.
Qed.

Lemma store_calls h k n v m calls h' calls' : owning (gh_ops h) -> genhash_store h k n v m calls = Some (h', calls') ->
  balanced (entries h) calls -> balanced (entries h') calls' /\ gh_ops h' = gh_ops h.
Proof.
  intros ([dk Ek] & [dv Ev] & _) H Hb. unfold genhash_store in H. destruct (bucket_index h k n) as [i|]; [|done]. cbn [mbind option_bind] in H.
  destruct (gh_buckets h !! i) as [chain|] eqn:Ec; [|done]. cbn [mbind option_bind] in H. unfold dup_key, dup_value in H. rewrite Ek, Ev in H.
  injection H as <- <-. destruct (entries_chain h i chain Ec) as (rest & He & He'). rewrite He in Hb. split; [|done].
  fold (set_chain h i ({| ge_key := dk k n; ge_nkey := n; ge_value := dv v m; ge_nvalue := m |} :: chain)). rewrite He'. cbn [app].
  by apply (balanced_store _ _ {| ge_key := dk k n; ge_nkey := n; ge_value := dv v m; ge_nvalue := m |}).
Qed.

Lemma find_in_chain_lookup (o : hash_ops K V) k n chain i e : find_in_chain o k n chain = Some (i, e) -> chain !! i = Some e.
Proof.
  revert i. induction chain as [|x chain IH]; intros i H; cbn [find_in_chain] in H; [done|]. destruct (hasheq o k n _ _); [by injection H as <- <-|].
  apply bind_Some in H as ([j y] & E & [= <- <-]). cbn. by apply IH.
Qed.

Lemma write_value_calls h k n i j e v calls : genhash_find_entry h k n = Some (Some (i, j, e)) -> balanced (entries h) calls ->
  balanced (entries (write_value h i j v)) (DupValue v :: FreeValue (ge_value e) :: calls).
Proof.
  intros H Hb. unfold genhash_find_entry in H. destruct (bucket_index h k n) as [i'|]; [|done]. cbn [mbind option_bind] in H.
  destruct (gh_buckets h !! i') as [chain|] eqn:Ec; [|done]. cbn [mbind option_bind] in H. injection H as H.
  apply bind_Some in H as ([j' e'] & E & [= -> -> ->]). apply find_in_chain_lookup in E.
  apply list_elem_of_split_length in E as (l1 & l2 & -> & ->).
  rewrite (write_value_chain h i l1 e l2 v Ec).
  destruct (entries_chain h i _ Ec) as (rest & He & He'). rewrite He', <- app_assoc, <- app_comm_cons, <- Permutation_middle.
  apply balanced_write. by rewrite He, <- app_assoc, <- app_comm_cons, <- Permutation_middle in Hb.
Qed.

Lemma unlink_calls (o : hash_ops K V) k n chain d chain' : unlink o k n chain = (d, chain') ->
  chain ≡ₚ match d with Some e => e :: chain' | None => chain' end.
Proof.
  assert (unlink o k n chain = unlink_next o k n chain) as -> by (by destruct chain). revert chain'.
  induction chain as [|x chain IH]; intros chain' H; cbn [unlink_next] in H; [by injection H as <- <-|].
  destruct (hasheq o _ _ k n); [by injection H as <- <-|]. destruct (unlink_next o k n chain) as [d' c']. injection H as -> <-.
  rewrite (IH c') by done. destruct d; [apply perm_swap|done].
Qed.

Lemma delete_calls h k n calls r h' calls' : owning (gh_ops h) -> genhash_delete h k n calls = Some (r, h', calls') ->
  balanced (entries h) calls -> balanced (entries h') calls' /\ gh_ops h' = gh_ops h.
Proof.
  intros (_ & _ & Fk & Fv) H Hb. unfold genhash_delete in H. destruct (bucket_index h k n) as [i|]; [|done]. cbn [mbind option_bind] in H.
  destruct (gh_buckets h !! i) as [chain|] eqn:Ec; [|done]. cbn [mbind option_bind] in H.
  destruct (unlink (gh_ops h) k n chain) as [d chain'] eqn:Eu. apply unlink_calls in Eu. fold (set_chain h i chain') in H.
  destruct (entries_chain h i chain Ec) as (rest & He & He'). rewrite He in Hb. destruct d as [e|]; injection H as <- <- <-; (split; [|done]); rewrite He'.
  - unfold free_item, free_value, free_key. cbn. rewrite Fk, Fv. apply balanced_free. by rewrite Eu in Hb.
  - by rewrite Eu in Hb.
Qed.

Lemma delete_loop_calls k n : forall fuel h rv calls r h' calls', owning (gh_ops h) ->
  delete_loop fuel h k n rv calls = Some (r, h', calls') -> balanced (entries h) calls -> balanced (entries h') calls' /\ gh_ops h' = gh_ops h.
Proof.
  induction fuel as [|fuel IH]; intros h rv calls r h' calls' Ho H Hb; cbn [delete_loop] in H; [done|].
  destruct (genhash_delete h k n calls) as [[[r1 h1] calls1]|] eqn:E; [|done]. cbn [mbind option_bind] in H.
  apply delete_calls in E as [Hb1 Eo]; [|done|done]. case_decide; [|by injection H as <- <- <-].
  apply IH in H as [Hb2 Eo2]; [split; [done|congruence]|by rewrite Eo|done].
Qed.

Lemma clear_calls h calls : owning (gh_ops h) -> balanced (entries h) calls -> balanced [] (genhash_clear h calls).2.
Proof.
  intros (_ & _ & Fk & Fv). unfold entries. cbn [genhash_clear snd].
  assert (forall chain rest calls, balanced (chain ++ rest) calls -> balanced rest (clear_chain h chain calls)) as Hc.
  { induction chain as [|e chain IH]; intros rest c Hb; cbn [clear_chain]; [done|]. apply IH. unfold free_item, free_value, free_key.
    rewrite Fk, Fv. by apply balanced_free. }
  revert calls. induction (gh_buckets h) as [|chain b IH]; intros calls Hb; cbn [foldl]; [done|]. apply IH, Hc. exact Hb.
Qed.

Lemma update_calls h k n v m calls u h' calls' : owning (gh_ops h) -> genhash_update h k n v m calls = Some (u, h', calls') ->
  balanced (entries h) calls -> balanced (entries h') calls' /\ gh_ops h' = gh_ops h.
Proof.
  intros Ho H Hb. unfold genhash_update in H. destruct (genhash_find_entry h k n) as [[[[i j] e]|]|] eqn:Ef; [| |done]; cbn [mbind option_bind] in H.
  - destruct Ho as (_ & [dv Ev] & _ & Fv). unfold dup_value, free_value in H. rewrite Ev, Fv in H. injection H as <- <- <-.
    split; [|done]. by eapply write_value_calls.
  - apply bind_Some in H as ([h1 c1] & Es & [= <- <- <-]). by eapply store_calls.
Qed.

Lemma fun_update_calls h k n upd def calls freed u h' calls' freed' : owning (gh_ops h) ->
  genhash_fun_update h k n upd def calls freed = Some (u, h', calls', freed') ->
  balanced (entries h) calls -> balanced (entries h') calls' /\ gh_ops h' = gh_ops h.
Proof.
  intros Ho H Hb. unfold genhash_fun_update in H. destruct (genhash_find_entry h k n) as [[[[i j] e]|]|] eqn:Ef; [| |done]; cbn [mbind option_bind] in H.
  - destruct (upd k (ge_value e)) as [v m]. destruct Ho as (_ & [dv Ev] & _ & Fv). unfold dup_value, free_value in H. rewrite Ev, Fv in H.
    injection H as <- <- <- <-. split; [|done]. by eapply write_value_calls.
  - destruct (upd k def) as [v m]. apply bind_Some in H as ([h1 c1] & Es & [= <- <- <- <-]). by eapply store_calls.
Qed.

Lemma run_op_calls h calls x r h' calls' : owning (gh_ops h) -> run_op h calls x = Some (r, h', calls') ->
  balanced (entries h) calls -> balanced (entries h') calls' /\ gh_ops h' = gh_ops h.
Proof.
  intros Ho H Hb. destruct x as [k n|k n v m|k n v m|k n upd def|k n|k n|k n|]; cbn [run_op] in H.
  - apply bind_Some in H as (v & _ & [= <- <- <-]). done.
  - apply bind_Some in H as ([h1 c1] & E & [= <- <- <-]). by eapply store_calls.
  - apply bind_Some in H as ([[u h1] c1] & E & [= <- <- <-]). by eapply update_calls.
  - apply bind_Some in H as ([[[u h1] c1] fr] & E & [= <- <- <-]). by eapply fun_update_calls.
  - apply bind_Some in H as ([[u h1] c1] & E & [= <- <- <-]). by eapply delete_calls.
  - apply bind_Some in H as ([[u h1] c1] & E & [= <- <- <-]). by eapply delete_loop_calls.
  - apply bind_Some in H as (v & _ & [= <- <- <-]). done.
  - injection H as <- <- <-. split; [|done]. replace (entries _) with ([] : list (genhash_entry_t K V)); [by apply clear_calls|].
    unfold entries. cbn. by induction (gh_buckets h).
Qed.

Lemma run_ops_calls l : forall h calls rs h' calls', owning (gh_ops h) -> run_ops h calls l = Some (rs, h', calls') ->
  balanced (entries h) calls -> balanced (entries h') calls' /\ gh_ops h' = gh_ops h.
Proof.
  induction l as [|x l IH]; intros h calls rs h' calls' Ho H Hb; cbn [run_ops] in H; [by injection H as <- <- <-|].
  apply bind_Some in H as ([[r h1] c1] & E & H). apply bind_Some in H as ([[rs1 h2] c2] & E2 & [= <- <- <-]).
  apply run_op_calls in E as [Hb1 Ho1]; [|done|done]. apply IH in E2 as [Hb2 Ho2]; [split; [done|congruence]|by rewrite Ho1|done].
Qed.

(** C24: every copy is released exactly once.  From a new table that copies and frees keys
    and values, whatever operations are run before genhash_free, the keys and the values
    that were freed are those that were copied, each as often as it was; until then those
    that were copied and not freed are the ones in the table. *)
Theorem copies_freed_once est (ops : hash_ops K V) l h rs h' calls : genhash_init est ops = Some (Some h) -> owning ops ->
  run_ops h [] l = Some (rs, h', calls) -> balanced (entries h') calls /\
  let final := genhash_free (Some h') calls in
  dup_keys final ≡ₚ freed_keys final /\ dup_values final ≡ₚ freed_values final.
Proof.
  intros Hi Ho Hr. assert (gh_ops h = ops /\ entries h = []) as [Eo Ee].
  { unfold genhash_init in Hi. case_decide; [done|]. case_decide; [|done]. apply bind_Some in Hi as (size & _ & [= <-]). split; [done|].
    apply concat_empty. }
  assert (balanced (entries h) []) as Hb by (rewrite Ee; by split).
  destruct (run_ops_calls l h [] rs h' calls) as [Hb' Ho']; [by rewrite Eo|done|done|]. split; [done|].
  assert (balanced [] (genhash_free (Some h') calls)) as [Hk Hv] by (apply clear_calls; [by rewrite Ho', Eo|done]).
  cbn [map] in Hk, Hv. by rewrite !app_nil_r in *.
Qed.

(** ** Counting *)

Lemma iter_entries {A} h (f : K -> Z -> V -> Z -> A -> A) a : genhash_iter h f a = iterate f a (entries h).
Proof.
  unfold genhash_iter, entries, iterate. revert a. induction (gh_buckets h) as [|c b IH]; intros a; cbn [foldl concat]; [done|].
  rewrite foldl_app. apply IH.
Qed.

Lemma count_all (l : list (genhash_entry_t K V)) c : iterate count_entries c l = c + Z.of_nat (length l).
Proof. revert c. induction l as [|e l IH]; intros c; cbn; [lia|]. unfold iterate in IH. rewrite IH. unfold count_entries. lia. Qed.

(** The entries of a key are all in its chain. *)
Lemma matching_entries h k n : gh_wf h ->
  filter (fun e => matches h k n e = true) (entries h) = filter (fun e => matches h k n e = true) (chain_of h k n).
Proof.
  intros Hwf. destruct (bucket_exists h k n Hwf) as (i & Ei & Ec). pose proof (gw_place h Hwf) as Hp.
  assert (forall j c, gh_buckets h !! j = Some c -> j <> i -> Forall (fun e => matches h k n e = false) c) as Hn.
  { intros j c Hj Hne. apply list.Forall_forall. intros e He. destruct (matches h k n e) eqn:E; [|done].
    apply (index_eq h _ _ _ _ Hwf) in E. rewrite (Hp j c e Hj He), Ei in E. congruence. }
  unfold entries. apply list_elem_of_split_length in Ec as (l1 & l2 & E & ->). rewrite E in *. rewrite concat_app. cbn [concat].
  rewrite !list.filter_app. rewrite !(filter_none h k n true (concat _)); [by rewrite app_nil_r| |]; apply list.Forall_forall;
    intros e He; apply list_elem_of_In, in_concat in He as (c & Hc & He); apply list_elem_of_In in Hc, He;
    apply list_elem_of_lookup in Hc as [j Hj]; pose proof (lookup_lt_Some _ _ _ Hj).
  - assert (Forall (fun e => matches h k n e = false) c) as Hf; [|by rewrite list.Forall_forall in Hf; apply Hf].
    apply (Hn (length l1 + S j)%nat); [|lia]. by rewrite lookup_app_r, Nat.add_comm, Nat.add_sub by lia.
  - assert (Forall (fun e => matches h k n e = false) c) as Hf; [|by rewrite list.Forall_forall in Hf; apply Hf].
    apply (Hn j); [|lia]. by rewrite lookup_app_l by lia.
Qed.

(** The counts are right.  The size of a table is the number of its entries, and the
    size for a key, which looks at one chain only, is the number of entries of the whole
    table that have an equal key. *)
Theorem genhash_counts h k n : gh_wf h -> genhash_size h = Z.of_nat (length (entries h)) /\
  genhash_size_for_key h k n = Some (Z.of_nat (length (filter (fun e => matches h k n e = true) (entries h)))).
Proof.
  intros Hwf. unfold genhash_size. rewrite iter_entries, count_all, matching_entries, genhash_size_for_key_spec by done.
  split; [lia|]. unfold values. by rewrite length_map.
Qed.

(** ** A stale length *)

(** The lengths an iteration over a key is told. *)
Definition told_lengths h k n : option (list Z) := genhash_iter_key h k n (fun _ _ _ len acc => acc ++ [len]) [].

Lemma collect_lengths h k n chain acc : foldl (fun arg p => if hasheq (gh_ops h) k n (ge_key p) (ge_nkey p)
    then arg ++ [ge_nvalue p] else arg) acc chain = acc ++ map ge_nvalue (filter (fun e => matches h k n e = true) chain).
Proof.
  revert acc. induction chain as [|e c IH]; intros acc; cbn [foldl]; [by rewrite app_nil_r|]. rewrite IH. fold (matches h k n e).
  destruct (matches h k n e) eqn:E; [rewrite filter_cons_True by done; cbn; by rewrite <- app_assoc|].
  by rewrite filter_cons_False by (by rewrite E).
Qed.

Lemma told_lengths_spec h k n : gh_wf h ->
  told_lengths h k n = Some (map ge_nvalue (filter (fun e => matches h k n e = true) (chain_of h k n))).
Proof.
  intros Hwf. unfold told_lengths, genhash_iter_key. destruct (bucket_exists h k n Hwf) as (i & -> & Ec). cbn [mbind option_bind].
  rewrite Ec. cbn [mbind option_bind]. by rewrite collect_lengths.
Qed.

(** An update of a key leaves the length of its value as it was.  Whatever length the
    new value has, an iteration over the table is told the one of the value that was
    there before. *)
Theorem update_keeps_length h k n v m calls : gh_wf h -> values h k n <> [] -> exists h' calls',
  genhash_update h k n v m calls = Some (MODIFICATION, h', calls') /\ genhash_find h' k n = Some (Some (value_copy (gh_ops h) v m)) /\
  told_lengths h' k n = told_lengths h k n.
Proof.
  intros Hwf Hne. destruct (genhash_update_spec h k n v m calls Hwf) as (h' & calls' & Eu & Hwf' & Ho & Hv). rewrite decide_False in Eu by done.
  exists h', calls'. split; [done|]. split.
  { rewrite genhash_find_spec, Hv by done. by rewrite (eq_refl' (OpsLaws := gw_laws h Hwf)). }
  rewrite !told_lengths_spec by done. f_equal. unfold genhash_update in Eu.
  destruct (genhash_find_entry_spec h k n Hwf) as (i & Ei & Ec & Ef). rewrite Ef in Eu. cbn [mbind option_bind] in Eu.
  destruct (chain_cases h k n (chain_of h k n)) as [Hf|(l1 & e & l2 & Hm)]; [by rewrite values_none in Hne|].
  rewrite (find_first _ _ _ _ _ _ _ Hm) in Eu. cbn [mbind option_bind] in Eu. destruct (dup_value h v m _) as [value c1]. injection Eu as <- <-.
  destruct Hm as (Echain & _ & Hme). rewrite (write_value_chain h i l1 e l2 value) by (by rewrite <- Echain).
  assert (chain_of (set_chain h i (l1 ++ set_value value e :: l2)) k n = l1 ++ set_value value e :: l2) as ->.
  { unfold chain_of. change (bucket_index (set_chain _ _ _)) with (bucket_index h). rewrite Ei. cbn.
    by rewrite list_lookup_insert_eq by (by eapply lookup_lt_Some). }
  change (matches (set_chain _ _ _) k n) with (matches h k n). rewrite Echain, !list.filter_app, !filter_cons_True by done. by rewrite !map_app.
Qed.
End Laws.

(** ** Examples *)

(** Two keys of the bucket engine, one stored twice, updated and deleted. *)
Definition sample_ops : list (op (K := bytes) (V := Z)) :=
  let a := [Byte.x61] in let b := [Byte.x62] in
  [Store a 1 10 0; Store a 1 11 0; Store b 1 20 0; Find a 1; Update a 1 12 0; SizeForKey a 1; Delete a 1; Find a 1; DeleteAll b 1;
   FunUpdate b 1 (fun _ v => (v + 1, 0)) 5; Find b 1].


Definition sample_new : genhash_t bytes Z := {| gh_size := 3; gh_ops := my_hash_ops Z; gh_buckets := [[]; []; []] |}.

Lemma copies_freed_once_witness : genhash_init 1 (my_hash_ops Z) = Some (Some sample_new) /\ exists rs h' calls,
  run_ops sample_new [] sample_ops = Some (rs, h', calls) /\ length (dup_values calls) = 5%nat /\
  dup_values (genhash_free (Some h') calls) ≡ₚ freed_values (genhash_free (Some h') calls).
Proof.
  split; [reflexivity|].
  assert (match run_ops sample_new [] sample_ops with Some (_, _, calls) => length (dup_values calls) = 5%nat | None => False end) as Hl
    by (by vm_compute).
  destruct (run_ops sample_new [] sample_ops) as [[[rs h'] calls]|] eqn:Er; [|contradiction].
  exists rs, h', calls.
  split; [reflexivity|].
  split; [exact Hl|].
  apply (copies_freed_once 1 (my_hash_ops Z) sample_ops sample_new rs h' calls); [reflexivity|split_and!; by eexists|exact Er].
Defined.

(** One key, with a value of length 3. *)
Definition sample_table : genhash_t bytes Z :=
  {| gh_size := 3; gh_ops := my_hash_ops Z;
     gh_buckets := [[]; [{| ge_key := [Byte.x61]; ge_nkey := 1; ge_value := 10; ge_nvalue := 3 |}]; []] |}.

Lemma sample_table_wf : gh_wf sample_table.
Proof.
  destruct (genhash_init_spec 1 (my_hash_ops Z)) as (h & Ei & _ & _ & Hr & _); [lia|apply _|by left|by left|].
  assert (genhash_init 1 (my_hash_ops Z) = Some (Some sample_new)) as En by reflexivity. rewrite En in Ei. injection Ei as <-.
  destruct (genhash_store_spec sample_new [Byte.x61] 1 10 3 [] Hr) as (h' & c & E & Hwf & _).
  assert (genhash_store sample_new [Byte.x61] 1 10 3 [] = Some (sample_table, [DupValue 10; DupKey [Byte.x61]])) as Es by reflexivity.
  rewrite Es in E. injection E as <- _. exact Hwf.
Qed.

Lemma genhash_counts_witness : genhash_size sample_table = 1 /\ genhash_size_for_key sample_table [Byte.x62] 1 = Some 0.
Proof. destruct (genhash_counts sample_table [Byte.x62] 1 sample_table_wf) as [-> ->]. split; reflexivity. Defined.

Lemma update_keeps_length_witness : exists h' calls',
  genhash_update sample_table [Byte.x61] 1 20 8 [] = Some (MODIFICATION, h', calls') /\ told_lengths h' [Byte.x61] 1 = Some [3].
Proof.
  destruct (update_keeps_length sample_table [Byte.x61] 1 20 8 [] sample_table_wf) as (h' & c & Eu & _ & El); [discriminate|].
  exists h', c. split; [exact Eu|]. rewrite El. reflexivity.
Defined.
